(* ===== verification/_CoqProject ===== *)
-Q . S2P
Prelude.v
RustStr.v
Types.v
RustPath.v
Utf8.v
Llm.v
F32.v
Schedule.v
Db.v
DbSchema.v
Queue.v
QueueSteps.v
Store.v
ArtifactCodec.v
StoreProps.v
Rows.v
Worker.v
WorkerProps.v
WorkerLoop.v
WorkerLoopProps.v
Readiness.v
Merge.v
MergeProps.v
Embed.v
Summarize.v
SummarizeProps.v
Identity.v
IdentityProps.v
Wav.v
Speech.v
Score.v
Stages.v
StagesProps.v
Http.v
Api.v
ApiProps.v
Search.v
SearchProps.v
Ask.v
Cluster.v
ClusterProps.v
Models.v
Split.v
SplitProps.v
Diarize.v
DiarizeProps.v
Asr.v
AsrProps.v
Config.v
F32Exact.v
TextEmbed.v
Engine.v
Pipeline.v
PipelineProps.v
Update.v
UpdateProps.v
SigningProps.v
Admin.v
UpdateToy.v
Mcp.v
McpProps.v
Discovery.v
Router.v
Serve.v
Console.v
Pull.v
PullProps.v
PullToy.v
Doctor.v
UpdateCli.v
Cli.v
CliProps.v
CliToy.v
