(* ===== verification/Prelude.v ===== *)
(** * Scribe: a verification library for the self-hosted meeting recorder

    Scribe takes audio segments from a phone, and a worker turns a finished
    recording into a diarized transcript, retrieval chunks and a summary.  The
    crates under [src/crates/] share one Postgres database: the API writes
    recordings and segments and enqueues jobs; workers claim jobs from the
    [jobs] table, run the stage of each, and enqueue its successors.  This
    library translates those crates into functions and proves what they promise.

    ** The parts

    - [Prelude] (this file): results, the state-and-error monad [M S E] the
      asynchronous functions become, the classes [Preserves] and [Steps] that
      carry an invariant or a relation through a whole operation by instance
      resolution, stable sorting, list lemmas, machine-width bounds.
    - [RustStr]: [str] as UTF-8 bytes; [trim], [chars], [lines], [split_once],
      [parse], decimal printing, as [std] defines them.
    - [RustPath], [Utf8]: [std::path] on strings; checked and lossy UTF-8.
    - [Types]: [scribe-core]: [types.rs] (enums with their text codecs, the
      stage DAG [JobKind.predecessors]/[successors]), [error.rs], [storage.rs],
      [summary_template.rs].
    - [Schedule]: [scribe-core/src/schedule.rs], the weekly processing windows.
    - [Db], [DbSchema]: the tables of [migrations/*.sql] as a record of rows,
      the statements operations are made of, and the schema's constraints as the
      invariant [schema_ok].
    - [Queue], [QueueSteps]: [scribe-db/src/queue.rs], and the queue as a
      transition system of workers, the API, the reaper and the clock.
    - [Store], [StoreProps]: [recordings.rs], [segments.rs], [settings.rs],
      [summaries.rs], [transcript.rs], [speakers.rs], [recording_speakers.rs],
      [chunks.rs], and [scribe-pipeline/src/artifacts.rs].
    - [ArtifactCodec]: a serializer of the scratch artifacts that keeps the laws
      [artifacts.CodecLaws] asks of serde's, for the witnesses.
    - [Rows]: [row.rs], [error.rs], [lib.rs]: what a statement's column list
      returns and how it is read, and the guard of destructive tests.
    - [Worker], [WorkerProps]: [scribe-pipeline/src/worker.rs] and [gate.rs],
      an operation at a time.
    - [WorkerLoop], [WorkerLoopProps]: [run_worker] as a process: the claiming
      loop with its permits, the tasks it spawns, their heartbeats and the
      reaper, a statement at a time, beside other processes ([wstep]).
      [Readiness]: when a recording becomes ready.
    - [Llm]: [scribe-llm]: the [Embedder] trait and its contract, the chat
      client over a transport.
    - [F32], [F32Exact]: binary32 arithmetic, its partial order, equality of
      values, and the sums that are not rounded.
    - [Merge], [MergeProps]: [stages/merge.rs] and [fillers.rs].
    - [Embed]: [stages/embed.rs].
    - [Summarize], [SummarizeProps]: [stages/summarize.rs] and [title.rs].
    - [Identity], [IdentityProps]: [resolve_identities] of [stages/diarize.rs].
    - [Wav], [Speech]: [scribe-asr]: [wav.rs], the engine traits, [stub.rs].
    - [Score]: the examples that measure, [transcript_check.rs],
      [diarize_check.rs] and [enroll_check.rs], and [denoise.rs].
    - [Stages], [StagesProps]: [stages/transcode.rs], [diarize.rs],
      [transcribe.rs], [transcribe_segment.rs], over a database and files.
    - [Http]: [scribe-api]: [range.rs], [auth.rs], the key table of [state.rs].
    - [Api], [ApiProps]: [handlers/recordings.rs], [segments.rs], [schedule.rs],
      [speakers.rs]: the database and the audio on disk as one [World].
    - [Search], [SearchProps]: [scribe-db/src/search.rs], the statements as the
      relations they describe.
    - [Ask]: [handlers/search.rs]: search, and questions answered from excerpts.
    - [Cluster], [ClusterProps]: [cluster_fragments] of
      [scribe-asr/src/real/diarize.rs] and all it calls.
    - [Split], [SplitProps]: the rest of that file that cuts audio and averages
      embeddings; [Diarize], [DiarizeProps]: its [SherpaDiarizer].
    - [Asr], [AsrProps]: [scribe-asr/src/real/asr.rs], the [SherpaTranscriber].
    - [Models]: [scribe-asr/src/models.rs]; [Engine]: [engine.rs] and
      [real/embed.rs], which engine is loaded.
    - [Config]: [scribe-core/src/config.rs].
    - [TextEmbed]: [scribe-llm/src/embed.rs], the text embedders, and the slot of
      [scribe-pipeline/src/engines.rs] that builds one when it is wanted.
    - [Pipeline], [PipelineProps]: [scribe-pipeline/src/lib.rs], the driver
      without a queue, ingest, enroll and reindex, on the engines [Engine] and
      [TextEmbed] load.
    - [Update], [UpdateProps], [SigningProps]: [scribe-update], the self-update
      protocol: packages, signatures, the swap of the running binary and its
      undoing.  [Admin]: [handlers/admin.rs], [audio.rs], [health.rs] and
      [error.rs].  [UpdateToy]: a concrete host on which both are run.
    - [Mcp], [McpProps]: [scribe-api/src/mcp.rs], the MCP endpoint.
    - [Router], [Serve], [Discovery]: [scribe-api/src/lib.rs], [state.rs] and
      [discovery.rs]: the route table with its layers, what is there before a
      socket is bound, and the record announced over mDNS.
    - [Console], [Pull], [PullProps], [Doctor], [UpdateCli], [Cli], [CliProps]:
      [scribe-cli]: what a command prints, [models.rs], [doctor.rs],
      [update.rs], and the dispatch and exit of [main.rs].  [PullToy] and
      [CliToy]: concrete directories, servers and machines they are run on.

    A definition has the name of the Rust item it translates; where a long
    function is cut into pieces, each piece's comment names the function.  A
    field of a struct is the Coq field with the struct's initials in front.

    ** How the code is read

    An [async fn] on the database is a function [Db -> result Error A * Db]: each
    SQL statement is atomic, an error keeps the effects of the statements before
    it unless a transaction surrounds them ([transaction]).  Statements of
    different tasks interleave: theorems on concurrency are about sequences of
    steps in which each step is one operation or one statement
    ([QueueSteps.trace], [WorkerProps.pstep], [WorkerLoop.wstep]).  [now()] is [db_now], which only
    the environment advances.  A statement fails where the schema says it does,
    where a value is not one its column takes ([opt_vector_ok], [halfvec_ok], and
    a NUL in the text of a line or an artifact, [utterance_ok] and [json_ok]),
    and on input it refuses.  That a statement may fail at any time because the
    connection does is modelled in the worker process, for every statement after
    a job's stage, its heartbeats, the reaper and the claim
    ([WorkerLoop.w_statement_fails] and the steps after it), and in the upload,
    for the two statements after the file is in place ([Api.segments.Amid]).
    Elsewhere (the statements inside a stage, the other handlers, the commands)
    the connection is taken to hold: a theorem there that an operation succeeds,
    or leaves this or that, is about its statements going through.  A panic is a value ([Summarize.title.recent_text]).
    Times in milliseconds are [Z] ([i64], far from its bounds); bytes are bounded
    where widths matter ([Wav], [Speech], [parse_u64]).  [f32] is IEEE binary32
    with NaN, infinities and two zeros, not reals.

    Code that is not in the repository is a parameter: class [UuidFmt] (printing
    a uuid), [UnicodeCase] and [CharAlnum] (Unicode tables), [SerdeJson],
    [JsonText], [CorrectionReader] (serde's readers and printers), [PgVector]
    (pgvector's distance), [Calendar] (what is used of chrono), [Transport] (an
    HTTP call), [System] (file calls and [ffmpeg]), [BlobFs] (the calls an upload
    makes), [Sha256], [LocalTimeFmt], [FullText], [HalfVec] and [Numeric]
    (what Postgres and pgvector rank by), [EnvVar], [EnvF32] and [EnvF64]
    (environment variables, and those read as [f32] or [f64]), [Powf] ([f32::powf]), [Paths] and
    [FileTree] (the file system the models are found in), [Sherpa], [Extractor],
    [Process], [Recognizer], [CreateRecognizer] and [ExtractorDim] (sherpa-onnx),
    [FragmentFiles] (a cache file), [Figment] (TOML and environment), [HostOs]
    (file calls of the updater, the programs it runs), [Ed25519], [HexCodec],
    [ManifestJson], [Archive] (signatures, tar and their formats), [JsonIo],
    [Deserialize] and [Times] (JSON text, serde's readers, RFC 3339),
    [SqlxText] (sqlx's error texts), [FastEmbed] and [StrHash] (fastembed and the
    standard library's hasher), [CopyFile] and [TaskPanic] (tokio), [Axum]
    (matching a path), [DbServer], [KeyFile] and [Sockets] (connecting, the key
    file, listening), [Mdns] and [HostnameFile] (the announcing daemon), [Tree],
    [ModelServer] and [Machine] (a directory listing, downloads, other programs),
    [Roles] (what a command starts that serves, works or reads audio).  The
    program's own traits are interfaces: [Embedder] with [EmbedderLaws],
    [SpeechEngine] with [DiarizerLaws] and [TranscriberLaws] (which the stub
    discharges), and [LanguageModel], of which nothing is assumed: whatever the
    model answers, the theorems hold.

    ** What is proved

    - The queue: in every reachable state the schema holds and a recording has
      one live job of a kind; between two claims of a job a step put it back on
      the queue, a failure, a deferral, or the reaper when the lease had lapsed;
      failures and lapsed leases are counted, and runs bounded by them, when
      workers settle only jobs they still hold; each operation's exact effect (claim order, backoff,
      reaping only lapsed leases, heartbeats only on owned ones, idempotent
      enqueueing).  What it does not promise is shown too: a stale worker can
      put a parked job back, and a failure recorded from a stale reading of the
      attempts overwrites the one the reaper charged ([fail] is two statements,
      [select_attempts] and [record_failure]).
    - The schedule: [decide] answers whether a weekly window or an override
      covers the instant, and for how long that stays so; normalization makes
      any stored document evaluable.
    - The worker: whichever order the stages of a recording finish in, on any
      number of workers, no stage is forgotten; the grace period; what becomes
      of a job in each case, in its row, the successors and the recording's
      status; that a crash between two statements does strand one.
    - The worker process, in which any statement of a task, the claim and the
      reaper's may fail and the process may stop at any time: no more jobs in
      hand than configured and never a permit lost; every job running in its
      name is in a task's hands, or was a task's that panicked or was cut off,
      and the reaper takes such a job when its lease has lapsed; no stage whose
      predecessors are done is forgotten but by a task that was cut off
      ([WorkerLoopProps.cut_off_forgets] is such a run); a recording whose last
      stages it completed is marked ready by one of them, with the same
      exception.  A task whose statements go through does what [process_job]
      does.
    - The entry points: a recording all of whose stages ran has the lines of
      the words the recognizer heard (fillers out, when configured), their
      chunks with the vectors of the configured embedder, and a summary; a file ingested is queued once; reindexing makes each
      wanted job and no other, and asking again makes none; a voice gets one
      entry for a name.
    - The store: what a row of a table holds is what the mappers read;
      the schema is kept by every operation; the resets, the cascade
      and re-uploads change exactly what they should.
    - The stages: merging loses no word but the configured fillers and
      attributes each to the speaker with most overlap, a model can only reword,
      and a line the database refuses costs the old ones, as does a vector it
      refuses the old chunks; chunks cover what was said, and the
      windows equal their closed form; prompts fit the budget; recognised
      people are matched one to one, best first, independently of row order;
      diarization leaves exactly its speakers; live transcription appends.
    - Serving: the bytes a range asks for and nothing else; who is let in; an
      upload is stored whole or not at all and comes back as it went in, but when
      the row cannot be written the new audio is in place already; what
      each handler does to the database, errors included.
    - Search: the filter is the conjunction of its conditions whatever their
      number; hybrid search answers the best chunks of the fused ranking; a
      prompt shows every hit under the number of its citation.
    - Voices: the merging of fragments ends, speakers are numbered without gaps,
      a stated count that the audio supports is honoured, windows tile the recording and the turns are what was
      heard in them, cut only in pauses, and the models are handed only windows and slices they
      bear.
    - Words: windows tile the recording within the model's limit, no character
      of what was recognized is lost, every word is timed, gap recovery only
      adds, and looks exactly at the silent stretches.  That a gap itself is not
      windowed is shown too ([AsrProps.gap_exceeds_window]).
    - Loading: a missing model gives the stub, a broken one an error.
    - Text embedding: the stub's vector depends on the multiset of words alone; one
      word gives an axis, and words can cancel to the zero vector; a backend of
      the wrong width is refused, and the slot builds an embedder once.
    - Measuring: the distance of two transcripts is the least number of edits;
      clusters and people are paired one to one and credit at least half of what
      the best pairing would; the tallies add up; a roster has one voiceprint to a
      person; what the denoiser writes is read back.
    - Serving and commands: who reaches a handler, from the configuration to
      the route; a pull leaves whole files or none and, when it says so, what
      the worker loads; preflight fails exactly on a failing check; merging two
      speakers loses no reference; a URL is shown without its password unless
      that has an at sign.
    - Self-update: nothing of a package that fails verification is installed
      or run; an accepted one was signed by the configured key and has the
      digests it lists; an installed one is what is on disk, and can be rolled
      back to what was there.  Where a failure leaves a binary stranded is
      shown too.
    - The MCP endpoint: one reply for each request of a batch and none for a
      notification; the tools listed are the tools there are; a tool that says
      it reads does not write.

    ** Fuel and bounds

    [Embed.windows_from] has one window more than the utterance's length over
    the 40 s each advances; [window_utterance_equiv] shows it never runs out.  [Wav.walk] has the file's
    length (a chunk is at least 8 bytes); [parse_wav_pcm16] and
    [Wav.walk_chunks] show it reaches the end.  [Summarize.condense_rounds]
    has the source's own [MAX_ROUNDS].  [Speech.stub_turns] has one more than the
    turns the duration allows.  [Cluster.merge_all] has the number of fragments
    ([ClusterProps.merge_sequence_ends]); [Diarize.windows_from] and
    [Asr.decode_windows] have the number of samples, and a window has one at
    least ([DiarizeProps.windows_spec], [AsrProps.cut_windows_spec]);
    [Asr.quietest] has the length of the band it steps through by frames;
    [Asr.decode_passes] has the source's own bound.  Everything else is
    structural.

    ** Not modelled

    The neural networks, ffmpeg, Postgres and the other crates, which are
    parameters; argument parsing ([clap]'s, derived from the structs of
    [main.rs]); the diagnostics [diarize.rs] prints when asked ([report_halves]
    and the like); the rounding of numbers to half precision in a [halfvec] (but
    for those it makes infinite) and what [jsonb] does to numbers; connecting and migrating ([scribe-db/src/lib.rs]), which only
    call sqlx; the cancellation of a stage in the midst of a statement; the
    tests; of the examples what they print and how they load the engines, and the
    two that only probe a model's dimensions; and the Swift client, which is
    another program in another language.  Logging is left out everywhere. *)

From stdpp Require Export base tactics list gmap strings pretty sorting.
From Stdlib Require Export ZArith Lia.

#[global] Open Scope Z_scope.

(** ** Results and the state-and-error monad

    Rust's [Result] is [result]; the asynchronous functions of the program that
    thread the database are [M S E A]: they return a result and the state the
    statements executed so far have left behind.  An [Err] keeps the effects of
    the statements before it, as separate SQL statements do. *)

Inductive result (E A : Type) : Type :=
| Ok (a : A)
| Err (e : E).
Arguments Ok {E A} a.
Arguments Err {E A} e.

Definition is_ok {E A} (r : result E A) : bool :=
  match r with Ok _ => true | Err _ => false end.

Definition M (S E A : Type) : Type := S -> result E A * S.

#[export] Instance M_ret {S E} : MRet (M S E) := fun A a s => (Ok a, s).

#[export] Instance M_bind {S E} : MBind (M S E) := fun A B k m s =>
  match m s with
  | (Ok a, s') => k a s'
  | (Err e, s') => (Err e, s')
  end.

Definition fail_with {S E A} (e : E) : M S E A := fun s => (Err e, s).
Definition get_state {S E} : M S E S := fun s => (Ok s, s).
Definition put_state {S E} (s' : S) : M S E unit := fun _ => (Ok tt, s').

(** A statement that cannot fail: it reads and rewrites the state. *)
Definition exec {S E A} (f : S -> A * S) : M S E A :=
  fun s => let '(a, s') := f s in (Ok a, s').

(** [let _ = m.await;] in the source: the error is dropped, effects stay. *)
Definition ignore_err {S E A} (m : M S E A) : M S E unit :=
  fun s => (Ok tt, snd (m s)).

(** [match m.await { Ok(..) => .., Err(..) => .. }]: the caller takes the
    outcome as a value. *)
Definition attempt {S E A} (m : M S E A) : M S E (result E A) :=
  fun s => let '(r, s') := m s in (Ok r, s').

(** A SQL transaction: when the body errors nothing it did is kept. *)
Definition transaction {S E A} (m : M S E A) : M S E A := fun s =>
  match m s with
  | (Ok a, s') => (Ok a, s')
  | (Err e, _) => (Err e, s)
  end.

Fixpoint mfor {S E A} (l : list A) (body : A -> M S E unit) : M S E unit :=
  match l with
  | [] => mret tt
  | x :: l' => body x ≫= fun _ => mfor l' body
  end.

Lemma bind_ok {S E A B} (m : M S E A) (k : A -> M S E B) s a s' :
  m s = (Ok a, s') -> (m ≫= k) s = k a s'.
Proof. intros H. unfold mbind, M_bind. by rewrite H. Qed.

Lemma bind_err {S E A B} (m : M S E A) (k : A -> M S E B) s e s' :
  m s = (Err e, s') -> (m ≫= k) s = (Err e, s').
Proof. intros H. unfold mbind, M_bind. by rewrite H. Qed.

Lemma bind_inv {S E A B} (m : M S E A) (k : A -> M S E B) s b s' :
  (m ≫= k) s = (Ok b, s') -> exists a s1, m s = (Ok a, s1) /\ k a s1 = (Ok b, s').
Proof. unfold mbind, M_bind. destruct (m s) as [[a|e] s1]; [|done]. by exists a, s1. Qed.

Lemma bind_assoc {S E A B C} (m : M S E A) (k : A -> M S E B) (g : B -> M S E C) s :
  (m ≫= fun x => k x ≫= g) s = ((m ≫= k) ≫= g) s.
Proof. unfold mbind, M_bind. by destruct (m s) as [[a|e] s']. Qed.

(** The state of a transaction is all of its body's effects, or none. *)
Lemma transaction_atomic {S E A} (m : M S E A) s :
  (is_ok (fst (transaction m s)) = true /\ transaction m s = m s) \/
  (is_ok (fst (transaction m s)) = false /\ snd (transaction m s) = s).
Proof. unfold transaction. destruct (m s) as [[a|e] s']; cbn; auto. Qed.

(** *** Invariants of stateful operations

    [Preserves P m]: whatever [m] returns, [P] holds after it when it held
    before.  A class, so that instances for the statements and for the monad's
    combinators prove it of a whole operation. *)
Class Preserves {S E A} (P : S -> Prop) (m : M S E A) : Prop :=
  preserves : forall s, P s -> P (snd (m s)).
#[export] Hint Mode Preserves ! ! ! - ! : typeclass_instances.

Section preserves.
Context {S E : Type} (P : S -> Prop).

#[export] Instance preserves_ret {A} (a : A) : Preserves P (mret a : M S E A).
Proof. by intros s Hs. Qed.

#[export] Instance preserves_fail {A} (e : E) : Preserves P (fail_with e : M S E A).
Proof. by intros s Hs. Qed.

#[export] Instance preserves_get : Preserves P (get_state : M S E S).
Proof. by intros s Hs. Qed.

#[export] Instance preserves_bind {A B} (m : M S E A) (k : A -> M S E B) :
  Preserves P m -> (forall a, Preserves P (k a)) -> Preserves P (m ≫= k).
Proof.
  intros Hm Hk s Hs. specialize (Hm s Hs). unfold mbind, M_bind.
  destruct (m s) as [[a|e] s']; [by apply Hk|done].
Qed.

#[export] Instance preserves_transaction {A} (m : M S E A) :
  Preserves P m -> Preserves P (transaction m).
Proof.
  intros Hm s Hs. specialize (Hm s Hs). unfold transaction.
  by destruct (m s) as [[a|e] s'].
Qed.

#[export] Instance preserves_ignore {A} (m : M S E A) :
  Preserves P m -> Preserves P (ignore_err m).
Proof. intros Hm s Hs. exact (Hm s Hs). Qed.

#[export] Instance preserves_attempt {A} (m : M S E A) :
  Preserves P m -> Preserves P (attempt m).
Proof. intros Hm s Hs. specialize (Hm s Hs). unfold attempt. by destruct (m s). Qed.

#[export] Instance preserves_mfor {A} (l : list A) (body : A -> M S E unit) :
  (forall x, Preserves P (body x)) -> Preserves P (mfor l body).
Proof.
  intros Hb. induction l as [|x l IH]; cbn; [apply preserves_ret|].
  by apply preserves_bind.
Qed.

#[export] Instance preserves_if {A} (b : bool) (m1 m2 : M S E A) :
  Preserves P m1 -> Preserves P m2 -> Preserves P (if b then m1 else m2).
Proof. by destruct b. Qed.

#[export] Instance preserves_option {A B} (o : option B) (f : B -> M S E A) (m : M S E A) :
  (forall x, Preserves P (f x)) -> Preserves P m ->
  Preserves P (match o with Some x => f x | None => m end).
Proof. by destruct o. Qed.
End preserves.

(** *** Two-state properties of stateful operations

    [Steps R m]: [m] takes every state to one [R] relates it to, for a reflexive
    and transitive [R] (only appends, only changes this table, ...). *)
Class Steps {S E A} (R : S -> S -> Prop) (m : M S E A) : Prop :=
  steps : forall s, R s (snd (m s)).
#[export] Hint Mode Steps ! ! ! - ! : typeclass_instances.

Section steps.
Context {S E : Type} (R : S -> S -> Prop) `{!PreOrder R}.

#[export] Instance steps_ret {A} (a : A) : Steps R (mret a : M S E A).
Proof. intros s. reflexivity. Qed.

#[export] Instance steps_fail {A} (e : E) : Steps R (fail_with e : M S E A).
Proof. intros s. reflexivity. Qed.

#[export] Instance steps_bind {A B} (m : M S E A) (k : A -> M S E B) :
  Steps R m -> (forall a, Steps R (k a)) -> Steps R (m ≫= k).
Proof using Type*.
  intros Hm Hk s. specialize (Hm s). unfold mbind, M_bind. destruct (m s) as [[a|e] s']; [|done].
  etransitivity; [exact Hm|]. apply Hk.
Qed.

#[export] Instance steps_mfor {A} (l : list A) (body : A -> M S E unit) :
  (forall x, Steps R (body x)) -> Steps R (mfor l body).
Proof using Type*. intros Hb. induction l as [|x l IH]; cbn; [apply steps_ret|]. by apply steps_bind. Qed.

#[export] Instance steps_if {A} (b : bool) (m1 m2 : M S E A) :
  Steps R m1 -> Steps R m2 -> Steps R (if b then m1 else m2).
Proof. by destruct b. Qed.

(** The same, with what is known of the value returned. *)
Definition does {A} (Q : A -> Prop) (m : M S E A) : Prop :=
  forall s, R s (snd (m s)) /\ forall a, fst (m s) = Ok a -> Q a.

Lemma does_steps {A} (m : M S E A) : Steps R m -> does (fun _ => True) m.
Proof. intros Hm s. split; [apply Hm|done]. Qed.

Lemma does_ret {A} (Q : A -> Prop) (a : A) : Q a -> does Q (mret a : M S E A).
Proof using Type*. intros Ha s. split; [reflexivity|]. by intros b [= <-]. Qed.

Lemma does_bind {A B} (Q : A -> Prop) (Q' : B -> Prop) (m : M S E A) (k : A -> M S E B) :
  does Q m -> (forall a, Q a -> does Q' (k a)) -> does Q' (m ≫= k).
Proof using Type*.
  intros Hm Hk s. destruct (Hm s) as [Hs Hq]. unfold mbind, M_bind.
  destruct (m s) as [[a|e] s']; cbn in *; [|by split].
  destruct (Hk a (Hq a eq_refl) s') as [Hs' Hq']. split; [by etransitivity|done].
Qed.
End steps.

(** ** Machine integers *)

Definition wrap (w z : Z) : Z := z mod 2 ^ w.
Definition in_u (w z : Z) : Prop := 0 <= z < 2 ^ w.
Definition in_i (w z : Z) : Prop := - 2 ^ (w - 1) <= z < 2 ^ (w - 1).
Definition i64_max : Z := 2 ^ 63 - 1.
Definition u64_max : Z := 2 ^ 64 - 1.

Lemma wrap_small w z : in_u w z -> wrap w z = z.
Proof. unfold in_u, wrap. intros H. by apply Z.mod_small. Qed.

(** ** Stable sorting by a boolean order, as Rust's [sort_by] and SQL's
    [ORDER BY] on a finite list. *)

Section sort_by.
Context {A : Type} (le : A -> A -> bool).

Fixpoint insert_by (x : A) (l : list A) : list A :=
  match l with
  | [] => [x]
  | y :: l' => if le x y then x :: y :: l' else y :: insert_by x l'
  end.

Definition sort_by (l : list A) : list A := foldr insert_by [] l.

Lemma insert_by_perm x l : insert_by x l ≡ₚ x :: l.
Proof.
  induction l as [|y l IH]; cbn; [done|].
  destruct (le x y); [done|]. rewrite IH. apply Permutation_swap.
Qed.

Lemma sort_by_perm l : sort_by l ≡ₚ l.
Proof.
  induction l as [|x l IH]; cbn; [done|].
  by rewrite insert_by_perm, IH.
Qed.

Lemma sort_by_elem x l : x ∈ sort_by l <-> x ∈ l.
Proof. by rewrite sort_by_perm. Qed.

Lemma sort_by_length l : length (sort_by l) = length l.
Proof. by rewrite sort_by_perm. Qed.

Context (le_total : forall x y, le x y = true \/ le y x = true).
Context (le_trans : forall x y z, le x y = true -> le y z = true -> le x z = true).

Lemma insert_by_sorted x l :
  StronglySorted (fun a b => le a b = true) l ->
  StronglySorted (fun a b => le a b = true) (insert_by x l).
Proof using le_total le_trans.
  induction 1 as [|y l Hs IH Hy]; cbn; [repeat constructor|].
  destruct (le x y) eqn:Hxy.
  - constructor; [by constructor|]. constructor; [done|].
    eapply Forall_impl; [exact Hy|]. intros z Hz. by eapply le_trans.
  - constructor; [done|]. rewrite insert_by_perm. constructor; [|done].
    destruct (le_total x y); congruence.
Qed.

Lemma sort_by_sorted l : StronglySorted (fun a b => le a b = true) (sort_by l).
Proof using le_total le_trans.
  induction l as [|x l IH]; cbn; [constructor|]. by apply insert_by_sorted.
Qed.

(** The head of the sorted list is a minimum of the input. *)
Lemma sort_by_head_min l x l' :
  sort_by l = x :: l' -> x ∈ l /\ forall y, y ∈ l -> le x y = true.
Proof using le_total le_trans.
  intros Heq. pose proof (sort_by_sorted l) as Hs. rewrite Heq in Hs.
  assert (Hin : forall y, y ∈ l <-> y ∈ x :: l').
  { intros y. rewrite <- Heq. symmetry. apply sort_by_elem. }
  split; [apply Hin; left|].
  intros y Hy. apply Hin in Hy. inversion Hs as [|? ? _ Hall]; subst.
  apply elem_of_cons in Hy as [->|Hy].
  - destruct (le_total x x); done.
  - rewrite Forall_forall in Hall. by apply Hall.
Qed.
End sort_by.

(** The same where [le] is an order only on the elements satisfying [P]. *)
Section sort_by_on.
Context {A : Type} (le : A -> A -> bool) (P : A -> Prop).
Context (le_total : forall x y, P x -> P y -> le x y = true \/ le y x = true).
Context (le_trans : forall x y z, P x -> P y -> P z -> le x y = true -> le y z = true -> le x z = true).

Lemma insert_by_sorted_on x l :
  P x -> Forall P l -> StronglySorted (fun a b => le a b = true) l ->
  StronglySorted (fun a b => le a b = true) (insert_by le x l).
Proof using le_total le_trans.
  intros Hx Hl Hs. induction Hs as [|y l Hs IH Hy]; cbn; [repeat constructor|].
  apply Forall_cons in Hl as [Hpy Hl]. destruct (le x y) eqn:Hxy.
  - constructor; [by constructor|]. constructor; [done|].
    rewrite Forall_forall in *. intros z Hz. eapply (le_trans x y z); auto.
  - constructor; [by apply IH|]. rewrite insert_by_perm. constructor; [|done].
    destruct (le_total x y); congruence.
Qed.

Lemma sort_by_sorted_on l : Forall P l -> StronglySorted (fun a b => le a b = true) (sort_by le l).
Proof using le_total le_trans.
  induction 1 as [|x l Hx Hl IH]; cbn; [constructor|]. fold (sort_by le l).
  apply insert_by_sorted_on; [done| |done]. by rewrite sort_by_perm.
Qed.

(** Two permutations of a list sort to the same list, when elements that are
    each before the other are equal. *)
Lemma sort_by_perm_eq l1 l2 :
  (forall x y, x ∈ l1 -> y ∈ l1 -> le x y = true -> le y x = true -> x = y) ->
  Forall P l1 -> l1 ≡ₚ l2 -> sort_by le l1 = sort_by le l2.
Proof using le_total le_trans.
  intros Hanti Hl Hp. apply StronglySorted_unique_strong with (R := fun a b => le a b = true).
  - intros x y Hx Hy. apply Hanti; [by apply sort_by_elem in Hx|]. apply sort_by_elem in Hy. by rewrite Hp.
  - by apply sort_by_sorted_on.
  - apply sort_by_sorted_on. by rewrite <- Hp.
  - by rewrite !sort_by_perm.
Qed.
End sort_by_on.

(** Sorting a list that is already in order changes nothing. *)
Lemma sort_by_id {A} (le : A -> A -> bool) l :
  StronglySorted (fun a b => le a b = true) l -> sort_by le l = l.
Proof.
  induction 1 as [|x l Hs IH Hx]; [done|]. cbn. fold (sort_by le l). rewrite IH.
  destruct l as [|y l]; [done|]. cbn. inversion Hx; subst. by rewrite H1.
Qed.

(** ** Lists *)

Section list_find.
Context {A : Type} (p : A -> bool).

(** [iter().find(p)] *)
Fixpoint find_first (l : list A) : option A :=
  match l with
  | [] => None
  | x :: l' => if p x then Some x else find_first l'
  end.

(** [iter().filter(p).next_back()] *)
Fixpoint find_last (l : list A) : option A :=
  match l with
  | [] => None
  | x :: l' =>
      match find_last l' with
      | Some y => Some y
      | None => if p x then Some x else None
      end
  end.

Lemma find_first_Some l x : find_first l = Some x -> x ∈ l /\ p x = true.
Proof.
  induction l as [|y l IH]; cbn; [done|]. destruct (p y) eqn:Hy.
  - intros [= ->]. split; [left|done].
  - intros [Hin Hp]%IH. split; [by right|done].
Qed.

Lemma find_first_None l : find_first l = None <-> forall x, x ∈ l -> p x = false.
Proof.
  induction l as [|y l IH]; cbn; [split; [intros _ x Hx; inversion Hx|done]|].
  destruct (p y) eqn:Hy; [split; [done|]|].
  - intros H. specialize (H y ltac:(left)). congruence.
  - rewrite IH. setoid_rewrite elem_of_cons. naive_solver.
Qed.

Lemma find_last_Some l x : find_last l = Some x -> x ∈ l /\ p x = true.
Proof.
  induction l as [|y l IH]; cbn; [done|]. destruct (find_last l) as [z|].
  - intros [= ->]. destruct (IH eq_refl). split; [by right|done].
  - destruct (p y) eqn:Hy; [|done]. intros [= ->]. split; [left|done].
Qed.

Lemma find_last_None l : find_last l = None <-> forall x, x ∈ l -> p x = false.
Proof.
  induction l as [|y l IH]; cbn; [split; [intros _ x Hx; inversion Hx|done]|].
  destruct (find_last l) as [z|] eqn:E.
  - split; [done|]. intros H. destruct (find_last_Some l z E) as [Hz Hp].
    rewrite H in Hp; [done|by right].
  - split.
    + destruct (p y) eqn:Hy; [done|]. intros _ x [->|Hx]%elem_of_cons; [done|].
      by apply IH.
    + intros H. rewrite H; [done|left].
Qed.
End list_find.

(** Boolean filters, as [WHERE] clauses and [iter().filter]. *)
Definition bfilter {A} (p : A -> bool) (l : list A) : list A := List.filter p l.

Lemma elem_of_bfilter {A} (p : A -> bool) l x :
  x ∈ bfilter p l <-> x ∈ l /\ p x = true.
Proof. unfold bfilter. rewrite !list_elem_of_In. apply List.filter_In. Qed.

Lemma bfilter_filter {A} (p : A -> bool) (P : A -> Prop) `{forall x, Decision (P x)} (l : list A) :
  (forall x, p x = true <-> P x) -> bfilter p l = filter P l.
Proof.
  intros Hp. induction l as [|x l IH]; [done|]. rewrite filter_cons. unfold bfilter in *. cbn [List.filter]. rewrite IH.
  specialize (Hp x). case_decide; destruct (p x); naive_solver.
Qed.

Lemma bfilter_app {A} (p : A -> bool) l1 l2 :
  bfilter p (l1 ++ l2) = bfilter p l1 ++ bfilter p l2.
Proof. apply List.filter_app. Qed.

Lemma bfilter_nil_iff {A} (p : A -> bool) l :
  bfilter p l = [] <-> forall x, x ∈ l -> p x = false.
Proof.
  split.
  - intros H x Hx. destruct (p x) eqn:Hp; [|done].
    assert (Hin : x ∈ bfilter p l) by (by apply elem_of_bfilter).
    rewrite H in Hin. inversion Hin.
  - induction l as [|y l IH]; cbn; [done|]. intros H.
    rewrite H by left. apply IH. intros x Hx. apply H. by right.
Qed.

Lemma bfilter_all {A} (p : A -> bool) l : (forall x, x ∈ l -> p x = true) -> bfilter p l = l.
Proof.
  induction l as [|y l IH]; cbn; [done|]. intros H. rewrite (H y) by left. f_equal.
  apply IH. intros x Hx. apply H. by right.
Qed.

Lemma bfilter_idemp {A} (p : A -> bool) l : bfilter p (bfilter p l) = bfilter p l.
Proof. apply bfilter_all. intros x [_ Hx]%elem_of_bfilter. done. Qed.

Lemma bfilter_negb_nil {A} (p : A -> bool) l : bfilter p (bfilter (fun x => negb (p x)) l) = [].
Proof. apply bfilter_nil_iff. intros x Hx. apply elem_of_bfilter in Hx as [_ Hx]. by apply negb_true_iff. Qed.

Lemma NoDup_map_bfilter {A B} (f : A -> B) (p : A -> bool) l :
  NoDup (map f l) -> NoDup (map f (bfilter p l)).
Proof.
  induction l as [|x l IH]; cbn; [done|]. intros [Hx Hl]%NoDup_cons.
  destruct (p x); cbn; [|auto]. constructor; [|auto].
  rewrite list_elem_of_In, in_map_iff in *. intros (y & Hy & Hin). apply Hx. exists y.
  split; [done|]. by apply List.filter_In in Hin as [? _].
Qed.

Lemma map_imap {A B C} (f : B -> C) (g : nat -> A -> B) (h : A -> C) l :
  (forall i x, f (g i x) = h x) -> map f (imap g l) = map h l.
Proof.
  revert g. induction l as [|x l IH]; intros g Hg; [done|]. cbn. rewrite Hg. f_equal.
  apply (IH (fun i => g (S i))). intros i y. apply Hg.
Qed.

Lemma elem_of_flat_map {A B} (f : A -> list B) l y : y ∈ flat_map f l <-> exists x, x ∈ l /\ y ∈ f x.
Proof. rewrite list_elem_of_In, in_flat_map. setoid_rewrite list_elem_of_In. naive_solver. Qed.

Lemma NoDup_map_inj {A B} (f : A -> B) l a b : NoDup (map f l) -> a ∈ l -> b ∈ l -> f a = f b -> a = b.
Proof.
  induction l as [|x l IH]; cbn; [intros _ Ha; inversion Ha|]. intros [Hx Hnd]%NoDup_cons Ha Hb Heq.
  apply elem_of_cons in Ha as [->|Ha], Hb as [->|Hb]; try done.
  - exfalso. apply Hx. rewrite Heq. by apply (list_elem_of_fmap_2 f).
  - exfalso. apply Hx. rewrite <- Heq. by apply (list_elem_of_fmap_2 f).
  - by apply IH.
Qed.

(** [existsb] reflected with stdpp membership. *)
Lemma existsb_elem {A} (p : A -> bool) l :
  existsb p l = true <-> exists x, x ∈ l /\ p x = true.
Proof.
  rewrite List.existsb_exists. split; intros (x & Hx & Hp); exists x;
    (split; [by apply list_elem_of_In|done]).
Qed.

(** Removing duplicates, first occurrence kept ([HashSet] guarded pushes). *)
Fixpoint dedup_first {A} `{EqDecision A} (seen : list A) (l : list A) : list A :=
  match l with
  | [] => []
  | x :: l' =>
      if bool_decide (x ∈ seen) then dedup_first seen l'
      else x :: dedup_first (x :: seen) l'
  end.

Lemma elem_of_dedup_first {A} `{EqDecision A} (seen l : list A) x :
  x ∈ dedup_first seen l <-> x ∈ l /\ x ∉ seen.
Proof.
  revert seen. induction l as [|y l IH]; intros seen; cbn; [set_solver|].
  case_bool_decide as Hy.
  - rewrite IH. set_solver.
  - rewrite elem_of_cons, IH. destruct (decide (x = y)); set_solver.
Qed.

Lemma NoDup_dedup_first {A} `{EqDecision A} (seen l : list A) :
  NoDup (dedup_first seen l).
Proof.
  revert seen. induction l as [|y l IH]; intros seen; cbn; [constructor|].
  case_bool_decide; [done|]. constructor; [|done].
  rewrite elem_of_dedup_first. set_solver.
Qed.

(** [sum] of an integer projection. *)
Definition zsum (l : list Z) : Z := foldr Z.add 0 l.

Lemma zsum_app l1 l2 : zsum (l1 ++ l2) = zsum l1 + zsum l2.
Proof. induction l1 as [|x l1 IH]; cbn; [done|]. fold (zsum (l1 ++ l2)) (zsum l1). lia. Qed.

(** ** Automation *)

Create HintDb scribe.
#[export] Hint Rewrite @elem_of_bfilter @bfilter_app @sort_by_elem
  @sort_by_length : scribe.

(** Turn boolean comparisons in the context into arithmetic facts. *)
Ltac bool_to_prop :=
  repeat match goal with
  | H : andb _ _ = true |- _ => apply andb_prop in H; destruct H
  | H : orb _ _ = false |- _ => apply orb_false_elim in H; destruct H
  | H : negb _ = true |- _ => apply negb_true_iff in H
  | H : negb _ = false |- _ => apply negb_false_iff in H
  | H : (_ <? _) = true |- _ => apply Z.ltb_lt in H
  | H : (_ <? _) = false |- _ => apply Z.ltb_ge in H
  | H : (_ <=? _) = true |- _ => apply Z.leb_le in H
  | H : (_ <=? _) = false |- _ => apply Z.leb_gt in H
  | H : (_ =? _) = true |- _ => apply Z.eqb_eq in H
  | H : (_ =? _) = false |- _ => apply Z.eqb_neq in H
  | H : bool_decide _ = true |- _ => apply bool_decide_eq_true_1 in H
  | H : bool_decide _ = false |- _ => apply bool_decide_eq_false_1 in H
  end.

(** Case analysis on the scrutinee of the first [if] or [match] of the goal. *)
Ltac split_match :=
  match goal with
  | |- context [if ?b then _ else _] => destruct b eqn:?
  | |- context [match ?x with _ => _ end] => destruct x eqn:?
  end.

(** [lia] with integer division and remainder. *)
Ltac divlia := Z.to_euclidean_division_equations; lia.
