(* ===== verification/RustStr.v ===== *)
(** * Rust strings

    A Rust [str] is its UTF-8 bytes, a [string].  [chars] cuts it into the
    encodings of its characters, so the operations of [std] that work on
    characters ([trim], [chars().count()], [chars().take(n)], ...) are defined
    on that list, and those that work on bytes ([split_once], [parse],
    [to_ascii_lowercase], ...) on the bytes. *)

From Stdlib Require Import Ascii String.
From S2P Require Import Prelude.

#[local] Arguments String.append !_ _ /.

(** ** Bytes and characters *)

Definition byte_of (a : ascii) : N := N_of_ascii a.

(** A UTF-8 continuation byte, [0b10xxxxxx]. *)
Definition is_cont (a : ascii) : bool := (128 <=? byte_of a)%N && (byte_of a <=? 191)%N.

Definition starts_cont (s : string) : bool :=
  match s with String a _ => is_cont a | EmptyString => false end.

Fixpoint all_cont (s : string) : bool :=
  match s with String a s' => is_cont a && all_cont s' | EmptyString => true end.

(** The characters of a string, each as its own encoding. *)
Fixpoint chars (s : string) : list string :=
  match s with
  | EmptyString => []
  | String a s' =>
      match chars s' with
      | c :: cs => if starts_cont c then String a c :: cs else String a "" :: c :: cs
      | [] => [String a ""]
      end
  end.

Definition str_concat (l : list string) : string := foldr String.append "" l.

Definition char_count (s : string) : Z := Z.of_nat (length (chars s)).

(** [s.chars().take(n).collect()] *)
Definition take_chars (s : string) (n : Z) : string :=
  str_concat (take (Z.to_nat n) (chars s)).

Definition bytes (l : list N) : string :=
  foldr (fun n s => String (ascii_of_N n) s) "" l.

Definition nl : ascii := ascii_of_N 10.
Definition cr : ascii := ascii_of_N 13.
Definition newline : string := String nl "".

(** The characters [char::is_whitespace] accepts (Unicode White_Space). *)
Definition white_space : list string :=
  map bytes
    ([[9]; [10]; [11]; [12]; [13]; [32]; [194; 133]; [194; 160];
      [225; 154; 128]; [226; 128; 128]; [226; 128; 129]; [226; 128; 130];
      [226; 128; 131]; [226; 128; 132]; [226; 128; 133]; [226; 128; 134];
      [226; 128; 135]; [226; 128; 136]; [226; 128; 137]; [226; 128; 138];
      [226; 128; 168]; [226; 128; 169]; [226; 128; 175]; [226; 129; 159];
      [227; 128; 128]])%N.

Definition is_whitespace (c : string) : bool := existsb (String.eqb c) white_space.

Section trim.
Context (p : string -> bool).

Fixpoint drop_while (l : list string) : list string :=
  match l with
  | c :: l' => if p c then drop_while l' else l
  | [] => []
  end.

Definition drop_while_end (l : list string) : list string :=
  reverse (drop_while (reverse l)).

(** [s.trim_matches(p)] *)
Definition trim_matches (s : string) : string :=
  str_concat (drop_while_end (drop_while (chars s))).

Definition trim_end_matches (s : string) : string :=
  str_concat (drop_while_end (chars s)).

Definition trim_start_matches (s : string) : string :=
  str_concat (drop_while (chars s)).
End trim.

Definition trim : string -> string := trim_matches is_whitespace.
Definition trim_end : string -> string := trim_end_matches is_whitespace.

(** ** Operations on bytes *)

Definition ascii_lower (a : ascii) : ascii :=
  if ((65 <=? byte_of a) && (byte_of a <=? 90))%N then ascii_of_N (byte_of a + 32) else a.

Fixpoint to_ascii_lowercase (s : string) : string :=
  match s with
  | String a s' => String (ascii_lower a) (to_ascii_lowercase s')
  | EmptyString => ""
  end.

Definition eq_ignore_ascii_case (a b : string) : bool :=
  String.eqb (to_ascii_lowercase a) (to_ascii_lowercase b).

Definition is_empty (s : string) : bool := String.eqb s "".

(** [s.split_once(c)] *)
Fixpoint split_once (c : ascii) (s : string) : option (string * string) :=
  match s with
  | EmptyString => None
  | String a s' =>
      if Ascii.eqb a c then Some ("", s')
      else match split_once c s' with
           | Some (l, r) => Some (String a l, r)
           | None => None
           end
  end.

(** [s.split(c).next().unwrap_or("")] *)
Definition split_first (c : ascii) (s : string) : string :=
  match split_once c s with Some (l, _) => l | None => s end.

Fixpoint strip_prefix (p s : string) : option string :=
  match p, s with
  | EmptyString, _ => Some s
  | String a p', String b s' => if Ascii.eqb a b then strip_prefix p' s' else None
  | _, EmptyString => None
  end.

(** [s.find(sep)] as the text before the first occurrence and the text from it. *)
Fixpoint find_str (sep s : string) : option (string * string) :=
  if bool_decide (is_Some (strip_prefix sep s)) then Some ("", s)
  else match s with
    | EmptyString => None
    | String a s' => match find_str sep s' with Some (l, r) => Some (String a l, r) | None => None end
    end.

(** [s.contains(sep)] *)
Definition contains (sep s : string) : bool := bool_decide (is_Some (find_str sep s)).

Definition digit_val (a : ascii) : option Z :=
  if ((48 <=? byte_of a) && (byte_of a <=? 57))%N then Some (Z.of_N (byte_of a) - 48) else None.

Fixpoint parse_digits (acc : Z) (s : string) : option Z :=
  match s with
  | EmptyString => Some acc
  | String a s' =>
      match digit_val a with Some d => parse_digits (10 * acc + d) s' | None => None end
  end.

Definition parse_nonempty (s : string) : option Z :=
  if is_empty s then None else parse_digits 0 s.

(** [s.parse::<u64>()]: an optional [+], digits, and no overflow. *)
Definition parse_u64 (s : string) : option Z :=
  let digits := match strip_prefix "+" s with Some r => r | None => s end in
  match parse_nonempty digits with
  | Some v => if v <=? u64_max then Some v else None
  | None => None
  end.

(** [s.parse::<i64>()] *)
Definition parse_i64 (s : string) : option Z :=
  let '(neg, digits) :=
    match strip_prefix "-" s with
    | Some r => (true, r)
    | None => (false, match strip_prefix "+" s with Some r => r | None => s end)
    end in
  match parse_nonempty digits with
  | Some v =>
      let v' := if (neg : bool) then - v else v in
      if (- 2 ^ 63 <=? v') && (v' <=? i64_max) then Some v' else None
  | None => None
  end.

Fixpoint str_rev_app (s acc : string) : string :=
  match s with String a s' => str_rev_app s' (String a acc) | EmptyString => acc end.

(** Drop one trailing carriage return. *)
Fixpoint strip_cr (s : string) : string :=
  match s with
  | EmptyString => ""
  | String a "" => if Ascii.eqb a cr then "" else s
  | String a s' => String a (strip_cr s')
  end.

(** [s.lines()]: the pieces between newlines, each without the [\n] or [\r\n]
    that ended it; a last piece no newline ends keeps its [\r] and is dropped
    when empty.  The accumulator is the current line so far. *)
Fixpoint lines_go (cur : string) (s : string) : list string :=
  match s with
  | EmptyString => if is_empty cur then [] else [str_rev_app cur ""]
  | String a s' =>
      if Ascii.eqb a nl then strip_cr (str_rev_app cur "") :: lines_go "" s'
      else lines_go (String a cur) s'
  end.

Definition lines (s : string) : list string := lines_go "" s.

(** [s.split_whitespace()] *)
Fixpoint split_ws (cur : string) (cs : list string) : list string :=
  match cs with
  | [] => if is_empty cur then [] else [cur]
  | c :: cs' =>
      if is_whitespace c then (if is_empty cur then split_ws "" cs' else cur :: split_ws "" cs')
      else split_ws (cur +:+ c) cs'
  end.
Definition split_whitespace (s : string) : list string := split_ws "" (chars s).

(** [char::is_alphanumeric], whose Unicode tables are not modelled. *)
Class CharAlnum := is_alphanumeric : string -> bool.

(** [s.split(p)], the characters [p] holds of being the separators. *)
Fixpoint split_where (p : string -> bool) (cur : string) (cs : list string) : list string :=
  match cs with
  | [] => [cur]
  | c :: cs' => if p c then cur :: split_where p "" cs' else split_where p (cur +:+ c) cs'
  end.
Definition split_by (p : string -> bool) (s : string) : list string := split_where p "" (chars s).

(** [l.join(sep)] *)
Definition join (sep : string) (l : list string) : string := String.concat sep l.

(** [format!("{n:06}")] for an [i32]. *)
Fixpoint zeros (n : nat) : string :=
  match n with O => "" | S n' => String "0"%char (zeros n') end.

Definition pad06 (n : Z) : string :=
  let digits := pretty (Z.abs n) in
  let sign := if n <? 0 then "-" else "" in
  sign +:+ zeros (6 - (String.length sign + String.length digits)) +:+ digits.

(** ** Lemmas *)

Lemma append_nil_r s : s +:+ "" = s.
Proof. induction s; cbn; congruence. Qed.

Lemma append_assoc a b c : (a +:+ b) +:+ c = a +:+ (b +:+ c).
Proof. induction a; cbn; congruence. Qed.

Lemma str_concat_app l1 l2 : str_concat (l1 ++ l2) = str_concat l1 +:+ str_concat l2.
Proof.
  induction l1 as [|x l1 IH]; cbn; [done|].
  fold (str_concat (l1 ++ l2)) (str_concat l1). by rewrite IH, append_assoc.
Qed.

Lemma concat_chars s : str_concat (chars s) = s.
Proof.
  induction s as [|a s IH]; [done|]. cbn [chars].
  destruct (chars s) as [|c cs]; cbn in *; [by rewrite <- IH|].
  destruct (starts_cont c); cbn; f_equal; by rewrite <- IH.
Qed.

Lemma chars_nil_iff s : chars s = [] <-> s = "".
Proof.
  split; [|by intros ->]. intros H. rewrite <- (concat_chars s). by rewrite H.
Qed.

(** One encoding: a first byte and continuation bytes. *)
Definition char_ok (c : string) : bool :=
  match c with String _ c' => all_cont c' | EmptyString => false end.

(** A list of encodings that [chars] can return: only the first may start with
    a continuation byte. *)
Definition chars_ok (l : list string) : Prop :=
  Forall (fun c => char_ok c = true) l /\
  Forall (fun c => starts_cont c = false) (tail l).

Lemma chars_chars_ok s : chars_ok (chars s).
Proof.
  induction s as [|a s [IH1 IH2]]; [split; constructor|]. cbn [chars].
  destruct (chars s) as [|c cs]; [split; repeat constructor|]. cbn in IH2.
  inversion IH1 as [|? ? Hc Hcs]; subst.
  destruct (starts_cont c) eqn:E.
  - split; [|done]. constructor; [|done]. destruct c as [|b c]; [done|].
    cbn in *. by rewrite E, Hc.
  - split; [repeat constructor; done|]. cbn. by constructor.
Qed.

Lemma all_cont_chars c : all_cont c = true -> c <> "" -> chars c = [c] \/ starts_cont c = true.
Proof. destruct c as [|a c]; [done|]. cbn. intros [H _]%andb_prop. auto. Qed.

Lemma chars_char_app c s :
  char_ok c = true -> starts_cont s = false -> chars (c +:+ s) = c :: chars s.
Proof.
  destruct c as [|a c]; [done|]. cbn [char_ok]. revert a.
  induction c as [|b c IH]; intros a Hc Hs.
  - cbn. destruct s as [|d s]; [done|]. cbn in Hs |- *.
    destruct (chars s) as [|e es]; cbn; [by rewrite Hs|].
    destruct (starts_cont e); cbn; by rewrite Hs.
  - cbn in Hc. apply andb_prop in Hc as [Hb Hc].
    change (String a (String b c) +:+ s) with (String a (String b c +:+ s)).
    cbn [chars]. rewrite (IH b Hc Hs). cbn. by rewrite Hb.
Qed.

(** Cutting a well-formed list of encodings back out of its concatenation. *)
Lemma chars_concat l : chars_ok l -> chars (str_concat l) = l.
Proof.
  intros [H1 H2]. induction H1 as [|c l Hc Hl IH]; [done|]. cbn in H2 |- *.
  fold (str_concat l). rewrite chars_char_app; [|done|].
  - f_equal. apply IH. inversion H2; subst; cbn; [constructor|done].
  - destruct l as [|d l]; [done|]. inversion H2; inversion Hl; subst. cbn.
    destruct d; [done|]. cbn in *. done.
Qed.

Lemma chars_ok_app_r l1 l2 : chars_ok (l1 ++ l2) -> chars_ok l2.
Proof.
  intros [H1 H2]. apply Forall_app in H1 as [_ H1]. split; [done|].
  destruct l1 as [|x l1]; [done|]. cbn in H2. apply Forall_app in H2 as [_ H2].
  destruct l2; [done|]. by inversion H2.
Qed.

Lemma chars_ok_app_l l1 l2 : chars_ok (l1 ++ l2) -> chars_ok l1.
Proof.
  intros [H1 H2]. apply Forall_app in H1 as [H1 _]. split; [done|].
  destruct l1 as [|x l1]; [constructor|]. cbn in *. by apply Forall_app in H2 as [H2 _].
Qed.

Section trim_lemmas.
Context (p : string -> bool).

Lemma drop_while_suffix l : exists l1, l = l1 ++ drop_while p l /\ Forall (fun c => p c = true) l1.
Proof.
  induction l as [|c l (l1 & IH & Hf)]; cbn; [by exists []|].
  destruct (p c) eqn:E; [|by exists []].
  exists (c :: l1). cbn. rewrite <- IH. auto.
Qed.

Lemma drop_while_end_prefix l :
  exists l2, l = drop_while_end p l ++ l2 /\ Forall (fun c => p c = true) l2.
Proof.
  unfold drop_while_end. destruct (drop_while_suffix (reverse l)) as (l1 & H & Hf).
  exists (reverse l1). split; [|by apply Forall_reverse].
  rewrite <- reverse_app, <- H. by rewrite reverse_involutive.
Qed.

Lemma drop_while_idem l : drop_while p (drop_while p l) = drop_while p l.
Proof.
  induction l as [|c l IH]; cbn; [done|]. destruct (p c) eqn:E; [done|]. cbn. by rewrite E.
Qed.

Lemma drop_while_end_idem l : drop_while_end p (drop_while_end p l) = drop_while_end p l.
Proof. unfold drop_while_end. by rewrite reverse_involutive, drop_while_idem. Qed.

(** Trimming the end leaves a non-matching head alone. *)
Lemma drop_while_drop_while_end l :
  drop_while p l = l -> drop_while p (drop_while_end p l) = drop_while_end p l.
Proof.
  intros H. destruct (drop_while_end_prefix l) as (l2 & Hl & Hf).
  destruct (drop_while_end p l) as [|c l'] eqn:E; [done|].
  rewrite Hl in H. cbn in H |- *. destruct (p c) eqn:Hc; [|done].
  exfalso. pose proof (f_equal length H) as Hlen.
  destruct (drop_while_suffix (l' ++ l2)) as (l1 & Hs & _).
  apply (f_equal length) in Hs. cbn in Hlen. rewrite !length_app in *. lia.
Qed.

Lemma trim_matches_ok s :
  chars_ok (drop_while_end p (drop_while p (chars s))).
Proof.
  destruct (drop_while_suffix (chars s)) as (l1 & H1 & _).
  destruct (drop_while_end_prefix (drop_while p (chars s))) as (l2 & H2 & _).
  pose proof (chars_chars_ok s) as Hok. rewrite H1 in Hok.
  apply chars_ok_app_r in Hok. rewrite H2 in Hok. by apply chars_ok_app_l in Hok.
Qed.

Lemma chars_trim_matches s :
  chars (trim_matches p s) = drop_while_end p (drop_while p (chars s)).
Proof. apply chars_concat, trim_matches_ok. Qed.

Lemma trim_matches_idem s : trim_matches p (trim_matches p s) = trim_matches p s.
Proof.
  unfold trim_matches at 1. rewrite chars_trim_matches.
  rewrite drop_while_drop_while_end by apply drop_while_idem.
  by rewrite drop_while_end_idem.
Qed.

(** What trimming removes is a run of matching characters at either end. *)
Lemma trim_matches_split s :
  exists l r, s = str_concat l +:+ trim_matches p s +:+ str_concat r /\
    Forall (fun c => p c = true) l /\ Forall (fun c => p c = true) r.
Proof.
  destruct (drop_while_suffix (chars s)) as (l & H1 & Hl).
  destruct (drop_while_end_prefix (drop_while p (chars s))) as (r & H2 & Hr).
  exists l, r. split; [|done]. unfold trim_matches. rewrite <- !str_concat_app.
  rewrite <- H2, <- H1. by rewrite concat_chars.
Qed.
End trim_lemmas.

Lemma trim_idem s : trim (trim s) = trim s.
Proof. apply trim_matches_idem. Qed.

Lemma char_count_nonneg s : 0 <= char_count s.
Proof. unfold char_count. lia. Qed.

Lemma chars_head s c cs : chars s = c :: cs -> starts_cont c = starts_cont s.
Proof.
  intros Hc. rewrite <- (concat_chars s), Hc. cbn. destruct c; [|done].
  destruct (chars_chars_ok s) as [H1 _]. rewrite Hc in H1. inversion H1; subst. done.
Qed.

Lemma chars_length_cons a s :
  length (chars (String a s)) = (length (chars s) + if starts_cont s then 0 else 1)%nat.
Proof.
  cbn [chars]. destruct (chars s) as [|c cs] eqn:E.
  - apply chars_nil_iff in E as ->. done.
  - rewrite <- (chars_head s c cs E). destruct (starts_cont c); cbn; lia.
Qed.

Lemma char_count_app_le a b : char_count (a +:+ b) <= char_count a + char_count b.
Proof.
  unfold char_count. induction a as [|x a IH]; [cbn; lia|].
  change (String x a +:+ b) with (String x (a +:+ b)). rewrite !chars_length_cons.
  destruct a as [|y a]; cbn [starts_cont String.append] in *; [destruct (starts_cont b); cbn in *; lia|].
  destruct (is_cont y); lia.
Qed.

Lemma take_chars_count s n : 0 <= n -> char_count (take_chars s n) = Z.min n (char_count s).
Proof.
  intros Hn. unfold char_count, take_chars. rewrite chars_concat.
  - rewrite length_take. lia.
  - pose proof (chars_chars_ok s) as H.
    rewrite <- (take_drop (Z.to_nat n) (chars s)) in H. by apply chars_ok_app_l in H.
Qed.

(** [take_chars] cuts a prefix off, on a character boundary. *)
Lemma take_chars_prefix s n : exists r, s = take_chars s n +:+ r.
Proof.
  exists (str_concat (drop (Z.to_nat n) (chars s))). unfold take_chars.
  by rewrite <- str_concat_app, take_drop, concat_chars.
Qed.

Lemma to_ascii_lowercase_idem s : to_ascii_lowercase (to_ascii_lowercase s) = to_ascii_lowercase s.
Proof.
  induction s as [|a s IH]; cbn; [done|]. rewrite IH. f_equal.
  by destruct a as [[] [] [] [] [] [] [] []].
Qed.

Lemma eq_ignore_ascii_case_spec a b :
  eq_ignore_ascii_case a b = true <-> to_ascii_lowercase a = to_ascii_lowercase b.
Proof. apply String.eqb_eq. Qed.

Lemma split_once_Some c s l r :
  split_once c s = Some (l, r) -> s = l +:+ String c r.
Proof.
  revert l. induction s as [|a s IH]; cbn; intros l H; [done|].
  destruct (Ascii.eqb_spec a c) as [->|]; [by inversion H; subst|].
  destruct (split_once c s) as [[l' r']|]; [|done]. inversion H; subst.
  cbn. by rewrite <- (IH _ eq_refl).
Qed.

Lemma strip_prefix_Some p s r : strip_prefix p s = Some r -> s = p +:+ r.
Proof.
  revert s. induction p as [|a p IH]; intros [|b s]; cbn; try done; [by intros [= ->]|by intros [= ->]|].
  destruct (Ascii.eqb_spec a b) as [->|]; [|done]. intros H. by rewrite (IH _ H).
Qed.

Lemma digit_val_range a d : digit_val a = Some d -> 0 <= d <= 9.
Proof. unfold digit_val. destruct (_ && _)%N eqn:E; [|done]. intros [= <-].
  apply andb_prop in E as [H1%N.leb_le H2%N.leb_le]. lia. Qed.

Lemma is_empty_false s : is_empty s = false <-> s <> "".
Proof. apply String.eqb_neq. Qed.

Lemma parse_digits_nonneg acc s v : 0 <= acc -> parse_digits acc s = Some v -> 0 <= v.
Proof.
  revert acc. induction s as [|a s IH]; cbn; intros acc Ha; [by intros [= <-]|].
  destruct (digit_val a) as [d|] eqn:E; [|done]. apply digit_val_range in E.
  intros H. eapply IH; [|exact H]. lia.
Qed.

Lemma parse_u64_range s v : parse_u64 s = Some v -> 0 <= v <= u64_max.
Proof.
  unfold parse_u64, parse_nonempty.
  generalize (match strip_prefix "+" s with Some r => r | None => s end). intros d. cbn zeta.
  destruct (is_empty d); [done|]. destruct (parse_digits 0 d) as [w|] eqn:E; [|done].
  apply parse_digits_nonneg in E; [|lia]. destruct (w <=? u64_max) eqn:Hw; [|done].
  intros [= <-]. bool_to_prop. lia.
Qed.

(** *** ASCII lowercase and trimming commute *)

Definition is_alpha (a : ascii) : bool :=
  ((65 <=? byte_of a) && (byte_of a <=? 90) || (97 <=? byte_of a) && (byte_of a <=? 122))%N.

Fixpoint no_alpha (s : string) : bool :=
  match s with String a s' => negb (is_alpha a) && no_alpha s' | EmptyString => true end.

Lemma ascii_lower_alpha a : ascii_lower a = a \/ (is_alpha a = true /\ is_alpha (ascii_lower a) = true).
Proof. destruct a as [[] [] [] [] [] [] [] []]; vm_compute; auto. Qed.

Lemma ascii_lower_cont a : is_cont (ascii_lower a) = is_cont a.
Proof. destruct a as [[] [] [] [] [] [] [] []]; reflexivity. Qed.

Lemma lower_eqb c w : no_alpha w = true -> String.eqb (to_ascii_lowercase c) w = String.eqb c w.
Proof.
  revert w. induction c as [|a c IH]; intros [|b w] Hw; cbn in *; try done.
  apply andb_prop in Hw as [Hb Hw]. rewrite (IH w Hw).
  destruct (ascii_lower_alpha a) as [->|[Ha Hl]]; [done|].
  replace (ascii_lower a =? b)%char with false; [replace (a =? b)%char with false; [done|]|].
  - symmetry. apply Ascii.eqb_neq. intros ->. by rewrite Ha in Hb.
  - symmetry. apply Ascii.eqb_neq. intros <-. by rewrite Hl in Hb.
Qed.

Lemma is_whitespace_lower c : is_whitespace (to_ascii_lowercase c) = is_whitespace c.
Proof.
  unfold is_whitespace. apply eq_true_iff_eq. rewrite !existsb_elem. split;
    intros (w & Hw & Heq); exists w; (split; [done|]);
    [rewrite <- lower_eqb|rewrite lower_eqb]; try done;
    revert w Hw Heq; intros w Hw _; apply (proj1 (Forall_forall (fun w => no_alpha w = true) white_space)); try done;
    by repeat constructor.
Qed.

Lemma chars_lower s : chars (to_ascii_lowercase s) = map to_ascii_lowercase (chars s).
Proof.
  induction s as [|a s IH]; cbn; [done|]. rewrite IH. destruct (chars s) as [|c cs]; cbn; [done|].
  replace (starts_cont (to_ascii_lowercase c)) with (starts_cont c); [by destruct (starts_cont c)|].
  destruct c as [|b c]; cbn; [done|]. symmetry. apply ascii_lower_cont.
Qed.

Lemma lower_app a b : to_ascii_lowercase (a +:+ b) = to_ascii_lowercase a +:+ to_ascii_lowercase b.
Proof. induction a as [|x a IH]; cbn; [done|]. by rewrite IH. Qed.

Lemma str_concat_lower l : str_concat (map to_ascii_lowercase l) = to_ascii_lowercase (str_concat l).
Proof. induction l as [|c l IH]; cbn; [done|]. fold (str_concat l) (str_concat (map to_ascii_lowercase l)). by rewrite lower_app, IH. Qed.

Lemma drop_while_map p f l : (forall c, p (f c) = p c) -> drop_while p (map f l) = map f (drop_while p l).
Proof. intros Hp. induction l as [|c l IH]; cbn; [done|]. rewrite Hp. by destruct (p c). Qed.

Lemma trim_lower s : trim (to_ascii_lowercase s) = to_ascii_lowercase (trim s).
Proof.
  unfold trim, trim_matches, drop_while_end. rewrite chars_lower, drop_while_map by apply is_whitespace_lower.
  change (map to_ascii_lowercase ?l) with (to_ascii_lowercase <$> l).
  rewrite <- fmap_reverse.
  change (to_ascii_lowercase <$> ?l) with (map to_ascii_lowercase l).
  rewrite drop_while_map by apply is_whitespace_lower.
  change (map to_ascii_lowercase ?l) with (to_ascii_lowercase <$> l).
  rewrite <- fmap_reverse. apply str_concat_lower.
Qed.

(** ** Plain text and decimal numbers *)

Fixpoint all_bytes (p : ascii -> bool) (s : string) : bool :=
  match s with EmptyString => true | String a s' => p a && all_bytes p s' end.

Lemma all_bytes_app p a b : all_bytes p (a +:+ b) = all_bytes p a && all_bytes p b.
Proof. induction a as [|x a IH]; [done|]. cbn. by rewrite IH, andb_assoc. Qed.

Lemma all_bytes_impl (p q : ascii -> bool) s :
  (forall a, p a = true -> q a = true) -> all_bytes p s = true -> all_bytes q s = true.
Proof. intros Hpq. induction s as [|a s IH]; cbn; [done|]. intros [Ha Hs]%andb_prop. by rewrite Hpq, IH. Qed.

Definition is_digit (a : ascii) : bool := (48 <=? byte_of a)%N && (byte_of a <=? 57)%N.

(** A byte that is a whole character and not whitespace. *)
Definition plain (a : ascii) : bool := (byte_of a <? 128)%N && negb (is_whitespace (String a "")).

Lemma digit_plain a : is_digit a = true -> plain a = true.
Proof. destruct a as [[] [] [] [] [] [] [] []]; vm_compute; done. Qed.

Lemma chars_plain s : all_bytes plain s = true -> chars s = map (fun a => String a "") (list_ascii_of_string s).
Proof.
  induction s as [|a s IH]; [done|]. cbn [all_bytes]. intros [Ha Hs]%andb_prop. cbn [chars list_ascii_of_string map].
  rewrite (IH Hs). destruct s as [|b s]; [done|]. cbn [list_ascii_of_string map]. cbn [starts_cont].
  cbn [all_bytes] in Hs. apply andb_prop in Hs as [Hb _]. unfold plain in Hb. apply andb_prop in Hb as [Hb _].
  apply N.ltb_lt in Hb. unfold is_cont. by rewrite (proj2 (N.leb_gt 128 _)) by lia.
Qed.

Lemma drop_while_none p l : Forall (fun c => p c = false) l -> drop_while p l = l.
Proof. intros Hl. destruct Hl as [|c l Hc Hl]; [done|]. cbn. by rewrite Hc. Qed.

Lemma trim_plain s : all_bytes plain s = true -> trim s = s.
Proof.
  intros Hs. assert (Hw : Forall (fun c => is_whitespace c = false) (chars s)).
  { rewrite (chars_plain s Hs). clear -Hs. induction s as [|a s IH]; cbn [list_ascii_of_string map]; [constructor|].
    cbn [all_bytes] in Hs. apply andb_prop in Hs as [Ha Hs]. constructor; [|by apply IH].
    unfold plain in Ha. apply andb_prop in Ha as [_ Ha]. by apply negb_true_iff. }
  unfold trim, trim_matches, drop_while_end. rewrite (drop_while_none _ (chars s)) by done.
  rewrite drop_while_none by (by apply Forall_reverse). by rewrite reverse_involutive, concat_chars.
Qed.

Lemma split_once_at c s r :
  all_bytes (fun a => negb (Ascii.eqb a c)) s = true -> split_once c (s +:+ String c r) = Some (s, r).
Proof.
  induction s as [|a s IH]; cbn; [by rewrite Ascii.eqb_refl|]. intros [Ha Hs]%andb_prop.
  apply negb_true_iff in Ha. by rewrite Ha, IH.
Qed.

Lemma split_once_absent c s : all_bytes (fun a => negb (Ascii.eqb a c)) s = true -> split_once c s = None.
Proof.
  induction s as [|a s IH]; cbn; [done|]. intros [Ha Hs]%andb_prop. apply negb_true_iff in Ha. by rewrite Ha, IH.
Qed.

Lemma strip_prefix_app p s : strip_prefix p (p +:+ s) = Some s.
Proof. induction p as [|a p IH]; [by destruct s|]. cbn. by rewrite Ascii.eqb_refl. Qed.

Lemma pretty_N_char_digit n : (n < 10)%N -> digit_val (pretty_N_char n) = Some (Z.of_N n) /\ is_digit (pretty_N_char n) = true.
Proof.
  intros Hn. assert (Hin : n ∈ [0; 1; 2; 3; 4; 5; 6; 7; 8; 9]%N) by (rewrite !elem_of_cons; lia).
  rewrite !elem_of_cons in Hin. destruct Hin as [->|[->|[->|[->|[->|[->|[->|[->|[->|[->|Hin]]]]]]]]]]; try done. inversion Hin.
Qed.

Lemma parse_digits_go n s : parse_digits 0 (pretty_N_go n s) = parse_digits (Z.of_N n) s.
Proof.
  revert s. induction (N.lt_wf_0 n) as [n _ IH]; intros s. destruct (decide (0 < n)%N) as [Hn|Hn].
  - rewrite pretty_N_go_step by done. rewrite IH by (apply N.div_lt; lia). cbn [parse_digits].
    destruct (pretty_N_char_digit (n mod 10)) as [-> _]; [apply N.mod_lt; lia|]. f_equal.
    pose proof (N.div_mod n 10 ltac:(lia)). lia.
  - assert (n = 0%N) as -> by lia. by rewrite pretty_N_go_0.
Qed.

Lemma pretty_go_digits n s : all_bytes is_digit s = true -> all_bytes is_digit (pretty_N_go n s) = true.
Proof.
  revert s. induction (N.lt_wf_0 n) as [n _ IH]; intros s Hs. destruct (decide (0 < n)%N) as [Hn|Hn].
  - rewrite pretty_N_go_step by done. apply IH; [apply N.div_lt; lia|]. cbn [all_bytes]. rewrite Hs, andb_true_r.
    apply pretty_N_char_digit, N.mod_lt. lia.
  - assert (n = 0%N) as -> by lia. by rewrite pretty_N_go_0.
Qed.

Lemma pretty_Z_N n : 0 <= n -> pretty n = pretty (Z.to_N n).
Proof. intros Hn. destruct n; [done|done|lia]. Qed.

Lemma pretty_digits n : 0 <= n -> all_bytes is_digit (pretty n) = true.
Proof.
  intros Hn. rewrite pretty_Z_N by done. unfold pretty, pretty_N. case_decide; [done|]. by apply pretty_go_digits.
Qed.

Lemma parse_pretty n : 0 <= n -> parse_digits 0 (pretty n) = Some n.
Proof.
  intros Hn. rewrite pretty_Z_N by done. unfold pretty, pretty_N. case_decide as H0.
  - assert (n = 0) as -> by lia. done.
  - rewrite parse_digits_go. cbn. f_equal. lia.
Qed.

(** [n.to_string().parse::<u64>()] *)
Lemma parse_u64_pretty n : 0 <= n <= u64_max -> parse_u64 (pretty n) = Some n.
Proof.
  intros Hn. unfold parse_u64, parse_nonempty. pose proof (pretty_digits n ltac:(lia)) as Hd.
  pose proof (parse_pretty n ltac:(lia)) as Hp. destruct (pretty n) as [|a s] eqn:E.
  - exfalso. rewrite pretty_Z_N in E by lia. unfold pretty, pretty_N in E. case_decide; [done|].
    assert (Hl : forall m t, t <> "" -> pretty_N_go m t <> "").
    { intros m. induction (N.lt_wf_0 m) as [m _ IH]; intros t Ht. destruct (decide (0 < m)%N) as [Hm|Hm].
      - rewrite pretty_N_go_step by done. apply IH; [apply N.div_lt; lia|done].
      - assert (m = 0%N) as -> by lia. by rewrite pretty_N_go_0. }
    rewrite pretty_N_go_step in E by lia. by apply Hl in E.
  - assert (Hplus : strip_prefix "+" (String a s) = None).
    { cbn [all_bytes] in Hd. apply andb_prop in Hd as [Hd _]. cbn [strip_prefix].
      destruct (Ascii.eqb_spec "+" a) as [<-|]; [by vm_compute in Hd|done]. }
    rewrite Hplus. cbn [is_empty String.eqb]. rewrite Hp. by rewrite (proj2 (Z.leb_le _ _)) by lia.
Qed.

(** *** Searching for a text *)

Definition without (c : ascii) (s : string) : bool := all_bytes (fun a => negb (Ascii.eqb a c)) s.

Lemma find_str_at c sep l r :
  without c l = true -> find_str (String c sep) (l +:+ String c (sep +:+ r)) = Some (l, String c (sep +:+ r)).
Proof.
  unfold without. induction l as [|a l IH]; cbn [all_bytes].
  - intros _. cbn [String.append find_str]. assert (strip_prefix (String c sep) (String c (sep +:+ r)) = Some r) as ->; [|by rewrite bool_decide_true].
    cbn. rewrite Ascii.eqb_refl. apply strip_prefix_app.
  - intros [Ha Hl]%andb_prop. apply negb_true_iff, Ascii.eqb_neq in Ha. cbn [String.append find_str].
    assert (strip_prefix (String c sep) (String a (l +:+ String c (sep +:+ r))) = None) as ->.
    { cbn. destruct (Ascii.eqb_spec c a); [congruence|done]. }
    rewrite bool_decide_false by (intros [? ?]; done). by rewrite IH.
Qed.

Lemma without_app c a b : without c (a +:+ b) = without c a && without c b.
Proof. apply all_bytes_app. Qed.
