(* ===== verification/Types.v ===== *)
(** * The domain model: [crates/scribe-core]

    The enums and structs of [types.rs] with their text codecs, the stage DAG,
    the error type of [error.rs], the blob layout of [storage.rs] and the
    template registry of [summary_template.rs]. *)

From Stdlib Require Import Ascii String SpecFloat.
From S2P Require Import Prelude RustStr.

(** ** Values of crates the program only calls *)

(** A [Uuid] is its 128-bit value, which is also its [Ord]; how it prints is
    the [uuid] crate's. *)
Notation Uuid := N (only parsing).
Class UuidFmt := uuid_to_string : Uuid -> string.

(** The SHA-256 digest of all the bytes fed to it, in hexadecimal. *)
Class Sha256 := sha256 : list N -> string.

(** [std::env::var(name).ok()] *)
Class EnvVar := env_var : string -> option string.

(** Instants ([DateTime], [timestamptz]) are integers on a linear scale. *)
Notation Instant := Z (only parsing).

(** [f32], as the binary32 numbers of the specification of floats. *)
Notation f32 := spec_float (only parsing).

(** [serde_json::Value]; a number is its literal. *)
Inductive Json :=
| JNull
| JBool (b : bool)
| JNumber (lit : string)
| JString (s : string)
| JArray (items : list Json)
| JObject (fields : list (string * Json)).

(** [v.get(key)] for a string key: only objects have fields. *)
Definition json_get (v : Json) (key : string) : option Json :=
  match v with
  | JObject fields => snd <$> find_first (fun f => String.eqb (fst f) key) fields
  | _ => None
  end.

Definition json_as_str (v : Json) : option string :=
  match v with JString s => Some s | _ => None end.

(** ** Recordings *)

Inductive RecordingStatus := Uploading | Processing | Ready | RecFailed.

#[export] Instance RecordingStatus_eq_dec : EqDecision RecordingStatus.
Proof. solve_decision. Defined.

Module RecordingStatus.
Definition as_str (s : RecordingStatus) : string :=
  match s with
  | Uploading => "uploading"
  | Processing => "processing"
  | Ready => "ready"
  | RecFailed => "failed"
  end.

Definition from_str (s : string) : result string RecordingStatus :=
  if String.eqb s "uploading" then Ok Uploading
  else if String.eqb s "processing" then Ok Processing
  else if String.eqb s "ready" then Ok Ready
  else if String.eqb s "failed" then Ok RecFailed
  else Err ("unknown recording status: " +:+ s).
End RecordingStatus.

Record Recording := mkRecording {
  rec_id : Uuid;
  rec_title : option string;
  rec_created_at : Instant;
  rec_device_id : option string;
  rec_duration_ms : option Z;
  rec_status : RecordingStatus;
  rec_participants_expected : option Z;
  rec_audio_format : option string;
  rec_sample_rate : option Z;
  rec_storage_key : option string;
  rec_tags : list string;
  rec_marks : list Z;
}.

Record Segment := mkSegment {
  seg_id : Uuid;
  seg_recording_id : Uuid;
  seg_seq : Z;
  seg_storage_key : string;
  seg_start_ms : option Z;
  seg_duration_ms : option Z;
  seg_bytes : option Z;
  seg_sha256 : option string;
  seg_uploaded_at : Instant;
}.

(** ** Jobs *)

Inductive JobKind :=
| Transcode | Diarize | Transcribe | Merge | Embed | Summarize | TranscribeSegment.

#[export] Instance JobKind_eq_dec : EqDecision JobKind.
Proof. solve_decision. Defined.

Module JobKind.
Definition ALL : list JobKind :=
  [Transcode; Diarize; Transcribe; Merge; Embed; Summarize; TranscribeSegment].

Definition as_str (k : JobKind) : string :=
  match k with
  | Transcode => "transcode"
  | Diarize => "diarize"
  | Transcribe => "transcribe"
  | Merge => "merge"
  | Embed => "embed"
  | Summarize => "summarize"
  | TranscribeSegment => "transcribe_segment"
  end.

Definition bypasses_schedule (k : JobKind) : bool :=
  match k with TranscribeSegment => true | _ => false end.

Definition predecessors (k : JobKind) : list JobKind :=
  match k with
  | Transcode => []
  | Diarize => [Transcode]
  | Transcribe => [Transcode]
  | Merge => [Diarize; Transcribe]
  | Embed => [Merge]
  | Summarize => [Merge]
  | TranscribeSegment => []
  end.

Definition successors (k : JobKind) : list JobKind :=
  match k with
  | Transcode => [Diarize; Transcribe]
  | Diarize => [Merge]
  | Transcribe => [Merge]
  | Merge => [Embed; Summarize]
  | Embed => []
  | Summarize => []
  | TranscribeSegment => []
  end.

(** [from_str] trims and lowercases before it matches. *)
Definition from_str (s0 : string) : result string JobKind :=
  let s := to_ascii_lowercase (trim s0) in
  if String.eqb s "transcode" then Ok Transcode
  else if String.eqb s "diarize" then Ok Diarize
  else if String.eqb s "transcribe" then Ok Transcribe
  else if String.eqb s "merge" then Ok Merge
  else if String.eqb s "embed" then Ok Embed
  else if String.eqb s "summarize" then Ok Summarize
  else if String.eqb s "transcribe_segment" then Ok TranscribeSegment
  else Err ("unknown job kind: " +:+ s).
End JobKind.

Inductive JobState := Queued | Running | Done | JobFailed.

#[export] Instance JobState_eq_dec : EqDecision JobState.
Proof. solve_decision. Defined.

Module JobState.
Definition as_str (s : JobState) : string :=
  match s with
  | Queued => "queued"
  | Running => "running"
  | Done => "done"
  | JobFailed => "failed"
  end.

Definition from_str (s : string) : result string JobState :=
  if String.eqb s "queued" then Ok Queued
  else if String.eqb s "running" then Ok Running
  else if String.eqb s "done" then Ok Done
  else if String.eqb s "failed" then Ok JobFailed
  else Err ("unknown job state: " +:+ s).
End JobState.

Record Job := mkJob {
  job_id : Z;
  job_recording_id : option Uuid;
  job_kind : JobKind;
  job_state : JobState;
  job_priority : Z;
  job_attempts : Z;
  job_run_after : Instant;
  job_locked_by : option string;
  job_locked_at : option Instant;
  job_payload : Json;
  job_error : option string;
  job_created_at : Instant;
  job_updated_at : Instant;
}.

(** ** Speakers, transcript, retrieval, summaries *)

Record Speaker := mkSpeaker {
  spk_id : Uuid;
  spk_display_name : string;
  spk_embedding : option (list f32);
  spk_created_at : Instant;
}.

Record RecordingSpeaker := mkRecordingSpeaker {
  rs_recording_id : Uuid;
  rs_local_idx : Z;
  rs_speaker_id : option Uuid;
  rs_embedding : option (list f32);
  rs_display_name : option string;
}.

Record Word := mkWord {
  w_text : string;
  w_start_ms : Z;
  w_end_ms : Z;
  w_conf : f32;
  w_local_idx : option Z;
}.

Record Utterance := mkUtterance {
  utt_id : Z;
  utt_recording_id : Uuid;
  utt_local_idx : option Z;
  utt_start_ms : Z;
  utt_end_ms : Z;
  utt_text : string;
  utt_words : list Word;
  utt_speaker_name : option string;
}.

Record Summary := mkSummary {
  sum_recording_id : Uuid;
  sum_title : option string;
  sum_summary : option string;
  sum_action_items : Json;
  sum_topics : Json;
  sum_decisions : Json;
  sum_model : option string;
  sum_template : option string;
  sum_created_at : Instant;
}.

(** ** Errors *)

Inductive Error :=
| Config (msg : string)
| NotFound (msg : string)
| BadRequest (msg : string)
| Unauthorized (msg : string)
| Conflict (msg : string)
| Database (msg : string)
| Storage (msg : string)
| Pipeline (stage message : string)
| Model (msg : string)
| Http (msg : string)
| ServiceUnavailable (msg : string)
| Io (msg : string)
| Serde (msg : string)
| Internal (msg : string).

Module Error.
(** [Display], as derived from the [#[error("...")]] attributes. *)
Definition to_string (e : Error) : string :=
  match e with
  | Config m => "configuration error: " +:+ m
  | NotFound m => "not found: " +:+ m
  | BadRequest m => "invalid request: " +:+ m
  | Unauthorized m => "unauthorized: " +:+ m
  | Conflict m => "conflict: " +:+ m
  | Database m => "database error: " +:+ m
  | Storage m => "storage error: " +:+ m
  | Pipeline s m => "pipeline stage `" +:+ s +:+ "` failed: " +:+ m
  | Model m => "model error: " +:+ m
  | Http m => "http error: " +:+ m
  | ServiceUnavailable m => "service unavailable: " +:+ m
  | Io m => "io error: " +:+ m
  | Serde m => "serialization error: " +:+ m
  | Internal m => "internal error: " +:+ m
  end.

Definition code (e : Error) : string :=
  match e with
  | Config _ => "config"
  | NotFound _ => "not_found"
  | BadRequest _ => "bad_request"
  | Unauthorized _ => "unauthorized"
  | Conflict _ => "conflict"
  | Database _ => "database"
  | Storage _ => "storage"
  | Pipeline _ _ => "pipeline"
  | Model _ => "model"
  | Http _ => "http"
  | ServiceUnavailable _ => "service_unavailable"
  | Io _ => "io"
  | Serde _ => "serde"
  | Internal _ => "internal"
  end.

Definition http_status (e : Error) : Z :=
  match e with
  | NotFound _ => 404
  | BadRequest _ => 400
  | Unauthorized _ => 401
  | Conflict _ => 409
  | ServiceUnavailable _ => 503
  | _ => 500
  end.
End Error.

(** [stage_err]: a stage's failure, tagged with the stage. *)
Definition stage_err (stage message : string) : Error := Pipeline stage message.

(** ** Blob layout *)

Module storage.
(** [Path::join] on Unix: an absolute argument replaces the base. *)
Definition path_join (base p : string) : string :=
  match p with
  | String "/"%char _ => p
  | _ =>
      if is_empty base then p
      else if String.eqb (trim_end_matches (String.eqb "/") base) base
      then base +:+ "/" +:+ p else base +:+ p
  end.

Section with_uuid.
Context `{UuidFmt}.

Definition storage_key (recording_id : Uuid) : string := uuid_to_string recording_id.

Definition recording_dir (blobs : string) (recording_id : Uuid) : string :=
  path_join blobs (uuid_to_string recording_id).

Definition segments_dir (blobs : string) (recording_id : Uuid) : string :=
  path_join (recording_dir blobs recording_id) "segments".

Definition segment_path (blobs : string) (recording_id : Uuid) (seq : Z) (ext : string) : string :=
  let ext := trim_start_matches (String.eqb ".") ext in
  path_join (segments_dir blobs recording_id) (pad06 seq +:+ "." +:+ ext).

Definition segment_key (recording_id : Uuid) (seq : Z) (ext : string) : string :=
  let ext := trim_start_matches (String.eqb ".") ext in
  uuid_to_string recording_id +:+ "/segments/" +:+ pad06 seq +:+ "." +:+ ext.

Definition wav_path (blobs : string) (recording_id : Uuid) : string :=
  path_join (recording_dir blobs recording_id) "audio.wav".
End with_uuid.

Definition resolve_key (blobs key : string) : string := path_join blobs key.
End storage.

(** ** Summary templates *)

Module summary_template.
Record SummaryTemplate := mkTemplate { id : string; label : string; instructions : string }.

Definition TEMPLATES : list SummaryTemplate :=
  [ mkTemplate "general" "General meeting"
      "Summarize this meeting. Capture the overall discussion, concrete action items, explicit decisions made, and the main topics covered.";
    mkTemplate "standup" "Standup"
      "This is a team standup. For the summary, capture per-person what was done, what's next, and any blockers. action_items = unblock/follow-up tasks. decisions = any scope or priority calls. topics = workstreams mentioned.";
    mkTemplate "interview" "Interview"
      "This is an interview. summary = the candidate's background and the strongest signals (positive and negative). action_items = recommended next steps (e.g. follow-up interview, references). decisions = the hiring lean if expressed. topics = competencies/areas probed.";
    mkTemplate "one_on_one" "1:1"
      "This is a 1:1 meeting. summary = key discussion points and sentiment. action_items = commitments made by either side. decisions = anything agreed. topics = themes (growth, feedback, workload, etc.).";
    mkTemplate "lecture" "Lecture / talk"
      "This is a lecture or talk. summary = the thesis and main arguments. action_items = suggested study/follow-up. decisions = N/A unless stated. topics = key concepts introduced.";
    mkTemplate "sales" "Sales call"
      "This is a sales call. summary = the prospect's needs, pain points, and buying signals. action_items = seller next steps. decisions = commitments/next-meeting. topics = objections and products discussed." ].

Definition DEFAULT_TEMPLATE_ID : string := "general".

(** [None] is the [expect] of the source: the registry has no default. *)
Definition resolve (id0 : string) : option SummaryTemplate :=
  let id' := trim id0 in
  match find_first (fun t => eq_ignore_ascii_case (id t) id') TEMPLATES with
  | Some t => Some t
  | None => find_first (fun t => String.eqb (id t) DEFAULT_TEMPLATE_ID) TEMPLATES
  end.

Definition is_known (id0 : string) : bool :=
  let id' := trim id0 in
  existsb (fun t => eq_ignore_ascii_case (id t) id') TEMPLATES.

Definition canonical_id (id0 : string) : string :=
  match resolve id0 with Some t => id t | None => "" end.
End summary_template.

(** ** Codecs and the DAG *)

Class TextCodec (A : Type) := { encode_text : A -> string; decode_text : string -> result string A }.

(** What the database columns that hold an enum rely on. *)
Class TextCodecLaws (A : Type) `{TextCodec A} := {
  decode_encode : forall a : A, decode_text (encode_text a) = Ok a;
  encode_inj :: Inj (=) (=) (@encode_text A _);
}.

#[export] Instance RecordingStatus_codec : TextCodec RecordingStatus :=
  {| encode_text := RecordingStatus.as_str; decode_text := RecordingStatus.from_str |}.
#[export] Instance JobKind_codec : TextCodec JobKind :=
  {| encode_text := JobKind.as_str; decode_text := JobKind.from_str |}.
#[export] Instance JobState_codec : TextCodec JobState :=
  {| encode_text := JobState.as_str; decode_text := JobState.from_str |}.

#[export] Instance RecordingStatus_codec_laws : TextCodecLaws RecordingStatus.
Proof. split; [by intros []|by intros [] []]. Qed.
#[export] Instance JobKind_codec_laws : TextCodecLaws JobKind.
Proof. split; [by intros []|by intros [] []]. Qed.
#[export] Instance JobState_codec_laws : TextCodecLaws JobState.
Proof. split; [by intros []|by intros [] []]. Qed.

(** Successors and predecessors are the same edges, read from either end. *)
Lemma successors_predecessors a b :
  b ∈ JobKind.successors a <-> a ∈ JobKind.predecessors b.
Proof. destruct a, b; cbn; set_solver. Qed.

Lemma predecessors_NoDup k : NoDup (JobKind.predecessors k).
Proof. destruct k; cbn; repeat (constructor; [set_solver|]); constructor. Qed.

Lemma JobKind_ALL_complete k : k ∈ JobKind.ALL.
Proof. destruct k; unfold JobKind.ALL; set_solver. Qed.

(** The depth of a stage in the DAG: every edge goes one level down. *)
Definition stage_depth (k : JobKind) : nat :=
  match k with
  | Transcode | TranscribeSegment => 0
  | Diarize | Transcribe => 1
  | Merge => 2
  | Embed | Summarize => 3
  end.

Lemma successors_depth a b :
  b ∈ JobKind.successors a -> stage_depth b = S (stage_depth a).
Proof. destruct a, b; cbn; set_solver. Qed.

(** ** Templates and errors *)

Lemma resolve_total s : exists t, summary_template.resolve s = Some t /\ t ∈ summary_template.TEMPLATES.
Proof.
  unfold summary_template.resolve.
  destruct (find_first _ summary_template.TEMPLATES) as [t|] eqn:E.
  - apply find_first_Some in E as [Hin _]. eauto.
  - eexists. split; [reflexivity|]. left.
Qed.

Lemma canonical_id_known s :
  summary_template.is_known s = true ->
  to_ascii_lowercase (summary_template.canonical_id s) = to_ascii_lowercase (trim s).
Proof.
  unfold summary_template.is_known, summary_template.canonical_id, summary_template.resolve.
  intros H. destruct (find_first _ summary_template.TEMPLATES) as [t|] eqn:E.
  - apply find_first_Some in E as [_ Ht]. by apply eq_ignore_ascii_case_spec.
  - rewrite find_first_None in E. apply existsb_elem in H as (t & Hin & Ht).
    by rewrite (E t Hin) in Ht.
Qed.

Lemma http_status_code e1 e2 :
  Error.code e1 = Error.code e2 -> Error.http_status e1 = Error.http_status e2.
Proof. destruct e1, e2; cbn; intros [=]; reflexivity. Qed.
