(* ===== verification/RustPath.v ===== *)
(** * Rust paths

    A Unix [Path] is its text.  Components are cut at slashes; empty ones and
    [.] do not count, except a leading [.].  [join] is [storage.path_join]. *)

From Stdlib Require Import Ascii String.
From S2P Require Import Prelude RustStr Types.

#[local] Arguments String.append !_ _ /.

(** [s.split(c)] *)
Fixpoint split_char (c : ascii) (s : string) : list string :=
  match s with
  | EmptyString => [""]
  | String a s' =>
      if Ascii.eqb a c then "" :: split_char c s'
      else match split_char c s' with h :: t => String a h :: t | [] => [String a ""] end
  end.

(** A part that names nothing. *)
Definition is_noop (part : string) : bool := is_empty part || String.eqb part ".".

(** [Path::file_name] *)
Definition file_name (p : string) : option string :=
  match last (bfilter (fun c => negb (is_noop c)) (split_char "/" p)) with
  | Some f => if String.eqb f ".." then None else Some f
  | None => None
  end.

(** [Path::extension] *)
Definition path_extension (p : string) : option string :=
  match file_name p with
  | None => None
  | Some f =>
      match reverse (split_char "." f) with
      | ext :: ((_ :: _) as stem) => if is_empty (join "." (reverse stem)) then None else Some ext
      | _ => None
      end
  end.

(** The parts without those at the end that name nothing. *)
Definition trim_parts (parts : list string) : list string :=
  foldr (fun x acc => match acc with [] => if is_noop x then [] else [x] | _ => x :: acc end) [] parts.

(** [Path::parent] of a path with a last component; [None] of the root and of
    the empty path. *)
Definition parent (p : string) : option string :=
  let pop lead body :=
    match trim_parts body with
    | [] => None
    | body' => Some (join "/" (lead ++ trim_parts (removelast body')))
    end in
  match split_char "/" p with
  | lead :: ((_ :: _) as body) =>
      if is_empty lead then match pop [""] body with Some d => Some (if is_empty d then "/" else d) | None => None end
      else if String.eqb lead "." then match pop ["."] body with Some d => Some d | None => Some "" end
      else pop [] (lead :: body)
  | parts => if String.eqb p "." then Some "" else pop [] parts
  end.

(** [PathBuf::set_file_name] *)
Definition set_file_name (p name : string) : string :=
  let p := match file_name p with Some _ => default p (parent p) | None => p end in
  storage.path_join p name.

(** [p.with_file_name(name)] is the same on a copy. *)
Definition with_file_name : string -> string -> string := set_file_name.

(** ** Properties *)

Definition no_slash (s : string) : Prop := all_bytes (fun a => negb (Ascii.eqb a "/")) s = true.

Lemma split_char_none c s : all_bytes (fun a => negb (Ascii.eqb a c)) s = true -> split_char c s = [s].
Proof.
  induction s as [|a s IH]; cbn; [done|]. intros [Ha Hs]%andb_prop. apply negb_true_iff in Ha. by rewrite Ha, IH.
Qed.

Lemma split_char_not_nil c s : split_char c s <> [].
Proof. destruct s as [|a s]; cbn; [done|]. destruct (Ascii.eqb a c); [done|]. by destruct (split_char c s). Qed.

Lemma split_char_app c s t : split_char c (s +:+ String c t) = split_char c s ++ split_char c t.
Proof.
  induction s as [|a s IH]; cbn; [by rewrite Ascii.eqb_refl|]. destruct (Ascii.eqb a c); [by rewrite IH|].
  rewrite IH. destruct (split_char c s) eqn:E; [by apply split_char_not_nil in E|done].
Qed.

Lemma split_char_parts c s part : part ∈ split_char c s -> all_bytes (fun a => negb (Ascii.eqb a c)) part = true.
Proof.
  revert part. induction s as [|a s IH]; intros part; cbn; [by intros ->%list_elem_of_singleton|].
  destruct (Ascii.eqb a c) eqn:E.
  - intros [->|H]%elem_of_cons; [done|by apply IH].
  - destruct (split_char c s) as [|h t] eqn:Es; [by apply split_char_not_nil in Es|].
    intros [->|H]%elem_of_cons; [|apply IH; by right]. cbn. rewrite E. apply IH. by left.
Qed.

(** The name of a file in a directory is the name. *)
Lemma file_name_join d n :
  no_slash n -> is_noop n = false -> n <> ".." -> file_name (storage.path_join d n) = Some n.
Proof.
  intros Hs Hn Hd. unfold file_name.
  assert (Hlast : forall l, last (bfilter (fun c => negb (is_noop c)) (l ++ [n])) = Some n).
  { intros l. rewrite bfilter_app. cbn. rewrite Hn. cbn. apply last_snoc. }
  assert (Hsplit : exists l, split_char "/" (storage.path_join d n) = l ++ [n]).
  { unfold storage.path_join. destruct n as [|a n]; [done|]. cbn in Hs. apply andb_prop in Hs as [Ha Hs].
    assert (Hna : no_slash (String a n)) by (unfold no_slash; cbn; by rewrite Ha).
    replace (match a with "/"%char => String a n | _ => _ end) with
      (if is_empty d then String a n
       else if String.eqb (trim_end_matches (String.eqb "/") d) d then d +:+ "/" +:+ String a n else d +:+ String a n).
    2:{ apply negb_true_iff, Ascii.eqb_neq in Ha. destruct a as [[] [] [] [] [] [] [] []]; done. }
    destruct (is_empty d); [exists []; by apply split_char_none|].
    destruct (String.eqb_spec (trim_end_matches (String.eqb "/") d) d) as [He|Hne].
    - change ("/" +:+ String a n) with (String "/" (String a n)). rewrite split_char_app, (split_char_none _ (String a n)) by done. eauto.
    - assert (exists d', d = d' +:+ "/") as [d' ->].
      { unfold trim_end_matches in Hne. destruct (drop_while_end_prefix (String.eqb "/") (chars d)) as (l2 & Hl & Hall).
        destruct l2 as [|c l2 _] using rev_ind.
        - rewrite app_nil_r in Hl. rewrite <- Hl, concat_chars in Hne. done.
        - apply Forall_app in Hall as [_ Hc]. apply Forall_inv, String.eqb_eq in Hc. subst c.
          exists (str_concat (drop_while_end (String.eqb "/") (chars d) ++ l2)).
          rewrite <- (concat_chars d) at 1. rewrite Hl at 1. rewrite app_assoc, str_concat_app. done. }
      rewrite append_assoc. change ("/" +:+ String a n) with (String "/" (String a n)).
      rewrite split_char_app, (split_char_none _ (String a n)) by done. eauto. }
  destruct Hsplit as [l ->]. rewrite Hlast. destruct (String.eqb_spec n ".."); done.
Qed.

Lemma file_name_set p n : no_slash n -> is_noop n = false -> n <> ".." -> file_name (set_file_name p n) = Some n.
Proof. intros. unfold set_file_name. by apply file_name_join. Qed.

(** A file name is a single part that names something. *)
Lemma file_name_part p n : file_name p = Some n -> no_slash n /\ is_noop n = false /\ n <> "..".
Proof.
  unfold file_name. destruct (last _) as [f|] eqn:E; [|done]. destruct (String.eqb_spec f ".."); [done|]. intros [= <-].
  apply last_Some_elem_of, elem_of_bfilter in E as [E Hp]. split; [by apply split_char_parts in E|].
  by apply negb_true_iff in Hp.
Qed.

Example path_parts :
  map parent ["/usr/bin/scribe"; "/scribe"; "scribe"; "./scribe"; "."; "/"; ""; "a//b/./"] =
    [Some "/usr/bin"; Some "/"; Some ""; Some "."; Some ""; None; None; Some "a"] /\
  map path_extension ["/a/000001.wav"; "/a/.wav"; "x.b.ogg"; "plain"; "/"] =
    [Some "wav"; None; Some "ogg"; None; None] /\
  map (fun p => set_file_name p "new") ["/usr/bin/scribe"; "/scribe"; "scribe"; ".."] =
    ["/usr/bin/new"; "/new"; "new"; "../new"].
Proof. vm_compute. repeat split. Qed.

(** ** Another extension *)

(** [Path::file_stem] of a name. *)
Definition stem_of (f : string) : string :=
  match reverse (split_char "." f) with
  | _ :: ((_ :: _) as before) => let stem := join "." (reverse before) in if is_empty stem then f else stem
  | _ => f
  end.

(** [p.with_extension(ext)]: the text is cut after the stem of the last part. *)
Definition with_extension (p ext : string) : string :=
  match file_name p with
  | None => p
  | Some f =>
      let upto := join "/" (trim_parts (split_char "/" p)) in
      String.substring 0 (String.length upto - String.length f) upto +:+ stem_of f +:+ (if is_empty ext then "" else "." +:+ ext)
  end.

Example extensions :
  map (fun p => with_extension p "part") ["/m/asr/encoder.onnx"; "tokens.txt"; "/m/.hidden"; "a.b.c/"; "/"; "x"] =
    ["/m/asr/encoder.part"; "tokens.part"; "/m/.hidden.part"; "a.b.part"; "/"; "x.part"].
Proof. vm_compute. reflexivity. Qed.

(** A directory's text as [join] leaves it before the name it appends. *)
Definition lead (d : string) : string :=
  if is_empty d then "" else if String.eqb (trim_end_matches (String.eqb "/") d) d then d +:+ "/" else d.

Lemma path_join_lead d n : no_slash n -> n <> "" -> storage.path_join d n = lead d +:+ n.
Proof.
  intros Hs Hn. unfold storage.path_join, lead. destruct n as [|a n]; [done|]. unfold no_slash in Hs. cbn in Hs. apply andb_prop in Hs as [Ha _].
  apply negb_true_iff, Ascii.eqb_neq in Ha.
  replace (match a with "/"%char => String a n | _ => _ end) with
    (if is_empty d then String a n
     else if String.eqb (trim_end_matches (String.eqb "/") d) d then d +:+ "/" +:+ String a n else d +:+ String a n)
    by (destruct a as [[] [] [] [] [] [] [] []]; done).
  destruct (is_empty d); [done|]. destruct (String.eqb _ d); [|done]. by rewrite append_assoc.
Qed.

Lemma lead_slash d : lead d = "" \/ exists d', lead d = d' +:+ "/".
Proof.
  unfold lead. destruct (is_empty d) eqn:Ed; [by left|]. right.
  destruct (String.eqb_spec (trim_end_matches (String.eqb "/") d) d) as [He|Hne]; [by exists d|].
  unfold trim_end_matches in Hne. destruct (drop_while_end_prefix (String.eqb "/") (chars d)) as (l2 & Hl & Hall).
  destruct l2 as [|c l2 _] using rev_ind.
  - rewrite app_nil_r in Hl. rewrite <- Hl, concat_chars in Hne. done.
  - apply Forall_app in Hall as [_ Hc]. apply Forall_inv, String.eqb_eq in Hc. subst c.
    exists (str_concat (drop_while_end (String.eqb "/") (chars d) ++ l2)).
    rewrite <- (concat_chars d) at 1. rewrite Hl at 1. rewrite app_assoc, str_concat_app. done.
Qed.

Lemma split_lead d n : no_slash n -> exists l, split_char "/" (lead d +:+ n) = l ++ [n].
Proof.
  intros Hs. destruct (lead_slash d) as [-> | [d' ->]]; [exists []; by apply split_char_none|].
  rewrite append_assoc. change ("/" +:+ n) with (String "/" n). rewrite split_char_app, (split_char_none _ n) by done. eauto.
Qed.

Lemma join_split c s : join (String c "") (split_char c s) = s.
Proof.
  unfold join. induction s as [|a s IH]; [done|]. cbn [split_char]. destruct (Ascii.eqb_spec a c) as [->|Hne].
  - pose proof (split_char_not_nil c s). destruct (split_char c s) as [|h t] eqn:E; [done|]. cbn [String.concat] in *. by rewrite <- IH.
  - destruct (split_char c s) as [|h t] eqn:E; [by apply split_char_not_nil in E|].
    destruct t as [|h2 t]; cbn [String.concat] in *; by rewrite <- IH.
Qed.

Lemma trim_parts_snoc l n : is_noop n = false -> trim_parts (l ++ [n]) = l ++ [n].
Proof.
  intros Hn. unfold trim_parts. induction l as [|x l IH]; cbn; [by rewrite Hn|]. cbn in IH. rewrite IH. by destruct (l ++ [n]) eqn:E; [destruct l|].
Qed.

Lemma substring_prefix a b : String.substring 0 (String.length a) (a +:+ b) = a.
Proof. induction a as [|c a IH]; cbn; [by destruct b|]. by rewrite IH. Qed.

Lemma append_length a b : String.length (a +:+ b) = (String.length a + String.length b)%nat.
Proof. induction a as [|c a IH]; cbn; [done|]. by rewrite IH. Qed.

(** A name's extension is replaced, and its directory kept. *)
Lemma with_extension_join d n ext :
  no_slash n -> is_noop n = false -> n <> ".." ->
  with_extension (storage.path_join d n) ext = lead d +:+ stem_of n +:+ (if is_empty ext then "" else "." +:+ ext).
Proof.
  intros Hs Hn Hd. assert (n <> "") by (intros ->; done). unfold with_extension. rewrite file_name_join by done.
  rewrite path_join_lead by done. destruct (split_lead d n Hs) as [l Hl]. rewrite Hl, trim_parts_snoc by done.
  rewrite <- Hl. change "/" with (String "/" ""). rewrite join_split, append_length.
  replace (String.length (lead d) + String.length n - String.length n)%nat with (String.length (lead d)) by lia.
  by rewrite substring_prefix.
Qed.

(** Joining a name to a joined path. *)
Lemma lead_join d n : no_slash n -> n <> "" -> lead (lead d +:+ n) = lead d +:+ n +:+ "/".
Proof.
  intros Hs Hn. unfold lead at 1.
  assert (He : is_empty (lead d +:+ n) = false).
  { unfold is_empty. apply String.eqb_neq. intros E. apply (f_equal String.length) in E. rewrite append_length in E. destruct n; [done|cbn in E; lia]. }
  rewrite He. destruct (String.eqb_spec (trim_end_matches (String.eqb "/") (lead d +:+ n)) (lead d +:+ n)) as [_|Hne]; [by rewrite append_assoc|].
  exfalso. unfold trim_end_matches in Hne. destruct (drop_while_end_prefix (String.eqb "/") (chars (lead d +:+ n))) as (l2 & Hl & Hall).
  destruct l2 as [|c l2 _] using rev_ind.
  - rewrite app_nil_r in Hl. rewrite <- Hl, concat_chars in Hne. done.
  - apply Forall_app in Hall as [_ Hc]. apply Forall_inv, String.eqb_eq in Hc. subst c.
    pose proof (concat_chars (lead d +:+ n)) as Hd. rewrite Hl, app_assoc, str_concat_app in Hd. cbn in Hd.
    destruct (split_lead d n Hs) as [l Hsplit]. rewrite <- Hd in Hsplit.
    change (String "/" "") with (String "/" EmptyString) in Hsplit. rewrite split_char_app in Hsplit. cbn in Hsplit.
    apply app_inj_tail in Hsplit as [_ Hn']. done.
Qed.

(** [q] lies at or under the path [p]. *)
Definition within (p q : string) : bool := bool_decide (is_Some (strip_prefix (lead p) q)).

Lemma strip_prefix_common c a b : strip_prefix (c +:+ a) (c +:+ b) = strip_prefix a b.
Proof. induction c as [|x c IH]; cbn; [done|]. by rewrite Ascii.eqb_refl. Qed.

Lemma append_inj_l c a b : c +:+ a = c +:+ b -> a = b.
Proof. induction c as [|x c IH]; cbn; [done|]. intros [= H]. by apply IH. Qed.
