(* ===== verification/Utf8.v ===== *)
(** * UTF-8 read leniently and strictly

    [String::from_utf8_lossy] and [String::from_utf8] as [std] defines them: the
    bytes are cut into characters and ill-formed sequences, the longest prefix of
    a character that is there being one sequence. *)

From Stdlib Require Import Ascii String.
From S2P Require Import Prelude RustStr.

#[local] Arguments String.append !_ _ /.

Definition in_range (lo hi b : N) : bool := (lo <=? b)%N && (b <=? hi)%N.
Definition tail_byte : N -> bool := in_range 128 191.

(** How long a character that starts with [b] is; 0 when none does. *)
Definition utf8_width (b : N) : N :=
  if (b <? 128)%N then 1 else if in_range 194 223 b then 2 else if in_range 224 239 b then 3
  else if in_range 240 244 b then 4 else 0.

(** The second byte of a longer character: no overlong form, no surrogate, and
    nothing past the last code point. *)
Definition second_byte (b c : N) : bool :=
  if (b =? 224)%N then in_range 160 191 c
  else if (b =? 237)%N then in_range 128 159 c
  else if (b =? 240)%N then in_range 144 191 c
  else if (b =? 244)%N then in_range 128 143 c
  else tail_byte c.

(** [Some] character or [None] for an ill-formed sequence. *)
Fixpoint utf8_chunks (l : list N) : list (option string) :=
  match l with
  | [] => []
  | b :: l1 =>
      if (utf8_width b =? 0)%N then None :: utf8_chunks l1
      else if (utf8_width b =? 1)%N then Some (bytes [b]) :: utf8_chunks l1
      else
        match l1 with
        | c :: l2 =>
            if negb (second_byte b c) then None :: utf8_chunks l1
            else if (utf8_width b =? 2)%N then Some (bytes [b; c]) :: utf8_chunks l2
            else
              match l2 with
              | d :: l3 =>
                  if negb (tail_byte d) then None :: utf8_chunks l2
                  else if (utf8_width b =? 3)%N then Some (bytes [b; c; d]) :: utf8_chunks l3
                  else
                    match l3 with
                    | e :: l4 =>
                        if negb (tail_byte e) then None :: utf8_chunks l3
                        else Some (bytes [b; c; d; e]) :: utf8_chunks l4
                    | [] => [None]
                    end
              | [] => [None]
              end
        | [] => [None]
        end
  end.

(** U+FFFD *)
Definition replacement : string := bytes [239; 191; 189]%N.

Definition from_utf8_lossy (l : list N) : string := str_concat (map (default replacement) (utf8_chunks l)).

Definition from_utf8 (l : list N) : option string :=
  if forallb (fun c => bool_decide (is_Some c)) (utf8_chunks l)
  then Some (str_concat (map (default "") (utf8_chunks l))) else None.

(** [str::as_bytes] *)
Definition as_bytes (s : string) : list N := map N_of_ascii (list_ascii_of_string s).

Definition is_ascii (a : ascii) : bool := (byte_of a <? 128)%N.

(** ASCII text is read back as it was. *)
Lemma utf8_chunks_ascii s :
  all_bytes is_ascii s = true -> utf8_chunks (as_bytes s) = map (fun a => Some (String a "")) (list_ascii_of_string s).
Proof.
  induction s as [|a s IH]; [done|]. cbn [all_bytes]. intros [Ha Hs]%andb_prop. unfold is_ascii, byte_of in Ha.
  change (as_bytes (String a s)) with (N_of_ascii a :: as_bytes s). cbn [utf8_chunks list_ascii_of_string map].
  unfold utf8_width. rewrite Ha. cbn [N.eqb Pos.eqb]. rewrite IH by done. unfold bytes. cbn [foldr]. by rewrite ascii_N_embedding.
Qed.

Lemma from_utf8_lossy_ascii s : all_bytes is_ascii s = true -> from_utf8_lossy (as_bytes s) = s.
Proof.
  intros Hs. unfold from_utf8_lossy. rewrite utf8_chunks_ascii by done. clear Hs.
  induction s as [|a s IH]; cbn; [done|]. f_equal. exact IH.
Qed.

Example lossy_cuts :
  from_utf8_lossy [97; 240; 144; 97; 237; 160; 128; 195; 169; 226; 130]%N =
    "a" +:+ replacement +:+ "a" +:+ replacement +:+ replacement +:+ replacement +:+ bytes [195; 169]%N +:+ replacement /\
  from_utf8 [195; 169]%N = Some (bytes [195; 169]%N) /\ from_utf8 [195]%N = None.
Proof. vm_compute. repeat split. Qed.
