(* ===== verification/Llm.v ===== *)
(** * The models the pipeline talks to: [crates/scribe-llm]

    [Embedder] is the embedding trait with its documented contract,
    [LanguageModel] what the stages use of the chat client, and [ChatClient] the
    client itself over an HTTP transport.  The servers, [reqwest] and the derived
    [serde] readers of their replies are parameters. *)

From Stdlib Require Import Ascii String.
From S2P Require Import Prelude RustStr Types.

(** ** Embeddings *)

Class Embedder := {
  embed : list string -> result Error (list (list f32));
  dim : Z;
}.

(** What the trait's documentation promises of every backend. *)
Class EmbedderLaws `{Embedder} : Prop := {
  embed_length : forall texts vs, embed texts = Ok vs -> length vs = length texts;
  embed_dim : forall texts vs, embed texts = Ok vs -> Forall (fun v => Z.of_nat (length v) = dim) vs;
}.

(** The provided method: [out.pop().ok_or_else(..)]. *)
Definition embed_one `{Embedder} (text : string) : result Error (list f32) :=
  match embed [text] with
  | Err e => Err e
  | Ok out =>
      match last out with
      | Some v => Ok v
      | None => Err (Model "embedder returned no vector for input")
      end
  end.

(** ** Chat *)

Record ChatMessage := mkChatMessage { role : string; content : string }.

Module ChatMessage.
Definition system (content : string) : ChatMessage := mkChatMessage "system" content.
Definition user (content : string) : ChatMessage := mkChatMessage "user" content.
Definition assistant (content : string) : ChatMessage := mkChatMessage "assistant" content.
End ChatMessage.

(** What the stages ask of a language model: [chat(model, messages)]. *)
Class LanguageModel := chat : string -> list ChatMessage -> result Error string.

Record ChatOptions := mkChatOptions {
  temperature : option f32; top_p : option f32; max_tokens : option Z; num_ctx : option Z;
}.

Module ChatOptions.
Definition default : ChatOptions := mkChatOptions None None None None.
Definition is_empty (o : ChatOptions) : bool :=
  bool_decide (temperature o = None) && bool_decide (top_p o = None) &&
  bool_decide (max_tokens o = None) && bool_decide (num_ctx o = None).
End ChatOptions.

Inductive LlmProvider := Ollama | Openai.

#[export] Instance LlmProvider_eq_dec : EqDecision LlmProvider.
Proof. solve_decision. Defined.

Record ChatClient := mkChatClient {
  base_url : string; provider : LlmProvider; api_key : option string;
}.

(** The bodies the two providers get.  Ollama's [options] are an object built
    only when some option is set; the other's are flat optional fields. *)
Inductive ChatBody :=
| OllamaBody (model : string) (messages : list ChatMessage) (stream : bool) (options : option ChatOptions)
| OpenaiBody (model : string) (messages : list ChatMessage) (stream : bool)
    (temperature top_p : option f32) (max_tokens : option Z).

(** What comes back from a request that was sent: a status, and the body unless
    reading it fails. *)
Record HttpResponse := mkResponse { status : Z; text : result string string }.

Class Transport := {
  post : string -> option string -> ChatBody -> result string HttpResponse;
  get : string -> option string -> result string Z;
  (** [Display] of a [StatusCode]. *)
  status_line : Z -> string;
  (** [serde_json::from_str] of the two [Resp] types: the contents they carry. *)
  decode_ollama : string -> result string string;
  decode_openai : string -> result string (list string);
}.

Definition is_success (status : Z) : bool := (200 <=? status) && (status <? 300).

(** [base.ends_with("/v1")] *)
Definition ends_with (suffix s : string) : bool :=
  let n := (String.length s - String.length suffix)%nat in
  (String.length suffix <=? String.length s)%nat && String.eqb (String.substring n (String.length suffix) s) suffix.

Definition new_client (provider : LlmProvider) (base_url : string) (api_key : option string) : ChatClient :=
  let base := trim_end_matches (fun c => String.eqb c "/") base_url in
  mkChatClient
    (if bool_decide (provider = Openai) && negb (ends_with "/v1" base) then base +:+ "/v1" else base)
    provider api_key.

Section client.
Context `{Transport}.

Definition post_chat (c : ChatClient) (url : string) (body : ChatBody) (model : string) : result Error string :=
  match post url (api_key c) body with
  | Err e => Err (Http ("chat request to " +:+ url +:+ " failed: " +:+ e))
  | Ok resp =>
      if negb (is_success (status resp)) then
        let t := match text resp with Ok t => t | Err _ => "" end in
        if status resp =? 404 then
          Err (Model ("model `" +:+ model +:+ "` not available (404 from " +:+ url +:+ "): " +:+ t))
        else Err (Http ("chat returned " +:+ status_line (status resp) +:+ " from " +:+ url +:+ ": " +:+ t))
      else
        match text resp with
        | Ok t => Ok t
        | Err e => Err (Http ("reading chat response from " +:+ url +:+ " failed: " +:+ e))
        end
  end.

Definition chat_ollama (c : ChatClient) (model : string) (messages : list ChatMessage) (options : ChatOptions)
    : result Error string :=
  let opts := if ChatOptions.is_empty options then None else Some options in
  let url := base_url c +:+ "/api/chat" in
  match post_chat c url (OllamaBody model messages false opts) model with
  | Err e => Err e
  | Ok t =>
      match decode_ollama t with
      | Ok content => Ok content
      | Err e => Err (Http ("decoding ollama chat response failed: " +:+ e))
      end
  end.

Definition chat_openai (c : ChatClient) (model : string) (messages : list ChatMessage) (options : ChatOptions)
    : result Error string :=
  let url := base_url c +:+ "/chat/completions" in
  let body := OpenaiBody model messages false (temperature options) (top_p options) (max_tokens options) in
  match post_chat c url body model with
  | Err e => Err e
  | Ok t =>
      match decode_openai t with
      | Err e => Err (Http ("decoding openai chat response failed: " +:+ e))
      | Ok [] => Err (Model (url +:+ " returned no choices"))
      | Ok (content :: _) => Ok content
      end
  end.

Definition chat_with (c : ChatClient) (model : string) (messages : list ChatMessage) (options : ChatOptions)
    : result Error string :=
  match provider c with
  | Ollama => chat_ollama c model messages options
  | Openai => chat_openai c model messages options
  end.

(** The client as a language model. *)
Definition client_chat (c : ChatClient) : LanguageModel :=
  fun model messages => chat_with c model messages ChatOptions.default.

Definition health (c : ChatClient) : result Error bool :=
  let url := match provider c with
    | Ollama => base_url c +:+ "/api/tags"
    | Openai => base_url c +:+ "/models"
    end in
  match get url (api_key c) with
  | Err e => Err (Http ("llm health probe to " +:+ url +:+ " failed: " +:+ e))
  | Ok s => Ok (is_success s)
  end.

(** A client answers only with what a successful reply carries: every failure is
    an [Http] error, or a [Model] one for a model that is not there. *)
Lemma client_chat_errors c model messages e :
  client_chat c model messages = Err e -> exists m, e = Http m \/ e = Model m.
Proof.
  unfold client_chat, chat_with, chat_ollama, chat_openai, post_chat.
  intros Hc. repeat (case_match; simplify_eq; try by eauto).
Qed.
End client.
