(* ===== verification/F32.v ===== *)
(** * Binary32 arithmetic

    [f32] as IEEE binary32 through the Standard Library's specification of
    floats, the order [partial_cmp] gives, the equivalence that identifies the
    two zeros, and the median the voice matching uses. *)

From Stdlib Require Import SpecFloat Bool.
From S2P Require Import Prelude Types.

Definition F32_PREC : Z := 24.
Definition F32_EMAX : Z := 128.

Definition fadd : f32 -> f32 -> f32 := SFadd F32_PREC F32_EMAX.
Definition fsub : f32 -> f32 -> f32 := SFsub F32_PREC F32_EMAX.
Definition fmul : f32 -> f32 -> f32 := SFmul F32_PREC F32_EMAX.
Definition fdiv : f32 -> f32 -> f32 := SFdiv F32_PREC F32_EMAX.
Definition fsqrt : f32 -> f32 := SFsqrt F32_PREC F32_EMAX.

Definition fzero : f32 := S754_zero false.

(** [n as f32] for an integer, rounded to nearest even. *)
Definition of_Z (n : Z) : f32 := binary_normalize F32_PREC F32_EMAX n 0 false.

(** [a < b], [a <= b]: false when either is NaN. *)
Definition fltb : f32 -> f32 -> bool := SFltb.
Definition fleb : f32 -> f32 -> bool := SFleb.

(** [a.partial_cmp(b).unwrap_or(Equal)] *)
Definition cmp_or_equal (a b : f32) : comparison := default Eq (SFcompare a b).

(** [f32::EPSILON] is [2^-23]. *)
Definition EPSILON : f32 := S754_finite false 8388608 (-46).

Definition fsum (l : list f32) : f32 := foldl fadd fzero l.

Definition is_nan (a : f32) : bool := match a with S754_nan => true | _ => false end.

(** ** The order *)

Lemma SFcompare_antisym a b : SFcompare b a = CompOpp <$> SFcompare a b.
Proof.
  destruct a as [[]|[]| |[] m e], b as [[]|[]| |[] m' e']; try done; cbn.
  all: rewrite (Z.compare_antisym e e'); destruct (e ?= e') eqn:E; cbn; try done.
  all: rewrite (Pos.compare_cont_antisym m m' Eq); cbn; by rewrite ?CompOpp_involutive.
Qed.

Lemma SFcompare_refl a : is_nan a = false -> SFcompare a a = Some Eq.
Proof.
  destruct a as [[]|[]| |[] m e]; try done; intros _; cbn; rewrite Z.compare_refl.
  all: change (Pos.compare_cont Eq m m) with (m ?= m)%positive; by rewrite Pos.compare_refl.
Qed.

(** The numbers [partial_cmp] cannot tell apart: equal, or two zeros. *)
Definition feqv (a b : f32) : Prop :=
  a = b \/ (exists s t, a = S754_zero s /\ b = S754_zero t).

#[export] Instance feqv_equivalence : Equivalence feqv.
Proof.
  split.
  - intros a. by left.
  - intros a b [->|(s & t & -> & ->)]; [by left|right; eauto].
  - intros a b c [->|(s & t & -> & ->)]; [done|].
    intros [<-|(s' & t' & _ & ->)]; right; eauto.
Qed.

Lemma SFcompare_Eq a b : SFcompare a b = Some Eq -> feqv a b.
Proof.
  destruct a as [s|[]| |[] m e], b as [t|[]| |[] m' e']; try done; cbn; try (intros _; by left);
    try (intros _; right; by eauto).
  all: destruct (Z.compare_spec e e') as [->|?|?]; try done.
  all: change (Pos.compare_cont Eq m m') with (m ?= m')%positive.
  all: destruct (Pos.compare_spec m m') as [->|?|?]; try done; intros _; by left.
Qed.

#[export] Instance SFcompare_proper : Proper (feqv ==> feqv ==> eq) SFcompare.
Proof.
  intros a a' [->|(s & t & -> & ->)] b b' [->|(s' & t' & -> & ->)]; done.
Qed.

#[export] Instance fltb_proper : Proper (feqv ==> feqv ==> eq) fltb.
Proof. intros a a' Ha b b' Hb. unfold fltb, SFltb. by rewrite Ha, Hb. Qed.

#[export] Instance is_nan_proper : Proper (feqv ==> eq) is_nan.
Proof. by intros a a' [->|(s & t & -> & ->)]. Qed.

#[export] Instance fadd_proper : Proper (feqv ==> feqv ==> feqv) fadd.
Proof.
  intros a a' [->|(s & t & -> & ->)] b b' [->|(s' & t' & -> & ->)]; try done.
  - destruct a' as [[]|[]| |[]], s', t'; cbn; try (by left); right; by eauto.
  - destruct b' as [[]|[]| |[]], s, t; cbn; try (by left); right; by eauto.
  - destruct s, t, s', t'; cbn; try (by left); right; by eauto.
Qed.

#[export] Instance fsub_proper : Proper (feqv ==> feqv ==> feqv) fsub.
Proof.
  intros a a' [->|(s & t & -> & ->)] b b' [->|(s' & t' & -> & ->)]; try done.
  - destruct a' as [[]|[]| |[]], s', t'; cbn; try (by left); right; by eauto.
  - destruct b' as [[]|[]| |[]], s, t; cbn; try (by left); right; by eauto.
  - destruct s, t, s', t'; cbn; try (by left); right; by eauto.
Qed.

(** Scaling by a constant that is neither zero, infinite nor NaN. *)
Lemma fmul_proper_const s m e : Proper (feqv ==> feqv) (fmul (S754_finite s m e)).
Proof. intros a a' [->|(u & t & -> & ->)]; [by left|]. cbn. right. by eauto. Qed.

Lemma fdiv_proper_const s m e : Proper (feqv ==> feqv) (fun a => fdiv a (S754_finite s m e)).
Proof. intros a a' [->|(u & t & -> & ->)]; [by left|]. cbn. right. by eauto. Qed.

(** [cmp_or_equal] as the boolean [sort_by] takes: not greater. *)
Definition fle (a b : f32) : bool := match cmp_or_equal a b with Gt => false | _ => true end.

#[export] Instance fle_proper : Proper (feqv ==> feqv ==> eq) fle.
Proof. intros a a' Ha b b' Hb. unfold fle, cmp_or_equal. by rewrite Ha, Hb. Qed.

Lemma fle_total a b : fle a b = true \/ fle b a = true.
Proof.
  unfold fle, cmp_or_equal. rewrite (SFcompare_antisym a b).
  destruct (SFcompare a b) as [[]|]; cbn; auto.
Qed.

(** The value of the order without NaN, as a lexicographic key. *)
Definition fkey (a : f32) : Z * Z * Z :=
  match a with
  | S754_nan => (0, 0, 0)
  | S754_zero _ => (0, 0, 0)
  | S754_infinity true => (-2, 0, 0)
  | S754_infinity false => (2, 0, 0)
  | S754_finite true m e => (-1, - e, - Zpos m)
  | S754_finite false m e => (1, e, Zpos m)
  end.

Definition key_le (x y : Z * Z * Z) : Prop :=
  let '(a, b, c) := x in let '(a', b', c') := y in
  a < a' \/ (a = a' /\ (b < b' \/ (b = b' /\ c <= c'))).

Lemma fle_key a b : is_nan a = false -> is_nan b = false -> (fle a b = true <-> key_le (fkey a) (fkey b)).
Proof.
  intros Ha Hb. unfold fle, cmp_or_equal.
  destruct a as [s|[]| |[] m e], b as [t|[]| |[] m' e']; try done; cbn; try (split; [lia|done]); try lia.
  all: destruct (Z.compare_spec e e') as [->|?|?]; cbn; try lia.
  all: try (change (Pos.compare_cont Eq m m') with (m ?= m')%positive;
    destruct (Pos.compare_spec m m') as [->|?|?]; cbn; lia).
  all: split; [try done; lia|done].
Qed.
