(* ===== verification/Schedule.v ===== *)
(** * The processing schedule: [crates/scribe-core/src/schedule.rs]

    Wall-clock instants are nanoseconds on the local clock, dates are day
    numbers on it, and window edges are minutes, as in the source.  What the
    code uses of [chrono]'s calendar is the class [Calendar]. *)

From S2P Require Import Prelude RustStr Types.

Definition SETTING_KEY : string := "processing_schedule".
Definition MINUTES_PER_DAY : Z := 1440.
Definition MAX_OVERRIDE_MINUTES : Z := 24 * 60.
Definition LOOKAHEAD_DAYS : Z := 8.

Definition NANOS_PER_SEC : Z := 1000000000.
Definition NANOS_PER_MINUTE : Z := 60 * NANOS_PER_SEC.
Definition NANOS_PER_DAY : Z := MINUTES_PER_DAY * NANOS_PER_MINUTE.

(** [TimeDelta::num_seconds]: whole seconds, towards zero. *)
Definition num_seconds (d : Z) : Z := Z.quot d NANOS_PER_SEC.

(** ** The calendar *)

Class Calendar := {
  (** [date.weekday().num_days_from_monday()] *)
  num_days_from_monday : Z -> nat;
  (** is this day number a [NaiveDate] at all? *)
  date_in_range : Z -> bool;
}.

Class CalendarLaws `{Calendar} := {
  weekday_bound : forall d, (num_days_from_monday d < 7)%nat;
  weekday_succ : forall d, num_days_from_monday (d + 1) = (S (num_days_from_monday d) mod 7)%nat;
  date_range_convex : forall a b c, a <= b <= c ->
    date_in_range a = true -> date_in_range c = true -> date_in_range b = true;
}.

(** Day numbers from 1970-01-01, a Thursday, over a range inside [chrono]'s. *)
#[export] Instance unix_calendar : Calendar := {|
  num_days_from_monday d := Z.to_nat ((d + 3) mod 7);
  date_in_range d := (-95000000 <=? d) && (d <=? 95000000);
|}.

#[export] Instance unix_calendar_laws : @CalendarLaws unix_calendar.
Proof.
  split; unfold num_days_from_monday, date_in_range, unix_calendar.
  - intros d. pose proof (Z.mod_pos_bound (d + 3) 7). lia.
  - intros d. pose proof (Z.mod_pos_bound (d + 3) 7). pose proof (Z.mod_pos_bound (d + 1 + 3) 7).
    apply Nat2Z.inj. rewrite Nat2Z.inj_mod, Nat2Z.inj_succ, !Z2Nat.id by lia.
    replace (d + 1 + 3) with (d + 3 + 1) by lia. unfold Z.succ.
    change (Z.of_nat 7) with 7. by rewrite Z.add_mod_idemp_l.
  - intros a b c ???. bool_to_prop. apply andb_true_intro. split; apply Z.leb_le; lia.
Qed.

(** [date.checked_add_signed(Duration::days(offset))] *)
Definition checked_add_days `{Calendar} (date offset : Z) : option Z :=
  if date_in_range (date + offset) then Some (date + offset) else None.

Definition date_of (t : Instant) : Z := t / NANOS_PER_DAY.
Definition midnight_of (date : Z) : Instant := date * NANOS_PER_DAY.

(** ** The policy *)

Record DayWindow := mkDay { day_enabled : bool; day_start : Z; day_end : Z }.

Module DayWindow.
Definition OFF : DayWindow := mkDay false 540 1020.

(** [u16] arithmetic, as a release build computes it. *)
Definition length_minutes (d : DayWindow) : Z :=
  if day_start d <? day_end d then wrap 16 (day_end d - day_start d)
  else wrap 16 (wrap 16 (MINUTES_PER_DAY - day_start d) + day_end d).
End DayWindow.

Inductive OverrideMode := Run | Pause.
Record ScheduleOverride := mkOverride { ov_mode : OverrideMode; ov_until : Instant }.

Record ProcessingSchedule := mkSchedule {
  sched_enabled : bool;
  sched_days : list DayWindow;
  sched_grace_minutes : Z;
  sched_override : option ScheduleOverride;
}.

Inductive ScheduleReason := Disabled | InWindow | OutsideWindow | OverrideRun | OverridePause.

Record ScheduleDecision := mkDecision {
  dec_allowed : bool;
  dec_reason : ScheduleReason;
  dec_next_change_secs : option Z;
}.

Module ProcessingSchedule.
Definition default : ProcessingSchedule :=
  let weekday := mkDay true (9 * 60) (17 * 60) in
  mkSchedule false
    [weekday; weekday; weekday; weekday; weekday; DayWindow.OFF; DayWindow.OFF] 10 None.

Definition clamp_day (d : DayWindow) : DayWindow :=
  mkDay (day_enabled d) (Z.min (day_start d) MINUTES_PER_DAY) (Z.min (day_end d) MINUTES_PER_DAY).

(** [normalize], with the instant [Utc::now()] returns as an argument. *)
Definition normalize (now_utc : Instant) (s : ProcessingSchedule) : ProcessingSchedule :=
  let days := take 7 (sched_days s) in
  let days := days ++ replicate (7 - length days) DayWindow.OFF in
  mkSchedule (sched_enabled s) (map clamp_day days)
    (Z.min (sched_grace_minutes s) (24 * 60))
    (match sched_override s with
     | Some o => if ov_until o <=? now_utc then None else Some o
     | None => None
     end).

Section decide.
Context `{Calendar}.

(** One iteration of the first loop of [merged_windows]. *)
Definition day_window (s : ProcessingSchedule) (anchor offset : Z) : list (Instant * Instant) :=
  match checked_add_days anchor offset with
  | None => []
  | Some date =>
      match sched_days s !! num_days_from_monday date with
      | None => []
      | Some day =>
          if negb (day_enabled day) then []
          else
            let start := midnight_of date + day_start day * NANOS_PER_MINUTE in
            let stop := start + DayWindow.length_minutes day * NANOS_PER_MINUTE in
            [(start, stop)]
      end
  end.

(** The second loop, on the merged list in reverse: its head is [last_mut]. *)
Definition merge_push (merged : list (Instant * Instant)) (w : Instant * Instant) :=
  match merged with
  | last :: rest =>
      if fst w <=? snd last then (fst last, Z.max (snd last) (snd w)) :: rest
      else w :: merged
  | [] => [w]
  end.

Definition offsets : list Z := seqZ (-1) (LOOKAHEAD_DAYS + 1).

Definition raw_windows (s : ProcessingSchedule) (anchor : Z) : list (Instant * Instant) :=
  flat_map (day_window s anchor) offsets.

Definition merged_windows (s : ProcessingSchedule) (anchor : Z) : list (Instant * Instant) :=
  let out := sort_by (fun a b => fst a <=? fst b) (raw_windows s anchor) in
  reverse (foldl merge_push [] out).

Definition decide (s : ProcessingSchedule) (now_local now_utc : Instant) : ScheduleDecision :=
  let by_windows :=
    if negb (sched_enabled s) then mkDecision true Disabled None
    else
      let windows := merged_windows s (date_of now_local) in
      match find_first (fun w => (fst w <=? now_local) && (now_local <? snd w)) windows with
      | Some w => mkDecision true InWindow (Some (Z.max (num_seconds (snd w - now_local)) 0))
      | None =>
          let next := find_first (fun w => now_local <? fst w) windows in
          mkDecision false OutsideWindow
            ((fun w => Z.max (num_seconds (fst w - now_local)) 0) <$> next)
      end in
  match sched_override s with
  | Some o =>
      if now_utc <? ov_until o then
        let '(allowed, reason) :=
          match ov_mode o with Run => (true, OverrideRun) | Pause => (false, OverridePause) end in
        mkDecision allowed reason (Some (Z.max (num_seconds (ov_until o - now_utc)) 0))
      else by_windows
  | None => by_windows
  end.
End decide.

Definition claimable_kinds (configured : list JobKind) (d : ScheduleDecision) : list JobKind :=
  if dec_allowed d then configured else bfilter JobKind.bypasses_schedule configured.
End ProcessingSchedule.
Import ProcessingSchedule (clamp_day, normalize, day_window, merge_push, offsets, raw_windows, merged_windows, claimable_kinds).

(** ** The specification the windows implement *)

(** A stored schedule whose edges are evaluable: what [normalize] makes. *)
Definition wf_day (d : DayWindow) : Prop :=
  0 <= day_start d <= MINUTES_PER_DAY /\ 0 <= day_end d <= MINUTES_PER_DAY.

Definition wf_schedule (s : ProcessingSchedule) : Prop :=
  length (sched_days s) = 7%nat /\ Forall wf_day (sched_days s) /\
  0 <= sched_grace_minutes s <= 24 * 60.

(** The schedule as a user reads it: each weekday's window recurs on every such
    date, forever, and ends on the next day when its end is not after its start. *)
Definition day_minutes (d : DayWindow) : Z :=
  if day_start d <? day_end d then day_end d - day_start d
  else MINUTES_PER_DAY - day_start d + day_end d.

Definition in_window_of `{Calendar} (s : ProcessingSchedule) (date t : Z) : Prop :=
  date_in_range date = true /\
  exists day, sched_days s !! num_days_from_monday date = Some day /\
    day_enabled day = true /\
    let start := midnight_of date + day_start day * NANOS_PER_MINUTE in
    start <= t < start + day_minutes day * NANOS_PER_MINUTE.

Definition in_weekly_window `{Calendar} (s : ProcessingSchedule) (t : Instant) : Prop :=
  exists date, in_window_of s date t.

(** ** Lemmas *)

Lemma length_minutes_wf d : wf_day d -> DayWindow.length_minutes d = day_minutes d.
Proof.
  unfold wf_day, DayWindow.length_minutes, day_minutes, MINUTES_PER_DAY.
  intros [Hs He]. destruct (day_start d <? day_end d) eqn:E; bool_to_prop.
  - apply wrap_small. unfold in_u. lia.
  - rewrite (wrap_small 16 (1440 - day_start d)) by (unfold in_u; lia).
    apply wrap_small. unfold in_u. lia.
Qed.

Lemma day_minutes_bounds d : wf_day d -> 0 <= day_minutes d <= MINUTES_PER_DAY.
Proof.
  unfold wf_day, day_minutes, MINUTES_PER_DAY. intros [Hs He].
  destruct (day_start d <? day_end d) eqn:E; bool_to_prop; lia.
Qed.

Lemma normalize_wf now s :
  Forall (fun d => 0 <= day_start d /\ 0 <= day_end d) (sched_days s) ->
  0 <= sched_grace_minutes s -> wf_schedule (normalize now s).
Proof.
  intros Hd Hg. unfold wf_schedule, normalize; cbn. repeat split; [| |lia|lia].
  - rewrite length_map, length_app, length_replicate, length_take. lia.
  - rewrite Forall_map. apply Forall_app. split.
    + apply Forall_take. eapply Forall_impl; [exact Hd|].
      intros d [??]. unfold wf_day, clamp_day, MINUTES_PER_DAY; cbn. lia.
    + apply Forall_replicate. unfold wf_day, clamp_day, MINUTES_PER_DAY; cbn. lia.
Qed.

Section windows.
Context `{CalendarLaws}.

Lemma elem_of_raw_windows s anchor w :
  wf_schedule s ->
  w ∈ raw_windows s anchor <->
  exists date day, anchor - 1 <= date < anchor + LOOKAHEAD_DAYS /\
    date_in_range date = true /\
    sched_days s !! num_days_from_monday date = Some day /\ day_enabled day = true /\
    w = (midnight_of date + day_start day * NANOS_PER_MINUTE,
         midnight_of date + day_start day * NANOS_PER_MINUTE + day_minutes day * NANOS_PER_MINUTE).
Proof.
  intros (_ & Hwf & _). unfold raw_windows, offsets.
  rewrite list_elem_of_In, in_flat_map. setoid_rewrite <- list_elem_of_In. split.
  - intros (off & Hoff & Hw). apply elem_of_seqZ in Hoff.
    unfold day_window, checked_add_days in Hw.
    destruct (date_in_range (anchor + off)) eqn:Hr; [|inversion Hw].
    destruct (sched_days s !! _) as [day|] eqn:Hday; [|inversion Hw].
    destruct (day_enabled day) eqn:He; cbn in Hw; [|inversion Hw].
    apply list_elem_of_singleton in Hw. exists (anchor + off), day.
    rewrite Forall_forall in Hwf. rewrite <- length_minutes_wf
      by (apply Hwf; by eapply list_elem_of_lookup_2).
    unfold LOOKAHEAD_DAYS in *. repeat split; try done; lia.
  - intros (date & day & Hrange & Hr & Hday & He & ->). exists (date - anchor). split.
    + apply elem_of_seqZ. unfold LOOKAHEAD_DAYS in *. lia.
    + unfold day_window, checked_add_days. replace (anchor + (date - anchor)) with date by lia.
      rewrite Hr, Hday, He. cbn. apply list_elem_of_singleton.
      rewrite Forall_forall in Hwf. rewrite length_minutes_wf; [done|].
      apply Hwf. by eapply list_elem_of_lookup_2.
Qed.

Lemma raw_windows_forward s anchor w : wf_schedule s -> w ∈ raw_windows s anchor -> fst w <= snd w.
Proof.
  intros Hs Hw. pose proof Hs as (_ & Hwf & _).
  apply elem_of_raw_windows in Hw as (date & day & _ & _ & Hday & _ & ->); [|done]. cbn.
  rewrite Forall_forall in Hwf.
  assert (0 <= day_minutes day <= MINUTES_PER_DAY)
    by (apply day_minutes_bounds, Hwf; by eapply list_elem_of_lookup_2).
  unfold NANOS_PER_MINUTE, NANOS_PER_SEC. lia.
Qed.
End windows.

(** *** Merging intervals *)

Definition covers (l : list (Instant * Instant)) (t : Instant) : Prop :=
  exists w, w ∈ l /\ fst w <= t < snd w.

(** A reversed merged list: each window ends before the one pushed after it
    starts. *)
Inductive separated : list (Instant * Instant) -> Prop :=
| sep_nil : separated []
| sep_one w : fst w <= snd w -> separated [w]
| sep_cons w v l : fst w <= snd w -> snd v < fst w -> separated (v :: l) -> separated (w :: v :: l).

Lemma separated_tail w l : separated (w :: l) -> separated l.
Proof. inversion 1; subst; [constructor|done]. Qed.

Lemma separated_below w l v : separated (w :: l) -> v ∈ l -> snd v < fst w /\ fst v <= snd v.
Proof.
  revert w. induction l as [|u l IH]; intros w Hsep Hv; [inversion Hv|].
  inversion Hsep as [| |? ? ? Hw Hu Htl]; subst.
  apply elem_of_cons in Hv as [->|Hv].
  - split; [done|]. by inversion Htl.
  - destruct (IH u Htl Hv) as [Hlt Hle]. split; [|done]. inversion Htl; subst; lia.
Qed.

Lemma merge_push_separated merged w :
  separated merged -> fst w <= snd w ->
  (forall last rest, merged = last :: rest -> fst last <= fst w) ->
  separated (merge_push merged w) /\
  (forall last rest, merge_push merged w = last :: rest -> fst last <= fst w).
Proof.
  intros Hsep Hw Hlast. destruct merged as [|last rest]; cbn.
  { split; [by constructor|]. intros ? ? [= <- <-]. lia. }
  specialize (Hlast last rest eq_refl). destruct (fst w <=? snd last) eqn:E; bool_to_prop.
  - split; [|intros ? ? [= <- <-]; cbn; lia].
    inversion Hsep; subst; constructor; cbn; try done; lia.
  - split; [by constructor|]. intros ? ? [= <- <-]. lia.
Qed.

Lemma merge_push_covers merged w t :
  separated merged -> fst w <= snd w ->
  (forall last rest, merged = last :: rest -> fst last <= fst w) ->
  covers (merge_push merged w) t <-> covers merged t \/ fst w <= t < snd w.
Proof.
  intros Hsep Hw Hlast. unfold covers. destruct merged as [|last rest]; cbn.
  { setoid_rewrite list_elem_of_singleton. setoid_rewrite elem_of_nil.
    split; [intros (? & -> & ?); auto|intros [(? & [] & _)|]; eauto]. }
  specialize (Hlast last rest eq_refl). destruct (fst w <=? snd last) eqn:E; bool_to_prop.
  - setoid_rewrite elem_of_cons. split.
    + intros (v & [->|Hv] & Ht); cbn in *.
      * destruct (Z_lt_le_dec t (snd last)); [left; exists last; split; [by left|lia]|right; lia].
      * left. eauto.
    + intros [(v & [->|Hv] & Ht)|Ht].
      * eexists. split; [by left|]. cbn. lia.
      * exists v. auto.
      * eexists. split; [by left|]. cbn. lia.
  - setoid_rewrite elem_of_cons. split.
    + intros (v & [->|Hv] & Ht); [by right|left]. exists v. by rewrite <- elem_of_cons.
    + intros [(v & Hv & Ht)|Ht]; [exists v; rewrite elem_of_cons|exists w]; auto.
Qed.

Lemma merge_fold l merged :
  Forall (fun w => fst w <= snd w) l ->
  StronglySorted (fun a b => (fst a <=? fst b) = true) l ->
  separated merged ->
  (forall last rest w, merged = last :: rest -> w ∈ l -> fst last <= fst w) ->
  separated (foldl merge_push merged l) /\
  forall t, covers (foldl merge_push merged l) t <-> covers merged t \/ covers l t.
Proof.
  intros Hfwd Hsort. revert merged.
  induction Hsort as [|w l Hsort IH Hmin]; intros merged Hsep Hlast; cbn.
  { split; [done|]. intros t. unfold covers at 3. setoid_rewrite elem_of_nil. naive_solver. }
  inversion Hfwd as [|? ? Hw Hl]; subst.
  assert (Hlw : forall last rest, merged = last :: rest -> fst last <= fst w)
    by (intros; eapply Hlast; [done|left]).
  destruct (merge_push_separated merged w Hsep Hw Hlw) as [Hsep' Hlast'].
  rewrite Forall_forall in Hmin.
  destruct (IH Hl (merge_push merged w) Hsep') as [H1 H2].
  { intros last rest v Heq Hv. specialize (Hmin v Hv). bool_to_prop.
    specialize (Hlast' _ _ Heq). lia. }
  split; [done|]. intros t. rewrite H2, merge_push_covers by done.
  unfold covers at 4. setoid_rewrite elem_of_cons. unfold covers. naive_solver.
Qed.

(** Merging keeps starts: every merged window starts where a day's does. *)
Lemma merge_fold_starts l merged w :
  w ∈ foldl merge_push merged l -> exists v, v ∈ merged ++ l /\ fst v = fst w.
Proof.
  revert merged. induction l as [|x l IH]; intros merged Hw; cbn in Hw.
  { exists w. rewrite app_nil_r. done. }
  destruct (IH _ Hw) as (v & Hv & Heq). apply elem_of_app in Hv as [Hv|Hv]; [|exists v; set_solver].
  destruct merged as [|y m]; cbn in Hv; [exists v; set_solver|].
  destruct (fst x <=? snd y); [|exists v; set_solver].
  apply elem_of_cons in Hv as [->|Hv]; [exists y; split; [set_solver|done]|exists v; set_solver].
Qed.

(** *** The merged windows mean the weekly windows *)

Ltac nanos := unfold midnight_of, date_of, NANOS_PER_DAY, MINUTES_PER_DAY, NANOS_PER_MINUTE,
  NANOS_PER_SEC, LOOKAHEAD_DAYS in *;
  change (1440 * (60 * 1000000000)) with 86400000000000 in *;
  change (60 * 1000000000) with 60000000000 in *.

Section spec.
Context `{CalendarLaws}.

Lemma merged_windows_spec s anchor :
  wf_schedule s ->
  separated (reverse (merged_windows s anchor)) /\
  forall t, covers (merged_windows s anchor) t <-> covers (raw_windows s anchor) t.
Proof.
  intros Hs. unfold merged_windows. rewrite reverse_involutive.
  set (out := sort_by _ (raw_windows s anchor)).
  assert (Hperm : forall w, w ∈ out <-> w ∈ raw_windows s anchor) by (intros; apply sort_by_elem).
  destruct (merge_fold out []) as [Hsep Hcov].
  - apply Forall_forall. intros w Hw%Hperm. by eapply raw_windows_forward.
  - apply sort_by_sorted; intros; rewrite ?Z.leb_le in *; lia.
  - constructor.
  - done.
  - split; [done|]. intros t. unfold covers in *. setoid_rewrite elem_of_reverse.
    rewrite Hcov. setoid_rewrite Hperm. setoid_rewrite elem_of_nil. naive_solver.
Qed.

Lemma in_window_of_date s date t :
  wf_schedule s -> in_window_of s date t -> date_of t - 1 <= date <= date_of t.
Proof.
  intros (_ & Hwf & _) (_ & day & Hday & _ & Ht). rewrite Forall_forall in Hwf.
  destruct (Hwf day) as [Hst He]; [by eapply list_elem_of_lookup_2|].
  revert Ht. unfold day_minutes. cbn zeta.
  destruct (day_start day <? day_end day) eqn:E; intros Ht; bool_to_prop; nanos; divlia.
Qed.

Lemma covers_raw_windows s anchor t :
  wf_schedule s ->
  covers (raw_windows s anchor) t <->
  exists date, anchor - 1 <= date < anchor + LOOKAHEAD_DAYS /\ in_window_of s date t.
Proof.
  intros Hs. unfold covers, in_window_of. split.
  - intros (w & Hw & Ht). apply elem_of_raw_windows in Hw; [|done].
    destruct Hw as (date & day & ? & ? & ? & ? & ->). eauto 10.
  - intros (date & Hd & Hr & day & Hday & He & Ht).
    eexists (_, _). split; [|exact Ht]. apply elem_of_raw_windows; [done|]. eauto 10.
Qed.

(** Looking one day back is enough to see every window that holds now. *)
Lemma in_weekly_window_covers s anchor t :
  wf_schedule s -> anchor <= date_of t < anchor + LOOKAHEAD_DAYS ->
  in_weekly_window s t <-> covers (merged_windows s anchor) t.
Proof.
  intros Hs Ha. destruct (merged_windows_spec s anchor Hs) as [_ ->].
  rewrite covers_raw_windows by done. split.
  - intros [date Hd]. exists date. split; [|done].
    pose proof (in_window_of_date s date t Hs Hd). unfold LOOKAHEAD_DAYS in *. lia.
  - intros (date & _ & Hd). by exists date.
Qed.

Lemma find_covering ws t w :
  find_first (fun w => (fst w <=? t) && (t <? snd w)) ws = Some w -> covers ws t /\ fst w <= t < snd w.
Proof.
  intros (Hin & Hb)%find_first_Some. bool_to_prop.
  assert (fst w <= t < snd w) by lia. split; [by exists w|done].
Qed.

Lemma find_covering_None ws t :
  find_first (fun w => (fst w <=? t) && (t <? snd w)) ws = None -> ~ covers ws t.
Proof.
  rewrite find_first_None. intros Hn (w & Hw & Ht). specialize (Hn w Hw).
  apply andb_false_iff in Hn as [Hn|Hn]; bool_to_prop; lia.
Qed.

(** The override in force at [utc], if any. *)
Definition live_override (s : ProcessingSchedule) (utc : Instant) : option ScheduleOverride :=
  match sched_override s with
  | Some o => if utc <? ov_until o then Some o else None
  | None => None
  end.

(** The verdict of the schedule, read off the policy. *)
Definition should_run (s : ProcessingSchedule) (now utc : Instant) : Prop :=
  match live_override s utc with
  | Some o => ov_mode o = Run
  | None => sched_enabled s = false \/ in_weekly_window s now
  end.

Lemma decide_allowed s now utc :
  wf_schedule s -> dec_allowed (ProcessingSchedule.decide s now utc) = true <-> should_run s now utc.
Proof.
  intros Hs. unfold ProcessingSchedule.decide, should_run, live_override.
  assert (Hw : in_weekly_window s now <-> covers (merged_windows s (date_of now)) now)
    by (apply in_weekly_window_covers; [done|unfold LOOKAHEAD_DAYS; lia]).
  destruct (sched_override s) as [o|].
  - destruct (utc <? ov_until o); [by destruct (ov_mode o)|].
    destruct (sched_enabled s); cbn; [|tauto].
    destruct (find_first _ _) eqn:E; cbn.
    + apply find_covering in E as [? _]. tauto.
    + apply find_covering_None in E. split; [done|]. intros [|?]; [done|tauto].
  - destruct (sched_enabled s); cbn; [|tauto].
    destruct (find_first _ _) eqn:E; cbn.
    + apply find_covering in E as [? _]. tauto.
    + apply find_covering_None in E. split; [done|]. intros [|?]; [done|tauto].
Qed.

(** How long a verdict is promised to hold: until [next_change_secs], or,
    when there is none, for the seven whole days the lookahead covers. *)
Definition promised (d : ScheduleDecision) (dt : Z) : Prop :=
  match dec_next_change_secs d with
  | Some secs => dt < secs * NANOS_PER_SEC
  | None => dt <= 7 * NANOS_PER_DAY
  end.

Lemma num_seconds_le d dt :
  0 <= dt -> dt < Z.max (num_seconds d) 0 * NANOS_PER_SEC -> dt < d.
Proof. unfold num_seconds. nanos. divlia. Qed.

(** Inside a merged window the weekly windows hold to its end. *)
Lemma window_stable s now t w :
  wf_schedule s -> now <= t < snd w ->
  find_first (fun w => (fst w <=? now) && (now <? snd w)) (merged_windows s (date_of now)) = Some w ->
  in_weekly_window s t.
Proof.
  intros Hs Ht (Hin & Hw)%find_first_Some. bool_to_prop.
  destruct (merged_windows_spec s (date_of now) Hs) as [_ Hcov].
  assert (Hc : covers (merged_windows s (date_of now)) t) by (exists w; split; [done|lia]).
  apply Hcov, covers_raw_windows in Hc as (date & _ & Hd); [|done]. by exists date.
Qed.

(** A window a merged window reaches past [now] into is at or after the one
    [find] picks. *)
Lemma next_window_first ws now t w :
  separated (reverse ws) ->
  ~ covers ws now -> now <= t ->
  find_first (fun w => now <? fst w) ws = Some w -> covers ws t -> fst w <= t.
Proof.
  intros Hsep Hnow Ht Hfind (v & Hv & Hvt).
  assert (Hlt : now < fst v).
  { destruct (Z_lt_le_dec now (fst v)); [done|]. exfalso. apply Hnow. exists v. split; [done|lia]. }
  revert Hsep Hfind Hv. clear Hnow. induction ws as [|u ws IH]; intros Hsep Hfind Hv; [inversion Hv|].
  rewrite reverse_cons in Hsep. cbn in Hfind. destruct (now <? fst u) eqn:E; bool_to_prop.
  - injection Hfind as <-. apply elem_of_cons in Hv as [->|Hv]; [lia|].
    apply elem_of_reverse in Hv. revert Hsep Hv. generalize (reverse ws). intros l.
    clear -Hvt. induction l as [|x l IH]; intros Hsep Hv; [inversion Hv|]. cbn in Hsep.
    apply elem_of_cons in Hv as [->|Hv]; [|apply IH; [by eapply separated_tail|done]].
    destruct (separated_below x (l ++ [u]) u) as [? ?]; [done|set_solver|lia].
  - apply elem_of_cons in Hv as [->|Hv]; [lia|]. apply IH; [|done|done].
    clear -Hsep. revert Hsep. generalize (reverse ws). intros l.
    induction l as [|x l IH]; cbn; intros Hsep; [constructor|].
    destruct l as [|y l]; [|].
    + inversion Hsep; subst. by constructor.
    + cbn in Hsep. inversion Hsep; subst. constructor; [done|done|]. by apply IH.
Qed.

Lemma merged_start_bound s anchor w :
  wf_schedule s -> w ∈ merged_windows s anchor -> fst w <= midnight_of (anchor + LOOKAHEAD_DAYS).
Proof.
  intros Hs Hw. unfold merged_windows in Hw. rewrite elem_of_reverse in Hw.
  apply merge_fold_starts in Hw as (v & Hv & <-). rewrite app_nil_l, sort_by_elem in Hv.
  apply elem_of_raw_windows in Hv as (date & day & Hd & _ & Hday & _ & ->); [|done].
  destruct Hs as (_ & Hwf & _). rewrite Forall_forall in Hwf.
  destruct (Hwf day) as [? _]; [by eapply list_elem_of_lookup_2|]. cbn. nanos. lia.
Qed.

(** Outside every window, none opens before the next one the code finds. *)
Lemma closed_stable s now t :
  wf_schedule s -> now <= t ->
  ~ covers (merged_windows s (date_of now)) now ->
  match find_first (fun w => now <? fst w) (merged_windows s (date_of now)) with
  | Some w => t < fst w
  | None => t - now <= 7 * NANOS_PER_DAY
  end ->
  ~ in_weekly_window s t.
Proof.
  intros Hs Ht Hno Hnext Hin.
  destruct (merged_windows_spec s (date_of now) Hs) as [Hsep _].
  assert (Hd : date_of now <= date_of t < date_of now + LOOKAHEAD_DAYS).
  { destruct (find_first _ _) as [w|] eqn:E.
    - apply find_first_Some in E as [Hw _]. pose proof (merged_start_bound _ _ _ Hs Hw). nanos. divlia.
    - nanos. divlia. }
  apply (in_weekly_window_covers _ _ _ Hs Hd) in Hin.
  destruct (find_first _ _) as [w|] eqn:E.
  - pose proof (next_window_first _ _ _ _ Hsep Hno Ht E Hin). lia.
  - rewrite find_first_None in E. destruct Hin as (v & Hv & Hvt). specialize (E v Hv).
    bool_to_prop. apply Hno. exists v. split; [done|lia].
Qed.

Lemma live_override_later s utc dt :
  0 <= dt -> live_override s utc = None -> live_override s (utc + dt) = None.
Proof.
  unfold live_override. destruct (sched_override s) as [o|]; [|done].
  destruct (utc <? ov_until o) eqn:E1, (utc + dt <? ov_until o) eqn:E2; try done. bool_to_prop. lia.
Qed.

Lemma decide_no_override s now utc :
  live_override s utc = None ->
  ProcessingSchedule.decide s now utc =
  ProcessingSchedule.decide (mkSchedule (sched_enabled s) (sched_days s) (sched_grace_minutes s) None) now utc.
Proof.
  unfold live_override, ProcessingSchedule.decide. cbn.
  destruct (sched_override s) as [o|]; [|done]. by destruct (utc <? ov_until o).
Qed.

Lemma decide_windows_stable s now utc dt :
  wf_schedule s -> live_override s utc = None -> sched_enabled s = true -> 0 <= dt ->
  promised (ProcessingSchedule.decide s now utc) dt ->
  in_weekly_window s (now + dt) <-> in_weekly_window s now.
Proof.
  intros Hs Hov Hen Hdt. rewrite decide_no_override by done.
  unfold ProcessingSchedule.decide, promised. cbn. rewrite Hen. cbn.
  change (merged_windows (mkSchedule true (sched_days s) (sched_grace_minutes s) None) (date_of now))
    with (merged_windows s (date_of now)).
  assert (Hnow : in_weekly_window s now <-> covers (merged_windows s (date_of now)) now)
    by (apply in_weekly_window_covers; [done|unfold LOOKAHEAD_DAYS; lia]).
  destruct (find_first _ (merged_windows _ _)) as [w|] eqn:E; cbn.
  - intros Hp%num_seconds_le; [|done]. split; intros _.
    + apply Hnow. by apply find_covering in E as [? _].
    + eapply (window_stable _ now); [done| |exact E]. lia.
  - pose proof (find_covering_None _ _ E) as Hno. intros Hp. split; [|tauto].
    intros Hin. exfalso. revert Hin. apply (closed_stable s now); [done|lia|exact Hno|]. revert Hp.
    destruct (find_first (fun w => now <? fst w) _) as [w|]; cbn.
    + intros Hp%num_seconds_le; [lia|done].
    + lia.
Qed.
End spec.

(** ** Properties *)

Section properties.
Context `{CalendarLaws}.

(** C10: the verdict of [decide] is the policy's.  For a well-formed schedule,
    scheduled work may run at an instant exactly when a live override says
    run, or no override is live and the schedule is off or some weekday's
    window (of any week, midnight wrap included) holds that instant; and the
    reason it reports names which of these it was. *)
Theorem decide_correct s now utc :
  wf_schedule s ->
  let d := ProcessingSchedule.decide s now utc in
  (dec_allowed d = true <-> should_run s now utc) /\
  dec_reason d =
    match live_override s utc with
    | Some o => match ov_mode o with Run => OverrideRun | Pause => OverridePause end
    | None => if negb (sched_enabled s) then Disabled
              else if dec_allowed d then InWindow else OutsideWindow
    end.
Proof.
  intros Hs. cbn zeta. split; [by apply decide_allowed|].
  unfold live_override, ProcessingSchedule.decide.
  destruct (sched_override s) as [o|]; [destruct (utc <? ov_until o); [by destruct (ov_mode o)|]|];
    (destruct (sched_enabled s); cbn; [by destruct (find_first _ _)|done]).
Qed.

(** A verdict holds until the [next_change_secs] it reports (and for the
    next seven days when it reports none): at any later instant before that,
    [decide] answers the same, the clock having moved on both scales. *)
Theorem decide_stable s now utc dt :
  wf_schedule s -> 0 <= dt ->
  promised (ProcessingSchedule.decide s now utc) dt ->
  dec_allowed (ProcessingSchedule.decide s (now + dt) (utc + dt)) =
  dec_allowed (ProcessingSchedule.decide s now utc).
Proof.
  intros Hs Hdt Hp. apply eq_true_iff_eq. rewrite !decide_allowed by done. unfold should_run.
  destruct (live_override s utc) as [o|] eqn:Hov.
  - assert (live_override s (utc + dt) = Some o) as ->; [|done].
    revert Hp Hov. unfold live_override, ProcessingSchedule.decide, promised.
    destruct (sched_override s) as [o'|]; [|done]. destruct (utc <? ov_until o') eqn:E; [|done].
    intros Hp [= ->]. destruct (ov_mode o); cbn in Hp; apply num_seconds_le in Hp; try done;
      (destruct (utc + dt <? ov_until o) eqn:E2; [done|bool_to_prop; lia]).
  - rewrite (live_override_later _ _ _ Hdt Hov). destruct (sched_enabled s) eqn:Hen; [|tauto].
    by rewrite (decide_windows_stable s now utc dt).
Qed.
End properties.

(** [normalize] makes any stored schedule evaluable, whatever its day list
    or its edges: the result is well-formed, carries no override that has
    lapsed, and normalizing it again changes nothing. *)
Theorem normalize_correct now s :
  Forall (fun d => in_u 16 (day_start d) /\ in_u 16 (day_end d)) (sched_days s) ->
  in_u 32 (sched_grace_minutes s) ->
  wf_schedule (normalize now s) /\
  (forall o, sched_override (normalize now s) = Some o -> now < ov_until o) /\
  normalize now (normalize now s) = normalize now s.
Proof.
  unfold in_u. intros Hd Hg.
  assert (Hwf : wf_schedule (normalize now s)).
  { apply normalize_wf; [|lia]. eapply Forall_impl; [exact Hd|]. cbn. lia. }
  split; [done|]. split.
  - cbn. intros o. destruct (sched_override s) as [o'|]; [|done].
    destruct (ov_until o' <=? now) eqn:E; [done|]. intros [= <-]. bool_to_prop. lia.
  - destruct Hwf as (Hlen & Hdays & _). revert Hlen Hdays. unfold normalize at 1 2 3. cbn.
    set (days := map clamp_day _). intros Hlen Hdays. unfold normalize. cbn. fold days. f_equal.
    + rewrite take_ge, Hlen by lia. cbn. rewrite app_nil_r.
      rewrite <- (map_id days) at 2. apply map_ext_Forall.
      eapply Forall_impl; [exact Hdays|]. intros [e a b] [Ha Hb]. unfold clamp_day. cbn in *.
      by rewrite !Z.min_l by lia.
    + lia.
    + destruct (sched_override s) as [o|]; [|done].
      destruct (ov_until o <=? now) eqn:E; [done|]. cbn. by rewrite E.
Qed.

(** *** Witnesses: the default schedule, switched on, on Monday 2026-08-17 *)

Definition working_hours : ProcessingSchedule :=
  mkSchedule true (sched_days ProcessingSchedule.default) 10 None.
Definition monday_at (minute : Z) : Instant := midnight_of 20682 + minute * NANOS_PER_MINUTE.

Lemma working_hours_wf : wf_schedule working_hours.
Proof.
  split; [done|]. split; [|cbn; lia].
  repeat constructor; unfold MINUTES_PER_DAY; cbn; lia.
Qed.

Lemma decide_correct_witness :
  should_run working_hours (monday_at 600) (monday_at 600) /\
  ~ should_run working_hours (monday_at 1080) (monday_at 1080).
Proof.
  pose proof (decide_correct working_hours (monday_at 600) (monday_at 600) working_hours_wf) as [H1 _].
  pose proof (decide_correct working_hours (monday_at 1080) (monday_at 1080) working_hours_wf) as [H2 _].
  split; [apply H1; vm_compute; reflexivity|].
  intros Hr%H2. vm_compute in Hr. discriminate.
Defined.

Lemma decide_stable_witness :
  dec_allowed (ProcessingSchedule.decide working_hours
    (monday_at 600 + 419 * NANOS_PER_MINUTE) (monday_at 600 + 419 * NANOS_PER_MINUTE)) = true.
Proof.
  rewrite (decide_stable working_hours (monday_at 600) (monday_at 600) (419 * NANOS_PER_MINUTE) working_hours_wf);
    [vm_compute; reflexivity|vm_compute; discriminate|vm_compute; reflexivity].
Defined.

Lemma normalize_correct_witness :
  wf_schedule (normalize 0 (mkSchedule true [mkDay true 5000 60000] 99999 (Some (mkOverride Run 5)))).
Proof.
  apply (normalize_correct 0 (mkSchedule true [mkDay true 5000 60000] 99999 (Some (mkOverride Run 5)))).
  - repeat constructor; vm_compute; (reflexivity || discriminate).
  - split; vm_compute; (reflexivity || discriminate).
Defined.
