(* ===== verification/Db.v ===== *)
(** * The store: [crates/scribe-db], its schema and its statements

    One record field per table of [migrations/*.sql], holding rows, and the
    statements the operations are made of.  A statement is atomic; [now()] is
    the clock [db_now] (microseconds), which only the environment advances.  The
    columns of an enum hold the enum: [TextCodecLaws] is why the text codec of
    [row.rs] can be left out.  [jsonb] holds the value it was given. *)

From S2P Require Import Prelude RustStr Types.

(** ** Rows that carry more than the struct of [types.rs] *)

Record RecordingRow := mkRecordingRow { rr_rec : Recording; rr_title_auto : bool }.
Record SegmentRow := mkSegmentRow { sr_seg : Segment; sr_transcribed_at : option Instant }.
Record RsRow := mkRsRow { rsr_speaker_id : option Uuid; rsr_embedding : option (list f32) }.
Record UttRow := mkUttRow {
  ur_id : Z; ur_recording_id : Uuid; ur_local_idx : option Z;
  ur_start_ms : Z; ur_end_ms : Z; ur_text : string; ur_words : list Word;
}.
Record ChunkRow := mkChunkRow {
  cr_id : Z; cr_recording_id : Uuid; cr_start_ms : option Z; cr_end_ms : option Z;
  cr_local_idx : option Z; cr_text : string; cr_embedding : list f32;
}.

(** The database.  The sequences behind the [bigserial] keys are the [next_]
    fields; [db_notified] logs [pg_notify] as (channel, payload), latest last. *)
Record Db := mkDb {
  db_now : Instant;
  db_recordings : gmap Uuid RecordingRow;
  db_segments : list SegmentRow;
  db_jobs : list Job;
  db_next_job : Z;
  db_speakers : gmap Uuid Speaker;
  db_recording_speakers : gmap (Uuid * Z) RsRow;
  db_utterances : list UttRow;
  db_next_utt : Z;
  db_chunks : list ChunkRow;
  db_next_chunk : Z;
  db_summaries : gmap (Uuid * string) Summary;
  db_artifacts : gmap (Uuid * string) Json;
  db_settings : gmap string Json;
  db_notified : list (string * string);
}.

Definition set_now (v : Instant) (s : Db) : Db :=
    mkDb v (db_recordings s) (db_segments s) (db_jobs s) (db_next_job s) (db_speakers s)
    (db_recording_speakers s) (db_utterances s) (db_next_utt s) (db_chunks s) (db_next_chunk
    s) (db_summaries s) (db_artifacts s) (db_settings s) (db_notified s).
Definition set_recordings (v : gmap Uuid RecordingRow) (s : Db) : Db :=
    mkDb (db_now s) v (db_segments s) (db_jobs s) (db_next_job s) (db_speakers s)
    (db_recording_speakers s) (db_utterances s) (db_next_utt s) (db_chunks s) (db_next_chunk
    s) (db_summaries s) (db_artifacts s) (db_settings s) (db_notified s).
Definition set_segments (v : list SegmentRow) (s : Db) : Db :=
    mkDb (db_now s) (db_recordings s) v (db_jobs s) (db_next_job s) (db_speakers s)
    (db_recording_speakers s) (db_utterances s) (db_next_utt s) (db_chunks s) (db_next_chunk
    s) (db_summaries s) (db_artifacts s) (db_settings s) (db_notified s).
Definition set_jobs (v : list Job) (s : Db) : Db :=
    mkDb (db_now s) (db_recordings s) (db_segments s) v (db_next_job s) (db_speakers s)
    (db_recording_speakers s) (db_utterances s) (db_next_utt s) (db_chunks s) (db_next_chunk
    s) (db_summaries s) (db_artifacts s) (db_settings s) (db_notified s).
Definition set_next_job (v : Z) (s : Db) : Db :=
    mkDb (db_now s) (db_recordings s) (db_segments s) (db_jobs s) v (db_speakers s)
    (db_recording_speakers s) (db_utterances s) (db_next_utt s) (db_chunks s) (db_next_chunk
    s) (db_summaries s) (db_artifacts s) (db_settings s) (db_notified s).
Definition set_speakers (v : gmap Uuid Speaker) (s : Db) : Db :=
    mkDb (db_now s) (db_recordings s) (db_segments s) (db_jobs s) (db_next_job s) v
    (db_recording_speakers s) (db_utterances s) (db_next_utt s) (db_chunks s) (db_next_chunk
    s) (db_summaries s) (db_artifacts s) (db_settings s) (db_notified s).
Definition set_recording_speakers (v : gmap (Uuid * Z) RsRow) (s : Db) : Db :=
    mkDb (db_now s) (db_recordings s) (db_segments s) (db_jobs s) (db_next_job s) (db_speakers
    s) v (db_utterances s) (db_next_utt s) (db_chunks s) (db_next_chunk s) (db_summaries s)
    (db_artifacts s) (db_settings s) (db_notified s).
Definition set_utterances (v : list UttRow) (s : Db) : Db :=
    mkDb (db_now s) (db_recordings s) (db_segments s) (db_jobs s) (db_next_job s) (db_speakers
    s) (db_recording_speakers s) v (db_next_utt s) (db_chunks s) (db_next_chunk s)
    (db_summaries s) (db_artifacts s) (db_settings s) (db_notified s).
Definition set_next_utt (v : Z) (s : Db) : Db :=
    mkDb (db_now s) (db_recordings s) (db_segments s) (db_jobs s) (db_next_job s) (db_speakers
    s) (db_recording_speakers s) (db_utterances s) v (db_chunks s) (db_next_chunk s)
    (db_summaries s) (db_artifacts s) (db_settings s) (db_notified s).
Definition set_chunks (v : list ChunkRow) (s : Db) : Db :=
    mkDb (db_now s) (db_recordings s) (db_segments s) (db_jobs s) (db_next_job s) (db_speakers
    s) (db_recording_speakers s) (db_utterances s) (db_next_utt s) v (db_next_chunk s)
    (db_summaries s) (db_artifacts s) (db_settings s) (db_notified s).
Definition set_next_chunk (v : Z) (s : Db) : Db :=
    mkDb (db_now s) (db_recordings s) (db_segments s) (db_jobs s) (db_next_job s) (db_speakers
    s) (db_recording_speakers s) (db_utterances s) (db_next_utt s) (db_chunks s) v
    (db_summaries s) (db_artifacts s) (db_settings s) (db_notified s).
Definition set_summaries (v : gmap (Uuid * string) Summary) (s : Db) : Db :=
    mkDb (db_now s) (db_recordings s) (db_segments s) (db_jobs s) (db_next_job s) (db_speakers
    s) (db_recording_speakers s) (db_utterances s) (db_next_utt s) (db_chunks s)
    (db_next_chunk s) v (db_artifacts s) (db_settings s) (db_notified s).
Definition set_artifacts (v : gmap (Uuid * string) Json) (s : Db) : Db :=
    mkDb (db_now s) (db_recordings s) (db_segments s) (db_jobs s) (db_next_job s) (db_speakers
    s) (db_recording_speakers s) (db_utterances s) (db_next_utt s) (db_chunks s)
    (db_next_chunk s) (db_summaries s) v (db_settings s) (db_notified s).
Definition set_settings (v : gmap string Json) (s : Db) : Db :=
    mkDb (db_now s) (db_recordings s) (db_segments s) (db_jobs s) (db_next_job s) (db_speakers
    s) (db_recording_speakers s) (db_utterances s) (db_next_utt s) (db_chunks s)
    (db_next_chunk s) (db_summaries s) (db_artifacts s) v (db_notified s).
Definition set_notified (v : list (string * string)) (s : Db) : Db :=
    mkDb (db_now s) (db_recordings s) (db_segments s) (db_jobs s) (db_next_job s) (db_speakers
    s) (db_recording_speakers s) (db_utterances s) (db_next_utt s) (db_chunks s)
    (db_next_chunk s) (db_summaries s) (db_artifacts s) (db_settings s) v.

Definition empty_db (now : Instant) : Db :=
  mkDb now ∅ [] [] 1 ∅ ∅ [] 1 [] 1 ∅ ∅ ∅ [].

Definition JOBS_CHANNEL : string := "scribe_jobs".

Notation DbM := (M Db Error).

(** ** Statements *)

(** [pg_notify]. *)
Definition pg_notify (channel payload : string) (s : Db) : Db :=
  set_notified (db_notified s ++ [(channel, payload)]) s.

Definition foreign_key_error : Error :=
  Database "violates foreign key constraint".
Definition unique_error : Error :=
  Database "duplicate key value violates unique constraint".
Definition row_not_found : Error :=
  Database "no rows returned by a query that expected to return at least one row".

Definition recording_exists (s : Db) (id : Uuid) : bool :=
  bool_decide (is_Some (db_recordings s !! id)).

(** A [SELECT], and the statement's [now()]. *)
Definition query {A} (f : Db -> A) : DbM A := exec (fun s => (f s, s)).
Definition sql_now : DbM Instant := query db_now.

(** *** [jobs] *)

Definition job_live (j : Job) : bool :=
  match job_state j with Queued | Running => true | _ => false end.

(** The entries of [jobs_recording_kind_live_idx]; a NULL key never conflicts. *)
Definition live_key (j : Job) : option (Uuid * JobKind) :=
  if job_live j then (fun r => (r, job_kind j)) <$> job_recording_id j else None.
Definition live_keys (jobs : list Job) : list (Uuid * JobKind) := omap live_key jobs.

(** [scribe_touch_updated_at] *)
Definition touch (now : Instant) (j : Job) : Job :=
  mkJob (job_id j) (job_recording_id j) (job_kind j) (job_state j) (job_priority j)
    (job_attempts j) (job_run_after j) (job_locked_by j) (job_locked_at j) (job_payload j)
    (job_error j) (job_created_at j) now.

(** [jobs_notify_requeue], for one updated row. *)
Definition notify_requeue (old new : Job) : list (string * string) :=
  if bool_decide (job_state new = Queued) && negb (bool_decide (job_state old = Queued))
  then [(JOBS_CHANNEL, JobKind.as_str (job_kind new))] else [].

(** [UPDATE jobs SET set WHERE p RETURNING *]: the updated rows, in table order. *)
Definition update_jobs (p : Job -> bool) (set : Job -> Job) : DbM (list Job) := fun s =>
  let upd j := touch (db_now s) (set j) in
  let jobs' := map (fun j => if p j then upd j else j) (db_jobs s) in
  if bool_decide (NoDup (live_keys jobs')) then
    let hit := bfilter p (db_jobs s) in
    (Ok (map upd hit),
     set_notified (db_notified s ++ flat_map (fun j => notify_requeue j (upd j)) hit)
       (set_jobs jobs' s))
  else (Err unique_error, s).

Definition delete_jobs (p : Job -> bool) : DbM Z := exec (fun s =>
  (Z.of_nat (length (bfilter p (db_jobs s))),
   set_jobs (bfilter (fun j => negb (p j)) (db_jobs s)) s)).

(** *** [recordings] *)

(** [UPDATE recordings SET f WHERE id = id AND p]: how many rows it changed. *)
Definition update_recording (id : Uuid) (p : RecordingRow -> bool)
    (f : RecordingRow -> RecordingRow) : DbM Z := exec (fun s =>
  match db_recordings s !! id with
  | Some r => if p r then (1, set_recordings (<[id := f r]> (db_recordings s)) s) else (0, s)
  | None => (0, s)
  end).

(** [DELETE FROM table WHERE recording_id = id] for the derived tables. *)
Definition delete_map_of {A} (id : Uuid) (m : gmap (Uuid * string) A) : gmap (Uuid * string) A :=
  filter (fun kv => kv.1.1 <> id) m.
Definition delete_rs_of (id : Uuid) (m : gmap (Uuid * Z) RsRow) : gmap (Uuid * Z) RsRow :=
  filter (fun kv => kv.1.1 <> id) m.
Definition of_recording (id : Uuid) (r : option Uuid) : bool := bool_decide (r = Some id).
Definition count {A} (l : list A) : Z := Z.of_nat (length l).

Definition delete_utterances (p : UttRow -> bool) : DbM Z := exec (fun s =>
  (count (bfilter p (db_utterances s)),
   set_utterances (bfilter (fun u => negb (p u)) (db_utterances s)) s)).
Definition delete_chunks (p : ChunkRow -> bool) : DbM Z := exec (fun s =>
  (count (bfilter p (db_chunks s)),
   set_chunks (bfilter (fun c => negb (p c)) (db_chunks s)) s)).
Definition delete_summaries (id : Uuid) : DbM Z := exec (fun s =>
  (Z.of_nat (size (db_summaries s)) - Z.of_nat (size (delete_map_of id (db_summaries s))),
   set_summaries (delete_map_of id (db_summaries s)) s)).
Definition delete_artifacts (id : Uuid) : DbM Z := exec (fun s =>
  (Z.of_nat (size (db_artifacts s)) - Z.of_nat (size (delete_map_of id (db_artifacts s))),
   set_artifacts (delete_map_of id (db_artifacts s)) s)).
Definition delete_artifact (id : Uuid) (kind : string) : DbM Z := exec (fun s =>
  (match db_artifacts s !! (id, kind) with Some _ => 1 | None => 0 end,
   set_artifacts (delete (id, kind) (db_artifacts s)) s)).
Definition delete_recording_speakers (id : Uuid) : DbM Z := exec (fun s =>
  (Z.of_nat (size (db_recording_speakers s)) - Z.of_nat (size (delete_rs_of id (db_recording_speakers s))),
   set_recording_speakers (delete_rs_of id (db_recording_speakers s)) s)).

(** [DELETE FROM recordings WHERE id = id], with every [ON DELETE CASCADE]. *)
Definition delete_recording_cascade (id : Uuid) (s : Db) : Db :=
  set_recordings (delete id (db_recordings s))
  (set_segments (bfilter (fun x => negb (bool_decide (seg_recording_id (sr_seg x) = id))) (db_segments s))
  (set_jobs (bfilter (fun j => negb (of_recording id (job_recording_id j))) (db_jobs s))
  (set_recording_speakers (delete_rs_of id (db_recording_speakers s))
  (set_utterances (bfilter (fun u => negb (bool_decide (ur_recording_id u = id))) (db_utterances s))
  (set_chunks (bfilter (fun c => negb (bool_decide (cr_recording_id c = id))) (db_chunks s))
  (set_summaries (delete_map_of id (db_summaries s))
  (set_artifacts (delete_map_of id (db_artifacts s)) s))))))).

(** *** Reading *)

(** [SELECT ... ORDER BY key LIMIT/OFFSET] on a finite table. *)
Definition limit_offset {A} (limit offset : Z) (l : list A) : list A :=
  take (Z.to_nat limit) (drop (Z.to_nat offset) l).

Definition select_recordings (s : Db) : list RecordingRow :=
  sort_by (fun a b => rec_created_at (rr_rec b) <=? rec_created_at (rr_rec a))
    (map snd (map_to_list (db_recordings s))).

(** Running a reading statement at the head of a sequence. *)
Lemma bind_query {A B} (f : Db -> A) (k : A -> DbM B) s : (query f ≫= k) s = k (f s) s.
Proof. done. Qed.
Lemma bind_now {B} (k : Instant -> DbM B) s : (sql_now ≫= k) s = k (db_now s) s.
Proof. done. Qed.
Lemma bind_mret {A B} (a : A) (k : A -> DbM B) s : (mret a ≫= k) s = k a s.
Proof. done. Qed.
Lemma bind_exec {A B} (f : Db -> A * Db) (k : A -> DbM B) s :
  (exec f ≫= k) s = k (fst (f s)) (snd (f s)).
Proof. unfold mbind, M_bind, exec. by destruct (f s). Qed.
#[export] Hint Rewrite @bind_query @bind_now @bind_mret @bind_exec : scribe.
