(* ===== verification/DbSchema.v ===== *)
(** * The schema's constraints as an invariant

    What [migrations/*.sql] declares (primary keys, unique indexes, foreign
    keys) as a predicate on [Db], and that the statements keep it.  [Preserves]
    instances carry it to whole operations by resolution. *)

From S2P Require Import Prelude RustStr Types Db.

Definition fk (s : Db) (r : Uuid) : Prop := is_Some (db_recordings s !! r).

Definition seg_key (x : SegmentRow) : Uuid * Z := (seg_recording_id (sr_seg x), seg_seq (sr_seg x)).

Record schema_ok (s : Db) : Prop := {
  jobs_ids : NoDup (map job_id (db_jobs s));
  jobs_next : Forall (fun j => job_id j < db_next_job s) (db_jobs s);
  jobs_live : NoDup (live_keys (db_jobs s));
  jobs_fk : Forall (fun j => forall r, job_recording_id j = Some r -> fk s r) (db_jobs s);
  recordings_key : map_Forall (fun id r => rec_id (rr_rec r) = id) (db_recordings s);
  segments_key : NoDup (map seg_key (db_segments s));
  segments_id : NoDup (map (fun x => seg_id (sr_seg x)) (db_segments s));
  segments_fk : Forall (fun x => fk s (seg_recording_id (sr_seg x))) (db_segments s);
  speakers_key : map_Forall (fun id p => spk_id p = id) (db_speakers s);
  rs_fk : map_Forall (fun k _ => fk s k.1) (db_recording_speakers s);
  rs_speaker_fk : map_Forall (fun _ v => forall p, rsr_speaker_id v = Some p ->
                    is_Some (db_speakers s !! p)) (db_recording_speakers s);
  utts_ids : NoDup (map ur_id (db_utterances s));
  utts_next : Forall (fun u => ur_id u < db_next_utt s) (db_utterances s);
  utts_fk : Forall (fun u => fk s (ur_recording_id u)) (db_utterances s);
  chunks_ids : NoDup (map cr_id (db_chunks s));
  chunks_next : Forall (fun c => cr_id c < db_next_chunk s) (db_chunks s);
  chunks_fk : Forall (fun c => fk s (cr_recording_id c)) (db_chunks s);
  summaries_key : map_Forall (fun k v => sum_recording_id v = k.1 /\ sum_template v = Some k.2) (db_summaries s);
  summaries_fk : map_Forall (fun k _ => fk s k.1) (db_summaries s);
  artifacts_fk : map_Forall (fun k _ => fk s k.1) (db_artifacts s);
}.

Notation SchemaOp m := (Preserves schema_ok m).

(** An update of [jobs] that leaves the row's identity alone. *)
Class KeepsKey (set : Job -> Job) : Prop :=
  keeps_key : forall j, job_id (set j) = job_id j /\
    job_recording_id (set j) = job_recording_id j /\ job_kind (set j) = job_kind j.
#[export] Hint Extern 0 (KeepsKey _) => (intros ?; repeat split; reflexivity) : typeclass_instances.

(** An update of [recordings] that leaves the key alone. *)
Class KeepsRecId (f : RecordingRow -> RecordingRow) : Prop :=
  keeps_rec_id : forall r, rec_id (rr_rec (f r)) = rec_id (rr_rec r).
#[export] Hint Extern 0 (KeepsRecId _) => (intros ?; reflexivity) : typeclass_instances.

(** A statement that only reads. *)
Class ReadOnly {A} (m : DbM A) : Prop := read_only : forall s, snd (m s) = s.
#[export] Hint Extern 0 (ReadOnly (exec _)) => (intros ?; reflexivity) : typeclass_instances.

#[export] Instance query_ro {A} (f : Db -> A) : ReadOnly (query f).
Proof. by intros s. Qed.
#[export] Instance sql_now_ro : ReadOnly sql_now.
Proof. by intros s. Qed.

#[export] Instance read_only_preserves {A} (P : Db -> Prop) (m : DbM A) : ReadOnly m -> Preserves P m | 5.
Proof. intros Hr s Hs. by rewrite Hr. Qed.

#[export] Instance read_only_bind {A B} (m : DbM A) (k : A -> DbM B) :
  ReadOnly m -> (forall a, ReadOnly (k a)) -> ReadOnly (m ≫= k).
Proof.
  intros Hm Hk s. specialize (Hm s). unfold mbind, M_bind.
  destruct (m s) as [[a|e] s']; cbn in *; subst; [apply Hk|done].
Qed.
#[export] Instance read_only_ret {A} (a : A) : ReadOnly (mret a : DbM A).
Proof. by intros s. Qed.
#[export] Instance read_only_fail {A} (e : Error) : ReadOnly (fail_with e : DbM A).
Proof. by intros s. Qed.

(** ** Lists *)

Lemma Forall_bfilter {A} (P : A -> Prop) (p : A -> bool) l : Forall P l -> Forall P (bfilter p l).
Proof. rewrite !Forall_forall. intros H x Hx%elem_of_bfilter. naive_solver. Qed.

Lemma live_keys_bfilter (p : Job -> bool) l : NoDup (live_keys l) -> NoDup (live_keys (bfilter p l)).
Proof.
  unfold live_keys. induction l as [|j l IH]; cbn; [done|].
  destruct (live_key j) as [k|] eqn:E; cbn.
  - intros [Hk Hl]%NoDup_cons. destruct (p j); cbn; [|auto]. rewrite E. constructor; [|auto].
    intros Hin. apply Hk. apply list_elem_of_omap in Hin as (y & Hy & Hlk).
    apply list_elem_of_omap. exists y. split; [|done]. by apply elem_of_bfilter in Hy as [? _].
  - intros Hl. destruct (p j); cbn; [rewrite E|]; auto.
Qed.

Lemma map_filter_Forall {K A} `{Countable K} (P : K -> A -> Prop) (q : K * A -> Prop)
    `{forall x, Decision (q x)} (m : gmap K A) :
  map_Forall P m -> map_Forall P (filter q m).
Proof. intros Hm k v [Hl _]%map_lookup_filter_Some. by apply Hm. Qed.

Lemma update_jobs_map {B} (g : Job -> B) (p : Job -> bool) (upd : Job -> Job) l :
  (forall j, g (upd j) = g j) -> map g (map (fun j => if p j then upd j else j) l) = map g l.
Proof. intros Hg. rewrite map_map. apply map_ext. intros j. by destruct (p j). Qed.

(** ** Statements *)

Ltac schema := intros s []; constructor; cbn; try done.

#[export] Instance update_jobs_schema p set : KeepsKey set -> SchemaOp (update_jobs p set).
Proof.
  intros Hk s Hs. unfold update_jobs. case_bool_decide as Hlive; [|done]. destruct Hs.
  constructor; cbn; try done.
  - rewrite update_jobs_map; [done|]. intros j. apply Hk.
  - apply Forall_map. eapply Forall_impl; [exact jobs_next0|]. intros j Hj. cbn.
    destruct (p j); cbn; [|done]. by destruct (Hk j) as [-> _].
  - apply Forall_map. eapply Forall_impl; [exact jobs_fk0|]. intros j Hj. cbn.
    destruct (p j); cbn; [|done]. by destruct (Hk j) as [_ [-> _]].
Qed.

#[export] Instance delete_jobs_schema p : SchemaOp (delete_jobs p).
Proof.
  schema; auto using NoDup_map_bfilter, Forall_bfilter, live_keys_bfilter.
Qed.

#[export] Instance notify_schema c p : SchemaOp (exec (fun s => (tt, pg_notify c p s)) : DbM unit).
Proof. schema. Qed.

Lemma fk_insert id r (m : gmap Uuid RecordingRow) k :
  is_Some (m !! k) -> is_Some (<[id := r]> m !! k).
Proof. intros Hk. destruct (decide (id = k)) as [->|]; [rewrite lookup_insert_eq; eauto|by rewrite lookup_insert_ne]. Qed.

(** Rows that refer to recordings keep doing so when recordings are only added
    or updated. *)
Lemma schema_ok_recordings s m :
  schema_ok s -> (forall k, fk s k -> is_Some (m !! k)) ->
  map_Forall (fun id r => rec_id (rr_rec r) = id) m -> schema_ok (set_recordings m s).
Proof.
  intros [] Hm Hkey. constructor; cbn; try done; unfold fk in *; cbn;
    first [ eapply Forall_impl; [multimatch goal with H : Forall _ _ |- _ => exact H end|]
          | eapply map_Forall_impl; [multimatch goal with H : map_Forall _ _ |- _ => exact H end|] ];
    solve [cbn; eauto].
Qed.

#[export] Instance update_recording_schema id p f : KeepsRecId f -> SchemaOp (update_recording id p f).
Proof.
  intros Hf s Hs. unfold update_recording, exec.
  destruct (db_recordings s !! id) as [r|] eqn:E; [|done]. destruct (p r); [|done]. cbn.
  apply schema_ok_recordings; [done|intros k; apply fk_insert|].
  apply map_Forall_insert_2; [|by destruct Hs]. rewrite Hf. by apply (recordings_key s Hs).
Qed.

#[export] Instance delete_utterances_schema p : SchemaOp (delete_utterances p).
Proof. schema; auto using NoDup_map_bfilter, Forall_bfilter. Qed.
#[export] Instance delete_chunks_schema p : SchemaOp (delete_chunks p).
Proof. schema; auto using NoDup_map_bfilter, Forall_bfilter. Qed.
#[export] Instance delete_summaries_schema id : SchemaOp (delete_summaries id).
Proof. schema; by apply map_filter_Forall. Qed.
#[export] Instance delete_artifacts_schema id : SchemaOp (delete_artifacts id).
Proof. schema; by apply map_filter_Forall. Qed.
#[export] Instance delete_artifact_schema id k : SchemaOp (delete_artifact id k).
Proof. schema; by apply map_Forall_delete. Qed.
#[export] Instance delete_recording_speakers_schema id : SchemaOp (delete_recording_speakers id).
Proof. schema; by apply map_filter_Forall. Qed.

Lemma delete_fk id s k : k <> id -> fk s k -> is_Some (delete id (db_recordings s) !! k).
Proof. intros Hk Hs. by rewrite lookup_delete_ne. Qed.

Lemma delete_recording_cascade_schema id s : schema_ok s -> schema_ok (delete_recording_cascade id s).
Proof.
  intros []. constructor; cbn;
    try (first [ apply NoDup_map_bfilter | apply live_keys_bfilter | apply Forall_bfilter
               | apply map_filter_Forall | apply map_Forall_delete | idtac ]; assumption);
    unfold fk; cbn.
  - apply Forall_forall. intros j [Hin Hp]%elem_of_bfilter r Hr. bool_to_prop.
    rewrite Forall_forall in jobs_fk0. apply delete_fk; [|eauto].
    unfold of_recording in Hp. bool_to_prop. congruence.
  - apply Forall_forall. intros x [Hin Hp]%elem_of_bfilter. bool_to_prop.
    rewrite Forall_forall in segments_fk0. apply delete_fk; auto.
  - intros k v [Hl Hk]%map_lookup_filter_Some. apply delete_fk; [done|]. by eapply rs_fk0.
  - apply Forall_forall. intros x [Hin Hp]%elem_of_bfilter. bool_to_prop.
    rewrite Forall_forall in utts_fk0. apply delete_fk; auto.
  - apply Forall_forall. intros x [Hin Hp]%elem_of_bfilter. bool_to_prop.
    rewrite Forall_forall in chunks_fk0. apply delete_fk; auto.
  - intros k v [Hl Hk]%map_lookup_filter_Some. apply delete_fk; [done|]. by eapply summaries_fk0.
  - intros k v [Hl Hk]%map_lookup_filter_Some. apply delete_fk; [done|]. by eapply artifacts_fk0.
Qed.

Lemma empty_db_schema now : schema_ok (empty_db now).
Proof. constructor; cbn; first [apply map_Forall_empty | constructor]. Qed.
