(* ===== verification/Queue.v ===== *)
(** * The work queue: [crates/scribe-db/src/queue.rs]

    Every operation of the file, over the statements of [Db].  Durations are
    whole seconds, as every caller's are; the [f64] arithmetic of the backoff is
    exact for them below 2^53. *)

From S2P Require Import Prelude RustStr Types Db DbSchema.

Definition LEASE_EXPIRED : string :=
  "worker lease expired: the worker stopped renewing it (crashed, killed, or lost the database)".

Definition WINDOW_CLOSED : string :=
  "paused: the processing window closed while this stage was running; it will be retried when the next window opens".

Record QueueBacklog := mkBacklog {
  bl_queued : Z; bl_running : Z; bl_failed : Z; bl_recordings_waiting : Z;
}.

Record ReapedJob := mkReaped {
  reaped_id : Z; reaped_recording_id : option Uuid; reaped_exhausted : bool;
}.

(** An [interval] of seconds, in microseconds. *)
Definition make_interval (secs : Z) : Z := secs * 1000000.

(** [SET state, attempts, run_after, locked_by, locked_at, error]. *)
Definition job_set (j : Job) (st : JobState) (attempts : Z) (run_after : Instant)
    (locked_by : option string) (locked_at : option Instant) (error : option string) : Job :=
  mkJob (job_id j) (job_recording_id j) (job_kind j) st (job_priority j) attempts run_after
    locked_by locked_at (job_payload j) error (job_created_at j) (job_updated_at j).

Module Queue.
(** A freshly inserted row: the column defaults of [jobs]. *)
Definition new_job (s : Db) (recording_id : Uuid) (kind : JobKind) (payload : Json)
    (priority : Z) : Job :=
  mkJob (db_next_job s) (Some recording_id) kind Queued priority 0 (db_now s) None None
    payload None (db_now s) (db_now s).

(** [INSERT ... ON CONFLICT ... DO NOTHING RETURNING]: [nextval] is consumed
    even when no row goes in. *)
Definition insert_job (recording_id : Uuid) (kind : JobKind) (payload : Json) (priority : Z)
    : DbM (option Job) := fun s =>
  let job := new_job s recording_id kind payload priority in
  let s' := set_next_job (db_next_job s + 1) s in
  if bool_decide ((recording_id, kind) ∈ live_keys (db_jobs s)) then (Ok None, s')
  else if negb (recording_exists s recording_id) then (Err foreign_key_error, s')
  else (Ok (Some job),
        pg_notify JOBS_CHANNEL (JobKind.as_str kind) (set_jobs (db_jobs s ++ [job]) s')).

(** The row the conflicting insert ran into: [ORDER BY id LIMIT 1]. *)
Definition existing_job (recording_id : Uuid) (kind : JobKind) : DbM Job := fun s =>
  match sort_by (fun a b => job_id a <=? job_id b)
          (bfilter (fun j => bool_decide (live_key j = Some (recording_id, kind))) (db_jobs s)) with
  | job :: _ => (Ok job, s)
  | [] => (Err row_not_found, s)
  end.

Definition enqueue_with_priority (recording_id : Uuid) (kind : JobKind) (payload : Json)
    (priority : Z) : DbM Job :=
  inserted ← insert_job recording_id kind payload priority;
  match inserted with
  | Some row => mret row
  | None => existing_job recording_id kind
  end.

Definition enqueue (recording_id : Uuid) (kind : JobKind) (payload : Json) : DbM Job :=
  enqueue_with_priority recording_id kind payload 0.

(** The claim query's [WHERE], [locked] being the rows other transactions hold. *)
Definition claimable (locked : list Z) (kinds : list JobKind) (now : Instant) (j : Job) : bool :=
  bool_decide (job_state j = Queued) && bool_decide (job_kind j ∈ kinds) &&
  (job_run_after j <=? now) && negb (bool_decide (job_id j ∈ locked)).

(** [ORDER BY priority DESC, created_at] *)
Definition claim_before (a b : Job) : bool :=
  if job_priority a =? job_priority b then job_created_at a <=? job_created_at b
  else job_priority b <? job_priority a.

Definition next_claim (locked : list Z) (kinds : list JobKind) (s : Db) : option Job :=
  head (sort_by claim_before (bfilter (claimable locked kinds (db_now s)) (db_jobs s))).

Definition claim_one (locked : list Z) (worker_id : string) (kinds : list JobKind)
    : DbM (option Job) :=
  if bool_decide (kinds = []) then mret None
  else
    now ← sql_now;
    candidate ← query (next_claim locked kinds);
    match candidate with
    | None => mret None
    | Some c =>
        rows ← update_jobs (fun j => job_id j =? job_id c)
          (fun j => job_set j Running (job_attempts j) (job_run_after j)
             (Some worker_id) (Some now) (job_error j));
        mret (head rows)
    end.

Definition heartbeat (job_id0 : Z) (worker_id : string) : DbM bool :=
  now ← sql_now;
  rows ← update_jobs (fun j => (job_id j =? job_id0) &&
      bool_decide (job_locked_by j = Some worker_id) && bool_decide (job_state j = Running))
    (fun j => job_set j (job_state j) (job_attempts j) (job_run_after j)
       (job_locked_by j) (Some now) (job_error j));
  mret (0 <? count rows).

Definition complete (job_id0 : Z) : DbM unit :=
  _ ← update_jobs (fun j => job_id j =? job_id0)
    (fun j => job_set j Done (job_attempts j) (job_run_after j) None None None);
  mret tt.

(** [SELECT attempts FROM jobs WHERE id = id], [fetch_one]. *)
Definition select_attempts (job_id0 : Z) : DbM Z := fun s =>
  match find_first (fun j => job_id j =? job_id0) (db_jobs s) with
  | Some j => (Ok (job_attempts j), s)
  | None => (Err row_not_found, s)
  end.

(** [base_secs * 2f64.powi(next_attempts - 1)] *)
Definition backoff_delay (base_secs next_attempts : Z) : Z :=
  Z.max base_secs 0 * 2 ^ (next_attempts - 1).

(** The second statement of [fail]; [attempts] is what the first one read. *)
Definition record_failure (job_id0 : Z) (error : string) (max_attempts backoff attempts : Z) : DbM bool :=
  let next_attempts := attempts + 1 in
  if next_attempts <? max_attempts then
    now ← sql_now;
    _ ← update_jobs (fun j => job_id j =? job_id0)
      (fun j => job_set j Queued next_attempts
         (now + make_interval (backoff_delay backoff next_attempts)) None None (Some error));
    mret true
  else
    _ ← update_jobs (fun j => job_id j =? job_id0)
      (fun j => job_set j JobFailed next_attempts (job_run_after j) None None (Some error));
    mret false.

(** Both statements, nothing in between. *)
Definition fail (job_id0 : Z) (error : string) (max_attempts backoff : Z) : DbM bool :=
  attempts ← select_attempts job_id0;
  record_failure job_id0 error max_attempts backoff attempts.

Definition defer (job_id0 : Z) (note : string) (delay : Z) : DbM unit :=
  now ← sql_now;
  _ ← update_jobs (fun j => job_id j =? job_id0)
    (fun j => job_set j Queued (job_attempts j) (now + make_interval delay) None None (Some note));
  mret tt.

Definition notify_workers (payload : string) : DbM unit :=
  exec (fun s => (tt, pg_notify JOBS_CHANNEL payload s)).

Definition in_state (st : JobState) (j : Job) : bool := bool_decide (job_state j = st).

Definition gated_kinds : list JobKind :=
  bfilter (fun k => negb (JobKind.bypasses_schedule k)) JobKind.ALL.

Definition backlog : DbM QueueBacklog := query (fun s =>
  let jobs := db_jobs s in
  let waiting := bfilter (fun j => in_state Queued j && bool_decide (job_kind j ∈ gated_kinds)) jobs in
  mkBacklog (count (bfilter (in_state Queued) jobs)) (count (bfilter (in_state Running) jobs))
     (count (bfilter (in_state JobFailed) jobs))
     (count (dedup_first [] (omap job_recording_id waiting)))).

(** [locked_at < now() - make_interval(secs => older_than)] *)
Definition lease_expired (now : Instant) (older_than : Z) (j : Job) : bool :=
  match job_locked_at j with
  | Some t => t <? now - make_interval older_than
  | None => false
  end.

Definition reap (max_attempts : Z) (j : Job) : Job :=
  job_set j (if max_attempts <=? job_attempts j + 1 then JobFailed else Queued)
    (job_attempts j + 1) (job_run_after j) None None (Some LEASE_EXPIRED).

Definition reap_stuck (older_than max_attempts : Z) : DbM (list ReapedJob) :=
  now ← sql_now;
  rows ← update_jobs (fun j => in_state Running j && lease_expired now older_than j)
    (reap max_attempts);
  mret (map (fun j => mkReaped (job_id j) (job_recording_id j) (in_state JobFailed j)) rows).

Definition done_kinds (recording_id : Uuid) (among : list JobKind) (jobs : list Job) : list JobKind :=
  dedup_first [] (map job_kind (bfilter (fun j => of_recording recording_id (job_recording_id j) &&
    bool_decide (job_kind j ∈ among) && in_state Done j) jobs)).

Definition predecessors_done (recording_id : Uuid) (kind : JobKind) : DbM bool := query (fun s =>
  let preds := JobKind.predecessors kind in
  if bool_decide (preds = []) then true
  else Z.of_nat (length (done_kinds recording_id preds (db_jobs s))) =? Z.of_nat (length preds)).

Definition delete_jobs_by_recording (recording_id : Uuid) : DbM Z :=
  delete_jobs (fun j => of_recording recording_id (job_recording_id j)).

Definition list_jobs_by_recording (recording_id : Uuid) : DbM (list Job) := query (fun s =>
  sort_by (fun a b => job_id a <=? job_id b)
    (bfilter (fun j => of_recording recording_id (job_recording_id j)) (db_jobs s))).

Definition get_job (job_id0 : Z) : DbM (option Job) := query (fun s =>
  find_first (fun j => job_id j =? job_id0) (db_jobs s)).
End Queue.

(** ** The schema is kept *)

#[export] Instance insert_job_schema r k p pr : SchemaOp (Queue.insert_job r k p pr).
Proof.
  intros s Hs. unfold Queue.insert_job. cbn zeta.
  assert (Hn : schema_ok (set_next_job (db_next_job s + 1) s)).
  { destruct Hs. constructor; cbn; try done.
    eapply Forall_impl; [exact jobs_next|]. cbn. lia. }
  case_bool_decide as Hlive; [done|].
  unfold recording_exists. case_bool_decide as Hr; cbn; [|done].
  destruct Hs. constructor; cbn; try done.
  - rewrite map_app. apply NoDup_app. split; [done|]. cbn. split; [|apply NoDup_singleton].
    intros i Hi ->%list_elem_of_singleton. apply list_elem_of_fmap in Hi as (j & Hj & Hin).
    rewrite Forall_forall in jobs_next. specialize (jobs_next j Hin). cbn in *. lia.
  - apply Forall_app. split; [|constructor; [cbn; lia|constructor]].
    eapply Forall_impl; [exact jobs_next|]. cbn. lia.
  - unfold live_keys. rewrite omap_app. apply NoDup_app. split; [done|]. cbn.
    split; [|apply NoDup_singleton]. by intros x Hx ->%list_elem_of_singleton.
  - apply Forall_app. split; [done|]. constructor; [|constructor]. cbn. by intros ? [= <-].
Qed.

#[export] Instance existing_job_schema r k : SchemaOp (Queue.existing_job r k).
Proof.
  apply read_only_preserves. intros s. unfold Queue.existing_job.
  by destruct (sort_by _ _).
Qed.

#[export] Instance enqueue_schema r k p pr : SchemaOp (Queue.enqueue_with_priority r k p pr).
Proof. unfold Queue.enqueue_with_priority. apply _. Qed.

#[export] Instance claim_one_schema locked w kinds : SchemaOp (Queue.claim_one locked w kinds).
Proof. unfold Queue.claim_one. apply _. Qed.

#[export] Instance heartbeat_schema i w : SchemaOp (Queue.heartbeat i w).
Proof. unfold Queue.heartbeat. apply _. Qed.

#[export] Instance complete_schema i : SchemaOp (Queue.complete i).
Proof. unfold Queue.complete. apply _. Qed.

#[export] Instance select_attempts_ro i : ReadOnly (Queue.select_attempts i).
Proof. intros s. unfold Queue.select_attempts. by destruct (find_first _ _). Qed.

#[export] Instance record_failure_schema i e m b n : SchemaOp (Queue.record_failure i e m b n).
Proof. unfold Queue.record_failure. apply _. Qed.

#[export] Instance fail_schema i e m b : SchemaOp (Queue.fail i e m b).
Proof. unfold Queue.fail. apply _. Qed.

#[export] Instance defer_schema i n d : SchemaOp (Queue.defer i n d).
Proof. unfold Queue.defer. apply _. Qed.

#[export] Instance reap_stuck_schema o m : SchemaOp (Queue.reap_stuck o m).
Proof. unfold Queue.reap_stuck. apply _. Qed.

#[export] Instance delete_jobs_by_recording_schema r : SchemaOp (Queue.delete_jobs_by_recording r).
Proof. unfold Queue.delete_jobs_by_recording. apply _. Qed.

(** ** Looking a job up by its id *)

Definition job_of (s : Db) (i : Z) : option Job := find_first (fun j => job_id j =? i) (db_jobs s).

Lemma find_first_map {A} (p : A -> bool) (f : A -> A) l :
  (forall x, p (f x) = p x) -> find_first p (map f l) = f <$> find_first p l.
Proof. intros Hp. induction l as [|x l IH]; cbn; [done|]. rewrite Hp. by destruct (p x). Qed.

Lemma find_first_app {A} (p : A -> bool) l1 l2 :
  find_first p (l1 ++ l2) = match find_first p l1 with Some x => Some x | None => find_first p l2 end.
Proof. induction l1 as [|x l1 IH]; cbn; [done|]. by destruct (p x). Qed.

Lemma job_of_Some s i j : job_of s i = Some j -> j ∈ db_jobs s /\ job_id j = i.
Proof. intros [Hin Hi]%find_first_Some. by apply Z.eqb_eq in Hi. Qed.

Lemma job_of_elem s j : schema_ok s -> j ∈ db_jobs s -> job_of s (job_id j) = Some j.
Proof.
  intros Hs. pose proof (jobs_ids s Hs) as Hnd. revert Hnd. unfold job_of.
  induction (db_jobs s) as [|x l IH]; [intros _ Hj; inversion Hj|]. cbn.
  intros [Hx Hl]%NoDup_cons [->|Hj]%elem_of_cons; [by rewrite Z.eqb_refl|].
  destruct (job_id x =? job_id j) eqn:E; [|by apply IH]. apply Z.eqb_eq in E. exfalso.
  apply Hx. rewrite E. by apply list_elem_of_fmap_2.
Qed.

(** What one [UPDATE jobs] does to each row. *)
Definition updated (p : Job -> bool) (set : Job -> Job) (now : Instant) (j : Job) : Job :=
  if p j then touch now (set j) else j.

Lemma update_jobs_of p set s rows s' i :
  KeepsKey set -> update_jobs p set s = (Ok rows, s') ->
  job_of s' i = updated p set (db_now s) <$> job_of s i.
Proof.
  intros Hk. unfold update_jobs. case_bool_decide; [|done]. intros [= _ <-]. unfold job_of. cbn.
  apply find_first_map. intros j. destruct (p j); cbn; [|done]. by destruct (Hk j) as [-> _].
Qed.

(** Updating the row with one id changes that job and no other. *)
Lemma update_by_id_of i set s rows s' j k :
  KeepsKey set -> update_jobs (fun j => job_id j =? i) set s = (Ok rows, s') ->
  job_of s i = Some j ->
  job_of s' k = if k =? i then Some (touch (db_now s) (set j)) else job_of s k.
Proof.
  intros Hk Heq Hj. rewrite (update_jobs_of _ set _ _ _ _ Hk Heq). destruct (k =? i) eqn:Ek.
  - apply Z.eqb_eq in Ek as ->. rewrite Hj. cbn. unfold updated.
    apply job_of_Some in Hj as [_ ->]. by rewrite Z.eqb_refl.
  - destruct (job_of s k) as [x|] eqn:Ex; [|done]. cbn. unfold updated.
    apply job_of_Some in Ex as [_ Hx]. by rewrite Hx, Ek.
Qed.

Lemma NoDup_omap_map {A B} (g : A -> option B) (f : A -> A) l :
  (forall x k, x ∈ l -> g (f x) = Some k -> g x = Some k) ->
  NoDup (omap g l) -> NoDup (omap g (map f l)).
Proof.
  induction l as [|x l IH]; cbn; [done|]. intros Hg Hnd.
  assert (Htl : NoDup (omap g (map f l))).
  { apply IH; [intros; apply Hg; [by right|done]|]. destruct (g x); [by apply NoDup_cons in Hnd as [_ ?]|done]. }
  destruct (g (f x)) as [k|] eqn:E; [|done]. constructor; [|done].
  rewrite (Hg x k ltac:(left) E) in Hnd. apply NoDup_cons in Hnd as [Hk _].
  intros Hin. apply Hk. apply list_elem_of_omap in Hin as (y & Hy & Hgy).
  apply list_elem_of_fmap in Hy as (z & -> & Hz).
  apply list_elem_of_omap. exists z. split; [done|]. apply Hg; [by right|done].
Qed.

(** An update that makes no row live that was not cannot break the live index. *)
Lemma update_jobs_ok p set s :
  KeepsKey set -> schema_ok s ->
  (forall j, j ∈ db_jobs s -> p j = true -> job_live (set j) = true -> job_live j = true) ->
  exists s', update_jobs p set s =
    (Ok (map (fun j => touch (db_now s) (set j)) (bfilter p (db_jobs s))), s') /\
    db_jobs s' = map (updated p set (db_now s)) (db_jobs s) /\
    db_recordings s' = db_recordings s /\ db_now s' = db_now s.
Proof.
  intros Hk Hs Hl. unfold update_jobs. rewrite bool_decide_eq_true_2.
  - eexists. split; [reflexivity|]. done.
  - apply NoDup_omap_map; [|by apply jobs_live]. intros j k Hj Hg.
    destruct (p j) eqn:E; [|done]. destruct (Hk j) as (_ & Hr & Hkind).
    assert (Hlive : forall n, job_live (touch n (set j)) = job_live (set j)) by (by destruct (set j)).
    unfold live_key in *. rewrite Hlive in Hg.
    destruct (job_live (set j)) eqn:El; [|done]. rewrite (Hl j Hj E El).
    cbn in Hg. by rewrite Hr, Hkind in Hg.
Qed.

Lemma bfilter_id s j : schema_ok s -> j ∈ db_jobs s ->
  bfilter (fun x => job_id x =? job_id j) (db_jobs s) = [j].
Proof.
  intros Hs. pose proof (jobs_ids s Hs) as Hnd. revert Hnd.
  induction (db_jobs s) as [|x l IH]; [intros _ Hj; inversion Hj|]. cbn.
  intros [Hx Hl]%NoDup_cons Hj. destruct (job_id x =? job_id j) eqn:E.
  - apply Z.eqb_eq in E. assert (bfilter (fun x => job_id x =? job_id j) l = []) as Hnil.
    { apply bfilter_nil_iff. intros y Hy. apply Z.eqb_neq. intros Hyj. apply Hx.
      rewrite E, <- Hyj. by apply list_elem_of_fmap_2. }
    unfold bfilter in *. rewrite Hnil. apply elem_of_cons in Hj as [->|Hj]; [done|].
    exfalso. apply Hx. rewrite E. by apply list_elem_of_fmap_2.
  - apply elem_of_cons in Hj as [->|Hj]; [by rewrite Z.eqb_refl in E|]. by apply IH.
Qed.

Lemma claim_before_total a b : Queue.claim_before a b = true \/ Queue.claim_before b a = true.
Proof.
  unfold Queue.claim_before. rewrite (Z.eqb_sym (job_priority b)).
  destruct (job_priority a =? job_priority b) eqn:E; bool_to_prop; rewrite ?Z.leb_le, ?Z.ltb_lt; lia.
Qed.

Lemma claim_before_trans a b c : Queue.claim_before a b = true ->
  Queue.claim_before b c = true -> Queue.claim_before a c = true.
Proof.
  unfold Queue.claim_before. intros H1 H2.
  destruct (job_priority a =? job_priority b) eqn:E1, (job_priority b =? job_priority c) eqn:E2,
    (job_priority a =? job_priority c) eqn:E3; bool_to_prop; rewrite ?Z.leb_le, ?Z.ltb_lt; lia.
Qed.

Lemma next_claim_Some locked kinds s j :
  Queue.next_claim locked kinds s = Some j ->
  j ∈ db_jobs s /\ Queue.claimable locked kinds (db_now s) j = true /\
  forall o, o ∈ db_jobs s -> Queue.claimable locked kinds (db_now s) o = true ->
    Queue.claim_before j o = true.
Proof.
  unfold Queue.next_claim. destruct (sort_by _ _) as [|x l] eqn:E; [done|]. intros [= ->].
  apply sort_by_head_min in E as [Hin Hmin]; [|apply claim_before_total|apply claim_before_trans].
  apply elem_of_bfilter in Hin as [Hin Hc]. split; [done|]. split; [done|].
  intros o Ho Hoc. apply Hmin. by apply elem_of_bfilter.
Qed.

Lemma next_claim_None locked kinds s :
  Queue.next_claim locked kinds s = None ->
  forall j, j ∈ db_jobs s -> Queue.claimable locked kinds (db_now s) j = false.
Proof.
  unfold Queue.next_claim. intros Hh. apply bfilter_nil_iff.
  destruct (sort_by _ _) eqn:E; [|done]. apply Permutation_nil. rewrite <- E. apply sort_by_perm.
Qed.

(** The row a claim hands out. *)
Definition claimed (now : Instant) (worker : string) (j : Job) : Job :=
  touch now (job_set j Running (job_attempts j) (job_run_after j) (Some worker) (Some now) (job_error j)).

Lemma claimable_queued locked kinds now j :
  Queue.claimable locked kinds now j = true ->
  job_state j = Queued /\ job_kind j ∈ kinds /\ job_run_after j <= now /\ job_id j ∉ locked.
Proof. unfold Queue.claimable. intros ?. bool_to_prop. done. Qed.

(** The claim query in one equation. *)
Lemma claim_one_eq locked w kinds s :
  schema_ok s ->
  (Queue.claim_one locked w kinds s = (Ok None, s) /\
   forall j, j ∈ db_jobs s -> Queue.claimable locked kinds (db_now s) j = false) \/
  (exists j s', Queue.next_claim locked kinds s = Some j /\
   Queue.claim_one locked w kinds s = (Ok (Some (claimed (db_now s) w j)), s') /\
   (forall i, job_of s' i = if i =? job_id j then Some (claimed (db_now s) w j) else job_of s i) /\
   db_now s' = db_now s /\ db_recordings s' = db_recordings s).
Proof.
  intros Hs. unfold Queue.claim_one. case_bool_decide as Hk.
  - left. split; [done|]. intros j Hj. destruct (Queue.claimable _ _ _ _) eqn:E; [|done].
    apply claimable_queued in E as (_ & Hin & _). subst. inversion Hin.
  - destruct (Queue.next_claim locked kinds s) as [j|] eqn:E.
    + right. exists j. pose proof (next_claim_Some _ _ _ _ E) as (Hj & Hc & _).
      apply claimable_queued in Hc as (Hq & _).
      set (f := fun j0 : Job => job_set j0 Running (job_attempts j0) (job_run_after j0)
        (Some w) (Some (db_now s)) (job_error j0)).
      destruct (update_jobs_ok (fun j0 => job_id j0 =? job_id j) f s) as (s' & Heq & Hjobs & Hrec & Hnow);
        [apply _|done| |].
      { intros x Hx Hp%Z.eqb_eq _. pose proof (job_of_elem s x Hs Hx). pose proof (job_of_elem s j Hs Hj).
        assert (x = j) as -> by congruence. unfold job_live. by rewrite Hq. }
      exists s'. split; [done|]. split; [|split; [|done]].
      * rewrite bind_now, bind_query, E. rewrite (bind_ok _ _ _ _ _ Heq). by rewrite bfilter_id.
      * intros i. apply (update_by_id_of _ f _ _ _ _ _ _ Heq). by apply job_of_elem.
    + left. rewrite bind_now, bind_query, E. split; [done|]. by apply next_claim_None.
Qed.

(** ** The operations, as equations on the jobs they touch *)

(** Whatever an update answers, the jobs are as before or every row updated. *)
Lemma update_jobs_cases p set s r s' :
  update_jobs p set s = (r, s') ->
  db_next_job s' = db_next_job s /\ db_now s' = db_now s /\
  ((exists e, r = Err e) /\ s' = s \/
   db_jobs s' = map (updated p set (db_now s)) (db_jobs s)).
Proof.
  unfold update_jobs. case_bool_decide; intros [= <- <-]; cbn; [by auto|].
  split; [done|]. split; [done|]. left. eauto.
Qed.

Definition completed (j : Job) : Job :=
  job_set j Done (job_attempts j) (job_run_after j) None None None.

Lemma complete_eq i s : schema_ok s ->
  exists s', Queue.complete i s = (Ok tt, s') /\ db_now s' = db_now s /\
    db_next_job s' = db_next_job s /\ db_recordings s' = db_recordings s /\
    db_jobs s' = map (updated (fun j => job_id j =? i) completed (db_now s)) (db_jobs s).
Proof.
  intros Hs. unfold Queue.complete.
  destruct (update_jobs_ok (fun j => job_id j =? i) completed s) as (s' & Heq & Hjobs & Hrec & Hnow);
    [apply _|done|done|].
  exists s'. rewrite (bind_ok _ _ _ _ _ Heq). apply update_jobs_cases in Heq as (? & _ & _). done.
Qed.

Definition beaten (now : Instant) (j : Job) : Job :=
  job_set j (job_state j) (job_attempts j) (job_run_after j) (job_locked_by j) (Some now) (job_error j).

Definition held_by (i : Z) (w : string) (j : Job) : bool :=
  (job_id j =? i) && bool_decide (job_locked_by j = Some w) && bool_decide (job_state j = Running).

Lemma heartbeat_eq i w s : schema_ok s ->
  exists s', Queue.heartbeat i w s = (Ok (existsb (held_by i w) (db_jobs s)), s') /\
    db_now s' = db_now s /\ db_next_job s' = db_next_job s /\
    db_jobs s' = map (updated (held_by i w) (beaten (db_now s)) (db_now s)) (db_jobs s).
Proof.
  intros Hs. unfold Queue.heartbeat. rewrite bind_now.
  destruct (update_jobs_ok (held_by i w) (beaten (db_now s)) s) as (s' & Heq & Hjobs & Hrec & Hnow);
    [apply _|done| |].
  { intros j _ Hp _. unfold held_by in Hp. bool_to_prop. unfold job_live. by rewrite H0. }
  exists s'. fold (held_by i w) (beaten (db_now s)). rewrite (bind_ok _ _ _ _ _ Heq).
  apply update_jobs_cases in Heq as (? & _ & _). split; [|done]. unfold mret, M_ret. do 2 f_equal.
  unfold count, bfilter. rewrite length_map. clear.
  induction (db_jobs s) as [|x l IH]; cbn; [done|].
  destruct (held_by i w x); cbn [orb length]; [by rewrite Nat2Z.inj_succ; apply Z.ltb_lt; lia|done].
Qed.

Lemma reap_keeps m : KeepsKey (Queue.reap m).
Proof. intros j. done. Qed.
#[export] Existing Instance reap_keeps.

Definition expired (now : Instant) (older : Z) (j : Job) : bool :=
  Queue.in_state Running j && Queue.lease_expired now older j.

Lemma reap_stuck_eq older m s : schema_ok s ->
  exists s', Queue.reap_stuck older m s =
    (Ok (map (fun j => mkReaped (job_id j) (job_recording_id j)
                (m <=? job_attempts j + 1)) (bfilter (expired (db_now s) older) (db_jobs s))), s') /\
    db_now s' = db_now s /\ db_next_job s' = db_next_job s /\
    db_jobs s' = map (updated (expired (db_now s) older) (Queue.reap m) (db_now s)) (db_jobs s).
Proof.
  intros Hs. unfold Queue.reap_stuck. rewrite bind_now.
  destruct (update_jobs_ok (expired (db_now s) older) (Queue.reap m) s) as (s' & Heq & Hjobs & Hrec & Hnow);
    [apply _|done| |].
  { intros j _ Hp _. unfold expired, Queue.in_state in Hp. bool_to_prop. unfold job_live. by rewrite H. }
  exists s'. fold (expired (db_now s) older). rewrite (bind_ok _ _ _ _ _ Heq).
  apply update_jobs_cases in Heq as (? & _ & _). split; [|done]. unfold mret, M_ret. do 2 f_equal.
  rewrite map_map. apply map_ext. intros j. unfold Queue.in_state, Queue.reap, touch, job_set. cbn.
  by destruct (m <=? job_attempts j + 1).
Qed.

(** What [fail] makes of the job, when it is let. *)
Definition failed_job (now : Instant) (e : string) (m b attempts : Z) (j : Job) : Job :=
  if attempts + 1 <? m then
    job_set j Queued (attempts + 1) (now + make_interval (Queue.backoff_delay b (attempts + 1)))
      None None (Some e)
  else job_set j JobFailed (attempts + 1) (job_run_after j) None None (Some e).

Lemma record_failure_unfold i e m b n s :
  Queue.record_failure i e m b n s =
  (_ ← update_jobs (fun j => job_id j =? i) (failed_job (db_now s) e m b n); mret (n + 1 <? m)) s.
Proof. unfold Queue.record_failure, failed_job. by destruct (n + 1 <? m). Qed.

#[export] Instance failed_job_keeps now e m b n : KeepsKey (failed_job now e m b n).
Proof. intros x. unfold failed_job. by destruct (_ <? m). Qed.

Lemma fail_eq_record i e m b s j :
  job_of s i = Some j -> Queue.fail i e m b s = Queue.record_failure i e m b (job_attempts j) s.
Proof. unfold job_of, Queue.fail. intros Hj. apply bind_ok. unfold Queue.select_attempts. by rewrite Hj. Qed.

Lemma fail_missing i e m b s : job_of s i = None -> Queue.fail i e m b s = (Err row_not_found, s).
Proof.
  unfold job_of, Queue.fail. intros Hj. apply bind_err. unfold Queue.select_attempts. by rewrite Hj.
Qed.

(** On a live job (the only ones the worker fails), recording a failure does
    not error. *)
Lemma record_failure_eq i e m b n s j : schema_ok s -> job_of s i = Some j -> job_live j = true ->
  exists s', Queue.record_failure i e m b n s = (Ok (n + 1 <? m), s') /\
    db_recordings s' = db_recordings s /\
    (forall k, job_of s' k = if k =? i
       then Some (touch (db_now s) (failed_job (db_now s) e m b n j)) else job_of s k).
Proof.
  intros Hs Hj Hl. rewrite record_failure_unfold. set (f := failed_job (db_now s) e m b n).
  destruct (update_jobs_ok (fun j0 => job_id j0 =? i) f s) as (s' & Heq & Hjobs & Hrec & Hnow);
    [apply _|done| |].
  { intros x Hx Hp%Z.eqb_eq _. pose proof (job_of_elem s x Hs Hx) as Hx'. rewrite Hp in Hx'. congruence. }
  exists s'. rewrite (bind_ok _ _ _ _ _ Heq). split; [done|]. split; [done|].
  intros k. by apply (update_by_id_of _ f _ _ _ _ _ _ Heq).
Qed.

Lemma fail_eq i e m b s j : schema_ok s -> job_of s i = Some j -> job_live j = true ->
  exists s', Queue.fail i e m b s = (Ok (job_attempts j + 1 <? m), s') /\
    db_recordings s' = db_recordings s /\
    (forall k, job_of s' k = if k =? i
       then Some (touch (db_now s) (failed_job (db_now s) e m b (job_attempts j) j)) else job_of s k).
Proof. intros Hs Hj Hl. rewrite (fail_eq_record _ _ _ _ _ _ Hj). by apply record_failure_eq. Qed.

Definition deferred (now : Instant) (note : string) (d : Z) (j : Job) : Job :=
  job_set j Queued (job_attempts j) (now + make_interval d) None None (Some note).

Lemma defer_eq i note d s j : schema_ok s -> job_of s i = Some j -> job_live j = true ->
  exists s', Queue.defer i note d s = (Ok tt, s') /\ db_now s' = db_now s /\
    (forall k, job_of s' k = if k =? i then Some (touch (db_now s) (deferred (db_now s) note d j)) else job_of s k).
Proof.
  intros Hs Hj Hl. unfold Queue.defer. rewrite bind_now.
  set (f := deferred (db_now s) note d).
  destruct (update_jobs_ok (fun j0 => job_id j0 =? i) f s) as (s' & Heq & Hjobs & Hrec & Hnow);
    [apply _|done| |].
  { intros x Hx Hp%Z.eqb_eq _. pose proof (job_of_elem s x Hs Hx) as Hx'. rewrite Hp in Hx'. congruence. }
  exists s'. change (fun j0 : Job => job_set j0 Queued _ _ _ _ _) with f.
  rewrite (bind_ok _ _ _ _ _ Heq). split; [done|]. split; [done|].
  intros k. by apply (update_by_id_of _ f _ _ _ _ _ _ Heq).
Qed.


#[global] Arguments Queue.predecessors_done : simpl never.
#[global] Arguments Queue.enqueue : simpl never.
#[global] Arguments Queue.enqueue_with_priority : simpl never.
#[global] Arguments Queue.claim_one : simpl never.
#[global] Arguments Queue.complete : simpl never.
#[global] Arguments Queue.fail : simpl never.
#[global] Arguments Queue.record_failure : simpl never.
#[global] Arguments Queue.defer : simpl never.
#[global] Arguments Queue.heartbeat : simpl never.
#[global] Arguments Queue.reap_stuck : simpl never.
