(* ===== verification/QueueSteps.v ===== *)
(** * The queue as a transition system

    The operations of [Queue] interleaved by the workers, the API and the clock:
    what every reachable queue satisfies, and what the operations promise. *)

From S2P Require Import Prelude RustStr Types Db DbSchema Queue.

(** ** The queue as a transition system

    The workers, the API and the clock interleave one statement at a time, but
    for [enqueue], whose second one only reads; the cap on attempts is the
    configuration's.  [EFail i n] is the second statement of [fail], [n] being what
    some earlier statement read. *)

Inductive event :=
| EEnqueue (r : Uuid) (k : JobKind)
| EClaim (w : string) (i : Z)
| EHeartbeat (i : Z)
| EComplete (i : Z)
| EFail (i attempts : Z)
| EDefer (i : Z)
| EReap (older : Z) (ids : list Z)
| EDelete
| ETick
| EOther.

Section transitions.
Context (max_attempts : Z).

Inductive queue_step (s : Db) : event -> Db -> Prop :=
| q_enqueue r k payload pr :
    queue_step s (EEnqueue r k) (snd (Queue.enqueue_with_priority r k payload pr s))
| q_claim locked w kinds j s' :
    Queue.claim_one locked w kinds s = (Ok (Some j), s') -> queue_step s (EClaim w (job_id j)) s'
| q_heartbeat i w : queue_step s (EHeartbeat i) (snd (Queue.heartbeat i w s))
| q_complete i : queue_step s (EComplete i) (snd (Queue.complete i s))
| q_fail i e b n : queue_step s (EFail i n) (snd (Queue.record_failure i e max_attempts b n s))
| q_defer i note d : queue_step s (EDefer i) (snd (Queue.defer i note d s))
| q_reap older rs s' :
    Queue.reap_stuck older max_attempts s = (Ok rs, s') -> queue_step s (EReap older (map reaped_id rs)) s'
| q_delete p : queue_step s EDelete (snd (delete_jobs p s))
| q_delete_recording id : queue_step s EDelete (delete_recording_cascade id s)
| q_tick d : 0 <= d -> queue_step s ETick (set_now (db_now s + d) s)
| q_other s' : schema_ok s' -> db_jobs s' = db_jobs s -> db_next_job s' = db_next_job s ->
    db_now s' = db_now s -> queue_step s EOther s'.

(** A worker that still holds its job when it finishes it or puts it down, and
    has held it since it read its attempts. *)
Definition still_held (s : Db) (e : event) : Prop :=
  match e with
  | EComplete i | EDefer i => exists j, job_of s i = Some j /\ job_state j = Running
  | EFail i n => exists j, job_of s i = Some j /\ job_state j = Running /\ job_attempts j = n
  | _ => True
  end.

Inductive trace : Db -> list event -> Db -> Prop :=
| trace_nil s : trace s [] s
| trace_cons s e s' es s'' : queue_step s e s' -> trace s' es s'' -> trace s (e :: es) s''.

Inductive careful_trace : Db -> list event -> Db -> Prop :=
| careful_nil s : careful_trace s [] s
| careful_snoc s es e s' s'' :
    careful_trace s es s' -> still_held s' e -> queue_step s' e s'' -> careful_trace s (es ++ [e]) s''.
End transitions.

(** An event that puts a running job back on the queue. *)
Definition requeues (i : Z) (e : event) : Prop :=
  match e with
  | EFail i' _ | EDefer i' => i' = i
  | EReap _ ids => i ∈ ids
  | _ => False
  end.

(** The lock columns tell the state, and a running job was due when claimed. *)
Definition job_ok (now : Instant) (j : Job) : Prop :=
  match job_state j with
  | Running => is_Some (job_locked_by j) /\ is_Some (job_locked_at j) /\ job_run_after j <= now
  | _ => job_locked_by j = None /\ job_locked_at j = None
  end.

Definition queue_ok (s : Db) : Prop := schema_ok s /\ Forall (job_ok (db_now s)) (db_jobs s).

Definition attempts_ok (m : Z) (j : Job) : Prop :=
  0 <= job_attempts j <= m /\ (job_state j <> JobFailed -> job_attempts j < m).

(** [i] has been handed out: its row, while it has one, is not queued. *)
Definition handed_out (i : Z) (s : Db) : Prop :=
  i < db_next_job s /\ forall j, j ∈ db_jobs s -> job_id j = i -> job_state j <> Queued.

(** *** How a step changes the rows *)

Section rows.
Context (m : Z).

(** Every row after a step was there before, or is the row just enqueued, or
    is an updated row; the sequence never goes back. *)
Inductive row_change (s : Db) (e : event) (j' : Job) : Prop :=
| row_same : j' ∈ db_jobs s -> row_change s e j'
| row_new r k : e = EEnqueue r k -> job_id j' = db_next_job s -> job_state j' = Queued ->
    job_attempts j' = 0 -> job_locked_by j' = None -> job_locked_at j' = None -> row_change s e j'
| row_claimed j w : e = EClaim w (job_id j) -> j ∈ db_jobs s -> job_state j = Queued ->
    job_run_after j <= db_now s -> j' = claimed (db_now s) w j -> row_change s e j'
| row_beaten j : j ∈ db_jobs s -> job_state j = Running -> e = EHeartbeat (job_id j) ->
    j' = touch (db_now s) (beaten (db_now s) j) -> row_change s e j'
| row_completed j : e = EComplete (job_id j) -> j ∈ db_jobs s ->
    j' = touch (db_now s) (completed j) -> row_change s e j'
| row_failed j err b n : e = EFail (job_id j) n -> j ∈ db_jobs s ->
    j' = touch (db_now s) (failed_job (db_now s) err m b n j) -> row_change s e j'
| row_deferred j note d : e = EDefer (job_id j) -> j ∈ db_jobs s ->
    j' = touch (db_now s) (deferred (db_now s) note d j) -> row_change s e j'
| row_reaped j older ids : e = EReap older ids -> job_id j ∈ ids -> j ∈ db_jobs s -> expired (db_now s) older j = true ->
    j' = touch (db_now s) (Queue.reap m j) -> row_change s e j'.

Lemma elem_updated p set now (l : list Job) j' :
  j' ∈ map (updated p set now) l ->
  exists j, j ∈ l /\ ((p j = true /\ j' = touch now (set j)) \/ (p j = false /\ j' = j)).
Proof.
  intros (j & -> & Hj)%list_elem_of_fmap. exists j. split; [done|].
  unfold updated. destruct (p j); auto.
Qed.

Lemma enqueue_state r k payload pr s :
  snd (Queue.enqueue_with_priority r k payload pr s) = snd (Queue.insert_job r k payload pr s).
Proof.
  unfold Queue.enqueue_with_priority, mbind, M_bind.
  destruct (Queue.insert_job r k payload pr s) as [[[j|]|e] s']; [done| |done].
  unfold Queue.existing_job. by destruct (sort_by _ _).
Qed.

Lemma insert_job_state r k payload pr s :
  db_next_job (snd (Queue.insert_job r k payload pr s)) = db_next_job s + 1 /\
  db_now (snd (Queue.insert_job r k payload pr s)) = db_now s /\
  (db_jobs (snd (Queue.insert_job r k payload pr s)) = db_jobs s \/
   db_jobs (snd (Queue.insert_job r k payload pr s)) = db_jobs s ++ [Queue.new_job s r k payload pr]).
Proof.
  unfold Queue.insert_job. cbn zeta. case_bool_decide; [by auto|].
  destruct (negb _); cbn; auto.
Qed.

(** The state an update-then-answer sequence leaves. *)
Lemma update_then_state {A} p set (k : list Job -> A) s :
  snd ((rows ← update_jobs p set; mret (k rows)) s) = snd (update_jobs p set s).
Proof.
  unfold mbind, M_bind. by destruct (update_jobs p set s) as [[rows|e] s'].
Qed.

Lemma expired_running now older j : expired now older j = true -> job_state j = Running.
Proof. unfold expired, Queue.in_state. intros ?. by bool_to_prop. Qed.

Lemma update_rows p set s j' :
  j' ∈ db_jobs (snd (update_jobs p set s)) ->
  j' ∈ db_jobs s \/ exists j, j ∈ db_jobs s /\ p j = true /\ j' = touch (db_now s) (set j).
Proof.
  destruct (update_jobs p set s) as [r s'] eqn:E. cbn.
  apply update_jobs_cases in E as (_ & _ & [[_ ->]|Hmap]); [by left|].
  rewrite Hmap. intros (j & Hj & [[Hp ->]|[Hp ->]])%elem_updated; eauto.
Qed.

Lemma update_state p set s :
  db_next_job (snd (update_jobs p set s)) = db_next_job s /\
  db_now (snd (update_jobs p set s)) = db_now s.
Proof. unfold update_jobs. by case_bool_decide. Qed.

(** Steps that leave the sequence and the clock alone, rows argued for. *)
Definition rows_follow (s : Db) (e : event) (s' : Db) : Prop :=
  db_next_job s <= db_next_job s' /\
  (match e with ETick => db_now s <= db_now s' | _ => db_now s' = db_now s end) /\
  forall j', j' ∈ db_jobs s' -> row_change s e j'.

Lemma enqueue_rows r k payload pr s :
  rows_follow s (EEnqueue r k) (snd (Queue.enqueue_with_priority r k payload pr s)).
Proof.
  rewrite enqueue_state. destruct (insert_job_state r k payload pr s) as (Hn & Hnow & Hj).
  split; [lia|]. split; [done|]. intros j'. destruct Hj as [-> | ->]; [by constructor|].
  intros [Hj|Hj]%elem_of_app; [by constructor|]. apply list_elem_of_singleton in Hj as ->.
  by eapply row_new.
Qed.

Lemma fail_rows i e b n s : schema_ok s -> rows_follow s (EFail i n) (snd (Queue.record_failure i e m b n s)).
Proof.
  intros Hs. rewrite record_failure_unfold, (update_then_state _ _ (fun _ => _)).
  split; [by rewrite (proj1 (update_state _ _ _))|]. split; [apply update_state|].
  intros j' [Hin|(x & Hx & <-%Z.eqb_eq & ->)]%update_rows; [by constructor|]. by eapply row_failed.
Qed.

Lemma claim_rows locked w kinds s j s' :
  schema_ok s -> Queue.claim_one locked w kinds s = (Ok (Some j), s') ->
  rows_follow s (EClaim w (job_id j)) s'.
Proof.
  intros Hs. unfold Queue.claim_one. case_bool_decide; [done|].
  rewrite bind_now, bind_query. destruct (Queue.next_claim _ _ _) as [c|] eqn:Hc; [|done].
  apply next_claim_Some in Hc as (Hin & (Hq & _ & Hrun & _)%claimable_queued & _).
  unfold mbind, M_bind. destruct (update_jobs _ _ _) as [[rows|e] s1] eqn:E; [|done].
  intros [= Hj ->]. pose proof E as (Hn & Hnow & _)%update_jobs_cases.
  assert (Hid : job_id j = job_id c).
  { revert E. unfold update_jobs. case_bool_decide; [|done]. intros [= <- _]. revert Hj.
    rewrite bfilter_id by done. by intros [= <-]. }
  split; [lia|]. split; [done|]. intros j' Hj'.
  assert (Hs' : s' = snd (update_jobs (fun x => job_id x =? job_id c)
    (fun x => job_set x Running (job_attempts x) (job_run_after x) (Some w) (Some (db_now s)) (job_error x)) s))
    by (by rewrite E).
  rewrite Hs' in Hj'. apply update_rows in Hj' as [?|(x & Hx & Hp%Z.eqb_eq & ->)]; [by constructor|].
  pose proof (job_of_elem s x Hs Hx) as Hx'. rewrite Hp in Hx'. rewrite job_of_elem in Hx' by done.
  injection Hx' as <-. eapply (row_claimed _ _ _ c w); try done. by rewrite Hid.
Qed.

(** An operation that is one update: the rows it changes, one by one. *)
Lemma update_rows_follow p set s e :
  e <> ETick ->
  (forall j, j ∈ db_jobs s -> p j = true -> row_change s e (touch (db_now s) (set j))) ->
  rows_follow s e (snd (update_jobs p set s)).
Proof.
  intros He Hp. destruct (update_state p set s) as [Hn Hnow]. split; [lia|].
  split; [by destruct e|].
  intros j' [Hin|(j & Hj & Hpj & ->)]%update_rows; [by constructor|by apply Hp].
Qed.

Lemma step_rows s e s' : schema_ok s -> queue_step m s e s' -> schema_ok s' /\ rows_follow s e s'.
Proof.
  intros Hs. destruct 1 as [r k pl pr|locked w kinds j s' Hc|i w|i|i err b n|i note d|older rs s' Hr|p|id|d Hd|s' Hs' Hj Hn Ht].
  - split; [by apply (enqueue_schema r k pl pr)|apply enqueue_rows].
  - split; [|by eapply claim_rows].
    change s' with (snd (Ok (E:=Error) (Some j), s')). rewrite <- Hc. by apply claim_one_schema.
  - split; [by apply (heartbeat_schema i w)|]. unfold Queue.heartbeat. rewrite bind_now.
    rewrite (update_then_state _ _ (fun _ => _)). apply update_rows_follow; [done|].
    intros j Hj Hp. bool_to_prop. subst. by eapply row_beaten.
  - split; [by apply (complete_schema i)|]. unfold Queue.complete.
    rewrite (update_then_state _ _ (fun _ => _)). apply update_rows_follow; [done|].
    intros j Hj Hp%Z.eqb_eq. subst. by eapply row_completed.
  - split; [by apply (record_failure_schema i err m b n)|by apply fail_rows].
  - split; [by apply (defer_schema i note d)|]. unfold Queue.defer. rewrite bind_now.
    rewrite (update_then_state _ _ (fun _ => _)). apply update_rows_follow; [done|].
    intros j Hj Hp%Z.eqb_eq. subst. by eapply row_deferred.
  - destruct (reap_stuck_eq older m s Hs) as (s1 & Heq & Hnow & Hn & Hjobs).
    rewrite Heq in Hr. injection Hr as <- <-. split.
    + pose proof (reap_stuck_schema older m s Hs) as H. by rewrite Heq in H.
    + split; [lia|]. split; [done|]. rewrite Hjobs.
      intros j' (j & Hj & [[Hp ->]|[_ ->]])%elem_updated; [|by constructor].
      eapply row_reaped; [done| |done| |done].
      * rewrite map_map. cbn. apply list_elem_of_fmap_2, elem_of_bfilter. done.
      * done.
  - split; [by apply (delete_jobs_schema p)|]. split; [cbn; lia|]. split; [done|].
    cbn. intros j' [Hj _]%elem_of_bfilter. by constructor.
  - split; [by apply delete_recording_cascade_schema|]. split; [cbn; lia|]. split; [done|].
    cbn. intros j' [Hj _]%elem_of_bfilter. by constructor.
  - split; [destruct Hs; constructor; done|]. split; [cbn; lia|]. split; [cbn; lia|].
    cbn. intros j' Hj. by constructor.
  - split; [done|]. split; [lia|]. split; [done|]. rewrite Hj. intros j' Hj'. by constructor.
Qed.
End rows.

(** *** What every reachable queue satisfies *)

Lemma job_ok_later now now' j : now <= now' -> job_ok now j -> job_ok now' j.
Proof. unfold job_ok. destruct (job_state j); try done. intros ? (? & ? & ?). repeat split; try done. lia. Qed.

Lemma step_queue_ok m s e s' : queue_step m s e s' -> queue_ok s -> queue_ok s'.
Proof.
  intros Hstep [Hs Hok]. destruct (step_rows m s e s' Hs Hstep) as (Hs' & _ & Hnow & Hrows).
  split; [done|]. rewrite Forall_forall in *.
  assert (Hle : db_now s <= db_now s') by (destruct e; lia).
  intros j' Hj'. destruct (Hrows j' Hj') as [Hin|r k _ _ Hst _ Hb Ha|j w _ Hin Hq Hrun ->|j Hin Hr _ ->
    |j _ Hin ->|j err b n _ Hin ->|j note d _ Hin ->|j older ids _ _ Hin Hr ->].
  - by eapply job_ok_later, Hok.
  - unfold job_ok. by rewrite Hst.
  - unfold job_ok. cbn. repeat split; eauto. lia.
  - specialize (Hok j Hin). unfold job_ok in *. cbn. rewrite Hr in Hok |- *.
    destruct Hok as (? & ? & ?). repeat split; eauto. lia.
  - done.
  - unfold failed_job. by destruct (_ <? m).
  - done.
  - unfold job_ok, Queue.reap. cbn. by destruct (m <=? _).
Qed.

Lemma step_handed_out m s e s' i :
  schema_ok s -> queue_step m s e s' -> handed_out i s -> ~ requeues i e -> handed_out i s'.
Proof.
  intros Hs Hstep [Hlt Hq] Hnr. destruct (step_rows m s e s' Hs Hstep) as (_ & Hn & _ & Hrows).
  split; [lia|]. intros j' Hj' Hi.
  destruct (Hrows j' Hj') as [Hin|r k _ Hid _ _ _ _|j w _ Hin Hqj Hrun ->|j Hin Hr _ ->
    |j _ Hin ->|j err b n -> Hin ->|j note d -> Hin ->|j older ids -> Hids Hin Hr ->].
  - by apply Hq.
  - lia.
  - done.
  - cbn. by rewrite Hr.
  - done.
  - exfalso. apply Hnr. revert Hi. cbn. unfold failed_job. by destruct (_ <? m).
  - exfalso. by apply Hnr.
  - exfalso. apply Hnr. cbn in *. by rewrite <- Hi.
Qed.

Lemma claim_hands_out m s w i s' : schema_ok s -> queue_step m s (EClaim w i) s' ->
  handed_out i s' /\ ~ handed_out i s.
Proof.
  intros Hs Hstep. inversion Hstep as [|locked w' kinds j s1 Hc| | | | | | | | |]; subst.
  destruct (claim_one_eq locked w kinds s Hs) as [[Hn _]|(c & s1 & Hnext & Heq & Hof & Hnow & _)];
    [congruence|]. rewrite Heq in Hc. injection Hc as <- <-. cbn in *.
  apply next_claim_Some in Hnext as (Hin & (Hq & _)%claimable_queued & _).
  assert (Hlt : job_id c < db_next_job s) by (pose proof (jobs_next s Hs) as H; rewrite Forall_forall in H; auto).
  destruct (step_rows m s _ _ Hs Hstep) as (Hs' & Hn & _). split.
  - split; [lia|]. intros j' Hj' Hid. pose proof (job_of_elem _ _ Hs' Hj') as Hj.
    rewrite Hof, Hid, Z.eqb_refl in Hj. by injection Hj as <-.
  - intros [_ Hno]. by apply (Hno c).
Qed.

Lemma trace_schema m s es s' : schema_ok s -> trace m s es s' -> schema_ok s'.
Proof.
  intros Hs Ht. induction Ht as [|? ? ? ? ? Hstep _ IH]; [done|].
  apply IH. by eapply step_rows.
Qed.

Lemma trace_app m s es1 es2 s'' :
  trace m s (es1 ++ es2) s'' <-> exists s', trace m s es1 s' /\ trace m s' es2 s''.
Proof.
  revert s. induction es1 as [|e es1 IH]; intros s; cbn.
  - split; [intros H; exists s; split; [constructor|done]|intros (s' & Ht & ?); by inversion Ht; subst].
  - split.
    + intros Ht. inversion Ht as [|? ? s1 ? ? Hstep Hrest]; subst.
      apply IH in Hrest as (s' & ? & ?). exists s'. split; [by econstructor|done].
    + intros (s' & Ht & ?). inversion Ht as [|? ? s1 ? ? Hstep Hrest]; subst.
      econstructor; [done|]. apply IH. eauto.
Qed.

Lemma trace_handed_out m s es s' i :
  schema_ok s -> trace m s es s' -> handed_out i s -> (forall e, e ∈ es -> ~ requeues i e) ->
  handed_out i s'.
Proof.
  intros Hs Ht. induction Ht as [|? e ? ? ? Hstep _ IH]; [done|]. intros Hh Hno.
  apply IH; [by eapply step_rows| |intros; apply Hno; by right].
  eapply step_handed_out; [done|done|done|]. apply Hno. by left.
Qed.

#[export] Instance requeues_dec i e : Decision (requeues i e).
Proof. destruct e; cbn; apply _. Defined.

(** The order a job's row is compared in: [live_keys] as at-most-one. *)
Lemma live_unique jobs j1 j2 k :
  NoDup (live_keys jobs) -> NoDup (map job_id jobs) -> j1 ∈ jobs -> j2 ∈ jobs ->
  live_key j1 = Some k -> live_key j2 = Some k -> j1 = j2.
Proof.
  unfold live_keys. induction jobs as [|j jobs IH]; cbn; [intros _ _ H; inversion H|].
  intros Hnd [Hid Hids]%NoDup_cons H1 H2 K1 K2.
  assert (Hin : forall x, x ∈ jobs -> live_key x = Some k -> k ∈ omap live_key jobs)
    by (intros x Hx Hk; apply list_elem_of_omap; eauto).
  apply elem_of_cons in H1 as [->|H1]; apply elem_of_cons in H2 as [->|H2]; [done| | |].
  - rewrite K1 in Hnd. apply NoDup_cons in Hnd as [Hk _]. exfalso. eauto.
  - rewrite K2 in Hnd. apply NoDup_cons in Hnd as [Hk _]. exfalso. eauto.
  - apply IH; try done. destruct (live_key j); [by apply NoDup_cons in Hnd as [_ ?]|done].
Qed.

(** ** Properties *)

(** C8: in every state the queue can reach from an empty database, whatever the
    workers, the API and the clock do: the schema's constraints hold, a
    recording has at most one live job of a kind, and the lock columns are set
    exactly on running jobs, which were due when they were claimed. *)
Theorem queue_invariant m now es s :
  trace m (empty_db now) es s ->
  queue_ok s /\
  forall j1 j2 r k, j1 ∈ db_jobs s -> j2 ∈ db_jobs s ->
    live_key j1 = Some (r, k) -> live_key j2 = Some (r, k) -> j1 = j2.
Proof.
  intros Ht. assert (Hok : queue_ok s).
  { assert (H0 : queue_ok (empty_db now)) by (split; [apply empty_db_schema|constructor]).
    revert H0. induction Ht as [|? ? ? ? ? Hstep _ IH]; [done|]. intros H0.
    apply IH. by eapply step_queue_ok. }
  split; [done|]. destruct Hok as [Hs _]. intros j1 j2 r k.
  apply live_unique; by apply Hs.
Qed.

Lemma expired_spec now older j : job_ok now j ->
  expired now older j = true <->
  job_state j = Running /\ exists t, job_locked_at j = Some t /\ t + older * 1000000 < now.
Proof.
  intros Hok. unfold expired, Queue.in_state, Queue.lease_expired, make_interval.
  rewrite andb_true_iff, bool_decide_eq_true. destruct (job_locked_at j) as [t|].
  - rewrite Z.ltb_lt. split; [intros [? ?]; split; [done|]; exists t; split; [done|lia]|].
    intros (? & t' & [= <-] & ?). split; [done|lia].
  - split; [by intros [_ ?]|]. by intros (_ & t & ? & _).
Qed.

Lemma map_updated_of p set s s' i :
  KeepsKey set -> db_jobs s' = map (updated p set (db_now s)) (db_jobs s) ->
  job_of s' i = updated p set (db_now s) <$> job_of s i.
Proof.
  intros Hk Hm. unfold job_of. rewrite Hm. apply find_first_map. intros j. unfold updated.
  destruct (p j); cbn; [|done]. by destruct (Hk j) as [-> _].
Qed.

(** The reaper's lease has lapsed. *)
Definition lapsed (now : Instant) (older : Z) (j : Job) : Prop :=
  job_state j = Running /\ exists t, job_locked_at j = Some t /\ t + older * 1000000 < now.

(** What puts a job that was handed out back on the queue. *)
Lemma step_back_on_queue m s e s' i :
  queue_ok s -> queue_step m s e s' -> handed_out i s -> ~ handed_out i s' ->
  exists j j', job_of s i = Some j /\ job_state j <> Queued /\ job_of s' i = Some j' /\ job_state j' = Queued /\
    match e with
    | EFail i' _ | EDefer i' => i' = i
    | EReap older ids => i ∈ ids /\ lapsed (db_now s) older j
    | _ => False
    end.
Proof.
  intros [Hs Hok] Hstep [Hlt Hq] Hnot. destruct (step_rows m s e s' Hs Hstep) as (Hs' & Hn & _ & Hrows).
  assert (exists j', j' ∈ db_jobs s' /\ job_id j' = i /\ job_state j' = Queued) as (j' & Hj' & Hi & Hst).
  { destruct (decide (Exists (fun j => job_id j = i /\ job_state j = Queued) (db_jobs s'))) as [(j & ? & ? & ?)%Exists_exists|Hno]; [by exists j|].
    exfalso. apply Hnot. split; [lia|]. intros j Hj Hid Hst. apply Hno, Exists_exists. by exists j. }
  assert (Hof : forall j, j ∈ db_jobs s -> job_id j = i -> job_of s i = Some j) by (intros j Hj <-; by apply job_of_elem).
  assert (job_of s' i = Some j') by (subst i; by apply job_of_elem).
  destruct (Hrows j' Hj') as [Hin|r k _ Hid _ _ _ _|j w _ Hin Hqj Hrun ->|j Hin Hr _ ->
    |j _ Hin ->|j err b n -> Hin ->|j note d -> Hin ->|j older ids -> Hids Hin Hr ->].
  - exfalso. by apply (Hq j').
  - lia.
  - done.
  - cbn in Hst. congruence.
  - done.
  - assert (job_id j = i) by (revert Hi; cbn; unfold failed_job; by destruct (_ <? m)). exists j. eexists. eauto 10.
  - exists j. eexists. eauto 10.
  - cbn in Hi. exists j. eexists. rewrite Forall_forall in Hok. apply (expired_spec _ _ j (Hok j Hin)) in Hr.
    subst i. eauto 10.
Qed.

#[export] Instance handed_out_dec i s : Decision (handed_out i s).
Proof.
  refine (cast_if (decide (i < db_next_job s /\ Forall (fun j => job_id j = i -> job_state j <> Queued) (db_jobs s))));
    unfold handed_out; by rewrite <- Forall_forall.
Defined.

(** The first step of a trace after which a state has lost something. *)
Lemma trace_breaks m (P : Db -> Prop) `{!forall s, Decision (P s)} s es s' :
  trace m s es s' -> P s -> ~ P s' ->
  exists a e b s1 s2, es = a ++ e :: b /\ trace m s a s1 /\ P s1 /\ queue_step m s1 e s2 /\ ~ P s2 /\ trace m s2 b s'.
Proof.
  induction 1 as [s|s e s1 es s' Hstep Ht IH]; intros Hp Hnot; [done|].
  destruct (decide (P s1)) as [Hp1|Hp1].
  - destruct (IH Hp1 Hnot) as (a & e' & b & s2 & s3 & -> & Ha & ?). exists (e :: a), e', b, s2, s3.
    split; [done|]. split; [by econstructor|done].
  - exists [], e, es, s, s1. split; [done|]. split; [constructor|done].
Qed.

Lemma trace_queue_ok m s es s' : trace m s es s' -> queue_ok s -> queue_ok s'.
Proof. induction 1 as [|? ? ? ? ? Hstep _ IH]; [done|]. intros Hs. apply IH. by eapply step_queue_ok. Qed.

(** C9: mutual exclusion.  Between two claims of one job, by any workers, there is
    a step before which the job was not on the queue and after which it was: a
    failure recorded for it, a deferral of it, or the reaper taking it, running,
    from a worker whose lease had lapsed then. *)
Theorem claims_alternate m now es1 w1 i es2 w2 es3 s :
  trace m (empty_db now) (es1 ++ EClaim w1 i :: es2 ++ EClaim w2 i :: es3) s ->
  exists a e b s1 s2 j j', es2 = a ++ e :: b /\
    trace m (empty_db now) (es1 ++ EClaim w1 i :: a) s1 /\ queue_step m s1 e s2 /\
    trace m s2 (b ++ EClaim w2 i :: es3) s /\
    job_of s1 i = Some j /\ job_state j <> Queued /\ job_of s2 i = Some j' /\ job_state j' = Queued /\
    match e with
    | EFail i' _ | EDefer i' => i' = i
    | EReap older ids => i ∈ ids /\ lapsed (db_now s1) older j
    | _ => False
    end.
Proof.
  intros (s1 & Ht1 & Ht)%trace_app.
  assert (Hs1 : queue_ok s1) by (eapply trace_queue_ok; [done|]; split; [apply empty_db_schema|constructor]).
  inversion Ht as [|? ? s2 ? ? Hc1 Ht2]; subst.
  pose proof (step_queue_ok _ _ _ _ Hc1 Hs1) as Hs2.
  pose proof (claim_hands_out _ _ _ _ _ (proj1 Hs1) Hc1) as [Hout _].
  apply trace_app in Ht2 as (s3 & Ht2 & Ht3). pose proof Ht3 as Ht4.
  inversion Ht4 as [|? ? s4 ? ? Hc2 _]; subst.
  assert (Hs3 : schema_ok s3) by (eapply trace_schema; [apply Hs2|done]).
  apply claim_hands_out in Hc2 as [_ Hnot]; [|done].
  destruct (trace_breaks m (handed_out i) _ _ _ Ht2 Hout Hnot) as (a & e & b & s5 & s6 & -> & Ha & Hp & Hstep & Hnp & Hb).
  assert (Hs5 : queue_ok s5) by (by eapply trace_queue_ok).
  destruct (step_back_on_queue _ _ _ _ _ Hs5 Hstep Hp Hnp) as (j & j' & ?).
  exists a, e, b, s5, s6, j, j'. split; [done|]. split; [apply trace_app; exists s1; split; [done|by econstructor]|].
  split; [done|]. split; [apply trace_app; eauto|done].
Qed.

(** *** Counting runs *)

(** How a step moves the state and the attempts of the job [i]. *)
Definition outcome (m i : Z) (e : event) (st : JobState) (n : Z) : JobState * Z :=
  match e with
  | EClaim _ i' => if i' =? i then (Running, n) else (st, n)
  | EComplete i' => if i' =? i then (Done, n) else (st, n)
  | EFail i' n' => if i' =? i then (if n' + 1 <? m then Queued else JobFailed, n' + 1) else (st, n)
  | EDefer i' => if i' =? i then (Queued, n) else (st, n)
  | EReap _ ids => if bool_decide (i ∈ ids) then (if m <=? n + 1 then JobFailed else Queued, n + 1) else (st, n)
  | _ => (st, n)
  end.

(** The state a step finds the job in, when it is about the job. *)
Definition found (i : Z) (e : event) (st : JobState) (n : Z) : Prop :=
  match e with
  | EClaim _ i' => i' = i -> st = Queued
  | EComplete i' | EDefer i' => i' = i -> st = Running
  | EFail i' n' => i' = i -> st = Running /\ n' = n
  | EReap _ ids => i ∈ ids -> st = Running
  | _ => True
  end.

Lemma step_outcome m s e s' i j' :
  schema_ok s -> queue_step m s e s' -> still_held s e -> job_of s' i = Some j' ->
  (exists j, job_of s i = Some j /\ (job_state j', job_attempts j') = outcome m i e (job_state j) (job_attempts j) /\
     found i e (job_state j) (job_attempts j)) \/
  (job_of s i = None /\ db_next_job s = i /\ job_state j' = Queued /\ job_attempts j' = 0 /\ exists r k, e = EEnqueue r k).
Proof.
  intros Hs Hstep Hheld Hj'.
  assert (Hsame : forall l, (forall x, x ∈ l -> x ∈ db_jobs s) -> job_of s' i = find_first (fun j => job_id j =? i) l -> job_of s i = Some j').
  { intros l Hl Hof. rewrite Hof in Hj'. apply find_first_Some in Hj' as [Hin Hid%Z.eqb_eq]. subst i. by apply job_of_elem, Hl. }
  destruct Hstep as [r k pl pr|locked w kinds j s' Hc|i' w|i'|i' err b n|i' note d|older rs s' Hr|p|id|d Hd|s' Hs' Hjobs Hn Ht];
    cbn [outcome found still_held] in *.
  - rewrite enqueue_state in Hj'. destruct (insert_job_state r k pl pr s) as (_ & _ & [Hjobs|Hjobs]); unfold job_of in Hj'; rewrite Hjobs in Hj'.
    { left. by exists j'. }
    rewrite find_first_app in Hj'. fold (job_of s i) in Hj'. destruct (job_of s i) as [j|] eqn:E; [injection Hj' as ->; left; by exists j'|].
    right. cbn in Hj'. destruct (_ =? i) eqn:Ei; [|done]. apply Z.eqb_eq in Ei. injection Hj' as <-. split; [done|]. split; [done|]. eauto 10.
  - destruct (claim_one_eq locked w kinds s Hs) as [[Heq _]|(c & s1 & Hnext & Heq & Hof & _)]; [congruence|].
    rewrite Heq in Hc. injection Hc as <- <-. rewrite Hof in Hj'. cbn. rewrite (Z.eqb_sym (job_id c)). left.
    apply next_claim_Some in Hnext as (Hin & (Hq & _)%claimable_queued & _). pose proof (job_of_elem s c Hs Hin) as Hc.
    destruct (i =? job_id c) eqn:E; [|exists j'; apply Z.eqb_neq in E; naive_solver].
    apply Z.eqb_eq in E as ->. injection Hj' as <-. by exists c.
  - left. destruct (heartbeat_eq i' w s Hs) as (s1 & Heq & _ & _ & Hjobs). rewrite Heq in Hj'. cbn in Hj'.
    rewrite (map_updated_of (held_by i' w) (beaten (db_now s)) s s1 i) in Hj' by done.
    destruct (job_of s i) as [j|]; [|done]. injection Hj' as <-. exists j. split; [done|]. unfold updated. by destruct (held_by i' w j).
  - left. destruct (complete_eq i' s Hs) as (s1 & Heq & _ & _ & _ & Hjobs). rewrite Heq in Hj'. cbn in Hj'.
    rewrite (map_updated_of (fun j => job_id j =? i') completed s s1 i) in Hj' by done.
    destruct (job_of s i) as [j|] eqn:Hj; [|done]. injection Hj' as <-. exists j. split; [done|]. unfold updated.
    apply job_of_Some in Hj as Hj0. destruct Hj0 as [_ ->]. rewrite (Z.eqb_sym i). destruct (i' =? i) eqn:E; (split; [done|]).
    + intros ->. destruct Hheld as (x & Hx & Hst). congruence.
    + by apply Z.eqb_neq in E.
  - destruct Hheld as (x & Hx & Hst & Hn). destruct (record_failure_eq i' err m b n s x Hs Hx) as (s1 & Heq & _ & Hof); [unfold job_live; by rewrite Hst|].
    rewrite Heq in Hj'. cbn in Hj'. rewrite Hof in Hj'. left. rewrite (Z.eqb_sym i'). destruct (i =? i') eqn:E.
    + apply Z.eqb_eq in E as ->. injection Hj' as <-. exists x. split; [done|]. split; [unfold failed_job; by destruct (n + 1 <? m)|done].
    + exists j'. apply Z.eqb_neq in E. naive_solver.
  - destruct Hheld as (x & Hx & Hst). destruct (defer_eq i' note d s x Hs Hx) as (s1 & Heq & _ & Hof); [unfold job_live; by rewrite Hst|].
    rewrite Heq in Hj'. cbn in Hj'. rewrite Hof in Hj'. left. rewrite (Z.eqb_sym i'). destruct (i =? i') eqn:E.
    + apply Z.eqb_eq in E as ->. injection Hj' as <-. by exists x.
    + exists j'. apply Z.eqb_neq in E. naive_solver.
  - left. destruct (reap_stuck_eq older m s Hs) as (s1 & Heq & _ & _ & Hjobs). rewrite Heq in Hr. injection Hr as <- <-.
    rewrite (map_updated_of (expired (db_now s) older) (Queue.reap m) s s1 i) in Hj' by done.
    destruct (job_of s i) as [j|] eqn:Hj; [|done]. injection Hj' as <-. exists j. split; [done|]. rewrite map_map. cbn [reaped_id].
    assert (Hiff : i ∈ map job_id (bfilter (expired (db_now s) older) (db_jobs s)) <-> expired (db_now s) older j = true).
    { pose proof (job_of_Some _ _ _ Hj) as [Hin Hid]. split.
      - intros (x & Hx & [Hxin Hxe]%elem_of_bfilter)%list_elem_of_fmap. pose proof (job_of_elem s x Hs Hxin). congruence.
      - intros He. rewrite <- Hid. apply list_elem_of_fmap_2. by apply elem_of_bfilter. }
    unfold updated. destruct (expired (db_now s) older j) eqn:E.
    + rewrite bool_decide_true by (by apply Hiff). split; [by cbn|]. intros _. unfold expired, Queue.in_state in E. by bool_to_prop.
    + rewrite bool_decide_false by (rewrite Hiff; done). split; [done|]. by intros ?%Hiff.
  - left. exists j'. split; [|done]. apply (Hsame (bfilter (fun j => negb (p j)) (db_jobs s))); [|done]. by intros x [? _]%elem_of_bfilter.
  - left. exists j'. split; [|done]. eapply Hsame; [|done]. cbn. by intros x [? _]%elem_of_bfilter.
  - left. exists j'. split; [|done]. by apply (Hsame (db_jobs s)).
  - left. exists j'. split; [|done]. apply (Hsame (db_jobs s)); [done|]. unfold job_of. by rewrite Hjobs.
Qed.

(** How often the job [i] was claimed, charged an attempt, and put down without. *)
Definition is_run (i : Z) (e : event) : bool := match e with EClaim _ i' => i' =? i | _ => false end.
Definition is_charge (i : Z) (e : event) : bool :=
  match e with EFail i' _ => i' =? i | EReap _ ids => bool_decide (i ∈ ids) | _ => false end.
Definition is_put_down (i : Z) (e : event) : bool := match e with EDefer i' => i' =? i | _ => false end.
Definition times (p : event -> bool) (es : list event) : Z := Z.of_nat (length (bfilter p es)).

Lemma times_snoc p es e : times p (es ++ [e]) = times p es + (if p e then 1 else 0).
Proof. unfold times. rewrite bfilter_app, length_app. cbn. destruct (p e); cbn; lia. Qed.

(** What the counts say of the rows, and that they say nothing of rows to come. *)
Definition counted (m : Z) (es : list event) (s : Db) : Prop :=
  (forall i j, job_of s i = Some j -> attempts_ok m j /\ job_attempts j = times (is_charge i) es /\
     times (is_run i) es = job_attempts j + times (is_put_down i) es +
       match job_state j with Running | Done => 1 | _ => 0 end) /\
  (forall i, db_next_job s <= i -> times (is_run i) es = 0 /\ times (is_charge i) es = 0 /\ times (is_put_down i) es = 0).

(** A step is about no row to come. *)
Lemma step_about m s e s' i : schema_ok s -> queue_step m s e s' -> still_held s e -> db_next_job s <= i ->
  is_run i e = false /\ is_charge i e = false /\ is_put_down i e = false.
Proof.
  intros Hs Hstep Hheld Hi.
  assert (Hlt : forall j, j ∈ db_jobs s -> job_id j <> i).
  { intros j Hj. pose proof (jobs_next s Hs) as H. rewrite Forall_forall in H. specialize (H j Hj). cbn in H. lia. }
  assert (Hof : forall i' j, job_of s i' = Some j -> (i' =? i) = false).
  { intros i' j [Hj <-]%job_of_Some. by apply Z.eqb_neq, Hlt. }
  destruct Hstep as [r k pl pr|locked w kinds j s' Hc|i' w|i'|i' err b n|i' note d|older rs s' Hr|p|id|d Hd|s' Hs' Hjobs Hn Ht];
    cbn [is_run is_charge is_put_down still_held] in *; try done.
  - destruct (claim_one_eq locked w kinds s Hs) as [[Heq _]|(c & s1 & Hnext & Heq & _)]; [congruence|].
    rewrite Heq in Hc. injection Hc as <- <-. apply next_claim_Some in Hnext as (Hin & _). cbn. split; [|done]. by apply Z.eqb_neq, Hlt.
  - destruct Hheld as (x & Hx & _). by rewrite (Hof _ _ Hx).
  - destruct Hheld as (x & Hx & _). by rewrite (Hof _ _ Hx).
  - destruct (reap_stuck_eq older m s Hs) as (s1 & Heq & _). rewrite Heq in Hr. injection Hr as <- <-. rewrite map_map. cbn [reaped_id].
    split; [done|]. split; [|done]. apply bool_decide_false. intros (x & Hx & [Hin _]%elem_of_bfilter)%list_elem_of_fmap. by apply (Hlt x).
Qed.

Lemma step_counted m es s e s' : 1 <= m -> schema_ok s -> queue_step m s e s' -> still_held s e ->
  counted m es s -> counted m (es ++ [e]) s'.
Proof.
  intros Hm Hs Hstep Hheld [Hrows Hnew]. pose proof (step_rows m s e s' Hs Hstep) as (_ & Hnext & _). split.
  - intros i j' Hj'. rewrite !times_snoc.
    destruct (step_outcome m s e s' i j' Hs Hstep Hheld Hj') as [(j & Hj & Hout & Hfound)|(_ & Hi & Hst & Ha & r & k & ->)].
    + destruct (Hrows i j Hj) as ([Hb Hlt] & Hc & Hr). unfold attempts_ok in *.
      destruct e as [r k|w i'|i'|i'|i' n|i'|older ids| | |]; cbn [outcome found is_run is_charge is_put_down] in *;
        try (destruct (Z.eqb_spec i' i) as [->|]; [try specialize (Hfound eq_refl)|]); try case_bool_decide as Hids;
        try (specialize (Hfound Hids)).
      all: try (injection Hout as -> ->; split; [split; [done|exact Hlt]|split; [lia|lia]]).
      * injection Hout as -> ->. rewrite Hfound in *. split; [split; [done|]|lia]. intros _. by apply Hlt.
      * injection Hout as -> ->. rewrite Hfound in *. split; [split; [done|]|lia]. intros _. by apply Hlt.
      * destruct Hfound as [Hst ->]. rewrite Hst in *. assert (job_attempts j < m) by (by apply Hlt).
        destruct (Z.ltb_spec (job_attempts j + 1) m); injection Hout as -> ->; (split; [split; [lia|try lia; done]|lia]).
      * injection Hout as -> ->. rewrite Hfound in *. split; [split; [done|]|lia]. intros _. by apply Hlt.
      * rewrite Hfound in *. assert (job_attempts j < m) by (by apply Hlt).
        destruct (Z.leb_spec m (job_attempts j + 1)); injection Hout as -> ->; (split; [split; [lia|try lia; done]|lia]).
    + cbn. destruct (Hnew i) as (H1 & H2 & H3); [lia|]. unfold attempts_ok. rewrite Hst, Ha, H1, H2, H3. repeat split; lia.
  - intros i Hi. rewrite !times_snoc. destruct (step_about m s e s' i Hs Hstep Hheld) as (-> & -> & ->); [lia|].
    destruct (Hnew i) as (-> & -> & ->); [lia|]. done.
Qed.

Lemma careful_counted m now es s : 1 <= m -> careful_trace m (empty_db now) es s -> schema_ok s /\ counted m es s.
Proof.
  intros Hm Ht. remember (empty_db now) as s0 eqn:Hs0. induction Ht as [|s0 es e s s' _ IH Hheld Hstep]; subst.
  - split; [apply empty_db_schema|]. split; [done|]. by intros i _.
  - destruct (IH eq_refl) as [Hs Hc]. split; [by eapply step_rows|by eapply step_counted].
Qed.

(** C18: with at least one attempt allowed, workers that finish or put down only
    jobs they still hold never run one more often than that.  Every recorded
    failure and every lease the reaper found lapsed, a crash's too, is charged
    as one attempt; a job never has more than are allowed, and short of [failed]
    has attempts to spare; so it is claimed at most that often, not counting the
    runs a closing window interrupted. *)
Theorem attempts_bounded m now es s :
  1 <= m -> careful_trace m (empty_db now) es s ->
  forall j, j ∈ db_jobs s ->
    job_attempts j = times (is_charge (job_id j)) es /\
    0 <= job_attempts j <= m /\ (job_state j <> JobFailed -> job_attempts j < m) /\
    times (is_run (job_id j)) es <= m + times (is_put_down (job_id j)) es.
Proof.
  intros Hm Ht j Hj. destruct (careful_counted m now es s Hm Ht) as [Hs [Hrows _]].
  destruct (Hrows (job_id j) j (job_of_elem s j Hs Hj)) as ([Hb Hlt] & Hc & Hr).
  split; [done|]. split; [done|]. split; [done|]. destruct (job_state j) eqn:Hst; try lia; specialize (Hlt ltac:(done)); lia.
Qed.

(** The discipline matters.  A failure recorded with attempts read before the
    reaper took the job from this worker overwrites the attempt the reaper
    charged. *)
Theorem stale_read_loses_attempt i err m b older n s j :
  queue_ok s -> job_of s i = Some j -> job_attempts j = n -> lapsed (db_now s) older j -> n + 1 < m ->
  exists rs s1 s2 j2, Queue.reap_stuck older m s = (Ok rs, s1) /\ i ∈ map reaped_id rs /\
    Queue.record_failure i err m b n s1 = (Ok true, s2) /\ job_of s2 i = Some j2 /\
    job_state j2 = Queued /\ job_attempts j2 = n + 1.
Proof.
  intros [Hs Hok] Hj Hn Hl Hm. destruct (reap_stuck_eq older m s Hs) as (s1 & Heq & _ & _ & Hjobs).
  pose proof (job_of_Some _ _ _ Hj) as [Hin Hid]. rewrite Forall_forall in Hok.
  assert (He : expired (db_now s) older j = true) by (by apply (expired_spec _ _ j (Hok j Hin))).
  pose proof (reap_stuck_schema older m s Hs) as Hs1. rewrite Heq in Hs1. cbn in Hs1.
  pose proof (map_updated_of _ _ _ _ i (reap_keeps m) Hjobs) as Hof. rewrite Hj in Hof. cbn in Hof. unfold updated in Hof. rewrite He in Hof.
  destruct (record_failure_eq i err m b n s1 (touch (db_now s) (Queue.reap m j)) Hs1 Hof) as (s2 & Hf & _ & Hof2).
  { unfold job_live. cbn. by rewrite (proj2 (Z.leb_gt _ _)) by lia. }
  eexists _, s1, s2, _. split; [exact Heq|]. split.
  { rewrite map_map. cbn. rewrite <- Hid. apply list_elem_of_fmap_2. by apply elem_of_bfilter. }
  rewrite (proj2 (Z.ltb_lt _ _)) in Hf by lia. split; [exact Hf|]. split; [by rewrite Hof2, Z.eqb_refl|].
  unfold failed_job. by rewrite (proj2 (Z.ltb_lt _ _)) by lia.
Qed.

(** The claim query.  A claim answers nothing exactly when no job is
    runnable for these kinds, and changes nothing then; otherwise it takes a
    runnable job that no runnable job precedes (higher priority first, then
    older), marks it running under this worker's lease, and touches no other. *)
Theorem claim_one_spec locked w kinds s :
  schema_ok s ->
  match Queue.claim_one locked w kinds s with
  | (Ok None, s') => s' = s /\ forall j, j ∈ db_jobs s -> Queue.claimable locked kinds (db_now s) j = false
  | (Ok (Some j'), s') =>
      exists j, j ∈ db_jobs s /\ Queue.claimable locked kinds (db_now s) j = true /\
        (forall o, o ∈ db_jobs s -> Queue.claimable locked kinds (db_now s) o = true ->
           Queue.claim_before j o = true) /\
        j' = claimed (db_now s) w j /\
        (forall i, job_of s' i = if i =? job_id j then Some j' else job_of s i)
  | (Err _, _) => False
  end.
Proof.
  intros Hs. destruct (claim_one_eq locked w kinds s Hs) as [[-> Hno]|(j & s' & Hn & -> & Hof & _)];
    [done|]. apply next_claim_Some in Hn as (Hin & Hc & Hmin). by exists j.
Qed.

Lemma existing_job_live r k s j :
  schema_ok s -> j ∈ db_jobs s -> live_key j = Some (r, k) -> Queue.existing_job r k s = (Ok j, s).
Proof.
  intros Hs Hj Hk. unfold Queue.existing_job.
  set (l := bfilter _ (db_jobs s)).
  assert (Hall : forall x, x ∈ sort_by (fun a b => job_id a <=? job_id b) l -> x = j).
  { intros x Hx%sort_by_elem. apply elem_of_bfilter in Hx as [Hx Hb]. bool_to_prop.
    eapply (live_unique (db_jobs s)); try done; by apply Hs. }
  assert (Hin : j ∈ sort_by (fun a b => job_id a <=? job_id b) l).
  { apply sort_by_elem, elem_of_bfilter. split; [done|]. by apply bool_decide_eq_true. }
  destruct (sort_by _ l) as [|x l']; [inversion Hin|]. by rewrite (Hall x ltac:(left)).
Qed.

(** What [enqueue] answers, and what asking again does. *)
Lemma enqueue_answers r k payload pr s :
  schema_ok s -> fk s r ->
  exists j s', Queue.enqueue_with_priority r k payload pr s = (Ok j, s') /\
    j ∈ db_jobs s' /\ live_key j = Some (r, k) /\
    (db_jobs s' = db_jobs s \/
     ((r, k) ∉ live_keys (db_jobs s) /\ j = Queue.new_job s r k payload pr /\
      db_jobs s' = db_jobs s ++ [j])) /\
    (forall payload' pr', exists s'',
       Queue.enqueue_with_priority r k payload' pr' s' = (Ok j, s'') /\ db_jobs s'' = db_jobs s').
Proof.
  intros Hs Hr.
  assert (Hagain : forall s1 j p q, schema_ok s1 -> j ∈ db_jobs s1 -> live_key j = Some (r, k) ->
    exists s2, Queue.enqueue_with_priority r k p q s1 = (Ok j, s2) /\ db_jobs s2 = db_jobs s1).
  { intros s1 j p q Hs1 Hj Hk. unfold Queue.enqueue_with_priority.
    pose proof (insert_job_schema r k p q s1 Hs1) as Hs2.
    assert (Hin : Queue.insert_job r k p q s1 = (Ok None, set_next_job (db_next_job s1 + 1) s1)).
    { unfold Queue.insert_job. rewrite bool_decide_eq_true_2; [done|]. apply list_elem_of_omap. eauto. }
    rewrite Hin in Hs2. cbn in Hs2. rewrite (bind_ok _ _ _ _ _ Hin).
    rewrite (existing_job_live r k _ j Hs2 Hj Hk). eauto. }
  destruct (decide ((r, k) ∈ live_keys (db_jobs s))) as [Hlive|Hlive].
  - apply list_elem_of_omap in Hlive as (j & Hj & Hk).
    destruct (Hagain s j payload pr Hs Hj Hk) as (s' & Heq & Hjobs). exists j, s'.
    pose proof (enqueue_schema r k payload pr s Hs) as Hs'. rewrite Heq in Hs'. cbn in Hs'.
    rewrite Hjobs. do 4 (split; [by auto|]). intros p q. rewrite <- Hjobs. apply Hagain; [done| |done].
    by rewrite Hjobs.
  - set (j := Queue.new_job s r k payload pr).
    set (s' := pg_notify JOBS_CHANNEL (JobKind.as_str k)
      (set_jobs (db_jobs s ++ [j]) (set_next_job (db_next_job s + 1) s))).
    assert (Heq : Queue.enqueue_with_priority r k payload pr s = (Ok j, s')).
    { unfold Queue.enqueue_with_priority. rewrite (bind_ok _ _ _ (Some j) s'); [done|].
      unfold Queue.insert_job. rewrite bool_decide_eq_false_2 by done. unfold recording_exists.
      by rewrite bool_decide_eq_true_2. }
    exists j, s'. pose proof (enqueue_schema r k payload pr s Hs) as Hs'. rewrite Heq in Hs'. cbn in Hs'.
    assert (Hj : j ∈ db_jobs s') by (cbn; set_solver).
    split; [done|]. split; [done|]. split; [done|]. split; [by right|].
    intros p q. by apply Hagain.
Qed.

(** [enqueue] is idempotent.  On a recording that exists it answers the one
    live job of that kind: the one already there, no row changed, or a fresh
    row with the column defaults; and asking again, with any payload or
    priority, answers the same job and changes no row. *)
Theorem enqueue_idempotent r k payload pr s :
  schema_ok s -> fk s r ->
  exists j s', Queue.enqueue_with_priority r k payload pr s = (Ok j, s') /\
    j ∈ db_jobs s' /\ live_key j = Some (r, k) /\
    (db_jobs s' = db_jobs s \/
     ((r, k) ∉ live_keys (db_jobs s) /\ j = Queue.new_job s r k payload pr /\
      db_jobs s' = db_jobs s ++ [j])) /\
    (forall payload' pr', exists s'',
       Queue.enqueue_with_priority r k payload' pr' s' = (Ok j, s'') /\ db_jobs s'' = db_jobs s').
Proof. apply enqueue_answers. Qed.

(** A failure.  Failing a live job answers whether it will be retried,
    counts one attempt, records the error, drops the lease, and either requeues
    it no earlier than [backoff * 2^attempts] seconds from now or, the attempts
    being used up, parks it in [failed]; no other job changes. *)
Theorem fail_spec i e m b s j :
  schema_ok s -> job_of s i = Some j -> job_live j = true ->
  exists s' j', Queue.fail i e m b s = (Ok (job_attempts j + 1 <? m), s') /\
    job_of s' i = Some j' /\ (forall k, k <> i -> job_of s' k = job_of s k) /\
    job_attempts j' = job_attempts j + 1 /\ job_error j' = Some e /\
    job_locked_by j' = None /\ job_locked_at j' = None /\
    (job_attempts j + 1 < m -> job_state j' = Queued /\
       forall locked kinds t, t < db_now s + Z.max b 0 * 2 ^ job_attempts j * 1000000 ->
         Queue.claimable locked kinds t j' = false) /\
    (m <= job_attempts j + 1 -> job_state j' = JobFailed).
Proof.
  intros Hs Hj Hl. destruct (fail_eq i e m b s j Hs Hj Hl) as (s' & Heq & _ & Hof).
  eexists s', _. split; [exact Heq|]. rewrite Hof, Z.eqb_refl. split; [done|].
  split; [intros k Hk; by rewrite Hof, (proj2 (Z.eqb_neq k i) Hk)|].
  unfold failed_job. destruct (job_attempts j + 1 <? m) eqn:E; bool_to_prop; cbn;
    do 4 (split; [done|]); (split; [|done || lia]); [|lia].
  intros _. split; [done|]. intros locked kinds t Ht. unfold Queue.claimable. cbn.
  apply andb_false_iff. left. apply andb_false_iff. right. apply Z.leb_gt.
  unfold make_interval, Queue.backoff_delay. replace (job_attempts j + 1 - 1) with (job_attempts j) by lia.
  lia.
Qed.

(** Putting a job down because its window closed costs it no attempt: the
    job is queued again with the note, unlocked, and no claim takes it before
    the delay has passed. *)
Theorem defer_spec i note d s j :
  schema_ok s -> job_of s i = Some j -> job_live j = true ->
  exists s' j', Queue.defer i note d s = (Ok tt, s') /\
    job_of s' i = Some j' /\ (forall k, k <> i -> job_of s' k = job_of s k) /\
    job_state j' = Queued /\ job_attempts j' = job_attempts j /\ job_error j' = Some note /\
    job_locked_by j' = None /\
    forall locked kinds t, t < db_now s + d * 1000000 -> Queue.claimable locked kinds t j' = false.
Proof.
  intros Hs Hj Hl. destruct (defer_eq i note d s j Hs Hj Hl) as (s' & Heq & _ & Hof).
  eexists s', _. split; [exact Heq|]. rewrite Hof, Z.eqb_refl. split; [done|].
  split; [intros k Hk; by rewrite Hof, (proj2 (Z.eqb_neq k i) Hk)|].
  do 4 (split; [done|]). intros locked kinds t Ht. unfold Queue.claimable. cbn.
  apply andb_false_iff. left. apply andb_false_iff. right. apply Z.leb_gt. exact Ht.
Qed.

(** The reaper takes back exactly the running jobs whose lease is older than
    the timeout, changes no other job, and counts the lost run as an attempt; a
    job with attempts left is claimable at once, one without is parked. *)
Theorem reap_stuck_spec older m s :
  queue_ok s ->
  exists rs s', Queue.reap_stuck older m s = (Ok rs, s') /\
    forall i j, job_of s i = Some j ->
      (i ∈ map reaped_id rs <->
         job_state j = Running /\ exists t, job_locked_at j = Some t /\ t + older * 1000000 < db_now s) /\
      (i ∉ map reaped_id rs -> job_of s' i = Some j) /\
      (i ∈ map reaped_id rs -> exists j', job_of s' i = Some j' /\
         job_attempts j' = job_attempts j + 1 /\ job_error j' = Some LEASE_EXPIRED /\
         (job_attempts j + 1 < m -> Queue.claimable [] [job_kind j] (db_now s) j' = true) /\
         (m <= job_attempts j + 1 -> job_state j' = JobFailed)).
Proof.
  intros [Hs Hok]. destruct (reap_stuck_eq older m s Hs) as (s' & Heq & _ & _ & Hjobs).
  eexists _, s'. split; [exact Heq|]. intros i j Hj. rewrite map_map. cbn.
  pose proof (job_of_Some _ _ _ Hj) as [Hin Hid].
  rewrite Forall_forall in Hok. specialize (Hok j Hin).
  assert (Hiff : i ∈ map job_id (bfilter (expired (db_now s) older) (db_jobs s)) <->
                 expired (db_now s) older j = true).
  { split.
    - intros (x & Hx & [Hxin Hxe]%elem_of_bfilter)%list_elem_of_fmap.
      pose proof (job_of_elem s x Hs Hxin). congruence.
    - intros He. rewrite <- Hid. apply list_elem_of_fmap_2. by apply elem_of_bfilter. }
  rewrite Hiff. pose proof (map_updated_of _ _ _ _ i (reap_keeps m) Hjobs) as Hof. rewrite Hj in Hof.
  cbn in Hof. unfold updated in Hof. split; [by apply expired_spec|]. split; [|].
  - intros He%not_true_is_false. by rewrite He in Hof.
  - intros He. rewrite He in Hof. eexists. split; [exact Hof|]. do 2 (split; [done|]).
    apply expired_spec in He as [Hr _]; [|done]. unfold job_ok in Hok. rewrite Hr in Hok.
    unfold Queue.claimable, Queue.reap. cbn. destruct (m <=? job_attempts j + 1) eqn:E; bool_to_prop.
    + split; [lia|done].
    + split; [|lia]. intros _. rewrite (bool_decide_eq_true_2 (Queued = Queued)) by done. cbn.
      rewrite bool_decide_eq_true_2 by set_solver. rewrite bool_decide_eq_false_2 by set_solver.
      cbn. rewrite andb_true_r. apply Z.leb_le. by destruct Hok as (_ & _ & ?).
Qed.

(** The lease.  A heartbeat lands exactly when this worker still holds the
    running job; when it lands, no reaper run within the timeout takes the job
    back, and when it does not, it changes nothing. *)
Theorem heartbeat_spec i w s b s' :
  schema_ok s -> Queue.heartbeat i w s = (Ok b, s') ->
  (b = true <-> exists j, job_of s i = Some j /\ job_state j = Running /\ job_locked_by j = Some w) /\
  (b = false -> db_jobs s' = db_jobs s) /\
  (b = true -> forall older m d rs s'', d <= older * 1000000 ->
     Queue.reap_stuck older m (set_now (db_now s' + d) s') = (Ok rs, s'') -> i ∉ map reaped_id rs).
Proof.
  intros Hs Hb. destruct (heartbeat_eq i w s Hs) as (s1 & Heq & Hnow & _ & Hjobs).
  rewrite Heq in Hb. injection Hb as <- <-.
  assert (Hiff : existsb (held_by i w) (db_jobs s) = true <->
    exists j, job_of s i = Some j /\ job_state j = Running /\ job_locked_by j = Some w).
  { rewrite existsb_elem. unfold held_by. split.
    - intros (j & Hj & Hp). bool_to_prop. exists j. subst i. by rewrite job_of_elem.
    - intros (j & Hj & Hr & Hw). apply job_of_Some in Hj as [Hj Hid]. exists j. split; [done|].
      rewrite Hid, Z.eqb_refl, Hr, Hw. cbn. by rewrite !bool_decide_eq_true_2. }
  split; [done|]. split.
  - intros Hno. rewrite Hjobs. rewrite <- (map_id (db_jobs s)) at 2. apply map_ext_in.
    intros j Hj%list_elem_of_In. unfold updated.
    destruct (held_by i w j) eqn:E; [|done]. exfalso.
    assert (existsb (held_by i w) (db_jobs s) = true) by (apply existsb_elem; eauto). congruence.
  - intros Hyes older m d rs s'' Hd Hreap.
    pose proof (heartbeat_schema i w s Hs) as Hs1. rewrite Heq in Hs1. cbn in Hs1.
    assert (Hs2 : schema_ok (set_now (db_now s1 + d) s1)) by (destruct Hs1; by constructor).
    destruct (reap_stuck_eq older m _ Hs2) as (s3 & Heq3 & _). rewrite Heq3 in Hreap.
    injection Hreap as <- _. rewrite map_map. cbn.
    intros (x & Hx & [Hxin Hxe]%elem_of_bfilter)%list_elem_of_fmap.
    apply Hiff in Hyes as (j & Hj & Hr & Hw).
    pose proof (job_of_elem s1 x Hs1 Hxin) as Hxof. rewrite <- Hx in Hxof.
    rewrite (map_updated_of (held_by i w) (beaten (db_now s)) s s1 i) in Hxof; [|done|done].
    rewrite Hj in Hxof. cbn in Hxof. injection Hxof as <-.
    assert (Hh : held_by i w j = true).
    { unfold held_by. apply job_of_Some in Hj as [_ ->]. rewrite Z.eqb_refl, Hr, Hw. cbn.
      by rewrite !bool_decide_eq_true_2. }
    revert Hxe. unfold updated. rewrite Hh. unfold expired, Queue.lease_expired, make_interval. cbn.
    intros Hxe. bool_to_prop. lia.
Qed.

(** Counting distinct finished kinds against a duplicate-free list asks whether
    each of them is there. *)
Lemma done_kinds_complete r kinds jobs :
  NoDup kinds ->
  length (Queue.done_kinds r kinds jobs) = length kinds <->
  forall p, p ∈ kinds ->
    exists j, j ∈ jobs /\ job_recording_id j = Some r /\ job_kind j = p /\ job_state j = Done.
Proof.
  intros Hpd. set (found := Queue.done_kinds r kinds jobs).
  assert (Hfound : forall p, p ∈ found <-> p ∈ kinds /\
    exists j, j ∈ jobs /\ job_recording_id j = Some r /\ job_kind j = p /\ job_state j = Done).
  { intros p. unfold found, Queue.done_kinds, of_recording, Queue.in_state.
    rewrite elem_of_dedup_first, list_elem_of_fmap. setoid_rewrite elem_of_bfilter. split.
    - intros [(j & -> & Hj & Hb) _]. bool_to_prop. eauto 10.
    - intros (Hpp & j & Hj & Hr & <- & Hd). split; [|set_solver]. exists j. rewrite Hr, Hd.
      rewrite !bool_decide_eq_true_2 by done. done. }
  assert (Hnd : NoDup found) by apply NoDup_dedup_first.
  assert (Hsub : found ⊆ kinds) by (intros p [? _]%Hfound; done).
  split.
  - intros Hlen p Hpin. apply Hfound.
    assert (Hperm : found ≡ₚ kinds).
    { apply submseteq_length_Permutation; [by apply NoDup_submseteq|lia]. }
    by rewrite Hperm.
  - intros Hall. apply Permutation_length, NoDup_Permutation; [done|done|].
    intros p. rewrite Hfound. naive_solver.
Qed.

(** The gate's answer, from the rows. *)
Lemma predecessors_gate r k s :
  exists b, Queue.predecessors_done r k s = (Ok b, s) /\
    (b = true <-> forall p, p ∈ JobKind.predecessors k ->
       exists j, j ∈ db_jobs s /\ job_recording_id j = Some r /\ job_kind j = p /\ job_state j = Done).
Proof.
  eexists. split; [reflexivity|]. cbn zeta. case_bool_decide as Hp; cbn.
  { rewrite Hp. split; [intros _ p Hin; inversion Hin|done]. }
  rewrite Z.eqb_eq, Nat2Z.inj_iff. apply done_kinds_complete, predecessors_NoDup.
Qed.

(** The fan-in gate.  [predecessors_done] answers yes exactly when every
    predecessor stage of [kind] has a [done] job for the recording, however
    many rows each has, and yes for a stage without predecessors. *)
Theorem predecessors_done_spec r k s :
  exists b, Queue.predecessors_done r k s = (Ok b, s) /\
    (b = true <-> forall p, p ∈ JobKind.predecessors k ->
       exists j, j ∈ db_jobs s /\ job_recording_id j = Some r /\ job_kind j = p /\ job_state j = Done).
Proof. apply predecessors_gate. Qed.

(** An update of one row by its id, the table split around it. *)
Lemma update_by_id_split set now l j :
  NoDup (map job_id l) -> j ∈ l ->
  exists l1 l2, l = l1 ++ j :: l2 /\
    map (updated (fun x => job_id x =? job_id j) set now) l = l1 ++ touch now (set j) :: l2.
Proof.
  intros Hnd (l1 & l2 & ->)%list_elem_of_split. exists l1, l2. split; [done|].
  rewrite map_app in Hnd |- *. cbn in *.
  apply NoDup_app in Hnd as (_ & Hl1 & [Hj Hl2]%NoDup_cons).
  assert (Hsame : forall l, (forall x, x ∈ l -> job_id x <> job_id j) ->
    map (updated (fun x => job_id x =? job_id j) set now) l = l).
  { intros l Hl. rewrite <- (map_id l) at 2. apply map_ext_in. intros x Hx%list_elem_of_In.
    unfold updated. by rewrite (proj2 (Z.eqb_neq _ _) (Hl x Hx)). }
  rewrite !Hsame; [unfold updated; by rewrite Z.eqb_refl| |].
  - intros x Hx Hid. apply Hj. rewrite <- Hid. by apply list_elem_of_fmap_2.
  - intros x Hx Hid. apply (Hl1 (job_id x)); [by apply list_elem_of_fmap_2|]. rewrite Hid. left.
Qed.

(** The operations that finish a job do not check who holds it.  A worker
    whose lease lapsed on the last attempt, so that the reaper parked its job
    as failed, still puts it back on the queue by deferring it, with every
    attempt already used. *)
Theorem stale_defer_unparks i note d m s j :
  schema_ok s -> job_of s i = Some j -> job_state j = JobFailed -> m <= job_attempts j ->
  (forall r, job_recording_id j = Some r -> (r, job_kind j) ∉ live_keys (db_jobs s)) ->
  exists s' j', Queue.defer i note d s = (Ok tt, s') /\ job_of s' i = Some j' /\
    job_state j' = Queued /\ m <= job_attempts j'.
Proof.
  intros Hs Hj Hf Hm Hfree. pose proof (job_of_Some _ _ _ Hj) as [Hin Hid]. subst i.
  unfold Queue.defer. rewrite bind_now. set (f := deferred (db_now s) note d).
  assert (Hok : NoDup (live_keys (map (fun x => if job_id x =? job_id j then touch (db_now s) (f x) else x) (db_jobs s)))).
  { destruct (update_by_id_split f (db_now s) (db_jobs s) j (jobs_ids s Hs) Hin) as (l1 & l2 & Hl & Hmap).
    unfold updated in Hmap. rewrite Hmap. pose proof (jobs_live s Hs) as Hnd. rewrite Hl in Hnd, Hfree.
    unfold live_keys in *. rewrite omap_app in Hnd, Hfree |- *. cbn in *.
    assert (live_key j = None) as Hnone by (unfold live_key, job_live; by rewrite Hf). rewrite Hnone in *.
    destruct (job_recording_id j) as [r|]; cbn; [|done].
    rewrite <- Permutation_middle. constructor; [by apply Hfree|done]. }
  assert (Heq : exists rows s', update_jobs (fun x => job_id x =? job_id j) f s = (Ok rows, s')).
  { unfold update_jobs. rewrite bool_decide_eq_true_2 by done. eauto. }
  destruct Heq as (rows & s' & Heq). exists s', (touch (db_now s) (f j)).
  fold f. rewrite (bind_ok _ _ _ _ _ Heq). split; [done|].
  rewrite (update_by_id_of _ f _ _ _ _ (job_id j) _ Heq Hj), Z.eqb_refl. done.
Qed.

(** ** Witnesses: one recording, one transcode job *)

Definition sample_recording : RecordingRow :=
  mkRecordingRow (mkRecording 1 None 0 None None Processing None None None None [] []) true.
Definition sample_db : Db := set_recordings {[ 1%N := sample_recording ]} (empty_db 0).
Definition sample_queued : Db := snd (Queue.enqueue 1 Transcode JNull sample_db).
Definition sample_running : Db := snd (Queue.claim_one [] "w" [Transcode] sample_queued).
Definition sample_deferred : Db := snd (Queue.defer 1 WINDOW_CLOSED 60 sample_running).
Definition sample_later : Db := set_now (db_now sample_deferred + 60000000) sample_deferred.
Definition sample_again : Db := snd (Queue.claim_one [] "v" [Transcode] sample_later).
Definition the_job (s : Db) : Job :=
  match job_of s 1 with Some j => j | None => Queue.new_job s 1 Transcode JNull 0 end.

Lemma sample_schema : schema_ok sample_db.
Proof.
  apply schema_ok_recordings; [apply empty_db_schema| |].
  - intros k [x Hx]. cbn in Hx. by rewrite lookup_empty in Hx.
  - by apply map_Forall_singleton.
Qed.

Lemma sample_queued_schema : schema_ok sample_queued.
Proof. apply enqueue_schema, sample_schema. Qed.
Lemma sample_running_schema : schema_ok sample_running.
Proof. apply claim_one_schema, sample_queued_schema. Qed.

Lemma sample_trace_prefix es s :
  trace 3 sample_queued es s -> trace 3 (empty_db 0) (EOther :: EEnqueue 1 Transcode :: es) s.
Proof.
  intros Ht. eapply trace_cons; [by apply (q_other _ _ sample_db sample_schema)|].
  eapply trace_cons; [apply (q_enqueue _ _ 1 Transcode JNull 0)|exact Ht].
Qed.

Lemma sample_claims w1 w2 s1 s2 : s1 = snd (Queue.claim_one [] w1 [Transcode] sample_queued) ->
  queue_step 3 sample_queued (EClaim w1 1) s1 /\
  (s2 = snd (Queue.claim_one [] w2 [Transcode] sample_later) -> queue_step 3 sample_later (EClaim w2 1) s2).
Proof.
  intros ->. split.
  - change 1 with (job_id (claimed 0 w1 (the_job sample_queued))).
    eapply (q_claim _ _ [] w1 [Transcode]). vm_compute. reflexivity.
  - intros ->. change 1 with (job_id (claimed 0 w2 (the_job sample_queued))).
    change (job_id (claimed 0 w2 (the_job sample_queued))) with (job_id (claimed 60000000 w2 (the_job sample_later))).
    eapply (q_claim _ _ [] w2 [Transcode]). vm_compute. reflexivity.
Qed.

Lemma sample_trace :
  trace 3 (empty_db 0)
    ([EOther; EEnqueue 1 Transcode] ++ EClaim "w" 1 :: [EDefer 1; ETick] ++ EClaim "v" 1 :: []) sample_again.
Proof.
  destruct (sample_claims "w" "v" sample_running sample_again eq_refl) as [H1 H2].
  apply sample_trace_prefix. eapply trace_cons; [exact H1|]. cbn [app].
  eapply trace_cons; [apply (q_defer _ _ 1 WINDOW_CLOSED 60)|].
  eapply trace_cons; [by apply (q_tick _ _ 60000000)|].
  eapply trace_cons; [by apply H2|]. constructor.
Qed.

Lemma queue_invariant_witness : queue_ok sample_again.
Proof. apply (queue_invariant 3 0 _ sample_again sample_trace). Defined.

Lemma claims_alternate_witness : exists a e b, [EDefer 1; ETick] = a ++ e :: b /\ requeues 1 e.
Proof.
  destruct (claims_alternate 3 0 _ "w" 1 _ "v" [] sample_again sample_trace)
    as (a & e & b & s1 & s2 & j & j' & Heq & _ & _ & _ & _ & _ & _ & _ & He).
  exists a, e, b. split; [exact Heq|]. destruct e; try exact He; try done. by destruct He.
Defined.

Lemma sample_careful :
  careful_trace 3 (empty_db 0) [EOther; EEnqueue 1 Transcode; EClaim "w" 1; EDefer 1] sample_deferred.
Proof.
  apply (careful_snoc _ _ [EOther; EEnqueue 1 Transcode; EClaim "w" 1] (EDefer 1) sample_running);
    [|exists (the_job sample_running); by vm_compute|apply (q_defer _ _ 1 WINDOW_CLOSED 60)].
  apply (careful_snoc _ _ [EOther; EEnqueue 1 Transcode] (EClaim "w" 1) sample_queued);
    [|done|by apply (sample_claims "w" "w" sample_running sample_running)].
  apply (careful_snoc _ _ [EOther] (EEnqueue 1 Transcode) sample_db);
    [|done|apply (q_enqueue _ _ 1 Transcode JNull 0)].
  apply (careful_snoc _ _ [] EOther (empty_db 0)); [constructor|done|].
  by apply (q_other _ _ sample_db sample_schema).
Qed.

Lemma attempts_bounded_witness :
  the_job sample_deferred ∈ db_jobs sample_deferred /\ 0 <= job_attempts (the_job sample_deferred) <= 3.
Proof.
  assert (Hin : the_job sample_deferred ∈ db_jobs sample_deferred) by (vm_compute; left).
  split; [exact Hin|]. apply (attempts_bounded 3 0 _ sample_deferred ltac:(lia) sample_careful _ Hin).
Defined.

Lemma claim_one_spec_witness :
  Queue.claim_one [] "w" [Transcode] sample_queued = (Ok (Some (the_job sample_running)), sample_running) /\
  exists j, j ∈ db_jobs sample_queued /\ the_job sample_running = claimed 0 "w" j.
Proof.
  pose proof (claim_one_spec [] "w" [Transcode] sample_queued sample_queued_schema) as H.
  assert (Heq : Queue.claim_one [] "w" [Transcode] sample_queued =
    (Ok (Some (the_job sample_running)), sample_running)) by (vm_compute; reflexivity).
  split; [exact Heq|]. rewrite Heq in H. destruct H as (j & Hj & _ & _ & Hc & _). by exists j.
Defined.

Lemma enqueue_idempotent_witness :
  exists j s', Queue.enqueue_with_priority 1 Transcode JNull 0 sample_db = (Ok j, s') /\
    exists s'', Queue.enqueue_with_priority 1 Transcode (JBool true) 7 s' = (Ok j, s'').
Proof.
  destruct (enqueue_idempotent 1 Transcode JNull 0 sample_db sample_schema) as (j & s' & Heq & _ & _ & _ & Hagain).
  - by exists sample_recording.
  - exists j, s'. split; [exact Heq|]. destruct (Hagain (JBool true) 7) as (s'' & Heq' & _). by exists s''.
Defined.

Lemma fail_spec_witness : exists s' j', Queue.fail 1 "boom" 3 10 sample_running = (Ok true, s') /\
  job_of s' 1 = Some j' /\ job_attempts j' = 1.
Proof.
  destruct (fail_spec 1 "boom" 3 10 sample_running (the_job sample_running) sample_running_schema)
    as (s' & j' & Heq & Hj & _ & Ha & _); [vm_compute; reflexivity|vm_compute; reflexivity|].
  exists s', j'. split; [exact Heq|]. by split.
Defined.

Lemma defer_spec_witness : exists s' j', Queue.defer 1 WINDOW_CLOSED 60 sample_running = (Ok tt, s') /\
  job_of s' 1 = Some j' /\ job_attempts j' = 0.
Proof.
  destruct (defer_spec 1 WINDOW_CLOSED 60 sample_running (the_job sample_running) sample_running_schema)
    as (s' & j' & Heq & Hj & _ & _ & Ha & _); [vm_compute; reflexivity|vm_compute; reflexivity|].
  exists s', j'. split; [exact Heq|]. by split.
Defined.

Definition sample_abandoned : Db := set_now (db_now sample_running + 600000000) sample_running.

Lemma sample_abandoned_ok : queue_ok sample_abandoned.
Proof.
  apply (step_queue_ok 3 sample_running ETick); [by apply q_tick|].
  apply (step_queue_ok 3 sample_queued (EClaim "w" 1));
    [by apply (sample_claims "w" "w" sample_running sample_running)|].
  apply (step_queue_ok 3 sample_db (EEnqueue 1 Transcode)); [apply (q_enqueue _ _ 1 Transcode JNull 0)|].
  split; [apply sample_schema|constructor].
Qed.

Lemma reap_stuck_spec_witness : exists rs s', Queue.reap_stuck 300 3 sample_abandoned = (Ok rs, s') /\
  1 ∈ map reaped_id rs.
Proof.
  destruct (reap_stuck_spec 300 3 sample_abandoned sample_abandoned_ok) as (rs & s' & Heq & Hspec).
  exists rs, s'. split; [exact Heq|].
  apply (Hspec 1 (the_job sample_running)); [vm_compute; reflexivity|].
  split; [reflexivity|]. exists 0. split; [reflexivity|vm_compute; reflexivity].
Defined.

Lemma heartbeat_spec_witness : exists j, job_of sample_running 1 = Some j /\ job_state j = Running /\
  job_locked_by j = Some "w".
Proof.
  apply (heartbeat_spec 1 "w" sample_running true (snd (Queue.heartbeat 1 "w" sample_running))
    sample_running_schema); vm_compute; reflexivity.
Defined.

(** The job of [sample_running] once the reaper has parked it. *)
Definition sample_parked : Db := snd (Queue.reap_stuck 300 1 sample_abandoned).

Lemma stale_defer_unparks_witness : exists s' j', Queue.defer 1 WINDOW_CLOSED 60 sample_parked = (Ok tt, s') /\
  job_of s' 1 = Some j' /\ job_state j' = Queued /\ 1 <= job_attempts j'.
Proof.
  apply (stale_defer_unparks 1 WINDOW_CLOSED 60 1 sample_parked (the_job sample_parked)).
  - apply reap_stuck_schema, sample_abandoned_ok.
  - vm_compute. reflexivity.
  - vm_compute. reflexivity.
  - vm_compute. discriminate.
  - intros r _. vm_compute. intros H. inversion H.
Defined.

Lemma stale_read_loses_attempt_witness : exists s2 j2, job_of s2 1 = Some j2 /\ job_attempts j2 = 1.
Proof.
  destruct (stale_read_loses_attempt 1 "boom" 3 10 300 0 sample_abandoned (the_job sample_running) sample_abandoned_ok)
    as (rs & s1 & s2 & j2 & _ & _ & _ & Hj & _ & Ha); [vm_compute; reflexivity|reflexivity| |reflexivity|].
  - split; [reflexivity|]. exists 0. split; [reflexivity|vm_compute; reflexivity].
  - exists s2, j2. split; [exact Hj|exact Ha].
Defined.
