(* ===== verification/Store.v ===== *)
(** * The tables' operations: the rest of [crates/scribe-db]

    [recordings.rs], [segments.rs], [settings.rs], [summaries.rs],
    [transcript.rs], [recording_speakers.rs], [speakers.rs], [chunks.rs], and the
    scratch artifacts of [crates/scribe-pipeline/src/artifacts.rs].  A generated
    uuid is an argument.  [pgvector], [serde] and the Unicode case tables are
    parameters. *)

From Stdlib Require Import String SpecFloat.
From S2P Require Import Prelude RustStr Types Schedule Db DbSchema.

(** ** Code the store only calls *)

(** [str::to_lowercase], whose Unicode tables are not modelled. *)
Class UnicodeCase := to_lowercase : string -> string.

Class UnicodeCaseLaws `{UnicodeCase} := {
  lowercase_idem : forall s, to_lowercase (to_lowercase s) = to_lowercase s;
  lowercase_trimmed : forall s, trim s = s -> trim (to_lowercase s) = to_lowercase s;
}.

(** The ASCII case mapping satisfies them. *)
Definition ascii_case : UnicodeCase := to_ascii_lowercase.

Lemma ascii_case_laws : @UnicodeCaseLaws ascii_case.
Proof.
  split; unfold to_lowercase, ascii_case.
  - apply to_ascii_lowercase_idem.
  - intros s Hs. by rewrite trim_lower, Hs.
Qed.

(** The derived [Serialize]/[Deserialize] of a type, to a JSON value and back. *)
Class SerdeJson (A : Type) := {
  to_value : A -> Json;
  from_value : Json -> result string A;
}.

(** [pgvector]: the [<=>] operator, and [(1 - d) as f32]. *)
Class PgVector := {
  cosine_distance : list f32 -> list f32 -> spec_float;
  similarity : spec_float -> f32;
}.

(** ** [recordings] *)

Section recordings.
Context `{UuidFmt} `{UnicodeCase}.

Definition with_status (st : RecordingStatus) (row : RecordingRow) : RecordingRow :=
  let r := rr_rec row in
  mkRecordingRow (mkRecording (rec_id r) (rec_title r) (rec_created_at r) (rec_device_id r)
    (rec_duration_ms r) st (rec_participants_expected r) (rec_audio_format r) (rec_sample_rate r)
    (rec_storage_key r) (rec_tags r) (rec_marks r)) (rr_title_auto row).
Definition with_duration (d : Z) (row : RecordingRow) : RecordingRow :=
  let r := rr_rec row in
  mkRecordingRow (mkRecording (rec_id r) (rec_title r) (rec_created_at r) (rec_device_id r)
    (Some d) (rec_status r) (rec_participants_expected r) (rec_audio_format r) (rec_sample_rate r)
    (rec_storage_key r) (rec_tags r) (rec_marks r)) (rr_title_auto row).
Definition with_marks (m : list Z) (row : RecordingRow) : RecordingRow :=
  let r := rr_rec row in
  mkRecordingRow (mkRecording (rec_id r) (rec_title r) (rec_created_at r) (rec_device_id r)
    (rec_duration_ms r) (rec_status r) (rec_participants_expected r) (rec_audio_format r)
    (rec_sample_rate r) (rec_storage_key r) (rec_tags r) m) (rr_title_auto row).
Definition with_title (t : string) (auto : bool) (row : RecordingRow) : RecordingRow :=
  let r := rr_rec row in
  mkRecordingRow (mkRecording (rec_id r) (Some t) (rec_created_at r) (rec_device_id r)
    (rec_duration_ms r) (rec_status r) (rec_participants_expected r) (rec_audio_format r)
    (rec_sample_rate r) (rec_storage_key r) (rec_tags r) (rec_marks r)) auto.
Definition with_storage_key (k : string) (row : RecordingRow) : RecordingRow :=
  let r := rr_rec row in
  mkRecordingRow (mkRecording (rec_id r) (rec_title r) (rec_created_at r) (rec_device_id r)
    (rec_duration_ms r) (rec_status r) (rec_participants_expected r) (rec_audio_format r)
    (rec_sample_rate r) (Some k) (rec_tags r) (rec_marks r)) (rr_title_auto row).
Definition with_tags (tags : list string) (row : RecordingRow) : RecordingRow :=
  let r := rr_rec row in
  mkRecordingRow (mkRecording (rec_id r) (rec_title r) (rec_created_at r) (rec_device_id r)
    (rec_duration_ms r) (rec_status r) (rec_participants_expected r) (rec_audio_format r)
    (rec_sample_rate r) (rec_storage_key r) tags (rec_marks r)) (rr_title_auto row).
Definition with_participants (n : option Z) (row : RecordingRow) : RecordingRow :=
  let r := rr_rec row in
  mkRecordingRow (mkRecording (rec_id r) (rec_title r) (rec_created_at r) (rec_device_id r)
    (rec_duration_ms r) (rec_status r) n (rec_audio_format r) (rec_sample_rate r)
    (rec_storage_key r) (rec_tags r) (rec_marks r)) (rr_title_auto row).

Definition recording_not_found (id : Uuid) : Error := NotFound ("recording " +:+ uuid_to_string id).

Definition not_found_if_zero (affected : Z) (id : Uuid) : DbM unit :=
  if affected =? 0 then fail_with (recording_not_found id) else mret tt.

Definition create_recording (id : Uuid) (title device_id : option string)
    (participants_expected : option Z) (audio_format : option string) (sample_rate : option Z)
    : DbM Recording := fun s =>
  let r := mkRecording id title (db_now s) device_id None Uploading participants_expected
    audio_format sample_rate None [] [] in
  if recording_exists s id then (Err unique_error, s)
  else (Ok r, set_recordings
    (<[id := mkRecordingRow r (negb (bool_decide (is_Some title)))]> (db_recordings s)) s).

Definition get_recording (id : Uuid) : DbM Recording := fun s =>
  match db_recordings s !! id with
  | Some row => (Ok (rr_rec row), s)
  | None => (Err (recording_not_found id), s)
  end.

Definition list_recordings (limit offset : Z) (tag : option string) : DbM (list Recording) :=
  query (fun s =>
    let rows := select_recordings s in
    let rows := match tag with
      | Some t => bfilter (fun r => bool_decide (t ∈ rec_tags (rr_rec r))) rows
      | None => rows
      end in
    map rr_rec (limit_offset limit offset rows)).

Definition always (_ : RecordingRow) : bool := true.

Definition set_recording_status (id : Uuid) (status : RecordingStatus) : DbM unit :=
  affected ← update_recording id always (with_status status); not_found_if_zero affected id.

Definition delete_recording (id : Uuid) : DbM unit :=
  affected ← exec (fun s => (if recording_exists s id then 1 else 0, delete_recording_cascade id s));
  not_found_if_zero affected id.

Definition set_recording_duration (id : Uuid) (duration_ms : Z) : DbM unit :=
  affected ← update_recording id always (with_duration duration_ms); not_found_if_zero affected id.

Definition set_recording_marks (id : Uuid) (marks : list Z) : DbM unit :=
  affected ← update_recording id always (with_marks marks); not_found_if_zero affected id.

(** [SET title = $2]: [title_auto] keeps its value. *)
Definition set_recording_title (id : Uuid) (title : string) : DbM unit :=
  affected ← update_recording id always (fun row => with_title title (rr_title_auto row) row);
  not_found_if_zero affected id.

(** [title_auto OR title IS NULL OR title = ''] *)
Definition title_replaceable (row : RecordingRow) : bool :=
  rr_title_auto row ||
  match rec_title (rr_rec row) with None => true | Some t => is_empty t end.

Definition set_recording_title_auto (id : Uuid) (title : string) : DbM bool :=
  affected ← update_recording id title_replaceable (with_title title true);
  mret (0 <? affected).

Definition set_recording_storage_key (id : Uuid) (storage_key : string) : DbM unit :=
  affected ← update_recording id always (with_storage_key storage_key); not_found_if_zero affected id.

Definition count_recordings : DbM Z := query (fun s => Z.of_nat (size (db_recordings s))).

(** The loop of [normalize_tags]; [seen] is the [HashSet]. *)
Fixpoint normalize_tags_from (seen : list string) (tags : list string) : list string :=
  match tags with
  | [] => []
  | tag :: tags' =>
      let t := to_lowercase (trim tag) in
      if is_empty t then normalize_tags_from seen tags'
      else if bool_decide (t ∈ seen) then normalize_tags_from seen tags'
      else t :: normalize_tags_from (t :: seen) tags'
  end.

Definition normalize_tags (tags : list string) : list string := normalize_tags_from [] tags.

Definition set_recording_tags (id : Uuid) (tags : list string) : DbM (list string) :=
  let normalized := normalize_tags tags in
  affected ← update_recording id always (with_tags normalized);
  if affected =? 0 then fail_with (recording_not_found id) else mret normalized.

Definition set_participants_expected (id : Uuid) (n : option Z) : DbM unit :=
  affected ← update_recording id always (with_participants n); not_found_if_zero affected id.

Definition delete_artifacts_by_recording (recording_id : Uuid) : DbM Z :=
  delete_artifacts recording_id.

Definition utt_of (id : Uuid) (u : UttRow) : bool := bool_decide (ur_recording_id u = id).
Definition chunk_of (id : Uuid) (c : ChunkRow) : bool := bool_decide (cr_recording_id c = id).
Definition job_of_recording (id : Uuid) (j : Job) : bool := of_recording id (job_recording_id j).

Definition reset_for_reprocess (id : Uuid) : DbM unit := transaction (
  _ ← delete_utterances (utt_of id);
  _ ← delete_chunks (chunk_of id);
  _ ← delete_summaries id;
  _ ← delete_artifacts id;
  _ ← delete_recording_speakers id;
  _ ← delete_jobs (job_of_recording id);
  affected ← update_recording id always (with_status Processing);
  not_found_if_zero affected id).

Definition KIND_TRANSCRIPT : string := "transcript".
Definition KIND_DIARIZATION : string := "diarization".

Definition rediarize_kinds : list JobKind := [Diarize; Merge; Embed; Summarize].

(** Dropping the transaction on the early return rolls back nothing yet done. *)
Definition reset_for_rediarize (id : Uuid) : DbM bool := transaction (
  has_transcript ← query (fun s => bool_decide (is_Some (db_artifacts s !! (id, KIND_TRANSCRIPT))));
  if negb has_transcript then mret false
  else
    _ ← delete_utterances (utt_of id);
    _ ← delete_chunks (chunk_of id);
    _ ← delete_summaries id;
    _ ← delete_recording_speakers id;
    _ ← delete_artifact id KIND_DIARIZATION;
    _ ← delete_jobs (fun j => job_of_recording id j && bool_decide (job_kind j ∈ rediarize_kinds));
    affected ← update_recording id always (with_status Processing);
    _ ← not_found_if_zero affected id;
    mret true).

Definition distinct_tags : DbM (list string) := query (fun s =>
  sort_by String.leb
    (dedup_first [] (flat_map (fun kv => rec_tags (rr_rec (snd kv))) (map_to_list (db_recordings s))))).
End recordings.

(** ** [segments] *)

Definition segs_of (recording_id : Uuid) (s : Db) : list SegmentRow :=
  bfilter (fun x => bool_decide (seg_recording_id (sr_seg x) = recording_id)) (db_segments s).

Definition seq_le (a b : SegmentRow) : bool := seg_seq (sr_seg a) <=? seg_seq (sr_seg b).

(** [ON CONFLICT (recording_id, seq) DO UPDATE]: the row keeps its id and, the
    statement not naming it, its [transcribed_at]. *)
Definition insert_segment (id recording_id : Uuid) (seq : Z) (storage_key : string)
    (start_ms duration_ms bytes : option Z) (sha256 : option string) : DbM Segment := fun s =>
  let here x := bool_decide (seg_key x = (recording_id, seq)) in
  let refreshed old := mkSegment (seg_id old) recording_id seq storage_key start_ms duration_ms
    bytes sha256 (db_now s) in
  match find_first here (db_segments s) with
  | Some old =>
      (Ok (refreshed (sr_seg old)),
       set_segments (map (fun x => if here x
         then mkSegmentRow (refreshed (sr_seg x)) (sr_transcribed_at x) else x) (db_segments s)) s)
  | None =>
      let seg := mkSegment id recording_id seq storage_key start_ms duration_ms bytes sha256 (db_now s) in
      if negb (recording_exists s recording_id) then (Err foreign_key_error, s)
      else if bool_decide (id ∈ map (fun x => seg_id (sr_seg x)) (db_segments s)) then (Err unique_error, s)
      else (Ok seg, set_segments (db_segments s ++ [mkSegmentRow seg None]) s)
  end.

Definition list_segments_by_recording (recording_id : Uuid) : DbM (list Segment) :=
  query (fun s => map sr_seg (sort_by seq_le (segs_of recording_id s))).

Definition untranscribed (x : SegmentRow) : bool := bool_decide (sr_transcribed_at x = None).

Definition list_untranscribed_segments (recording_id : Uuid) : DbM (list Segment) :=
  query (fun s => map sr_seg (sort_by seq_le (bfilter untranscribed (segs_of recording_id s)))).

Definition mark_segment_transcribed (segment_id : Uuid) (start_ms duration_ms : Z) : DbM unit :=
  exec (fun s => (tt, set_segments (map (fun x =>
    if bool_decide (seg_id (sr_seg x) = segment_id) then
      let g := sr_seg x in
      mkSegmentRow (mkSegment (seg_id g) (seg_recording_id g) (seg_seq g) (seg_storage_key g)
        (Some start_ms) (Some duration_ms) (seg_bytes g) (seg_sha256 g) (seg_uploaded_at g))
        (Some (db_now s))
    else x) (db_segments s)) s)).

Definition count_untranscribed_segments (recording_id : Uuid) : DbM Z :=
  query (fun s => count (bfilter untranscribed (segs_of recording_id s))).

Definition segment_end (x : SegmentRow) : Z :=
  default 0 (seg_start_ms (sr_seg x)) + default 0 (seg_duration_ms (sr_seg x)).

(** [max(...)] of no rows is NULL. *)
Definition max_transcribed_end_ms (recording_id : Uuid) : DbM (option Z) := query (fun s =>
  foldr (fun x acc => Some (match acc with Some m => Z.max (segment_end x) m | None => segment_end x end))
    None (bfilter (fun x => negb (untranscribed x)) (segs_of recording_id s))).

(** ** [app_settings] *)

Definition get_setting (key : string) : DbM (option Json) := query (fun s => db_settings s !! key).

Definition put_setting (key : string) (value : Json) : DbM unit :=
  exec (fun s => (tt, set_settings (<[key := value]> (db_settings s)) s)).

(** [utc] is what [Utc::now()] returns inside [normalize]. *)
Definition processing_schedule `{SerdeJson ProcessingSchedule} (utc : Instant) : DbM ProcessingSchedule :=
  raw ← get_setting SETTING_KEY;
  let sched := match raw with
    | Some v => match from_value v with Ok s => s | Err _ => ProcessingSchedule.default end
    | None => ProcessingSchedule.default
    end in
  mret (ProcessingSchedule.normalize utc sched).

Definition set_processing_schedule `{SerdeJson ProcessingSchedule} (utc : Instant)
    (sched : ProcessingSchedule) : DbM ProcessingSchedule :=
  let sched := ProcessingSchedule.normalize utc sched in
  _ ← put_setting SETTING_KEY (to_value sched);
  mret sched.

(** ** [summaries] *)

Definition upsert_summary (recording_id : Uuid) (title summary : option string)
    (action_items topics decisions : Json) (model template : option string) : DbM Summary := fun s =>
  let t := default "general" template in
  let row := mkSummary recording_id title summary action_items topics decisions model (Some t) (db_now s) in
  if negb (recording_exists s recording_id) then (Err foreign_key_error, s)
  else (Ok row, set_summaries (<[(recording_id, t) := row]> (db_summaries s)) s).

(** [ORDER BY created_at, template] *)
Definition summary_le (a b : Summary) : bool :=
  if sum_created_at a =? sum_created_at b
  then String.leb (default "" (sum_template a)) (default "" (sum_template b))
  else sum_created_at a <? sum_created_at b.

Definition summaries_of (recording_id : Uuid) (s : Db) : list Summary :=
  sort_by summary_le (map snd (filter (fun kv => kv.1.1 = recording_id) (map_to_list (db_summaries s)))).

Definition get_summary (recording_id : Uuid) : DbM (option Summary) :=
  query (fun s => head (summaries_of recording_id s)).

Definition list_summaries_by_recording (recording_id : Uuid) : DbM (list Summary) :=
  query (summaries_of recording_id).

Definition delete_summaries_by_recording (recording_id : Uuid) : DbM Z := delete_summaries recording_id.

(** ** [utterances] *)

Record NewUtterance := mkNewUtterance {
  nu_local_idx : option Z; nu_start_ms : Z; nu_end_ms : Z; nu_text : string; nu_words : list Word;
}.

Definition utt_row (recording_id : Uuid) (id : Z) (u : NewUtterance) : UttRow :=
  mkUttRow id recording_id (nu_local_idx u) (nu_start_ms u) (nu_end_ms u) (nu_text u) (nu_words u).

(** What a [text] column takes: a Rust string may hold a NUL, Postgres has none. *)
Fixpoint text_ok (s : string) : bool :=
  match s with EmptyString => true | String c s' => negb (Ascii.eqb c Ascii.zero) && text_ok s' end.
(** What a [jsonb] column takes: no NUL in a string or a key. *)
Fixpoint json_ok (v : Json) : bool :=
  match v with
  | JString s => text_ok s
  | JArray items => forallb json_ok items
  | JObject fields => forallb (fun f => text_ok (fst f) && json_ok (snd f)) fields
  | _ => true
  end.
Definition nul_error : Error := Database "invalid byte sequence for encoding: 0x00".
(** The line and its words, each stored with its text. *)
Definition utterance_ok (u : NewUtterance) : bool :=
  text_ok (nu_text u) && forallb (fun w => text_ok (w_text w)) (nu_words u).

(** One multi-row [INSERT ... SELECT]: the sequence numbers the rows in order.
    Parameters the columns do not take are refused before anything is done. *)
Definition insert_utterances (recording_id : Uuid) (utterances : list NewUtterance) : DbM Z := fun s =>
  if bool_decide (length utterances = 0%nat) then (Ok 0, s)
  else if negb (forallb utterance_ok utterances) then (Err nul_error, s)
  else
    let s' := set_next_utt (db_next_utt s + count utterances) s in
    if negb (recording_exists s recording_id) then (Err foreign_key_error, s')
    else (Ok (count utterances),
          set_utterances (db_utterances s ++
            imap (fun i u => utt_row recording_id (db_next_utt s + Z.of_nat i) u) utterances) s').

Definition delete_utterances_by_recording (recording_id : Uuid) : DbM Z :=
  delete_utterances (utt_of recording_id).

(** [LEFT JOIN recording_speakers ... LEFT JOIN speakers]. *)
Definition joined_name (s : Db) (recording_id : Uuid) (local_idx : option Z) : option string :=
  idx ← local_idx;
  rs ← db_recording_speakers s !! (recording_id, idx);
  p ← rsr_speaker_id rs;
  spk_display_name <$> db_speakers s !! p.

Definition speaker_label (local_idx : Z) : string := "Speaker " +:+ pretty local_idx.

Definition utterance_from_row (s : Db) (u : UttRow) : Utterance :=
  let resolved := joined_name s (ur_recording_id u) (ur_local_idx u) in
  mkUtterance (ur_id u) (ur_recording_id u) (ur_local_idx u) (ur_start_ms u) (ur_end_ms u)
    (ur_text u) (ur_words u)
    (match resolved with Some n => Some n | None => speaker_label <$> ur_local_idx u end).

(** [ORDER BY u.start_ms, u.id] *)
Definition utt_le (a b : UttRow) : bool :=
  if ur_start_ms a =? ur_start_ms b then ur_id a <=? ur_id b else ur_start_ms a <? ur_start_ms b.

Definition list_utterances_by_recording (recording_id : Uuid) : DbM (list Utterance) :=
  query (fun s => map (utterance_from_row s)
    (sort_by utt_le (bfilter (utt_of recording_id) (db_utterances s)))).

Definition with_text (text : string) (u : UttRow) : UttRow :=
  mkUttRow (ur_id u) (ur_recording_id u) (ur_local_idx u) (ur_start_ms u) (ur_end_ms u) text (ur_words u).

Definition update_utterance_text (recording_id : Uuid) (utterance_id : Z) (text : string)
    : DbM (option Utterance) :=
  let here u := (ur_id u =? utterance_id) && utt_of recording_id u in
  affected ← exec (fun s => (count (bfilter here (db_utterances s)),
    set_utterances (map (fun u => if here u then with_text text u else u) (db_utterances s)) s));
  if affected =? 0 then mret None
  else query (fun s => utterance_from_row s <$> find_first here (db_utterances s)).

(** ** [speakers] *)

(** What a [vector(n)] column takes: [n] finite numbers. *)
Definition vector_ok (n : nat) (v : list f32) : bool :=
  bool_decide (length v = n) &&
  forallb (fun x => match x with S754_nan | S754_infinity _ => false | _ => true end) v.
Definition VOICE_DIM : nat := 192.
Definition CHUNK_DIM : nat := 768.
Definition vector_error : Error := Database "invalid vector for the column".
Definition opt_vector_ok (v : option (list f32)) : bool :=
  match v with Some v => vector_ok VOICE_DIM v | None => true end.

Section speakers.
Context `{UuidFmt}.

Definition speaker_not_found (id : Uuid) : Error := NotFound ("speaker " +:+ uuid_to_string id).

Definition create_speaker (id : Uuid) (display_name : string) (embedding : option (list f32))
    : DbM Speaker := fun s =>
  let p := mkSpeaker id display_name embedding (db_now s) in
  if negb (opt_vector_ok embedding) then (Err vector_error, s)
  else if bool_decide (is_Some (db_speakers s !! id)) then (Err unique_error, s)
  else (Ok p, set_speakers (<[id := p]> (db_speakers s)) s).

Definition speakers_by (le : Speaker -> Speaker -> bool) (s : Db) : list Speaker :=
  sort_by le (map snd (map_to_list (db_speakers s))).

Definition name_le (a b : Speaker) : bool := String.leb (spk_display_name a) (spk_display_name b).

Definition list_speakers : DbM (list Speaker) := query (speakers_by name_le).

(** [count(DISTINCT rs.recording_id) ... WHERE rs.speaker_id = s.id] *)
Definition recording_count (s : Db) (p : Uuid) : Z :=
  count (dedup_first [] (map (fun kv => kv.1.1)
    (filter (fun kv => rsr_speaker_id kv.2 = Some p) (map_to_list (db_recording_speakers s))))).

Definition list_speakers_with_usage : DbM (list (Speaker * Z)) :=
  query (fun s => map (fun p => (p, recording_count s (spk_id p))) (speakers_by name_le s)).

Definition update_speaker (id : Uuid) (f : Speaker -> Speaker) : DbM unit := fun s =>
  match db_speakers s !! id with
  | Some p => (Ok tt, set_speakers (<[id := f p]> (db_speakers s)) s)
  | None => (Err (speaker_not_found id), s)
  end.

Definition set_speaker_embedding (id : Uuid) (embedding : list f32) : DbM unit :=
  if negb (vector_ok VOICE_DIM embedding) then fail_with vector_error
  else update_speaker id (fun p => mkSpeaker (spk_id p) (spk_display_name p) (Some embedding) (spk_created_at p)).

Definition get_speaker (id : Uuid) : DbM Speaker := fun s =>
  match db_speakers s !! id with
  | Some p => (Ok p, s)
  | None => (Err (speaker_not_found id), s)
  end.

Definition enrolled (s : Db) : list (Speaker * list f32) :=
  omap (fun p => (fun v => (p, v)) <$> spk_embedding p)
    (speakers_by (fun a b => N.leb (spk_id a) (spk_id b)) s).

(** [ORDER BY] on a float column: NaN sorts last. *)
Definition float_le (a b : spec_float) : bool :=
  match b with S754_nan => true | _ => match a with S754_nan => false | _ => SFleb a b end end.

Definition match_speaker_by_embedding `{PgVector} (embedding : list f32) (threshold : f32)
    : DbM (option (Speaker * f32)) := query (fun s =>
  match head (sort_by (fun a b => float_le (cosine_distance (snd a) embedding) (cosine_distance (snd b) embedding))
                (enrolled s)) with
  | None => None
  | Some (p, v) =>
      let sim := similarity (cosine_distance v embedding) in
      if SFltb sim threshold then None else Some (p, sim)
  end).

(** 0.75 *)
Definition DUPLICATE_VOICE_SIMILARITY : f32 := S754_finite false 12582912 (-24).

Definition nearest_enrolled `{PgVector} (embedding : list f32) (threshold : f32)
    : DbM (option (Speaker * f32)) := match_speaker_by_embedding embedding threshold.

Definition list_enrolled_voiceprints : DbM (list (Speaker * list f32)) := query enrolled.

Definition rename_speaker (id : Uuid) (display_name : string) : DbM unit :=
  update_speaker id (fun p => mkSpeaker (spk_id p) display_name (spk_embedding p) (spk_created_at p)).

(** [ON DELETE SET NULL] *)
Definition forget_speaker (id : Uuid) (r : RsRow) : RsRow :=
  if bool_decide (rsr_speaker_id r = Some id) then mkRsRow None (rsr_embedding r) else r.

Definition delete_speaker (id : Uuid) : DbM unit := fun s =>
  match db_speakers s !! id with
  | None => (Err (speaker_not_found id), s)
  | Some _ => (Ok tt, set_speakers (delete id (db_speakers s))
      (set_recording_speakers (forget_speaker id <$> db_recording_speakers s) s))
  end.

(** ** [recording_speakers] *)

Definition speaker_ref_ok (s : Db) (p : option Uuid) : bool :=
  match p with Some p => bool_decide (is_Some (db_speakers s !! p)) | None => true end.

Definition upsert_recording_speaker (recording_id : Uuid) (local_idx : Z) (speaker_id : option Uuid)
    (embedding : option (list f32)) : DbM unit := fun s =>
  if negb (opt_vector_ok embedding) then (Err vector_error, s)
  else if negb (recording_exists s recording_id && speaker_ref_ok s speaker_id)
  then (Err foreign_key_error, s)
  else (Ok tt, set_recording_speakers
    (<[(recording_id, local_idx) := mkRsRow speaker_id embedding]> (db_recording_speakers s)) s).

Definition prune_recording_speakers (recording_id : Uuid) (keep : list Z) : DbM Z := exec (fun s =>
  let kept := filter (fun kv => ~ (kv.1.1 = recording_id /\ kv.1.2 ∉ keep)) (db_recording_speakers s) in
  (Z.of_nat (size (db_recording_speakers s)) - Z.of_nat (size kept), set_recording_speakers kept s)).

Definition rs_not_found (recording_id : Uuid) (local_idx : Z) : Error :=
  NotFound ("recording_speaker (" +:+ uuid_to_string recording_id +:+ ", " +:+ pretty local_idx +:+ ")").

Definition said_by (recording_id : Uuid) (local_idx : Z) (u : UttRow) : bool :=
  utt_of recording_id u && bool_decide (ur_local_idx u = Some local_idx).

Definition delete_recording_speaker (recording_id : Uuid) (local_idx : Z) : DbM Z := transaction (
  removed ← delete_utterances (said_by recording_id local_idx);
  speakers ← exec (fun s =>
    (match db_recording_speakers s !! (recording_id, local_idx) with Some _ => 1 | None => 0 end,
     set_recording_speakers (delete (recording_id, local_idx) (db_recording_speakers s)) s));
  if speakers =? 0 then fail_with (rs_not_found recording_id local_idx)
  else mret removed).

Definition rs_from_row (s : Db) (kv : (Uuid * Z) * RsRow) : RecordingSpeaker :=
  let '((r, idx), row) := kv in
  mkRecordingSpeaker r idx (rsr_speaker_id row) (rsr_embedding row)
    (Some (default (speaker_label idx) (joined_name s r (Some idx)))).

Definition list_recording_speakers (recording_id : Uuid) : DbM (list RecordingSpeaker) :=
  query (fun s => map (rs_from_row s) (sort_by (fun a b => a.1.2 <=? b.1.2)
    (filter (fun kv => kv.1.1 = recording_id) (map_to_list (db_recording_speakers s))))).

Definition set_recording_speaker (recording_id : Uuid) (local_idx : Z) (speaker_id : option Uuid)
    : DbM unit := fun s =>
  match db_recording_speakers s !! (recording_id, local_idx) with
  | None => (Err (rs_not_found recording_id local_idx), s)
  | Some row =>
      if negb (speaker_ref_ok s speaker_id) then (Err foreign_key_error, s)
      else (Ok tt, set_recording_speakers
        (<[(recording_id, local_idx) := mkRsRow speaker_id (rsr_embedding row)]> (db_recording_speakers s)) s)
  end.
End speakers.

(** ** [chunks] *)

Record NewChunk := mkNewChunk {
  nc_start_ms : option Z; nc_end_ms : option Z; nc_local_idx : option Z;
  nc_text : string; nc_embedding : list f32;
}.

Record Chunk := mkChunk {
  chk_id : Z; chk_recording_id : Uuid; chk_start_ms : option Z; chk_end_ms : option Z;
  chk_text : string; chk_embedding : option (list f32);
}.

(** What the [halfvec] column takes: a number rounded to half precision must
    stay finite, and from 65520 on it does not.  The row keeps the number as it
    was handed over; what rounding does to distances is [halfvec_distance]'s. *)
Definition fits_half (x : f32) : bool :=
  match x with
  | S754_zero _ => true
  | S754_finite _ m e => if 0 <=? e then Zpos m * 2 ^ e <? 65520 else Zpos m <? 65520 * 2 ^ (- e)
  | S754_nan | S754_infinity _ => false
  end.
Definition halfvec_ok (v : list f32) : bool := bool_decide (length v = CHUNK_DIM) && forallb fits_half v.

Definition insert_chunk (recording_id : Uuid) (c : NewChunk) : DbM unit := fun s =>
  let s' := set_next_chunk (db_next_chunk s + 1) s in
  if negb (halfvec_ok (nc_embedding c)) then (Err vector_error, s)
  else if negb (recording_exists s recording_id) then (Err foreign_key_error, s')
  else (Ok tt, set_chunks (db_chunks s ++
    [mkChunkRow (db_next_chunk s) recording_id (nc_start_ms c) (nc_end_ms c) (nc_local_idx c)
       (nc_text c) (nc_embedding c)]) s').

(** All the rows or none: a transaction over single-row inserts. *)
Definition insert_chunks (recording_id : Uuid) (chunks : list NewChunk) : DbM Z :=
  if bool_decide (length chunks = 0%nat) then mret 0
  else transaction (_ ← mfor chunks (insert_chunk recording_id); mret (count chunks)).

Definition delete_chunks_by_recording (recording_id : Uuid) : DbM Z := delete_chunks (chunk_of recording_id).

(** [ORDER BY start_ms, id]: NULLs sort last. *)
Definition chunk_le (a b : ChunkRow) : bool :=
  match cr_start_ms a, cr_start_ms b with
  | Some x, Some y => if x =? y then cr_id a <=? cr_id b else x <? y
  | Some _, None => true
  | None, Some _ => false
  | None, None => cr_id a <=? cr_id b
  end.

Definition list_chunks_by_recording (recording_id : Uuid) : DbM (list Chunk) := query (fun s =>
  map (fun c => mkChunk (cr_id c) (cr_recording_id c) (cr_start_ms c) (cr_end_ms c) (cr_text c) None)
    (sort_by chunk_le (bfilter (chunk_of recording_id) (db_chunks s)))).

(** ** Scratch artifacts *)

Record TranscriptArtifact := mkTranscriptArtifact { ta_text : string; ta_words : list Word }.
Record TurnArtifact := mkTurn { turn_local_idx : Z; turn_start_ms : Z; turn_end_ms : Z }.
Record DiarizationArtifact := mkDiarization { da_turns : list TurnArtifact; da_num_speakers : Z }.

Module artifacts.
Definition put (recording_id : Uuid) (kind : string) (data : Json) : DbM unit := fun s =>
  if negb (json_ok data) then (Err nul_error, s)
  else if negb (recording_exists s recording_id) then (Err foreign_key_error, s)
  else (Ok tt, set_artifacts (<[(recording_id, kind) := data]> (db_artifacts s)) s).

Definition get (recording_id : Uuid) (kind : string) : DbM (option Json) :=
  query (fun s => db_artifacts s !! (recording_id, kind)).

Section codecs.
Context `{SerdeJson TranscriptArtifact} `{SerdeJson DiarizationArtifact}.

Definition put_transcript (recording_id : Uuid) (t : TranscriptArtifact) : DbM unit :=
  put recording_id KIND_TRANSCRIPT (to_value t).

Definition put_diarization (recording_id : Uuid) (d : DiarizationArtifact) : DbM unit :=
  put recording_id KIND_DIARIZATION (to_value d).

(** [.ok_or_else(...)?] then [serde_json::from_value(v)?]. *)
Definition parse_artifact {A} `{SerdeJson A} (missing : string) (v : option Json) : DbM A :=
  match v with
  | None => fail_with (Pipeline "merge" missing)
  | Some v => match from_value v with Ok a => mret a | Err m => fail_with (Serde m) end
  end.

Definition get_transcript (recording_id : Uuid) : DbM TranscriptArtifact :=
  v ← get recording_id KIND_TRANSCRIPT;
  parse_artifact "transcript artifact missing (transcribe not done?)" v.

Definition get_diarization (recording_id : Uuid) : DbM DiarizationArtifact :=
  v ← get recording_id KIND_DIARIZATION;
  parse_artifact "diarization artifact missing (diarize not done?)" v.
End codecs.

(** What [serde_json] and the derived implementations promise of the two
    artifacts: a value reads back as it was written, except that a number
    which is not finite is written as [null], and [null] does not read as a
    number. *)
Definition finite_word (w : Word) : bool := match w_conf w with S754_nan | S754_infinity _ => false | _ => true end.

Class CodecLaws `{SerdeJson TranscriptArtifact} `{SerdeJson DiarizationArtifact} := {
  transcript_reads_back : forall t : TranscriptArtifact, forallb finite_word (ta_words t) = true -> from_value (to_value t) = Ok t;
  transcript_not_finite : forall t : TranscriptArtifact, forallb finite_word (ta_words t) = false -> exists m, from_value (A := TranscriptArtifact) (to_value t) = Err m;
  diarization_reads_back : forall d : DiarizationArtifact, from_value (to_value d) = Ok d;
}.
End artifacts.
