(* ===== verification/ArtifactCodec.v ===== *)
(** * A serializer of the scratch artifacts that keeps its laws

    [serde] is a parameter of the development, and [artifacts.CodecLaws] says what
    is relied on: artifacts read back as they were written, and a confidence that
    is not finite does not read back.  This file shows that the laws can hold,
    by an implementation with the objects and field names the derived ones have
    (only a float is written differently, as its parts).  The witnesses of the
    merge stage and of the inline driver run with it. *)

From Stdlib Require Import String SpecFloat.
From S2P Require Import Prelude RustStr Types Store.

(** ** Definitions *)

Definition num (z : Z) : Json := JNumber (pretty z).

Definition read_digits (lit : string) : option Z :=
  match strip_prefix "-" lit with
  | Some digits => Z.opp <$> parse_digits 0 digits
  | None => parse_digits 0 lit
  end.
Definition read_num (v : Json) : option Z := match v with JNumber lit => read_digits lit | _ => None end.

Definition write_float (x : f32) : Json :=
  match x with
  | S754_zero s => JArray [JBool s]
  | S754_finite s m e => JArray [JBool s; num (Zpos m); num e]
  | S754_infinity _ | S754_nan => JNull
  end.
Definition read_float (v : Json) : option f32 :=
  match v with
  | JArray [JBool s] => Some (S754_zero s)
  | JArray [JBool s; m; e] => m ← read_num m; e ← read_num e; Some (S754_finite s (Z.to_pos m) e)
  | _ => None
  end.

Definition write_option (o : option Z) : Json := match o with Some z => num z | None => JNull end.
Definition read_option (v : Json) : option (option Z) :=
  match v with JNull => Some None | _ => Some <$> read_num v end.

Definition write_word (w : Word) : Json :=
  JObject [("text", JString (w_text w)); ("start_ms", num (w_start_ms w)); ("end_ms", num (w_end_ms w));
           ("conf", write_float (w_conf w)); ("local_idx", write_option (w_local_idx w))].
Definition read_word (v : Json) : option Word :=
  text ← json_get v "text" ≫= json_as_str;
  start_ms ← json_get v "start_ms" ≫= read_num;
  end_ms ← json_get v "end_ms" ≫= read_num;
  conf ← json_get v "conf" ≫= read_float;
  local_idx ← json_get v "local_idx" ≫= read_option;
  Some (mkWord text start_ms end_ms conf local_idx).

Definition read_array {A} (f : Json -> option A) (v : Json) : option (list A) :=
  match v with JArray items => mapM f items | _ => None end.

Definition write_turn (t : TurnArtifact) : Json :=
  JObject [("local_idx", num (turn_local_idx t)); ("start_ms", num (turn_start_ms t)); ("end_ms", num (turn_end_ms t))].
Definition read_turn (v : Json) : option TurnArtifact :=
  local_idx ← json_get v "local_idx" ≫= read_num;
  start_ms ← json_get v "start_ms" ≫= read_num;
  end_ms ← json_get v "end_ms" ≫= read_num;
  Some (mkTurn local_idx start_ms end_ms).

Definition write_transcript (t : TranscriptArtifact) : Json :=
  JObject [("text", JString (ta_text t)); ("words", JArray (map write_word (ta_words t)))].
Definition read_transcript (v : Json) : option TranscriptArtifact :=
  text ← json_get v "text" ≫= json_as_str;
  words ← json_get v "words" ≫= read_array read_word;
  Some (mkTranscriptArtifact text words).

Definition write_diarization (d : DiarizationArtifact) : Json :=
  JObject [("turns", JArray (map write_turn (da_turns d))); ("num_speakers", num (da_num_speakers d))].
Definition read_diarization (v : Json) : option DiarizationArtifact :=
  turns ← json_get v "turns" ≫= read_array read_turn;
  num_speakers ← json_get v "num_speakers" ≫= read_num;
  Some (mkDiarization turns num_speakers).

Definition answer {A} (o : option A) : result string A := match o with Some a => Ok a | None => Err "invalid type" end.

Definition transcript_codec : SerdeJson TranscriptArtifact :=
  {| to_value := write_transcript; from_value v := answer (read_transcript v) |}.
Definition diarization_codec : SerdeJson DiarizationArtifact :=
  {| to_value := write_diarization; from_value v := answer (read_diarization v) |}.

(** ** The laws *)

Lemma digit_not_minus s : all_bytes is_digit s = true -> strip_prefix "-" s = None.
Proof.
  destruct s as [|a s]; [done|]. cbn [strip_prefix all_bytes]. destruct (Ascii.eqb_spec (Ascii.ascii_of_N 45) a) as [<-|Hne]; [done|].
  intros _. case_match eqn:E; [|done]. by apply Ascii.eqb_eq in E.
Qed.

Lemma read_num_num z : read_num (num z) = Some z.
Proof.
  unfold read_num, num, read_digits. destruct (decide (0 <= z)) as [Hz|Hz].
  - rewrite digit_not_minus by (by apply pretty_digits). by apply parse_pretty.
  - destruct z as [|p|p]; [lia|lia|]. change (pretty (Zneg p)) with ("-" +:+ pretty (Zpos p)). 
    assert (forall x, strip_prefix "-" ("-" +:+ x) = Some x) as -> by done.
    by rewrite (parse_pretty (Zpos p)) by lia.
Qed.
#[local] Opaque num.

Lemma read_float_write x : read_float (write_float x) =
  match x with S754_nan | S754_infinity _ => None | _ => Some x end.
Proof. destruct x as [s|s| |s m e]; try done. cbn. by rewrite !read_num_num. Qed.

Lemma read_option_write o : read_option (write_option o) = Some o.
Proof. destruct o as [z|]; [|done]. pose proof (read_num_num z) as Hn. cbn [write_option]. destruct (num z); cbn in *; try done; by rewrite Hn. Qed.

Lemma read_word_write w : read_word (write_word w) = if artifacts.finite_word w then Some w else None.
Proof.
  destruct w as [text a b conf idx]. unfold read_word, write_word, artifacts.finite_word. cbn. rewrite !read_num_num. cbn.
  rewrite read_float_write. destruct conf; cbn; try done; by rewrite read_option_write.
Qed.

Lemma read_words_write ws : mapM read_word (map write_word ws) = if forallb artifacts.finite_word ws then Some ws else None.
Proof.
  induction ws as [|w ws IH]; [done|]. cbn [map mapM list_fmap fmap forallb]. rewrite read_word_write.
  destruct (artifacts.finite_word w); [|done]. cbn. rewrite IH. by destruct (forallb _ _).
Qed.

Lemma read_turn_write t : read_turn (write_turn t) = Some t.
Proof. destruct t. unfold read_turn, write_turn. cbn. rewrite !read_num_num. done. Qed.

Lemma read_turns_write ts : mapM read_turn (map write_turn ts) = Some ts.
Proof. induction ts as [|t ts IH]; [done|]. cbn [map mapM]. by rewrite read_turn_write, IH. Qed.

#[export] Instance codec_laws : @artifacts.CodecLaws transcript_codec diarization_codec.
Proof.
  split; cbn.
  - intros [text ws] Hf. unfold read_transcript. cbn in *. by rewrite read_words_write, Hf.
  - intros [text ws] Hf. unfold read_transcript. cbn in *. rewrite read_words_write, Hf. by eexists.
  - intros [ts n]. unfold read_diarization. cbn -[read_turn write_turn mapM]. by rewrite read_turns_write; cbn; rewrite read_num_num.
Qed.
