(* ===== verification/StoreProps.v ===== *)
(** * What the store's operations promise

    That every operation of [Store] keeps the schema, and the contracts of the
    ones with a job to do: the resets, the cascade, the titles, the tags, the
    segments, the schedule setting, the speakers and the chunks. *)

From Stdlib Require Import String SpecFloat.
From S2P Require Import Prelude RustStr Types Schedule Db DbSchema Store Queue QueueSteps.

(** ** The schema is kept *)

Section schema.
Context `{UuidFmt} `{UnicodeCase} `{SerdeJson ProcessingSchedule}.

#[export] Instance not_found_if_zero_ro n id : ReadOnly (not_found_if_zero n id).
Proof. unfold not_found_if_zero. by destruct (n =? 0). Qed.

#[export] Instance create_recording_schema id t d p f r : SchemaOp (create_recording id t d p f r).
Proof.
  intros s Hs. unfold create_recording, recording_exists. case_bool_decide as Hid; [done|]. cbn.
  apply schema_ok_recordings; [done|intros k; apply fk_insert|].
  apply map_Forall_insert_2; [done|]. by apply recordings_key.
Qed.

#[export] Instance get_recording_ro id : ReadOnly (get_recording id).
Proof. intros s. unfold get_recording. by destruct (_ !! _). Qed.

#[export] Instance set_recording_status_schema id st : SchemaOp (set_recording_status id st).
Proof. unfold set_recording_status. apply _. Qed.

#[export] Instance delete_recording_schema id : SchemaOp (delete_recording id).
Proof.
  unfold delete_recording. apply preserves_bind; [|apply _].
  intros s Hs. by apply delete_recording_cascade_schema.
Qed.

#[export] Instance set_recording_duration_schema id d : SchemaOp (set_recording_duration id d).
Proof. unfold set_recording_duration. apply _. Qed.
#[export] Instance set_recording_marks_schema id m : SchemaOp (set_recording_marks id m).
Proof. unfold set_recording_marks. apply _. Qed.
#[export] Instance set_recording_title_schema id t : SchemaOp (set_recording_title id t).
Proof. unfold set_recording_title. apply _. Qed.
#[export] Instance set_recording_title_auto_schema id t : SchemaOp (set_recording_title_auto id t).
Proof. unfold set_recording_title_auto. apply _. Qed.
#[export] Instance set_recording_storage_key_schema id k : SchemaOp (set_recording_storage_key id k).
Proof. unfold set_recording_storage_key. apply _. Qed.
#[export] Instance set_recording_tags_schema id t : SchemaOp (set_recording_tags id t).
Proof. unfold set_recording_tags. apply _. Qed.
#[export] Instance set_participants_schema id n : SchemaOp (set_participants_expected id n).
Proof. unfold set_participants_expected. apply _. Qed.
#[export] Instance reset_for_reprocess_schema id : SchemaOp (reset_for_reprocess id).
Proof. unfold reset_for_reprocess. apply _. Qed.
#[export] Instance reset_for_rediarize_schema id : SchemaOp (reset_for_rediarize id).
Proof. unfold reset_for_rediarize. apply _. Qed.

#[export] Instance insert_segment_schema id r q k a b c d : SchemaOp (insert_segment id r q k a b c d).
Proof.
  intros s Hs. unfold insert_segment. destruct (find_first _ _) as [old|] eqn:E; cbn.
  - set (f := fun x : SegmentRow => if bool_decide (seg_key x = (r, q)) then _ else _).
    assert (Hkey : forall x, seg_key (f x) = seg_key x).
    { intros x. unfold f. case_bool_decide as Hx; [|done]. by rewrite Hx. }
    assert (Hid : forall x, seg_id (sr_seg (f x)) = seg_id (sr_seg x))
      by (intros x; unfold f; by case_bool_decide).
    destruct Hs. constructor; cbn; try done.
    + rewrite map_map. by rewrite (map_ext _ seg_key).
    + rewrite map_map. by rewrite (map_ext _ (fun x => seg_id (sr_seg x))).
    + apply Forall_map. eapply Forall_impl; [exact segments_fk|]. intros x Hx. cbn.
      replace (seg_recording_id (sr_seg (f x))) with (seg_recording_id (sr_seg x)); [done|].
      specialize (Hkey x). unfold seg_key in Hkey. congruence.
  - unfold recording_exists. case_bool_decide as Hr; cbn; [|done].
    case_bool_decide as Hid; cbn; [done|]. destruct Hs. constructor; cbn; try done.
    + rewrite map_app. apply NoDup_app. split; [done|]. split; [|apply NoDup_singleton].
      intros x Hx ->%list_elem_of_singleton. apply list_elem_of_fmap in Hx as (y & Hy & Hin).
      rewrite find_first_None in E. specialize (E y Hin). bool_to_prop. by apply E.
    + rewrite map_app. apply NoDup_app. split; [done|]. split; [|apply NoDup_singleton].
      by intros x Hx ->%list_elem_of_singleton.
    + apply Forall_app. split; [done|]. by repeat constructor.
Qed.

#[export] Instance mark_segment_transcribed_schema i a b : SchemaOp (mark_segment_transcribed i a b).
Proof.
  intros s Hs. unfold mark_segment_transcribed, exec. cbn.
  set (f := fun x : SegmentRow => if bool_decide _ then _ else _).
  assert (Hkey : forall x, seg_key (f x) = seg_key x) by (intros x; unfold f; by case_bool_decide).
  destruct Hs. constructor; cbn; try done.
  - rewrite map_map. by rewrite (map_ext _ seg_key).
  - rewrite map_map. rewrite (map_ext _ (fun x => seg_id (sr_seg x))); [done|].
    intros x. unfold f. by case_bool_decide.
  - apply Forall_map. eapply Forall_impl; [exact segments_fk|]. intros x Hx. cbn.
    specialize (Hkey x). unfold seg_key in Hkey. by injection Hkey as -> _.
Qed.

#[export] Instance put_setting_schema k v : SchemaOp (put_setting k v).
Proof. intros s []. by constructor. Qed.
#[export] Instance set_processing_schedule_schema u p : SchemaOp (set_processing_schedule u p).
Proof. unfold set_processing_schedule. apply _. Qed.

#[export] Instance upsert_summary_schema r t s a b c m p : SchemaOp (upsert_summary r t s a b c m p).
Proof.
  intros st Hs. unfold upsert_summary, recording_exists. case_bool_decide; cbn; [|done].
  destruct Hs. constructor; cbn; try done; by apply map_Forall_insert_2.
Qed.

#[export] Instance insert_utterances_schema r us : SchemaOp (insert_utterances r us).
Proof.
  intros s Hs. unfold insert_utterances. case_bool_decide; [done|]. case_match; [done|].
  assert (Hn : schema_ok (set_next_utt (db_next_utt s + count us) s)).
  { destruct Hs. constructor; cbn; try done. eapply Forall_impl; [exact utts_next|]. cbn. unfold count. lia. }
  unfold recording_exists. case_bool_decide as Hr; cbn; [|done].
  set (new := imap _ us).
  assert (Hnew : forall x, x ∈ new -> db_next_utt s <= ur_id x < db_next_utt s + count us /\ ur_recording_id x = r).
  { intros x (i & u & -> & Hi)%elem_of_lookup_imap. apply lookup_lt_Some in Hi. cbn. unfold count. lia. }
  destruct Hs. constructor; cbn; try done.
  - rewrite map_app. apply NoDup_app. split; [done|]. split.
    + intros i Hi Hj. apply list_elem_of_fmap in Hi as (x & -> & Hx). apply list_elem_of_fmap in Hj as (y & Heq & Hy).
      rewrite Forall_forall in utts_next. specialize (utts_next x Hx). specialize (Hnew y Hy). cbn in *. lia.
    + apply NoDup_alt. intros i j x Hi Hj. change (map ur_id new) with (ur_id <$> new) in *.
      unfold new in Hi, Hj. rewrite list_lookup_fmap, list_lookup_imap in Hi, Hj.
      destruct (us !! i), (us !! j); cbn in *; simplify_eq. lia.
  - apply Forall_app. split; [eapply Forall_impl; [exact utts_next|]; cbn; unfold count; lia|].
    apply Forall_forall. intros x Hx. by apply Hnew.
  - apply Forall_app. split; [done|]. apply Forall_forall. intros x Hx.
    by destruct (Hnew x Hx) as [_ ->].
Qed.

#[export] Instance update_utterance_text_schema r i t : SchemaOp (update_utterance_text r i t).
Proof.
  unfold update_utterance_text. apply preserves_bind; [|apply _].
  intros s Hs. cbn. set (f := fun u : UttRow => if (ur_id u =? i) && utt_of r u then with_text t u else u).
  destruct Hs. constructor; cbn; try done.
  - rewrite map_map. rewrite (map_ext _ ur_id); [done|]. intros u. unfold f. by destruct (_ && _).
  - apply Forall_map. eapply Forall_impl; [exact utts_next|]. intros u. cbn. unfold f. by destruct (_ && _).
  - apply Forall_map. eapply Forall_impl; [exact utts_fk|]. intros u. cbn. unfold f. by destruct (_ && _).
Qed.

Lemma speakers_insert_schema id p s :
  schema_ok s -> spk_id p = id -> schema_ok (set_speakers (<[id := p]> (db_speakers s)) s).
Proof.
  intros [] Hp. constructor; cbn; try done; [by apply map_Forall_insert_2|].
  eapply map_Forall_impl; [exact rs_speaker_fk|]. cbn. intros k v Hv q Hq. specialize (Hv q Hq).
  destruct (decide (id = q)) as [->|]; [rewrite lookup_insert_eq; eauto|by rewrite lookup_insert_ne].
Qed.

#[export] Instance create_speaker_schema id n e : SchemaOp (create_speaker id n e).
Proof.
  intros s Hs. unfold create_speaker. destruct (negb _); [done|]. case_bool_decide; [done|].
  by apply speakers_insert_schema.
Qed.

Lemma update_speaker_schema id f : (forall p, spk_id (f p) = spk_id p) -> SchemaOp (update_speaker id f).
Proof.
  intros Hf s Hs. unfold update_speaker. destruct (db_speakers s !! id) as [p|] eqn:E; [|done].
  apply speakers_insert_schema; [done|]. rewrite Hf. by apply (speakers_key s Hs).
Qed.

#[export] Instance set_speaker_embedding_schema id e : SchemaOp (set_speaker_embedding id e).
Proof. unfold set_speaker_embedding. destruct (negb _); [apply _|]. by apply update_speaker_schema. Qed.
#[export] Instance rename_speaker_schema id n : SchemaOp (rename_speaker id n).
Proof. by apply update_speaker_schema. Qed.

#[export] Instance delete_speaker_schema id : SchemaOp (delete_speaker id).
Proof.
  intros s Hs. unfold delete_speaker. destruct (_ !! _); [|done]. destruct Hs.
  constructor; cbn; try done.
  - by apply map_Forall_delete.
  - intros k v Hk. rewrite lookup_fmap in Hk. destruct (db_recording_speakers s !! k) eqn:E; [|done].
    by eapply rs_fk.
  - intros k v Hk p Hp. rewrite lookup_fmap in Hk. destruct (db_recording_speakers s !! k) as [r|] eqn:E; [|done].
    cbn in Hk. injection Hk as <-. unfold forget_speaker in Hp. case_bool_decide as Hr; [done|].
    rewrite lookup_delete_ne by congruence. by eapply rs_speaker_fk.
Qed.

Lemma rs_insert_schema s r i row :
  schema_ok s -> fk s r -> (forall p, rsr_speaker_id row = Some p -> is_Some (db_speakers s !! p)) ->
  schema_ok (set_recording_speakers (<[(r, i) := row]> (db_recording_speakers s)) s).
Proof. intros [] Hr Hp. constructor; cbn; try done; by apply map_Forall_insert_2. Qed.

Lemma speaker_ref_ok_spec s p :
  speaker_ref_ok s p = true -> forall q, p = Some q -> is_Some (db_speakers s !! q).
Proof. unfold speaker_ref_ok. destruct p; [|done]. intros Hb q [= <-]. by bool_to_prop. Qed.

#[export] Instance upsert_recording_speaker_schema r i p e : SchemaOp (upsert_recording_speaker r i p e).
Proof.
  intros s Hs. unfold upsert_recording_speaker. destruct (negb _); [done|].
  destruct (negb (_ && _)) eqn:E; [done|]. bool_to_prop.
  apply rs_insert_schema; [done| |by apply speaker_ref_ok_spec].
  unfold recording_exists in H2. by bool_to_prop.
Qed.

#[export] Instance prune_recording_speakers_schema r k : SchemaOp (prune_recording_speakers r k).
Proof. intros s []. constructor; cbn; try done; by apply map_filter_Forall. Qed.

#[export] Instance delete_recording_speaker_schema r i : SchemaOp (delete_recording_speaker r i).
Proof.
  unfold delete_recording_speaker. apply preserves_transaction, preserves_bind; [apply _|intros n].
  apply preserves_bind; [|apply _]. intros s []. constructor; cbn; try done; by apply map_Forall_delete.
Qed.

#[export] Instance set_recording_speaker_schema r i p : SchemaOp (set_recording_speaker r i p).
Proof.
  intros s Hs. unfold set_recording_speaker. destruct (_ !! _) as [row|] eqn:E; [|done].
  destruct (negb _) eqn:Hp; [done|]. bool_to_prop.
  apply rs_insert_schema; [done| |by apply speaker_ref_ok_spec]. exact (rs_fk s Hs _ _ E).
Qed.

#[export] Instance insert_chunk_schema r c : SchemaOp (insert_chunk r c).
Proof.
  intros s Hs. unfold insert_chunk. destruct (negb _); [done|].
  assert (Hn : schema_ok (set_next_chunk (db_next_chunk s + 1) s)).
  { destruct Hs. constructor; cbn; try done. eapply Forall_impl; [exact chunks_next|]. cbn. lia. }
  unfold recording_exists. case_bool_decide as Hr; cbn; [|done].
  destruct Hs. constructor; cbn; try done.
  - rewrite map_app. apply NoDup_app. split; [done|]. split; [|apply NoDup_singleton].
    intros i Hi ->%list_elem_of_singleton. apply list_elem_of_fmap in Hi as (x & Hx & Hin).
    rewrite Forall_forall in chunks_next. specialize (chunks_next x Hin). cbn in *. lia.
  - apply Forall_app. split; [eapply Forall_impl; [exact chunks_next|]; cbn; lia|].
    constructor; [cbn; lia|constructor].
  - apply Forall_app. split; [done|]. by repeat constructor.
Qed.

#[export] Instance insert_chunks_schema r cs : SchemaOp (insert_chunks r cs).
Proof. unfold insert_chunks. apply _. Qed.

#[export] Instance put_artifact_schema r k v : SchemaOp (artifacts.put r k v).
Proof.
  intros s Hs. unfold artifacts.put, recording_exists. destruct (json_ok v); [|done]. case_bool_decide; cbn; [|done].
  destruct Hs. constructor; cbn; try done. by apply map_Forall_insert_2.
Qed.
End schema.

(** ** The store as a whole *)

Section operations.
Context `{UuidFmt} `{UnicodeCase} `{SerdeJson ProcessingSchedule}.

(** Every operation of the crate that writes, on any arguments. *)
Inductive store_op : forall A, DbM A -> Prop :=
| op_create_recording id t d p f r : store_op _ (create_recording id t d p f r)
| op_status id st : store_op _ (set_recording_status id st)
| op_delete_recording id : store_op _ (delete_recording id)
| op_duration id d : store_op _ (set_recording_duration id d)
| op_marks id m : store_op _ (set_recording_marks id m)
| op_title id t : store_op _ (set_recording_title id t)
| op_title_auto id t : store_op _ (set_recording_title_auto id t)
| op_storage_key id k : store_op _ (set_recording_storage_key id k)
| op_tags id t : store_op _ (set_recording_tags id t)
| op_participants id n : store_op _ (set_participants_expected id n)
| op_reprocess id : store_op _ (reset_for_reprocess id)
| op_rediarize id : store_op _ (reset_for_rediarize id)
| op_segment id r q k a b c d : store_op _ (insert_segment id r q k a b c d)
| op_mark_segment i a b : store_op _ (mark_segment_transcribed i a b)
| op_setting k v : store_op _ (put_setting k v)
| op_schedule u p : store_op _ (set_processing_schedule u p)
| op_summary r t s a b c m p : store_op _ (upsert_summary r t s a b c m p)
| op_delete_summaries r : store_op _ (delete_summaries_by_recording r)
| op_utterances r us : store_op _ (insert_utterances r us)
| op_delete_utterances r : store_op _ (delete_utterances_by_recording r)
| op_utterance_text r i t : store_op _ (update_utterance_text r i t)
| op_create_speaker id n e : store_op _ (create_speaker id n e)
| op_speaker_embedding id e : store_op _ (set_speaker_embedding id e)
| op_rename_speaker id n : store_op _ (rename_speaker id n)
| op_delete_speaker id : store_op _ (delete_speaker id)
| op_upsert_rs r i p e : store_op _ (upsert_recording_speaker r i p e)
| op_prune_rs r k : store_op _ (prune_recording_speakers r k)
| op_delete_rs r i : store_op _ (delete_recording_speaker r i)
| op_set_rs r i p : store_op _ (set_recording_speaker r i p)
| op_chunks r cs : store_op _ (insert_chunks r cs)
| op_delete_chunks r : store_op _ (delete_chunks_by_recording r)
| op_put_artifact r k v : store_op _ (artifacts.put r k v)
| op_delete_artifacts r : store_op _ (delete_artifacts_by_recording r)
| op_enqueue r k v p : store_op _ (Queue.enqueue_with_priority r k v p)
| op_claim l w ks : store_op _ (Queue.claim_one l w ks)
| op_heartbeat i w : store_op _ (Queue.heartbeat i w)
| op_complete i : store_op _ (Queue.complete i)
| op_fail i e m b : store_op _ (Queue.fail i e m b)
| op_defer i n d : store_op _ (Queue.defer i n d)
| op_notify p : store_op _ (Queue.notify_workers p)
| op_reap o m : store_op _ (Queue.reap_stuck o m)
| op_delete_jobs r : store_op _ (Queue.delete_jobs_by_recording r).

(** One operation, or the clock moving on. *)
Inductive store_step (s : Db) : Db -> Prop :=
| step_op A (m : DbM A) : store_op A m -> store_step s (snd (m s))
| step_clock d : 0 <= d -> store_step s (set_now (db_now s + d) s).

#[export] Instance store_op_schema A (m : DbM A) : store_op A m -> SchemaOp m.
Proof.
  destruct 1; apply _.
Qed.

Lemma store_step_schema s s' : store_step s s' -> schema_ok s -> schema_ok s'.
Proof.
  destruct 1 as [A m Hop|d Hd]; [by apply store_op_schema|]. intros []. by constructor.
Qed.
End operations.

(** C40: the schema's constraints survive every sequence of the crate's
    operations, succeeding or failing: keys stay unique, one live job per
    recording and kind, no row refers to a recording or a speaker that is gone. *)
Theorem schema_always `{UuidFmt} `{UnicodeCase} `{SerdeJson ProcessingSchedule} now s :
  rtc store_step (empty_db now) s -> schema_ok s.
Proof.
  intros Hr. assert (H0' : schema_ok (empty_db now)) by apply empty_db_schema.
  induction Hr as [|s1 s2 s3 Hstep _ IH]; [done|]. apply IH. by eapply store_step_schema.
Qed.

(** *** What a recording's derived data is *)

Record view := mkView {
  v_utterances : list UttRow; v_chunks : list ChunkRow; v_jobs : list Job;
  v_summaries : gmap (Uuid * string) Summary; v_artifacts : gmap (Uuid * string) Json;
  v_speakers : gmap (Uuid * Z) RsRow;
}.

Definition derived (s : Db) (r : Uuid) : view :=
  mkView (bfilter (utt_of r) (db_utterances s)) (bfilter (chunk_of r) (db_chunks s))
    (bfilter (job_of_recording r) (db_jobs s))
    (filter (fun kv => kv.1.1 = r) (db_summaries s)) (filter (fun kv => kv.1.1 = r) (db_artifacts s))
    (filter (fun kv => kv.1.1 = r) (db_recording_speakers s)).

Definition nothing_derived : view := mkView [] [] [] ∅ ∅ ∅.

Lemma bfilter_negb {A} (p : A -> bool) l : bfilter p (bfilter (fun x => negb (p x)) l) = [].
Proof. apply bfilter_nil_iff. intros x [_ Hx]%elem_of_bfilter. by bool_to_prop. Qed.

Lemma bfilter_disjoint {A} (p q : A -> bool) l :
  (forall x, p x = true -> q x = false) -> bfilter p (bfilter (fun x => negb (q x)) l) = bfilter p l.
Proof.
  intros Hpq. unfold bfilter in *. induction l as [|x l IH]; cbn; [done|].
  destruct (p x) eqn:Hp.
  - rewrite (Hpq x Hp). cbn. by rewrite Hp, IH.
  - destruct (q x); cbn; [done|]. by rewrite Hp.
Qed.

Section map_filters.
Context {K A} `{Countable K} (f : K -> Uuid) (m : gmap K A).

Lemma filter_key_gone r :
  filter (fun kv : K * A => f kv.1 = r) (filter (fun kv : K * A => f kv.1 <> r) m) = ∅.
Proof.
  apply map_empty_filter. intros k v [_ Hk]%map_lookup_filter_Some Heq. by apply Hk.
Qed.

Lemma filter_key_other r r' : r <> r' ->
  filter (fun kv : K * A => f kv.1 = r) (filter (fun kv : K * A => f kv.1 <> r') m) =
  filter (fun kv : K * A => f kv.1 = r) m.
Proof.
  intros Hr. apply map_eq. intros k. apply option_eq. intros v.
  rewrite !map_lookup_filter_Some. cbn. naive_solver.
Qed.
End map_filters.

Lemma utt_of_disjoint r r' u : r <> r' -> utt_of r u = true -> utt_of r' u = false.
Proof. unfold utt_of. intros Hr Hu. bool_to_prop. apply bool_decide_eq_false. congruence. Qed.
Lemma chunk_of_disjoint r r' u : r <> r' -> chunk_of r u = true -> chunk_of r' u = false.
Proof. unfold chunk_of. intros Hr Hu. bool_to_prop. apply bool_decide_eq_false. congruence. Qed.
Lemma job_of_disjoint r r' j : r <> r' -> job_of_recording r j = true -> job_of_recording r' j = false.
Proof. unfold job_of_recording, of_recording. intros Hr Hu. bool_to_prop. apply bool_decide_eq_false. congruence. Qed.

(** The state the deletes of [reset_for_reprocess] leave. *)
Definition without_derived (id : Uuid) (s : Db) : Db :=
  set_jobs (bfilter (fun j => negb (job_of_recording id j)) (db_jobs s))
  (set_recording_speakers (delete_rs_of id (db_recording_speakers s))
  (set_artifacts (delete_map_of id (db_artifacts s))
  (set_summaries (delete_map_of id (db_summaries s))
  (set_chunks (bfilter (fun c => negb (chunk_of id c)) (db_chunks s))
  (set_utterances (bfilter (fun u => negb (utt_of id u)) (db_utterances s)) s))))).

Lemma derived_without id s r :
  derived (without_derived id s) r = if decide (r = id) then nothing_derived else derived s r.
Proof.
  unfold derived, without_derived, delete_map_of, delete_rs_of. cbn. destruct (decide (r = id)) as [->|Hr].
  - by rewrite !bfilter_negb, !(filter_key_gone fst).
  - rewrite !(filter_key_other fst) by done. rewrite !bfilter_disjoint; [done| | |];
      intros x; eauto using utt_of_disjoint, chunk_of_disjoint, job_of_disjoint.
Qed.

Section resets.
Context `{UuidFmt}.

Lemma update_recording_always id f s :
  update_recording id always f s =
  match db_recordings s !! id with
  | Some r => (Ok 1, set_recordings (<[id := f r]> (db_recordings s)) s)
  | None => (Ok 0, s)
  end.
Proof. unfold update_recording, exec. by destruct (_ !! _). Qed.

(** An update answered with [not_found_if_zero]. *)
Lemma list_speakers_elem s p : p ∈ speakers_by name_le s <-> exists u, db_speakers s !! u = Some p.
Proof.
  unfold speakers_by. rewrite sort_by_elem, list_elem_of_fmap. split.
  - intros ([u q] & -> & Hin%elem_of_map_to_list). by exists u.
  - intros [u Hu]. exists (u, p). split; [done|]. by apply elem_of_map_to_list.
Qed.

Lemma update_or_not_found id f s :
  (affected ← update_recording id always f; not_found_if_zero affected id) s =
  match db_recordings s !! id with
  | Some r => (Ok tt, set_recordings (<[id := f r]> (db_recordings s)) s)
  | None => (Err (recording_not_found id), s)
  end.
Proof.
  unfold mbind, M_bind. rewrite update_recording_always. by destruct (db_recordings s !! id).
Qed.

Lemma reset_for_reprocess_eq id s :
  reset_for_reprocess id s =
  match db_recordings s !! id with
  | Some row => (Ok tt, set_recordings (<[id := with_status Processing row]> (db_recordings s))
                          (without_derived id s))
  | None => (Err (recording_not_found id), s)
  end.
Proof.
  unfold reset_for_reprocess, transaction, delete_utterances, delete_chunks, delete_summaries,
    delete_artifacts, delete_recording_speakers, delete_jobs.
  rewrite !bind_exec. cbn [fst snd]. rewrite update_or_not_found. cbn.
  by destruct (db_recordings s !! id).
Qed.
End resets.

(** Reprocessing clears the slate, all of it or none.  On a recording that
    exists its utterances, chunks, summaries, artifacts, diarized speakers and
    jobs are gone and it is [processing]; its segments, the enrolled speakers
    and the settings stay, and no other recording is touched.  On an unknown
    id, not found, and nothing has changed. *)
Theorem reset_for_reprocess_spec `{UuidFmt} id s :
  match db_recordings s !! id with
  | Some row => exists s', reset_for_reprocess id s = (Ok tt, s') /\
      db_recordings s' = (<[id := with_status Processing row]> (db_recordings s)) /\
      (forall r, derived s' r = if decide (r = id) then nothing_derived else derived s r) /\
      db_segments s' = db_segments s /\ db_speakers s' = db_speakers s /\ db_settings s' = db_settings s
  | None => reset_for_reprocess id s = (Err (recording_not_found id), s)
  end.
Proof.
  rewrite reset_for_reprocess_eq. destruct (db_recordings s !! id) as [row|]; [|done].
  eexists. split; [reflexivity|]. split; [done|]. split; [|done].
  intros r. rewrite <- derived_without. done.
Qed.

(** The jobs and artifacts a rediarize leaves standing. *)
Definition rediarized (id : Uuid) (s : Db) : Db :=
  set_jobs (bfilter (fun j => negb (job_of_recording id j && bool_decide (job_kind j ∈ rediarize_kinds))) (db_jobs s))
  (set_artifacts (delete (id, KIND_DIARIZATION) (db_artifacts s))
  (set_recording_speakers (delete_rs_of id (db_recording_speakers s))
  (set_summaries (delete_map_of id (db_summaries s))
  (set_chunks (bfilter (fun c => negb (chunk_of id c)) (db_chunks s))
  (set_utterances (bfilter (fun u => negb (utt_of id u)) (db_utterances s)) s))))).

Lemma reset_for_rediarize_eq `{UuidFmt} id s :
  reset_for_rediarize id s =
  if bool_decide (is_Some (db_artifacts s !! (id, KIND_TRANSCRIPT))) then
    match db_recordings s !! id with
    | Some row => (Ok true, set_recordings (<[id := with_status Processing row]> (db_recordings s)) (rediarized id s))
    | None => (Err (recording_not_found id), s)
    end
  else (Ok false, s).
Proof.
  unfold reset_for_rediarize, transaction. rewrite bind_query.
  destruct (bool_decide (is_Some _)); [|done]. cbn [negb].
  unfold delete_utterances, delete_chunks, delete_summaries, delete_artifact,
    delete_recording_speakers, delete_jobs. rewrite !bind_exec. cbn [fst snd].
  unfold mbind, M_bind. rewrite update_recording_always. cbn.
  by destruct (db_recordings s !! id).
Qed.

Lemma job_filter_rediarized id s r :
  bfilter (job_of_recording r) (db_jobs (rediarized id s)) =
  if decide (r = id)
  then bfilter (fun j => job_of_recording id j && negb (bool_decide (job_kind j ∈ rediarize_kinds))) (db_jobs s)
  else bfilter (job_of_recording r) (db_jobs s).
Proof.
  cbn. unfold bfilter. induction (db_jobs s) as [|j l IH]; cbn; [by case_decide|].
  destruct (decide (r = id)) as [->|Hr].
  - destruct (job_of_recording id j) eqn:E; cbn; [|by rewrite E].
    case_bool_decide; cbn; [done|]. rewrite E. by f_equal.
  - destruct (job_of_recording r j) eqn:E.
    + rewrite (job_of_disjoint r id j Hr E). cbn. rewrite E. by f_equal.
    + destruct (negb _); cbn; [by rewrite E|done].
Qed.

(** Rediarizing keeps exactly what it may keep.  Without a stored transcript
    it answers false and changes nothing.  With one, the transcript artifact and
    the jobs of the stages before diarization stay; the diarization artifact,
    the jobs of diarize and everything after it, and all data derived from the
    speakers are gone, so each of those stages can be enqueued afresh and
    merge's gate cannot open on an old diarization; nothing else changes. *)
Theorem reset_for_rediarize_spec `{UuidFmt} id s :
  match db_artifacts s !! (id, KIND_TRANSCRIPT), db_recordings s !! id with
  | None, _ => reset_for_rediarize id s = (Ok false, s)
  | Some _, None => reset_for_rediarize id s = (Err (recording_not_found id), s)
  | Some t, Some row => exists s', reset_for_rediarize id s = (Ok true, s') /\
      db_recordings s' = (<[id := with_status Processing row]> (db_recordings s)) /\
      db_artifacts s' !! (id, KIND_TRANSCRIPT) = Some t /\
      db_artifacts s' !! (id, KIND_DIARIZATION) = None /\
      v_utterances (derived s' id) = [] /\ v_chunks (derived s' id) = [] /\
      v_summaries (derived s' id) = ∅ /\ v_speakers (derived s' id) = ∅ /\
      (forall k, (id, k) ∈ live_keys (db_jobs s') -> k ∉ rediarize_kinds) /\
      (exists b, Queue.predecessors_done id Merge s' = (Ok b, s') /\ b = false) /\
      (forall j, j ∈ db_jobs s -> job_kind j ∉ rediarize_kinds -> j ∈ db_jobs s') /\
      (forall r, r <> id -> derived s' r = derived s r)
  end.
Proof.
  rewrite reset_for_rediarize_eq. destruct (db_artifacts s !! (id, KIND_TRANSCRIPT)) as [t|] eqn:Ht.
  2: { by destruct (db_recordings s !! id). }
  rewrite bool_decide_eq_true_2 by eauto. destruct (db_recordings s !! id) as [row|] eqn:Hrow; [|done].
  eexists. split; [reflexivity|]. split; [done|].
  change (db_artifacts (set_recordings _ _)) with (delete (id, KIND_DIARIZATION) (db_artifacts s)).
  change (db_jobs (set_recordings _ (rediarized id s))) with (db_jobs (rediarized id s)).
  split; [by rewrite lookup_delete_ne|]. split; [apply lookup_delete_eq|].
  assert (Hjobs : forall j, j ∈ db_jobs (rediarized id s) ->
    j ∈ db_jobs s /\ ~ (job_recording_id j = Some id /\ job_kind j ∈ rediarize_kinds)).
  { intros j [Hin Hp]%elem_of_bfilter. split; [done|]. intros [Hr Hk].
    unfold job_of_recording, of_recording in Hp. by rewrite Hr, !bool_decide_eq_true_2 in Hp. }
  split; [apply bfilter_negb|]. split; [apply bfilter_negb|].
  split; [apply (filter_key_gone fst)|]. split; [apply (filter_key_gone fst)|].
  split.
  { intros k Hk Hin. apply list_elem_of_omap in Hk as (j & Hj & Hlk). apply Hjobs in Hj as [_ Hno].
    apply Hno. unfold live_key in Hlk. destruct (job_live j); [|done].
    destruct (job_recording_id j); [|done]. cbn in Hlk. by simplify_eq. }
  split.
  { eexists. split; [reflexivity|]. cbn zeta. rewrite bool_decide_eq_false_2 by done.
    apply Z.eqb_neq. intros Hlen. apply Nat2Z.inj in Hlen.
    set (found := Queue.done_kinds _ _ _) in Hlen.
    assert (Hsub : found ⊆ [Transcribe]).
    { intros k Hk. unfold found, Queue.done_kinds in Hk. apply elem_of_dedup_first in Hk as [Hk _].
      apply list_elem_of_fmap in Hk as (j & -> & [Hj Hb]%elem_of_bfilter). bool_to_prop.
      apply Hjobs in Hj as [_ Hno]. unfold of_recording in *. bool_to_prop. cbn in H2.
      apply elem_of_cons in H2 as [Hd|H2]; [|done]. exfalso. apply Hno. rewrite Hd. split; [done|left]. }
    apply NoDup_submseteq in Hsub; [|apply NoDup_dedup_first].
    apply submseteq_length in Hsub. rewrite Hlen in Hsub. cbn in Hsub. lia. }
  split.
  { intros j Hj Hk. apply elem_of_bfilter. split; [done|].
    by rewrite (bool_decide_eq_false_2 _ Hk), andb_false_r. }
  intros r Hr. unfold derived. change (db_jobs (set_recordings _ (rediarized id s))) with (db_jobs (rediarized id s)).
  rewrite job_filter_rediarized. rewrite decide_False by done. cbn.
  rewrite !bfilter_disjoint by eauto using utt_of_disjoint, chunk_of_disjoint.
  unfold delete_map_of, delete_rs_of. rewrite !(filter_key_other fst) by done. f_equal.
  apply map_eq. intros k. apply option_eq. intros v. rewrite !map_lookup_filter_Some, lookup_delete_Some.
  cbn. split; [naive_solver|]. intros [Hv Hk]. split; [|done]. split; [|done]. intros <-. by cbn in Hk.
Qed.

(** Deleting a recording deletes all of it and nothing else: afterwards no
    table has a row of it, every other recording's rows are as they were, and
    the enrolled speakers stay.  Deleting an unknown id is not found and, on a
    database that satisfies the schema, changes nothing. *)
Theorem delete_recording_spec `{UuidFmt} id s :
  schema_ok s ->
  exists s', delete_recording id s =
      ((if recording_exists s id then Ok tt else Err (recording_not_found id)), s') /\
    db_recordings s' = delete id (db_recordings s) /\
    (forall r, derived s' r = if decide (r = id) then nothing_derived else derived s r) /\
    (forall r, segs_of r s' = if decide (r = id) then [] else segs_of r s) /\
    db_speakers s' = db_speakers s /\
    (recording_exists s id = false -> forall r, derived s' r = derived s r /\ segs_of r s' = segs_of r s).
Proof.
  intros Hs. unfold delete_recording. rewrite bind_exec. cbn [fst snd].
  exists (delete_recording_cascade id s). split.
  { unfold not_found_if_zero. by destruct (recording_exists s id). }
  assert (Hder : forall r, derived (delete_recording_cascade id s) r =
    if decide (r = id) then nothing_derived else derived s r).
  { intros r. rewrite <- derived_without. done. }
  assert (Hseg : forall r, segs_of r (delete_recording_cascade id s) =
    if decide (r = id) then [] else segs_of r s).
  { intros r. unfold segs_of. cbn. destruct (decide (r = id)) as [->|Hr]; [apply bfilter_negb|].
    apply bfilter_disjoint. intros x Hx. bool_to_prop. apply bool_decide_eq_false. congruence. }
  do 4 (split; [done|]). intros Hno r. rewrite Hder, Hseg. destruct (decide (r = id)) as [->|]; [|done].
  apply bool_decide_eq_false_1 in Hno.
  assert (Hnofk : ~ fk s id) by done. clear Hder Hseg.
  pose proof (jobs_fk s Hs) as F1. pose proof (utts_fk s Hs) as F2. pose proof (chunks_fk s Hs) as F3.
  pose proof (segments_fk s Hs) as F4. rewrite Forall_forall in F1. rewrite Forall_forall in F2. rewrite Forall_forall in F3. rewrite Forall_forall in F4.
  unfold derived, nothing_derived, segs_of. split.
  - symmetry. f_equal.
    + apply bfilter_nil_iff. intros u Hu. apply bool_decide_eq_false. intros Heq.
      apply Hnofk. rewrite <- Heq. by apply F2.
    + apply bfilter_nil_iff. intros u Hu. apply bool_decide_eq_false. intros Heq.
      apply Hnofk. rewrite <- Heq. by apply F3.
    + apply bfilter_nil_iff. intros u Hu. apply bool_decide_eq_false. intros Heq.
      apply Hnofk. by apply (F1 u Hu).
    + apply map_empty_filter. intros k v Hv Hk. apply Hnofk. rewrite <- Hk. by apply (summaries_fk s Hs k v).
    + apply map_empty_filter. intros k v Hv Hk. apply Hnofk. rewrite <- Hk. by apply (artifacts_fk s Hs k v).
    + apply map_empty_filter. intros k v Hv Hk. apply Hnofk. rewrite <- Hk. by apply (rs_fk s Hs k v).
  - symmetry. apply bfilter_nil_iff. intros u Hu. apply bool_decide_eq_false. intros Heq.
    apply Hnofk. rewrite <- Heq. by apply F4.
Qed.

(** An automatic title never replaces one the user gave.  It is stored, and
    answered true, exactly when the current title is automatic, absent or
    empty, and the recording is then marked automatic again; otherwise nothing
    changes and the answer is false, for an unknown recording too. *)
Theorem set_recording_title_auto_spec id t s :
  set_recording_title_auto id t s =
  match db_recordings s !! id with
  | Some row =>
      if title_replaceable row
      then (Ok true, set_recordings (<[id := with_title t true row]> (db_recordings s)) s)
      else (Ok false, s)
  | None => (Ok false, s)
  end /\
  (forall row u, db_recordings s !! id = Some row -> rr_title_auto row = false ->
     rec_title (rr_rec row) = Some u -> u <> "" ->
     set_recording_title_auto id t s = (Ok false, s)).
Proof.
  assert (Heq : set_recording_title_auto id t s =
    match db_recordings s !! id with
    | Some row =>
        if title_replaceable row
        then (Ok true, set_recordings (<[id := with_title t true row]> (db_recordings s)) s)
        else (Ok false, s)
    | None => (Ok false, s)
    end).
  { unfold set_recording_title_auto, update_recording. rewrite bind_exec.
    destruct (db_recordings s !! id) as [row|]; [|done]. by destruct (title_replaceable row). }
  split; [done|]. intros row u Hrow Ha Ht Hu. rewrite Heq, Hrow.
  unfold title_replaceable. rewrite Ha, Ht. by destruct u.
Qed.

Section tags.
Context `{UnicodeCaseLaws}.

Lemma elem_of_normalize_tags_from seen tags t :
  t ∈ normalize_tags_from seen tags <->
  t ∉ seen /\ t <> "" /\ exists tag, tag ∈ tags /\ t = to_lowercase (trim tag).
Proof.
  revert seen. induction tags as [|tag tags IH]; intros seen; cbn; [set_solver|].
  destruct (is_empty (to_lowercase (trim tag))) eqn:E.
  - rewrite IH. destruct (to_lowercase (trim tag)) eqn:Et; [|done]. set_solver.
  - assert (Hne : to_lowercase (trim tag) <> "") by (intros Heq; by rewrite Heq in E).
    case_bool_decide as Hs; [rewrite IH; set_solver|].
    rewrite elem_of_cons, IH. destruct (decide (t = to_lowercase (trim tag))); set_solver.
Qed.

Lemma NoDup_normalize_tags_from seen tags : NoDup (normalize_tags_from seen tags).
Proof.
  revert seen. induction tags as [|tag tags IH]; intros seen; cbn; [constructor|].
  destruct (is_empty _); [done|]. case_bool_decide; [done|]. constructor; [|done].
  rewrite elem_of_normalize_tags_from. set_solver.
Qed.

(** Normalizing tags that are normal keeps them, in order. *)
Lemma normalize_tags_from_normal seen tags :
  NoDup tags -> (forall t, t ∈ tags -> t ∉ seen /\ t <> "" /\ to_lowercase (trim t) = t) ->
  normalize_tags_from seen tags = tags.
Proof.
  revert seen. induction tags as [|t tags IH]; intros seen Hnd Hall; cbn; [done|].
  apply NoDup_cons in Hnd as [Ht Hnd]. destruct (Hall t ltac:(left)) as (Hs & Hne & ->).
  destruct t as [|c t']; [done|]. cbn. rewrite bool_decide_eq_false_2 by done. f_equal.
  apply IH; [done|]. intros u Hu. destruct (Hall u ltac:(by right)) as (? & ? & ?). set_solver.
Qed.
End tags.

(** Tags are stored normalized: no duplicates, none empty, each the trimmed
    lowercase of a tag that was sent, every tag sent represented unless blank;
    and normalizing the stored list again changes nothing. *)
Theorem normalize_tags_spec `{UnicodeCaseLaws} tags :
  NoDup (normalize_tags tags) /\
  (forall t, t ∈ normalize_tags tags <->
     t <> "" /\ exists tag, tag ∈ tags /\ t = to_lowercase (trim tag)) /\
  normalize_tags (normalize_tags tags) = normalize_tags tags.
Proof.
  assert (Hel : forall t, t ∈ normalize_tags tags <->
    t <> "" /\ exists tag, tag ∈ tags /\ t = to_lowercase (trim tag)).
  { intros t. unfold normalize_tags. rewrite elem_of_normalize_tags_from. set_solver. }
  split; [apply NoDup_normalize_tags_from|]. split; [done|].
  apply normalize_tags_from_normal; [apply NoDup_normalize_tags_from|].
  intros t (Hne & tag & _ & ->)%Hel. split; [set_solver|]. split; [done|].
  rewrite lowercase_trimmed by apply trim_idem. apply lowercase_idem.
Qed.

(** Uploading a piece twice keeps one row.  After an upload of (recording,
    seq) that row has the new key, timing and hash; a piece already there keeps
    its id, and the number of rows grows only for a new one; and, because the
    statement does not name [transcribed_at], a re-upload after transcription
    leaves the piece marked as transcribed although its measured timing has
    been overwritten. *)
Theorem insert_segment_spec id r q key st du by_ sha s :
  schema_ok s -> fk s r -> id ∉ map (fun x => seg_id (sr_seg x)) (db_segments s) ->
  exists g s', insert_segment id r q key st du by_ sha s = (Ok g, s') /\
    (forall x, x ∈ db_segments s' -> seg_key x = (r, q) -> sr_seg x = g) /\
    seg_storage_key g = key /\ seg_start_ms g = st /\ seg_duration_ms g = du /\
    match find_first (fun x => bool_decide (seg_key x = (r, q))) (db_segments s) with
    | Some old => seg_id g = seg_id (sr_seg old) /\ length (db_segments s') = length (db_segments s) /\
        (forall x, x ∈ db_segments s' -> seg_key x = (r, q) -> sr_transcribed_at x = sr_transcribed_at old)
    | None => seg_id g = id /\ length (db_segments s') = S (length (db_segments s))
    end.
Proof.
  intros Hs Hr Hid. unfold insert_segment. destruct (find_first _ _) as [old|] eqn:E.
  - apply find_first_Some in E as [Hin Hk%bool_decide_eq_true_1].
    eexists _, _. split; [reflexivity|]. cbn [db_segments set_segments].
    assert (Huniq : forall x, x ∈ db_segments s -> seg_key x = (r, q) -> x = old).
    { intros x Hx Hkx. apply list_elem_of_lookup in Hx as [i Hi]. apply list_elem_of_lookup in Hin as [j Hj].
      pose proof (proj1 (NoDup_alt _) (segments_key s Hs) i j (r, q)) as Hij.
      change (map seg_key (db_segments s)) with (seg_key <$> db_segments s) in Hij.
      rewrite !list_lookup_fmap, Hi, Hj in Hij. cbn in Hij. rewrite Hkx, Hk in Hij.
      specialize (Hij eq_refl eq_refl). subst. congruence. }
    split; [|split; [done|split; [done|split; [done|split; [done|split]]]]].
    + intros x Hx Hkx. apply list_elem_of_fmap in Hx as (y & -> & Hy).
      case_bool_decide as Hky; [|done]. by rewrite (Huniq y Hy Hky).
    + by rewrite length_map.
    + intros x Hx Hkx. apply list_elem_of_fmap in Hx as (y & -> & Hy).
      case_bool_decide as Hky; [|done]. cbn. by rewrite (Huniq y Hy Hky).
  - unfold recording_exists. rewrite bool_decide_eq_true_2 by done. cbn [negb].
    rewrite bool_decide_eq_false_2 by done. eexists _, _. split; [reflexivity|]. cbn [db_segments set_segments].
    split; [|do 4 (split; [done|]); rewrite length_app; cbn; lia].
    intros x [Hx|Hx%list_elem_of_singleton]%elem_of_app Hkx; [|by rewrite Hx].
    rewrite find_first_None in E. specialize (E x Hx). by bool_to_prop.
Qed.

(** Reading the schedule never fails on bad data.  Whatever the settings
    row holds, the result is a well-formed schedule, the default one when the
    row is absent or unreadable, and the database is unchanged. *)
Theorem processing_schedule_total `{SerdeJson ProcessingSchedule} utc s :
  (forall v p, from_value v = Ok p ->
     Forall (fun d => 0 <= day_start d /\ 0 <= day_end d) (sched_days p) /\ 0 <= sched_grace_minutes p) ->
  exists p, processing_schedule utc s = (Ok p, s) /\ wf_schedule p /\
    match db_settings s !! SETTING_KEY with
    | None => sched_enabled p = false
    | Some v => match from_value v with
                | Ok _ => True
                | Err _ => p = ProcessingSchedule.normalize utc ProcessingSchedule.default
                end
    end.
Proof.
  intros Hser. unfold processing_schedule, get_setting. rewrite bind_query.
  eexists. split; [reflexivity|].
  assert (Hd : wf_schedule (ProcessingSchedule.normalize utc ProcessingSchedule.default))
    by (apply normalize_wf; [repeat constructor; cbn; lia|cbn; lia]).
  destruct (db_settings s !! SETTING_KEY) as [v|]; [|done].
  destruct (from_value v) as [p|] eqn:E; [|done]. split; [|done].
  by apply normalize_wf; apply (Hser v p E).
Qed.

(** The schedule that was saved is the one read back, normalized, as long as
    [serde] reads what it wrote and the override has not lapsed in between. *)
Theorem schedule_roundtrip `{SerdeJson ProcessingSchedule} utc utc' p s :
  let q := ProcessingSchedule.normalize utc p in
  from_value (to_value q) = Ok q -> ProcessingSchedule.normalize utc' q = q ->
  exists s', set_processing_schedule utc p s = (Ok q, s') /\ processing_schedule utc' s' = (Ok q, s').
Proof.
  cbn zeta. intros Hser Hn. eexists. split; [reflexivity|]. unfold processing_schedule, get_setting.
  rewrite bind_query. cbn. rewrite lookup_insert_eq, Hser, Hn. done.
Qed.

(** *** Witnesses *)

Definition plain_uuid : UuidFmt := fun _ => "u".

(** A codec that knows one document, the empty one, for the default schedule. *)
Definition default_codec : SerdeJson ProcessingSchedule := {|
  to_value _ := JObject [];
  from_value v := match v with
    | JObject [] => Ok (ProcessingSchedule.normalize 0 ProcessingSchedule.default)
    | _ => Err "unreadable"
    end;
|}.

Lemma schema_always_witness :
  schema_ok (snd (@create_recording 1 None None None None None (empty_db 0))).
Proof.
  apply (@schema_always plain_uuid ascii_case default_codec 0).
  eapply rtc_l; [|apply rtc_refl]. apply step_op, op_create_recording.
Defined.

Lemma normalize_tags_spec_witness :
  @normalize_tags ascii_case ["  Work "; "work"; " "; "Q3"] = ["work"; "q3"] /\
  NoDup (@normalize_tags ascii_case ["  Work "; "work"; " "; "Q3"]).
Proof.
  split; [vm_compute; reflexivity|].
  apply (@normalize_tags_spec ascii_case ascii_case_laws).
Defined.

Lemma delete_recording_spec_witness :
  exists s', @delete_recording plain_uuid 1 sample_running = (Ok tt, s') /\ db_recordings s' = ∅.
Proof.
  destruct (@delete_recording_spec plain_uuid 1 sample_running sample_running_schema)
    as (s' & Heq & Hrec & _). exists s'. split; [rewrite Heq; reflexivity|].
  rewrite Hrec. vm_compute. reflexivity.
Defined.

Lemma insert_segment_spec_witness :
  exists g s', insert_segment 7 1 0 "k" None None None None sample_db = (Ok g, s') /\ seg_id g = 7%N.
Proof.
  destruct (insert_segment_spec 7 1 0 "k" None None None None sample_db sample_schema)
    as (g & s' & Heq & _ & _ & _ & _ & Hid & _).
  - by exists sample_recording.
  - vm_compute. intros H. inversion H.
  - exists g, s'. split; [exact Heq|exact Hid].
Defined.

Lemma processing_schedule_total_witness :
  exists p, @processing_schedule default_codec 0 sample_db = (Ok p, sample_db) /\ wf_schedule p.
Proof.
  destruct (@processing_schedule_total default_codec 0 sample_db) as (p & Heq & Hwf & _).
  - intros v p Hv. assert (p = ProcessingSchedule.normalize 0 ProcessingSchedule.default) as ->.
    { cbn in Hv. destruct v as [| | | | |[|]]; try discriminate. by injection Hv. }
    destruct (normalize_wf 0 ProcessingSchedule.default) as (_ & Hd & Hg);
      [repeat constructor; cbn; lia|cbn; lia|].
    split; [|lia]. eapply Forall_impl; [exact Hd|]. unfold wf_day. lia.
  - exists p. split; [exact Heq|exact Hwf].
Defined.

Lemma schedule_roundtrip_witness :
  exists s', @set_processing_schedule default_codec 0 ProcessingSchedule.default sample_db =
      (Ok (ProcessingSchedule.normalize 0 ProcessingSchedule.default), s') /\
    @processing_schedule default_codec 5 s' = (Ok (ProcessingSchedule.normalize 0 ProcessingSchedule.default), s').
Proof.
  apply (@schedule_roundtrip default_codec 0 5 ProcessingSchedule.default sample_db); reflexivity.
Defined.
