(* ===== verification/Worker.v ===== *)
(** * The worker: [crates/scribe-pipeline/src/worker.rs] and [gate.rs]

    What a stage does to the database happens before [process_job] learns its
    outcome; [Pipeline.run_stage] is the stages themselves.  Durations are whole seconds,
    monotonic instants ([std::time::Instant]) nanoseconds. *)

From Stdlib Require Import String.
From S2P Require Import Prelude RustStr Types Schedule Db DbSchema Queue Store.

Definition WINDOW_CHECK_INTERVAL : Z := 30.
Definition PAUSED_POLL_MAX : Z := 15.
Definition MIN_DEFER : Z := 60.
Definition FALLBACK_DEFER : Z := 3600.
Definition CACHE_TTL : Z := 5.

(** The fields of [Config] the worker reads. *)
Record WorkerConfig := mkWorkerConfig {
  cfg_heartbeat_secs : Z; cfg_poll_secs : Z; cfg_max_attempts : Z;
  cfg_summary_template : string; cfg_stages : list JobKind;
}.

(** [v.get("template").and_then(Value::as_str).map(str::trim).filter(nonempty)] *)
Definition summarize_template (cfg : WorkerConfig) (payload : Json) : string :=
  let from_payload := json_get payload "template" ≫= json_as_str in
  match trim <$> from_payload with
  | Some t => if is_empty t then
      (let c := trim (cfg_summary_template cfg) in
       if is_empty c then summary_template.DEFAULT_TEMPLATE_ID else c)
      else t
  | None =>
      let c := trim (cfg_summary_template cfg) in
      if is_empty c then summary_template.DEFAULT_TEMPLATE_ID else c
  end.

(** ** The schedule gate *)

Record GateState := mkGate {
  gate_cached : option (Z * ProcessingSchedule);
  gate_last_logged : option bool;
}.

Definition gate_invalidate (g : GateState) : GateState := mkGate None (gate_last_logged g).

(** [schedule]: [read] is what [db.processing_schedule()] answers now. *)
Definition gate_schedule (now : Z) (read : result Error ProcessingSchedule) (g : GateState)
    : ProcessingSchedule * GateState :=
  let refresh :=
    match read with
    | Ok sched => (sched, mkGate (Some (now, sched)) (gate_last_logged g))
    | Err _ => (match gate_cached g with Some (_, s) => s | None => ProcessingSchedule.default end, g)
    end in
  match gate_cached g with
  | Some (at_, sched) => if now - at_ <? CACHE_TTL * NANOS_PER_SEC then (sched, g) else refresh
  | None => refresh
  end.

Definition gate_decide `{Calendar} (now : Z) (read : result Error ProcessingSchedule)
    (now_local now_utc : Instant) (g : GateState) : ScheduleDecision * GateState :=
  let '(sched, g) := gate_schedule now read g in
  let decision := ProcessingSchedule.decide sched now_local now_utc in
  (decision, mkGate (gate_cached g) (Some (dec_allowed decision))).

(** ** Claiming *)

Definition idle_wait (poll : Z) (allowed : bool) : Z :=
  if allowed then poll else Z.min poll PAUSED_POLL_MAX.

(** The claim of one iteration of [run_worker]'s loop, under this decision. *)
Definition claim_iteration (cfg : WorkerConfig) (locked : list Z) (worker_id : string)
    (decision : ScheduleDecision) : DbM (option Job) :=
  Queue.claim_one locked worker_id (ProcessingSchedule.claimable_kinds (cfg_stages cfg) decision).

(** ** Watching the window *)

Inductive StageOutcome :=
| Finished (r : result Error unit)
| WindowClosed (retry_in : Z).

Definition retry_delay (d : ScheduleDecision) : Z :=
  match dec_next_change_secs d with
  | Some secs => if 0 <? secs then Z.max secs MIN_DEFER else FALLBACK_DEFER
  | None => FALLBACK_DEFER
  end.

(** What the [select!] sees next: the stage's result, or the check timer, with
    the monotonic clock and the decision then taken on the schedule. *)
Inductive watch_event :=
| StageDone (r : result Error unit)
| WindowCheck (at_ : Z) (grace_minutes : Z) (d : ScheduleDecision).

Definition grace_nanos (grace_minutes : Z) : Z := grace_minutes * 60 * NANOS_PER_SEC.

(** The loop of [run_stage_within_window]; [None]: it is still waiting. *)
Fixpoint watch (closed_since : option Z) (events : list watch_event) : option StageOutcome :=
  match events with
  | [] => None
  | StageDone r :: _ => Some (Finished r)
  | WindowCheck at_ grace d :: rest =>
      if dec_allowed d then watch None rest
      else
        let since := default at_ closed_since in
        if grace_nanos grace <=? at_ - since then Some (WindowClosed (retry_delay d))
        else watch (Some since) rest
  end.

(** A stage that bypasses the schedule is simply awaited. *)
Definition run_stage_within_window (kind : JobKind) (events : list watch_event) : option StageOutcome :=
  if JobKind.bypasses_schedule kind then
    Finished <$> head (omap (fun e => match e with StageDone r => Some r | WindowCheck _ _ _ => None end) events)
  else watch None events.

(** ** Finishing a job *)

Section finishing.
Context `{UuidFmt}.

Definition embed_and_summarize_done (recording_id : Uuid) : DbM bool := query (fun s =>
  Z.of_nat (length (Queue.done_kinds recording_id [Embed; Summarize] (db_jobs s))) =? 2).

Definition maybe_mark_ready (recording_id : Uuid) : DbM unit :=
  both ← embed_and_summarize_done recording_id;
  if (both : bool) then set_recording_status recording_id Ready else mret tt.

Definition empty_payload : Json := JObject [].

(** One turn of the loop of [enqueue_successors]. *)
Definition enqueue_if_ready (recording_id : Uuid) (succ : JobKind) : DbM unit :=
  ready ← Queue.predecessors_done recording_id succ;
  if (ready : bool) then _ ← Queue.enqueue recording_id succ empty_payload; mret tt
  else mret tt.

Definition enqueue_successors (kind : JobKind) (recording_id : Uuid) : DbM unit :=
  mfor (JobKind.successors kind) (enqueue_if_ready recording_id).

Definition is_terminal (k : JobKind) : bool := match k with Embed | Summarize => true | _ => false end.

(** The self-drain of live transcription. *)
Definition requeue_live (recording_id : Uuid) : DbM unit :=
  rec ← get_recording recording_id;
  if bool_decide (rec_status rec = Uploading) then
    n ← count_untranscribed_segments recording_id;
    if 0 <? n then _ ← Queue.enqueue recording_id TranscribeSegment empty_payload; mret tt
    else mret tt
  else mret tt.

(** [process_job] from the outcome of the stage on. *)
Definition process_job (cfg : WorkerConfig) (job : Job) (outcome : StageOutcome) : DbM unit :=
  match job_recording_id job with
  | None => Queue.complete (job_id job)
  | Some recording_id =>
      match outcome with
      | WindowClosed retry_in => Queue.defer (job_id job) WINDOW_CLOSED retry_in
      | Finished (Ok _) =>
          _ ← Queue.complete (job_id job);
          _ ← enqueue_successors (job_kind job) recording_id;
          _ ← (if is_terminal (job_kind job) then maybe_mark_ready recording_id else mret tt);
          if bool_decide (job_kind job = TranscribeSegment) then requeue_live recording_id else mret tt
      | Finished (Err e) =>
          requeued ← Queue.fail (job_id job) (Error.to_string e) (cfg_max_attempts cfg)
            (Z.max (cfg_poll_secs cfg) 1);
          if negb requeued
          then ignore_err (set_recording_status recording_id RecFailed)
          else mret tt
      end
  end.

(** One tick of the reaper's task. *)
Definition reaper_tick (cfg : WorkerConfig) : DbM unit :=
  let heartbeat := Z.max (cfg_heartbeat_secs cfg) 1 in
  reaped ← Queue.reap_stuck (heartbeat * 3) (cfg_max_attempts cfg);
  mfor (bfilter reaped_exhausted reaped) (fun job =>
    match reaped_recording_id job with
    | None => mret tt
    | Some recording_id => ignore_err (set_recording_status recording_id RecFailed)
    end).

End finishing.
