(* ===== verification/WorkerProps.v ===== *)
(** * What the worker promises

    The grace period of a closing window, the successors of a finished stage
    under every interleaving of workers, what a crash can lose, and the
    outcomes of [process_job]. *)

From Stdlib Require Import String.
From S2P Require Import Prelude RustStr Types Schedule Db DbSchema Queue QueueSteps Store StoreProps Worker.

(** ** Definitions *)

Definition is_check (e : watch_event) : Prop :=
  match e with WindowCheck _ _ _ => True | StageDone _ => False end.
Definition is_closed (e : watch_event) : Prop :=
  match e with WindowCheck _ _ d => dec_allowed d = false | StageDone _ => False end.
Definition not_after (t : Z) (e : watch_event) : Prop :=
  match e with WindowCheck at_ _ _ => at_ <= t | StageDone _ => True end.

Definition has_job (s : Db) (r : Uuid) (k : JobKind) : Prop :=
  exists j, j ∈ db_jobs s /\ job_recording_id j = Some r /\ job_kind j = k.
Definition done_job (s : Db) (r : Uuid) (k : JobKind) : Prop :=
  exists j, j ∈ db_jobs s /\ job_recording_id j = Some r /\ job_kind j = k /\ job_state j = Done.

(** What a worker still has to do after [complete]: the loop of
    [enqueue_successors], at the gate of its next successor or past it. *)
Inductive task :=
| TCheck (r : Uuid) (ks : list JobKind)
| TEnqueue (r : Uuid) (k : JobKind) (ks : list JobKind).

Definition will_check (r : Uuid) (k : JobKind) (t : task) : Prop :=
  match t with
  | TCheck r' ks => r' = r /\ k ∈ ks
  | TEnqueue r' k' ks => r' = r /\ (k = k' \/ k ∈ ks)
  end.

Definition quiet (e : event) : Prop :=
  match e with EComplete _ | EDelete => False | _ => True end.

(** Any number of workers, one statement at a time: whatever the queue does,
    a job completed, a gate read, a successor enqueued, a loop finished. *)
Inductive pstep (m : Z) : Db * list task -> Db * list task -> Prop :=
| p_queue e s s' ts : queue_step m s e s' -> quiet e -> pstep m (s, ts) (s', ts)
| p_complete i j r s s' ts1 ts2 :
    job_of s i = Some j -> job_recording_id j = Some r -> Queue.complete i s = (Ok tt, s') ->
    pstep m (s, ts1 ++ ts2) (s', ts1 ++ TCheck r (JobKind.successors (job_kind j)) :: ts2)
| p_complete_bare i j s s' ts :
    job_of s i = Some j -> job_recording_id j = None -> Queue.complete i s = (Ok tt, s') -> pstep m (s, ts) (s', ts)
| p_check_yes r k ks s ts1 ts2 :
    Queue.predecessors_done r k s = (Ok true, s) ->
    pstep m (s, ts1 ++ TCheck r (k :: ks) :: ts2) (s, ts1 ++ TEnqueue r k ks :: ts2)
| p_check_no r k ks s ts1 ts2 :
    Queue.predecessors_done r k s = (Ok false, s) ->
    pstep m (s, ts1 ++ TCheck r (k :: ks) :: ts2) (s, ts1 ++ TCheck r ks :: ts2)
| p_enqueue r k ks j s s' ts1 ts2 :
    Queue.enqueue r k empty_payload s = (Ok j, s') ->
    pstep m (s, ts1 ++ TEnqueue r k ks :: ts2) (s', ts1 ++ TCheck r ks :: ts2)
| p_finish r s ts1 ts2 : pstep m (s, ts1 ++ TCheck r [] :: ts2) (s, ts1 ++ ts2).

(** No stage whose predecessors are done has been forgotten. *)
Definition not_forgotten (st : Db * list task) : Prop :=
  forall r k, JobKind.predecessors k <> [] ->
    (forall p, p ∈ JobKind.predecessors k -> done_job (fst st) r p) ->
    has_job (fst st) r k \/ exists t, t ∈ snd st /\ will_check r k t.

(** What workers that find nothing to do go on doing. *)
Definition idle_event (e : event) : Prop :=
  match e with EClaim _ _ | EHeartbeat _ | EReap _ _ | ETick => True | _ => False end.

(** ** The grace period *)

Lemma watch_closed_since since events d :
  watch (Some since) events = Some (WindowClosed d) ->
  (exists closed post t g dn, events = closed ++ WindowCheck t g dn :: post /\
     Forall is_closed closed /\ dec_allowed dn = false /\
     grace_nanos g <= t - since /\ d = retry_delay dn) \/
  (exists closed t g dn rest, events = closed ++ WindowCheck t g dn :: rest /\ dec_allowed dn = true /\
     Forall is_closed closed /\ watch None rest = Some (WindowClosed d)).
Proof.
  induction events as [|[r|t g dn] events IH]; cbn; [done|done|].
  destruct (dec_allowed dn) eqn:Ha.
  - intros Hw. right. exists [], t, g, dn, events. by repeat constructor.
  - destruct (_ <=? _) eqn:E; bool_to_prop.
    + intros [= <-]. left. exists [], events, t, g, dn. by repeat constructor.
    + intros [(cl & post & t' & g' & d' & -> & Hc & Hrest)|(cl & t' & g' & d' & rest & -> & Hal & Hc & Hrest)]%IH.
      * left. exists (WindowCheck t g dn :: cl), post, t', g', d'. split; [done|]. split; [by constructor|done].
      * right. exists (WindowCheck t g dn :: cl), t', g', d', rest. split; [done|]. split; [done|].
        split; [by constructor|done].
Qed.

Lemma retry_delay_min d : MIN_DEFER <= retry_delay d.
Proof.
  unfold retry_delay, MIN_DEFER, FALLBACK_DEFER. destruct (dec_next_change_secs d) as [n|]; [|lia].
  destruct (0 <? n); lia.
Qed.

Lemma closed_is_check l : Forall is_closed l -> Forall is_check l.
Proof. intros Hl. eapply Forall_impl; [exact Hl|]. by intros []. Qed.

(** A verdict [WindowClosed] means a continuous overrun of at least the grace. *)
Lemma watch_closed_sound events d :
  watch None events = Some (WindowClosed d) ->
  exists pre t0 g0 d0 closed t g dn post,
    Forall is_check pre /\ Forall is_closed (WindowCheck t0 g0 d0 :: closed) /\
    events = pre ++ WindowCheck t0 g0 d0 :: closed ++ post /\
    last (WindowCheck t0 g0 d0 :: closed) = Some (WindowCheck t g dn) /\
    grace_nanos g <= t - t0 /\ d = retry_delay dn.
Proof.
  remember (length events) as n eqn:Hn. revert events Hn.
  induction (lt_wf n) as [n _ IH]. intros [|[r|t g dn] events] Hn; cbn; [done|done|].
  destruct (dec_allowed dn) eqn:Ha.
  - intros Hw. destruct (IH (length events) ltac:(cbn in *; lia) events eq_refl Hw)
      as (pre & t0 & g0 & d0 & cl & t' & g' & d' & post & Hp & Hc & -> & Hrest).
    exists (WindowCheck t g dn :: pre), t0, g0, d0, cl, t', g', d', post.
    split; [by constructor|done].
  - destruct (_ <=? _) eqn:E; bool_to_prop.
    + intros [= <-]. exists [], t, g, dn, [], t, g, dn, events. repeat split; try constructor; done.
    + intros [(cl & post & t' & g' & d' & -> & Hc & Hal & Hrest)|(cl & t' & g' & d' & rest & -> & Hal & Hc & Hw)]%watch_closed_since.
      * exists [], t, g, dn, (cl ++ [WindowCheck t' g' d']), t', g', d', post.
        split; [done|]. split; [constructor; [done|apply Forall_app; by repeat constructor]|].
        split; [by rewrite <- app_assoc|]. split; [by rewrite app_comm_cons, last_snoc|done].
      * destruct (IH (length rest) ltac:(subst n; cbn; rewrite length_app; cbn; lia) rest eq_refl Hw)
          as (pre & t0 & g0 & d0 & cl' & t'' & g'' & d'' & post & Hp & Hc' & -> & Hrest).
        exists (WindowCheck t g dn :: cl ++ WindowCheck t' g' d' :: pre), t0, g0, d0, cl', t'', g'', d'', post.
        split; [constructor; [done|apply Forall_app; split; [by apply closed_is_check|by constructor]]|].
        split; [done|]. split; [|done]. cbn. by rewrite <- app_assoc.
Qed.

Lemma watch_closed_last since closed t0 t g dn post :
  Forall is_closed closed -> dec_allowed dn = false -> default t0 since <= t0 ->
  grace_nanos g <= t - t0 ->
  (since = None -> match head closed with Some (WindowCheck t' _ _) => t' <= t0
                   | Some (StageDone _) => False | None => t <= t0 end) ->
  exists d, watch since (closed ++ WindowCheck t g dn :: post) = Some (WindowClosed d).
Proof.
  revert since. induction closed as [|[r|t' g' d'] closed IH]; intros since Hc Hd Hs Hg Hn; cbn.
  - rewrite Hd. assert (default t since <= t0) by (destruct since; [done|by apply Hn]).
    rewrite (proj2 (Z.leb_le _ _)) by lia. eauto.
  - inversion Hc as [|? ? Hx]; done.
  - inversion Hc as [|? ? Hcl Hc']; subst. cbn in Hcl. rewrite Hcl.
    destruct (_ <=? _); [eauto|]. apply IH; [done|done| |done|done]. cbn.
    destruct since; [done|by apply Hn].
Qed.

Lemma watch_closed_complete since pre t0 g0 d0 closed t g dn post :
  Forall is_check pre -> Forall (not_after t0) pre -> default t0 since <= t0 ->
  Forall is_closed (WindowCheck t0 g0 d0 :: closed) ->
  last (WindowCheck t0 g0 d0 :: closed) = Some (WindowCheck t g dn) ->
  grace_nanos g <= t - t0 ->
  exists d, watch since (pre ++ (WindowCheck t0 g0 d0 :: closed) ++ post) = Some (WindowClosed d).
Proof.
  revert since. induction pre as [|[r|t' g' d'] pre IH]; intros since Hp Hna Hs Hc Hl Hg.
  - cbn [app]. destruct (exists_last (l := WindowCheck t0 g0 d0 :: closed)) as (l & x & Heq); [done|].
    rewrite Heq in Hc, Hl. rewrite last_snoc in Hl. injection Hl as ->.
    apply Forall_app in Hc as [Hcl Hd]. apply Forall_cons in Hd as [Hd _].
    change (WindowCheck t0 g0 d0 :: closed ++ post) with ((WindowCheck t0 g0 d0 :: closed) ++ post).
    rewrite Heq, <- app_assoc. apply (watch_closed_last since l t0); try done.
    intros ->. destruct l as [|y l]; cbn in *; simplify_eq; lia.
  - by inversion Hp.
  - inversion Hp; inversion Hna as [|? ? Ht]; subst. cbn [app watch].
    destruct (dec_allowed d'); [by apply IH|]. destruct (_ <=? _); [eauto|].
    apply IH; try done. cbn. destruct since; [done|exact Ht].
Qed.

(** C19: a closing window interrupts a stage only after the grace period, and
    then always.  A stage that is put down had its window closed at every
    check of a continuous stretch at least [grace_minutes] long, ending with
    the check that gave up, and is retried no sooner than a minute later; and a
    stage still running through such a stretch is put down by its end, whatever
    happened at the checks before it. *)
Theorem watch_grace events :
  (forall d, watch None events = Some (WindowClosed d) ->
     MIN_DEFER <= d /\
     exists pre t0 g0 d0 closed t g dn post,
       Forall is_check pre /\ Forall is_closed (WindowCheck t0 g0 d0 :: closed) /\
       events = pre ++ WindowCheck t0 g0 d0 :: closed ++ post /\
       last (WindowCheck t0 g0 d0 :: closed) = Some (WindowCheck t g dn) /\
       grace_nanos g <= t - t0 /\ d = retry_delay dn) /\
  (forall pre t0 g0 d0 closed t g dn post,
     events = pre ++ (WindowCheck t0 g0 d0 :: closed) ++ post ->
     Forall is_check pre -> Forall (not_after t0) pre ->
     Forall is_closed (WindowCheck t0 g0 d0 :: closed) ->
     last (WindowCheck t0 g0 d0 :: closed) = Some (WindowCheck t g dn) ->
     grace_nanos g <= t - t0 ->
     exists d, watch None events = Some (WindowClosed d)).
Proof.
  split.
  - intros d Hw. apply watch_closed_sound in Hw as Hs. split; [|done].
    destruct Hs as (? & ? & ? & ? & ? & ? & ? & ? & ? & _ & _ & _ & _ & _ & ->). apply retry_delay_min.
  - intros pre t0 g0 d0 closed t g dn post -> Hp Hna Hc Hl Hg. by eapply watch_closed_complete.
Qed.

(** ** Successors *)

(** Every job is still there, with its recording and its kind. *)
Definition kept (s s' : Db) : Prop :=
  forall j, j ∈ db_jobs s -> exists j', j' ∈ db_jobs s' /\ job_id j' = job_id j /\
    job_recording_id j' = job_recording_id j /\ job_kind j' = job_kind j.

#[export] Instance kept_preorder : PreOrder kept.
Proof.
  split; [intros s j Hj; by exists j|]. intros a b c Hab Hbc j Hj. destruct (Hab j Hj) as (j1 & Hj1 & E1 & E2 & E3).
  destruct (Hbc j1 Hj1) as (j2 & Hj2 & F1 & F2 & F3). exists j2. split; [done|]. split; [|split]; congruence.
Qed.

Lemma kept_has_job s s' r k : kept s s' -> has_job s r k -> has_job s' r k.
Proof. intros Hk (j & Hj & Hr & Hkd). destruct (Hk j Hj) as (j' & ? & _ & Hr' & Hk'). exists j'. by rewrite Hr', Hk'. Qed.

Lemma kept_same s s' : db_jobs s' = db_jobs s -> kept s s'.
Proof. intros Hj j Hin. exists j. by rewrite Hj. Qed.

Lemma update_kept p set s : KeepsKey set -> kept s (snd (update_jobs p set s)).
Proof.
  intros Hk j Hj. destruct (update_jobs p set s) as [r s'] eqn:E. cbn.
  apply update_jobs_cases in E as (_ & _ & [[_ ->]|Hmap]); [eauto|].
  exists (updated p set (db_now s) j). rewrite Hmap. split; [by apply list_elem_of_fmap_2|].
  unfold updated. destruct (p j); [|done]. destruct (Hk j) as (? & ? & ?). done.
Qed.

Lemma fail_kept i e m b n s : kept s (snd (Queue.record_failure i e m b n s)).
Proof. rewrite record_failure_unfold, (update_then_state _ _ (fun _ => _)). apply update_kept, _. Qed.

Lemma claim_kept locked w kinds s : kept s (snd (Queue.claim_one locked w kinds s)).
Proof.
  unfold Queue.claim_one. case_bool_decide; [done|]. rewrite bind_now, bind_query.
  destruct (Queue.next_claim _ _ _); [|done]. rewrite (update_then_state _ _ head). apply update_kept, _.
Qed.

Lemma enqueue_keeps_jobs r k pl pr s :
  db_jobs s ⊆ db_jobs (snd (Queue.enqueue_with_priority r k pl pr s)).
Proof.
  rewrite enqueue_state. destruct (insert_job_state r k pl pr s) as (_ & _ & [-> | ->]); set_solver.
Qed.

Lemma enqueue_recordings r k pl pr s :
  db_recordings (snd (Queue.enqueue_with_priority r k pl pr s)) = db_recordings s.
Proof.
  rewrite enqueue_state. unfold Queue.insert_job. cbn zeta. case_bool_decide; [done|].
  by destruct (negb _).
Qed.

Lemma enqueue_has_job r k pl pr s j s' :
  Queue.enqueue_with_priority r k pl pr s = (Ok j, s') -> has_job s' r k.
Proof.
  intros He. pose proof (enqueue_state r k pl pr s) as Hst. rewrite He in Hst. cbn in Hst.
  revert He. unfold Queue.enqueue_with_priority. unfold mbind, M_bind, Queue.insert_job in *. cbn zeta in *.
  case_bool_decide as Hlive; cbn in Hst.
  - intros _. apply list_elem_of_omap in Hlive as (x & Hx & Hk). exists x. rewrite Hst. split; [done|].
    unfold live_key in Hk. destruct (job_live x); [|done]. destruct (job_recording_id x); [|done].
    cbn in Hk. by simplify_eq.
  - destruct (negb _); [done|]. intros _. cbn in Hst. rewrite Hst. cbn.
    exists (Queue.new_job s r k pl pr). split; [set_solver|done].
Qed.

(** No quiet step removes a job or finishes one. *)
Lemma quiet_kept m s e s' : queue_step m s e s' -> quiet e -> kept s s'.
Proof.
  intros Hstep Hq.
  destruct Hstep as [r' k' pl pr|locked w kinds j s' Hc|i w|i|i err b n|i note d|older rs s' Hr|p|id|d Hd|s' Hs' Hj Hn Ht];
    cbn in Hq; try done.
  - intros j Hj. exists j. split; [|done]. by apply enqueue_keeps_jobs.
  - change s' with (snd (Ok (E:=Error) (Some j), s')). rewrite <- Hc. apply claim_kept.
  - unfold Queue.heartbeat. rewrite bind_now, (update_then_state _ _ (fun rows => 0 <? count rows)). apply update_kept, _.
  - apply fail_kept.
  - unfold Queue.defer. rewrite bind_now, (update_then_state _ _ (fun _ => tt)). apply update_kept, _.
  - change s' with (snd (Ok (E:=Error) rs, s')). rewrite <- Hr. unfold Queue.reap_stuck.
    rewrite bind_now, (update_then_state _ _ (map _)). apply update_kept, _.
  - by apply kept_same.
  - by apply kept_same.
Qed.
Lemma quiet_has_job m s e s' r k : queue_step m s e s' -> quiet e -> has_job s r k -> has_job s' r k.
Proof. intros Hstep Hq. by eapply kept_has_job, quiet_kept. Qed.

Lemma quiet_done_job m s e s' r k : schema_ok s -> queue_step m s e s' -> quiet e -> done_job s' r k -> done_job s r k.
Proof.
  intros Hs Hstep Hq (j' & Hj' & Hr & Hk & Hd).
  destruct (step_rows m s e s' Hs Hstep) as (_ & _ & _ & Hrows).
  destruct (Hrows j' Hj') as [Hin|? ? _ _ Hst _ _ _|j w _ Hin _ _ ->|j Hin Hrun _ ->
    |j -> Hin ->|j err b n _ Hin ->|j note d _ Hin ->|j older ids _ _ Hin _ ->]; cbn in *; try done.
  - by exists j'.
  - congruence.
  - congruence.
  - unfold failed_job in Hd. by destruct (_ <? m).
  - by destruct (m <=? _).
Qed.

(** Completing one job makes at most its own stage done. *)
Lemma complete_jobs i s s' : schema_ok s -> Queue.complete i s = (Ok tt, s') ->
  schema_ok s' /\ kept s s' /\
  (forall r k, done_job s' r k -> done_job s r k \/
     exists j, job_of s i = Some j /\ job_recording_id j = Some r /\ job_kind j = k).
Proof.
  intros Hs Hc. pose proof (complete_schema i s Hs) as Hs'. rewrite Hc in Hs'. split; [done|].
  destruct (complete_eq i s Hs) as (s1 & Heq & _ & _ & _ & Hjobs). rewrite Heq in Hc. injection Hc as ->.
  split.
  - intros j Hj. exists (updated (fun j => job_id j =? i) completed (db_now s) j). rewrite Hjobs.
    split; [by apply list_elem_of_fmap_2|]. unfold updated. by destruct (job_id j =? i).
  - intros r k (j' & Hj' & Hr & Hk & Hd). rewrite Hjobs in Hj'.
    apply elem_updated in Hj' as (j & Hj & [[Hp ->]|[_ ->]]); [right|left; by exists j].
    apply Z.eqb_eq in Hp as <-. exists j. split; [by apply job_of_elem|done].
Qed.

Lemma pstep_invariant m st st' :
  pstep m st st' -> schema_ok (fst st) -> not_forgotten st -> schema_ok (fst st') /\ not_forgotten st'.
Proof.
  destruct 1 as [e s s' ts Hstep Hq|i j r s s' ts1 ts2 Hj Hr Hc|i j s s' ts Hj Hr Hc|r k ks s ts1 ts2 Hp|r k ks s ts1 ts2 Hp
    |r k ks j s s' ts1 ts2 He|r s ts1 ts2]; cbn; intros Hs Hinv.
  - split; [by eapply step_rows|]. intros r k Hne Hall. cbn in *.
    destruct (Hinv r k Hne) as [Hh|Ht]; [| |by right].
    + intros p Hp. eapply quiet_done_job; eauto.
    + left. by eapply quiet_has_job.
  - destruct (complete_jobs i s s' Hs Hc) as (Hs' & Hhas & Hdone). split; [done|].
    intros r' k Hne Hall. cbn in *.
    destruct (decide (r' = r /\ k ∈ JobKind.successors (job_kind j))) as [[-> Hk]|Hnot].
    { right. exists (TCheck r (JobKind.successors (job_kind j))). split; [set_solver|done]. }
    destruct (Hinv r' k Hne) as [Hh|(t & Ht & Hw)]; [|left; by apply (kept_has_job s)|right; exists t; split; [set_solver|done]].
    intros p Hp. destruct (Hdone r' p (Hall p Hp)) as [?|(j' & Hj' & Hr' & Hk')]; [done|].
    exfalso. apply Hnot. rewrite Hj in Hj'. injection Hj' as <-. split; [congruence|].
    rewrite Hk'. by apply successors_predecessors.
  - destruct (complete_jobs i s s' Hs Hc) as (Hs' & Hhas & Hdone). split; [done|].
    intros r' k Hne Hall. cbn in *. destruct (Hinv r' k Hne) as [Hh|Ht]; [|left; by apply (kept_has_job s)|by right].
    intros p Hp. destruct (Hdone r' p (Hall p Hp)) as [?|(j' & Hj' & Hr' & _)]; [done|]. congruence.
  - split; [done|]. intros r' k' Hne Hall. cbn in *.
    destruct (Hinv r' k' Hne Hall) as [Hh|(t & Ht & Hw)]; [by left|right].
    apply elem_of_app in Ht as [Ht|[->|Ht]%elem_of_cons].
    + exists t. split; [set_solver|done].
    + exists (TEnqueue r k ks). split; [set_solver|]. cbn in *. set_solver.
    + exists t. split; [set_solver|done].
  - split; [done|]. intros r' k' Hne Hall. cbn in *.
    destruct (Hinv r' k' Hne Hall) as [Hh|(t & Ht & Hw)]; [by left|right].
    apply elem_of_app in Ht as [Ht|[->|Ht]%elem_of_cons].
    + exists t. split; [set_solver|done].
    + exists (TCheck r ks). split; [set_solver|]. cbn in *. destruct Hw as [-> Hw]. split; [done|].
      apply elem_of_cons in Hw as [->|?]; [exfalso|done].
      destruct (predecessors_gate r' k s) as (b & Heq & Hb). rewrite Heq in Hp. injection Hp as ->.
      assert (false = true) by (by apply Hb). done.
    + exists t. split; [set_solver|done].
  - pose proof (enqueue_schema r k empty_payload 0 s Hs) as Hs'. unfold Queue.enqueue in He.
    rewrite He in Hs'. cbn in Hs'. split; [done|]. intros r' k' Hne Hall. cbn in *.
    assert (Hstep : queue_step m s (EEnqueue r k) s').
    { pose proof (q_enqueue m s r k empty_payload 0) as Hq. by rewrite He in Hq. }
    destruct (Hinv r' k' Hne) as [Hh|(t & Ht & Hw)].
    + intros p Hp. eapply (quiet_done_job m s _ s' r' p Hs Hstep); [done|auto].
    + left. by eapply (quiet_has_job m).
    + apply elem_of_app in Ht as [Ht|[->|Ht]%elem_of_cons].
      * right. exists t. split; [set_solver|done].
      * cbn in Hw. destruct Hw as [-> [->|Hks]]; [left; by eapply enqueue_has_job|].
        right. exists (TCheck r' ks). split; [set_solver|done].
      * right. exists t. split; [set_solver|done].
  - split; [done|]. intros r' k' Hne Hall. cbn in *.
    destruct (Hinv r' k' Hne Hall) as [Hh|(t & Ht & Hw)]; [by left|right].
    apply elem_of_app in Ht as [Ht|[->|Ht]%elem_of_cons].
    + exists t. split; [set_solver|done].
    + cbn in Hw. destruct Hw as [_ Hw]. inversion Hw.
    + exists t. split; [set_solver|done].
Qed.

Lemma psteps_invariant m st st' :
  rtc (pstep m) st st' -> schema_ok (fst st) -> not_forgotten st -> schema_ok (fst st') /\ not_forgotten st'.
Proof.
  induction 1 as [|x y z Hstep _ IH]; [done|]. intros Hs Hn.
  destruct (pstep_invariant m x y Hstep Hs Hn). by apply IH.
Qed.

Lemma nothing_lost m now s r k :
  rtc (pstep m) (empty_db now, []) (s, []) ->
  JobKind.predecessors k <> [] -> (forall p, p ∈ JobKind.predecessors k -> done_job s r p) ->
  has_job s r k.
Proof.
  intros Hr Hne Hall.
  destruct (psteps_invariant _ _ _ Hr) as [_ Hnf].
  { apply empty_db_schema. }
  { intros r' k' Hne' Hall'. exfalso. destruct (JobKind.predecessors k') as [|p ps]; [done|].
    destruct (Hall' p ltac:(left)) as (j & Hj & _). cbn in Hj. inversion Hj. }
  destruct (Hnf r k Hne Hall) as [|(t & Ht & _)]; [done|]. inversion Ht.
Qed.

(** No stage is lost between workers.  Let any number of workers claim,
    finish, fail, put down and reap jobs of any recordings, their statements
    interleaved in any order; whenever none of them is in the middle of
    enqueueing successors, every stage all of whose predecessors are done has a
    job: of two stages that finish together, one sees the other. *)
Theorem no_successor_lost m now s r k :
  rtc (pstep m) (empty_db now, []) (s, []) ->
  JobKind.predecessors k <> [] -> (forall p, p ∈ JobKind.predecessors k -> done_job s r p) ->
  has_job s r k.
Proof. apply nothing_lost. Qed.

(** ** [enqueue_successors] is those steps, run without interruption *)

Lemma rtc_app m st1 st2 st3 : pstep m st1 st2 -> rtc (pstep m) st2 st3 -> rtc (pstep m) st1 st3.
Proof. apply rtc_l. Qed.

Lemma enqueue_loop_steps m r ks s s' ts :
  mfor ks (enqueue_if_ready r) s = (Ok tt, s') ->
  rtc (pstep m) (s, TCheck r ks :: ts) (s', TCheck r [] :: ts).
Proof.
  revert s. induction ks as [|k ks IH]; intros s; cbn [mfor].
  { intros [= ->]. apply rtc_refl. }
  destruct (enqueue_if_ready r k s) as [[[]|e] s1] eqn:He.
  2: { by rewrite (bind_err _ _ _ _ _ He). }
  rewrite (bind_ok _ _ _ _ _ He). intros Hrest.
  revert He. unfold enqueue_if_ready. destruct (predecessors_gate r k s) as (b & Hb & _).
  rewrite (bind_ok _ _ _ _ _ Hb). destruct b.
  - destruct (Queue.enqueue r k empty_payload s) as [[j|e] s2] eqn:Hq.
    2: { by rewrite (bind_err _ _ _ _ _ Hq). }
    rewrite (bind_ok _ _ _ _ _ Hq). intros [= <-].
    eapply rtc_app; [by apply (p_check_yes m r k ks s [])|].
    eapply rtc_app; [by apply (p_enqueue m r k ks j s s2 [])|]. by apply IH.
  - intros [= <-]. eapply rtc_app; [by apply (p_check_no m r k ks s [])|]. by apply IH.
Qed.

(** Completing a job and enqueueing its successors, as [process_job] does in
    sequence, is a run of the step relation. *)
Lemma complete_then_successors_steps m i j r s s1 s2 ts :
  job_of s i = Some j -> job_recording_id j = Some r ->
  Queue.complete i s = (Ok tt, s1) -> enqueue_successors (job_kind j) r s1 = (Ok tt, s2) ->
  rtc (pstep m) (s, ts) (s2, ts).
Proof.
  intros Hj Hr Hc He. eapply rtc_app; [by apply (p_complete m i j r s s1 [] ts)|].
  etrans; [by apply enqueue_loop_steps|].
  apply rtc_once. apply (p_finish m r s2 [] ts).
Qed.

(** On a schema-respecting database with the recording present the loop cannot
    fail, and leaves a job for every successor whose gate is open. *)
Lemma enqueue_if_ready_ok r k s :
  schema_ok s -> fk s r ->
  exists s', enqueue_if_ready r k s = (Ok tt, s') /\ schema_ok s' /\ fk s' r /\
    db_jobs s ⊆ db_jobs s' /\ (forall p, done_job s' r p -> done_job s r p) /\
    ((forall p, p ∈ JobKind.predecessors k -> done_job s r p) -> has_job s' r k) /\
    db_recordings s' = db_recordings s.
Proof.
  intros Hs Hr. unfold enqueue_if_ready. destruct (predecessors_gate r k s) as (b & Hb & Hiff).
  rewrite (bind_ok _ _ _ _ _ Hb). destruct b.
  - destruct (enqueue_answers r k empty_payload 0 s Hs Hr) as (j & s1 & Heq & _ & _ & Hcase & _).
    pose proof (enqueue_schema r k empty_payload 0 s Hs) as Hs1. rewrite Heq in Hs1. cbn in Hs1.
    pose proof (enqueue_recordings r k empty_payload 0 s) as Hrec. rewrite Heq in Hrec. cbn in Hrec.
    pose proof (enqueue_keeps_jobs r k empty_payload 0 s) as Hsub. rewrite Heq in Hsub. cbn in Hsub.
    fold (Queue.enqueue r k empty_payload) in Heq. exists s1. rewrite (bind_ok _ _ _ _ _ Heq).
    split; [done|]. split; [done|]. split; [unfold fk; by rewrite Hrec|]. split; [done|].
    split; [|split; [intros _; by eapply enqueue_has_job|done]].
    intros p (x & Hx & Hxr & Hxk & Hxd). exists x. split; [|done].
    destruct Hcase as [Hjobs|(_ & -> & Hjobs)]; rewrite Hjobs in Hx; [done|].
    apply elem_of_app in Hx as [Hx| ->%list_elem_of_singleton]; done.
  - exists s. split; [done|]. split; [done|]. split; [done|]. split; [done|]. split; [done|].
    split; [|done]. intros Hall. assert (false = true) by (by apply Hiff). done.
Qed.

Lemma enqueue_successors_ok r ks s :
  schema_ok s -> fk s r ->
  exists s', mfor ks (enqueue_if_ready r) s = (Ok tt, s') /\ schema_ok s' /\ fk s' r /\
    db_jobs s ⊆ db_jobs s' /\ (forall p, done_job s' r p -> done_job s r p) /\
    (forall k, k ∈ ks -> (forall p, p ∈ JobKind.predecessors k -> done_job s r p) -> has_job s' r k) /\
    db_recordings s' = db_recordings s.
Proof.
  revert s. induction ks as [|k ks IH]; intros s Hs Hr; cbn [mfor].
  { exists s. do 5 (split; [done|]). split; [|done]. intros k Hk. inversion Hk. }
  destruct (enqueue_if_ready_ok r k s Hs Hr) as (s1 & Heq & Hs1 & Hr1 & Hsub & Hd & Hk & Hrec).
  destruct (IH s1 Hs1 Hr1) as (s2 & Heq2 & Hs2 & Hr2 & Hsub2 & Hd2 & Hk2 & Hrec2).
  exists s2. rewrite (bind_ok _ _ _ _ _ Heq). split; [done|]. split; [done|]. split; [done|].
  split; [set_solver|]. split; [auto|]. split; [|congruence].
  intros k' [->|Hk']%elem_of_cons Hall.
  - destruct (Hk Hall) as (j & Hj & ?). exists j. split; [by apply Hsub2|done].
  - apply Hk2; [done|]. intros p Hp. destruct (Hall p Hp) as (j & Hj & ?). exists j.
    split; [by apply Hsub|done].
Qed.

Section outcomes.
Context `{UuidFmt}.

Lemma set_status_ok r st s : fk s r -> exists s', set_recording_status r st s = (Ok tt, s') /\
  (exists row, db_recordings s !! r = Some row /\
     db_recordings s' = (<[r := with_status st row]> (db_recordings s))) /\ db_jobs s' = db_jobs s.
Proof.
  intros [row Hrow]. unfold set_recording_status. rewrite update_or_not_found, Hrow. eauto 10.
Qed.
End outcomes.

(** A stage not yet due gets no job from the loop. *)
Lemma enqueue_if_ready_only r k s s' k' : schema_ok s -> fk s r -> enqueue_if_ready r k s = (Ok tt, s') ->
  has_job s' r k' -> has_job s r k' \/ (k' = k /\ forall p, p ∈ JobKind.predecessors k -> done_job s r p).
Proof.
  intros Hs Hr. unfold enqueue_if_ready. destruct (predecessors_gate r k s) as (b & Hb & Hiff).
  rewrite (bind_ok _ _ _ _ _ Hb). destruct b; [|intros [= <-]; by left].
  destruct (enqueue_answers r k empty_payload 0 s Hs Hr) as (j & s1 & Heq & _ & _ & Hcase & _).
  fold (Queue.enqueue r k empty_payload) in Heq. rewrite (bind_ok _ _ _ _ _ Heq). intros [= <-] (x & Hx & Hxr & Hxk).
  destruct Hcase as [Hjobs|(_ & -> & Hjobs)]; rewrite Hjobs in Hx; [left; by exists x|].
  apply elem_of_app in Hx as [Hx| ->%list_elem_of_singleton]; [left; by exists x|right].
  split; [by rewrite <- Hxk|by apply Hiff].
Qed.

Lemma enqueue_successors_only r ks s s' k : schema_ok s -> fk s r -> mfor ks (enqueue_if_ready r) s = (Ok tt, s') ->
  has_job s' r k -> has_job s r k \/ (k ∈ ks /\ forall p, p ∈ JobKind.predecessors k -> done_job s r p).
Proof.
  revert s. induction ks as [|k0 ks IH]; intros s Hs Hr; cbn [mfor]; [intros [= <-]; by left|].
  destruct (enqueue_if_ready_ok r k0 s Hs Hr) as (s1 & Heq & Hs1 & Hr1 & _ & Hd & _).
  rewrite (bind_ok _ _ _ _ _ Heq). intros Hrest Hk.
  destruct (IH s1 Hs1 Hr1 Hrest Hk) as [H1|[Hin Hall]]; [|right; split; [by right|auto]].
  destruct (enqueue_if_ready_only r k0 s s1 k Hs Hr Heq H1) as [?|[-> Hall]]; [by left|right; split; [by left|done]].
Qed.

(** The drain of live transcription. *)
Lemma requeue_live_spec `{UuidFmt} r row s : schema_ok s -> db_recordings s !! r = Some row ->
  let again := rec_status (rr_rec row) = Uploading /\ bfilter untranscribed (segs_of r s) <> [] in
  exists s', requeue_live r s = (Ok tt, s') /\ db_recordings s' = db_recordings s /\
    (db_jobs s' = db_jobs s \/ exists x, db_jobs s' = db_jobs s ++ [x] /\ job_state x = Queued /\ job_kind x = TranscribeSegment) /\
    (again -> exists x, x ∈ db_jobs s' /\ live_key x = Some (r, TranscribeSegment)) /\ (~ again -> s' = s).
Proof.
  intros Hs Hrow again. unfold requeue_live.
  assert (Hg : get_recording r s = (Ok (rr_rec row), s)) by (unfold get_recording; by rewrite Hrow).
  rewrite (bind_ok _ _ _ _ _ Hg). case_bool_decide as Hu; [|exists s; unfold again; do 2 (split; [done|]); split; [by left|naive_solver]].
  unfold count_untranscribed_segments. rewrite bind_query. unfold count.
  destruct (bfilter untranscribed (segs_of r s)) as [|x l] eqn:E; cbn [length].
  { exists s. unfold again. do 2 (split; [done|]). split; [by left|naive_solver]. }
  rewrite (proj2 (Z.ltb_lt _ _)) by lia.
  destruct (enqueue_answers r TranscribeSegment empty_payload 0 s Hs ltac:(by exists row)) as (j & s1 & Heq & Hin & Hkey & Hcase & _).
  pose proof (enqueue_recordings r TranscribeSegment empty_payload 0 s) as Hrec. rewrite Heq in Hrec. cbn in Hrec.
  fold (Queue.enqueue r TranscribeSegment empty_payload) in Heq. exists s1. rewrite (bind_ok _ _ _ _ _ Heq).
  split; [done|]. split; [done|]. split; [destruct Hcase as [?|(_ & -> & ?)]; [by left|right; by eexists]|].
  split; [intros _; by exists j|]. intros Hno. exfalso. by apply Hno.
Qed.

(** The tail of a successful [process_job], for a stage that may be terminal. *)
(** Both last stages of a recording are done. *)
Definition both_done (s : Db) (r : Uuid) : Prop := done_job s r Embed /\ done_job s r Summarize.

Lemma both_done_query r s : exists b, embed_and_summarize_done r s = (Ok b, s) /\ (b = true <-> both_done s r).
Proof.
  eexists. split; [reflexivity|]. rewrite Z.eqb_eq. change 2 with (Z.of_nat (length [Embed; Summarize])).
  rewrite Nat2Z.inj_iff, done_kinds_complete.
  - split; [intros Hall; split; apply Hall; set_solver|].
    intros [? ?] p [->| ->%list_elem_of_singleton]%elem_of_cons; done.
  - repeat constructor; set_solver.
Qed.

Lemma finish_ready `{UuidFmt} k r row s :
  db_recordings s !! r = Some row ->
  exists s' row', (if is_terminal k then maybe_mark_ready r else mret tt) s = (Ok tt, s') /\
    db_jobs s' = db_jobs s /\ db_recordings s' !! r = Some row' /\
    (is_terminal k = true /\ done_job s r Embed /\ done_job s r Summarize ->
       rec_status (rr_rec row') = Ready) /\
    (~ (is_terminal k = true /\ done_job s r Embed /\ done_job s r Summarize) -> row' = row).
Proof.
  intros Hrow. destruct (is_terminal k).
  2: { exists s, row. repeat split; try done. by intros [? _]. }
  destruct (both_done_query r s) as (b & Hb & Hiff). unfold maybe_mark_ready. rewrite (bind_ok _ _ _ _ _ Hb). destruct b.
  - destruct (set_status_ok r Ready s) as (s' & Heq & (row0 & Hr0 & Hrec) & Hjobs); [by exists row|].
    assert (row0 = row) as -> by congruence. exists s', (with_status Ready row).
    split; [done|]. split; [done|]. rewrite Hrec, lookup_insert_eq. split; [done|]. split; [done|].
    intros Hno. exfalso. apply Hno. split; [done|by apply Hiff].
  - exists s, row. repeat split; try done. intros (_ & Hd). by apply Hiff in Hd.
Qed.

(** What [process_job] does between [complete] and the drain. *)
Lemma process_job_until_drain `{UuidFmt} k r row s :
  schema_ok s -> db_recordings s !! r = Some row ->
  exists s' row', (_ ← enqueue_successors k r; if is_terminal k then maybe_mark_ready r else mret tt) s = (Ok tt, s') /\
    db_jobs s ⊆ db_jobs s' /\ (forall p, done_job s' r p <-> done_job s r p) /\
    (forall k', has_job s' r k' <-> has_job s r k' \/ (k' ∈ JobKind.successors k /\ forall p, p ∈ JobKind.predecessors k' -> done_job s r p)) /\
    db_recordings s' !! r = Some row' /\
    let both := is_terminal k = true /\ done_job s r Embed /\ done_job s r Summarize in
    (both -> rec_status (rr_rec row') = Ready) /\ (~ both -> row' = row).
Proof.
  intros Hs Hrow. destruct (enqueue_successors_ok r (JobKind.successors k) s Hs ltac:(by exists row))
    as (s2 & He & Hs2 & Hfk2 & Hsub & Hback & Hsucc & Hrec2).
  pose proof (enqueue_successors_only r (JobKind.successors k) s s2) as Honly.
  fold (enqueue_successors k r) in He. rewrite (bind_ok _ _ _ _ _ He).
  destruct (finish_ready k r row s2) as (s3 & row' & Hm & Hjobs3 & Hrow3 & Hyes & Hno); [by rewrite Hrec2|].
  exists s3, row'. split; [done|]. split; [by rewrite Hjobs3|].
  assert (Hdone : forall p, done_job s2 r p <-> done_job s r p).
  { intros p. split; [apply Hback|]. intros (x & Hx & ?). exists x. split; [by apply Hsub|done]. }
  split; [intros p; rewrite <- Hdone; unfold done_job; by rewrite Hjobs3|]. split.
  - intros k'. unfold has_job at 1. rewrite Hjobs3. fold (has_job s2 r k'). split; [by apply (Honly k' Hs ltac:(by exists row) He)|].
    intros [(x & Hx & ?)|[Hk Hall]]; [exists x; split; [by apply Hsub|done]|by apply Hsucc].
  - split; [done|]. cbn zeta. rewrite <- !Hdone. done.
Qed.

(** C5: What becomes of a job whose stage succeeded, every statement going
    through and nothing in between.  Its row is [done]; a successor gets a job exactly when all its
    predecessors are done (or has one already), and no other stage does; when
    the stage is one of embed and summarize and both are done the recording is
    [ready], and otherwise the recording is untouched; a pass of live
    transcription is followed by another one exactly while the recording is
    uploading and has segments left. *)
Theorem process_job_success `{UuidFmt} cfg j r row s :
  schema_ok s -> job_of s (job_id j) = Some j -> job_recording_id j = Some r -> db_recordings s !! r = Some row ->
  exists s' row', process_job cfg j (Finished (Ok tt)) s = (Ok tt, s') /\ done_job s' r (job_kind j) /\
    db_recordings s' !! r = Some row' /\
    (forall k, k <> TranscribeSegment -> (has_job s' r k <-> has_job s r k \/
       (k ∈ JobKind.successors (job_kind j) /\ forall p, p ∈ JobKind.predecessors k -> done_job s' r p))) /\
    (let both := is_terminal (job_kind j) = true /\ done_job s' r Embed /\ done_job s' r Summarize in
     (both -> rec_status (rr_rec row') = Ready) /\ (~ both -> row' = row)) /\
    (let again := rec_status (rr_rec row) = Uploading /\ bfilter untranscribed (segs_of r s) <> [] in
     job_kind j = TranscribeSegment ->
     (again -> exists x, x ∈ db_jobs s' /\ live_key x = Some (r, TranscribeSegment)) /\
     (~ again -> map job_id (db_jobs s') = map job_id (db_jobs s))).
Proof.
  intros Hs Hj Hr Hrow. unfold process_job. rewrite Hr.
  destruct (complete_eq (job_id j) s Hs) as (s1 & Hc & _ & _ & Hrec1 & Hjobs).
  pose proof (complete_schema (job_id j) s Hs) as Hs1. rewrite Hc in Hs1. cbn in Hs1.
  destruct (complete_jobs (job_id j) s s1 Hs Hc) as (_ & Hkept & _).
  assert (Hhas1 : forall k, has_job s1 r k <-> has_job s r k).
  { intros k. split; [|by apply kept_has_job]. intros (x & Hx & Hxr & Hxk). rewrite Hjobs in Hx.
    apply elem_updated in Hx as (y & Hy & [[_ ->]|[_ ->]]); by exists y. }
  assert (Hdone1 : done_job s1 r (job_kind j)).
  { exists (updated (fun x => job_id x =? job_id j) completed (db_now s) j). rewrite Hjobs.
    pose proof (job_of_Some _ _ _ Hj) as [Hin _]. split; [by apply list_elem_of_fmap_2|].
    unfold updated. by rewrite Z.eqb_refl. }
  destruct (process_job_until_drain (job_kind j) r row s1 Hs1 ltac:(by rewrite Hrec1)) as (s2 & row' & Hmid & Hsub & Hdone & Hhas & Hrow2 & Hready).
  rewrite (bind_ok _ _ _ _ _ Hc), bind_assoc, (bind_ok _ _ _ _ _ Hmid). case_bool_decide as Hlive.
  - rewrite Hlive in Hmid. injection Hmid as <-. assert (row' = row) as -> by (rewrite Hrec1 in Hrow2; congruence).
    destruct (requeue_live_spec r row s1 Hs1 Hrow2) as (s3 & Hq & Hrec3 & Hcase & Hyes & Hno).
    assert (Hsegs : segs_of r s1 = segs_of r s).
    { unfold segs_of. pose proof (f_equal snd Hc) as Hs1'. cbn in Hs1'. rewrite <- Hs1'. unfold Queue.complete.
      rewrite (update_then_state _ _ (fun _ => tt)). unfold update_jobs. by case_bool_decide. }
    rewrite Hsegs in Hyes, Hno. rewrite Hq. exists s3, row. split; [done|].
    assert (Hdone3 : forall p, done_job s3 r p <-> done_job s1 r p).
    { intros p. unfold done_job. destruct Hcase as [-> |(x & -> & Hst & _)]; [done|]. split.
      - intros (y & [Hy| ->%list_elem_of_singleton]%elem_of_app & Hyr & Hyk & Hyd); [by exists y|congruence].
      - intros (y & Hy & ?). exists y. split; [set_solver|done]. }
    split; [by apply Hdone3|]. split; [by rewrite Hrec3|]. split.
    { intros k Hk. rewrite Hlive. cbn [JobKind.successors]. rewrite <- Hhas1. unfold has_job. destruct Hcase as [-> |(x & -> & _ & Hxk)].
      - split; [by left|]. intros [?|[Hin _]]; [done|inversion Hin].
      - split; [|intros [(y & Hy & ?)|[Hin _]]; [exists y; split; [set_solver|done]|inversion Hin]].
        intros (y & [Hy| ->%list_elem_of_singleton]%elem_of_app & Hyr & Hyk); [left; by exists y|congruence]. }
    split; [rewrite Hlive; cbn; split; [by intros [? _]|done]|]. intros _. split; [done|]. intros Hnot.
    rewrite (Hno Hnot), Hjobs, map_map. apply map_ext. intros x. unfold updated. by destruct (_ =? _).
  - exists s2, row'. split; [done|]. split; [by apply Hdone|]. split; [done|]. split.
    { intros k _. rewrite Hhas, Hhas1. setoid_rewrite Hdone. done. }
    cbn zeta in Hready |- *. rewrite !Hdone. split; [exact Hready|]. intros Hk. by destruct (Hlive Hk).
Qed.

(** C7: What becomes of a job whose stage failed, every statement going through
    and nothing in between: one more attempt is counted and the error kept; it is
    retried later or, its attempts used up, parked, and then the recording is
    marked failed too, so that nothing shows as in progress that no worker will
    touch again. *)
Theorem process_job_failure `{UuidFmt} cfg j r e s :
  schema_ok s -> job_of s (job_id j) = Some j -> job_live j = true ->
  job_recording_id j = Some r -> fk s r ->
  exists s' j', process_job cfg j (Finished (Err e)) s = (Ok tt, s') /\
    job_of s' (job_id j) = Some j' /\ job_error j' = Some (Error.to_string e) /\
    job_attempts j' = job_attempts j + 1 /\
    (job_attempts j + 1 < cfg_max_attempts cfg ->
       job_state j' = Queued /\ db_recordings s' = db_recordings s) /\
    (cfg_max_attempts cfg <= job_attempts j + 1 ->
       job_state j' = JobFailed /\
       exists row', db_recordings s' !! r = Some row' /\ rec_status (rr_rec row') = RecFailed).
Proof.
  intros Hs Hj Hl Hr Hfk. unfold process_job. rewrite Hr.
  destruct (fail_eq (job_id j) (Error.to_string e) (cfg_max_attempts cfg) (Z.max (cfg_poll_secs cfg) 1) s j Hs Hj Hl)
    as (s1 & Heq & Hrec & Hof).
  rewrite (bind_ok _ _ _ _ _ Heq). specialize (Hof (job_id j)). rewrite Z.eqb_refl in Hof.
  unfold failed_job in Hof. destruct (job_attempts j + 1 <? cfg_max_attempts cfg) eqn:E; bool_to_prop; cbn [negb].
  - eexists s1, _. split; [done|]. split; [exact Hof|]. cbn. do 2 (split; [done|]). split; [done|lia].
  - destruct (set_status_ok r RecFailed s1) as (s2 & Hset & (row & _ & Hrec2) & Hjobs); [unfold fk; by rewrite Hrec|].
    eexists s2, _. split; [unfold ignore_err; by rewrite Hset|].
    split; [unfold job_of in *; rewrite Hjobs; exact Hof|]. cbn. split; [done|]. split; [done|].
    split; [lia|]. intros _. split; [done|]. exists (with_status RecFailed row).
    by rewrite Hrec2, lookup_insert_eq.
Qed.

(** Outside the window only live transcription is claimed: whatever the
    queue holds, a job handed out under a closed decision is of a configured
    kind that bypasses the schedule; under an open one every configured kind
    may be. *)
Theorem paused_claims_only_live cfg locked w d s j s' :
  schema_ok s -> claim_iteration cfg locked w d s = (Ok (Some j), s') ->
  job_kind j ∈ cfg_stages cfg /\ (dec_allowed d = false -> job_kind j = TranscribeSegment).
Proof.
  unfold claim_iteration. intros Hs Hc.
  destruct (claim_one_eq locked w (ProcessingSchedule.claimable_kinds (cfg_stages cfg) d) s Hs)
    as [[Hn _]|(c & s1 & Hnext & Heq & _)]; [congruence|]. rewrite Heq in Hc. injection Hc as <- <-. cbn.
  apply next_claim_Some in Hnext as (_ & (_ & Hk & _)%claimable_queued & _).
  unfold ProcessingSchedule.claimable_kinds in Hk. destruct (dec_allowed d); [done|].
  apply elem_of_bfilter in Hk as [Hk Hb]. split; [done|]. intros _.
  unfold JobKind.bypasses_schedule in Hb. by destruct (job_kind c).
Qed.

Lemma idle_step_dead m s e s' r :
  schema_ok s -> queue_step m s e s' -> idle_event e ->
  (forall j, j ∈ db_jobs s -> job_recording_id j = Some r -> job_live j = false) ->
  forall j, j ∈ db_jobs s' -> job_recording_id j = Some r -> job_live j = false.
Proof.
  intros Hs Hstep Hidle Hdead j' Hj' Hr'. destruct (step_rows m s e s' Hs Hstep) as (_ & _ & _ & Hrows).
  assert (Hnot : forall j st, j ∈ db_jobs s -> job_recording_id j = Some r -> job_state j = st ->
    job_live j = true -> False).
  { intros j st Hj Hr _ Hl. by rewrite (Hdead j Hj Hr) in Hl. }
  destruct (Hrows j' Hj') as [Hin|? ? -> _ _ _ _ _|j w _ Hin Hq _ ->|j Hin Hrun _ ->
    |j -> Hin ->|j err b n -> Hin ->|j note d -> Hin ->|j older ids _ _ Hin Hrun ->]; cbn in *; try done.
  - by apply Hdead.
  - exfalso. eapply (Hnot j); eauto. unfold job_live. by rewrite Hq.
  - exfalso. eapply (Hnot j); eauto. unfold job_live. by rewrite Hrun.
  - apply expired_running in Hrun. exfalso. eapply (Hnot j); eauto. unfold job_live. by rewrite Hrun.
Qed.

(** What a crash loses.  [complete] and [enqueue_successors] are separate
    statements: when the worker dies, or loses the database, between them, and
    the job was the recording's last live one, no amount of claiming,
    heartbeating, reaping or waiting ever gives the recording a live job again;
    nothing but a new enqueue from outside resumes it. *)
Theorem crash_after_complete_strands m i r s es s' :
  schema_ok s ->
  (forall j, j ∈ db_jobs s -> job_recording_id j = Some r -> job_id j <> i -> job_live j = false) ->
  trace m (snd (Queue.complete i s)) es s' -> (forall e, e ∈ es -> idle_event e) ->
  forall j, j ∈ db_jobs s' -> job_recording_id j = Some r -> job_live j = false.
Proof.
  intros Hs Hothers Ht Hidle.
  assert (Hs1 : schema_ok (snd (Queue.complete i s))) by (by apply complete_schema).
  assert (Hdead : forall j, j ∈ db_jobs (snd (Queue.complete i s)) -> job_recording_id j = Some r -> job_live j = false).
  { destruct (complete_eq i s Hs) as (s1 & Heq & _ & _ & _ & Hjobs). rewrite Heq. cbn. rewrite Hjobs.
    intros j' (j & Hj & [[Hp ->]|[Hp ->]])%elem_updated Hr; [done|].
    apply Hothers; [done|done|]. by apply Z.eqb_neq. }
  clear Hothers Hs. induction Ht as [|s1 e s2 es s3 Hstep _ IH]; [done|].
  apply IH; [intros; apply Hidle; by right|by eapply step_rows|].
  eapply idle_step_dead; [exact Hs1|exact Hstep|apply Hidle; by left|done].
Qed.

(** ** Witnesses *)

Definition sample_cfg : WorkerConfig := mkWorkerConfig 30 5 3 "" JobKind.ALL.
Definition sample_completed : Db := snd (Queue.complete 1 sample_running).
Definition sample_fanned_out : Db := snd (enqueue_successors Transcode 1 sample_completed).

Lemma sample_fan_out : rtc (pstep 3) (empty_db 0, []) (sample_fanned_out, []).
Proof.
  eapply rtc_app; [apply (p_queue 3 EOther _ sample_db); [by apply (q_other _ _ sample_db sample_schema)|done]|].
  eapply rtc_app; [apply (p_queue 3 (EEnqueue 1 Transcode) _ sample_queued);
    [apply (q_enqueue _ _ 1 Transcode JNull 0)|done]|].
  eapply rtc_app; [apply (p_queue 3 (EClaim "w" 1) _ sample_running);
    [by apply (sample_claims "w" "w" sample_running sample_running)|done]|].
  apply (complete_then_successors_steps 3 1 (the_job sample_running) 1 sample_running sample_completed);
    vm_compute; reflexivity.
Qed.

Lemma no_successor_lost_witness : has_job sample_fanned_out 1 Diarize.
Proof.
  apply (no_successor_lost 3 0 sample_fanned_out 1 Diarize sample_fan_out); [discriminate|].
  intros p ->%list_elem_of_singleton. exists (the_job sample_completed).
  split; [vm_compute; left|]. vm_compute. split; [reflexivity|split; reflexivity].
Defined.

Lemma sample_running_fk : fk sample_running 1.
Proof. by exists sample_recording. Qed.

Lemma process_job_success_witness :
  exists s', @process_job plain_uuid sample_cfg (the_job sample_running) (Finished (Ok tt)) sample_running = (Ok tt, s') /\
    done_job s' 1 Transcode.
Proof.
  destruct (@process_job_success plain_uuid sample_cfg (the_job sample_running) 1 sample_recording sample_running)
    as (s' & row' & Heq & Hd & _); [exact sample_running_schema|vm_compute; reflexivity|vm_compute; reflexivity|reflexivity|].
  exists s'. split; [exact Heq|exact Hd].
Defined.

Lemma process_job_failure_witness :
  exists s' j', @process_job plain_uuid sample_cfg (the_job sample_running)
      (Finished (Err (Internal "boom"))) sample_running = (Ok tt, s') /\
    job_of s' 1 = Some j' /\ job_attempts j' = 1.
Proof.
  destruct (@process_job_failure plain_uuid sample_cfg (the_job sample_running) 1 (Internal "boom") sample_running)
    as (s' & j' & Heq & Hj & _ & Ha & _); [exact sample_running_schema|vm_compute; reflexivity|vm_compute; reflexivity
      |vm_compute; reflexivity|exact sample_running_fk|].
  exists s', j'. split; [exact Heq|]. split; [exact Hj|exact Ha].
Defined.

Lemma paused_claims_only_live_witness :
  job_kind (the_job sample_running) ∈ JobKind.ALL.
Proof.
  apply (paused_claims_only_live sample_cfg [] "w" (mkDecision true Disabled None) sample_queued
    (the_job sample_running) sample_running sample_queued_schema). vm_compute. reflexivity.
Defined.

Lemma crash_after_complete_strands_witness :
  job_live (the_job sample_completed) = false.
Proof.
  apply (crash_after_complete_strands 3 1 1 sample_running [ETick] (set_now (db_now sample_completed + 5) sample_completed)
    sample_running_schema).
  - intros j Hj _ Hid. vm_compute in Hj. apply list_elem_of_singleton in Hj as ->. exfalso. by apply Hid.
  - eapply trace_cons; [by apply (q_tick 3 _ 5)|apply trace_nil].
  - intros e ->%list_elem_of_singleton. exact I.
  - vm_compute. left.
  - vm_compute. reflexivity.
Defined.
