(* ===== verification/WorkerLoop.v ===== *)
(** * The worker process: [run_worker] of [crates/scribe-pipeline/src/worker.rs]

    The claiming loop, the tasks it spawns and the reaper, one database
    statement at a time, beside whatever other processes do to the queue.  A
    task is a job and how far [process_job] has come with it; a permit of the
    semaphore is held by the loop while it claims and by a task until it ends.
    Any statement may fail, the connection being lost: a task's ends the task
    ([?]) with its work where it was, a claim's ends the process.  A statement
    whose effect stayed and whose reply was lost is one that succeeded, followed
    by a failure of the next. *)

From Stdlib Require Import String.
From S2P Require Import Prelude RustStr Types Schedule Db DbSchema Queue QueueSteps Store Worker WorkerProps.

(** ** One job, statement by statement *)

Inductive Phase :=
| Watching (closed_since : option Z)
| Completing
| Succeeding (todo : list JobKind)
| Enqueueing (k : JobKind) (todo : list JobKind)
| AskReady
| SettingReady
| AskStatus
| Counting
| Requeueing
| Deferring (retry_in : Z)
| Failing (e : Error)
| Recording (e : Error) (attempts : Z)
| Parking.

(** [tk_beating]: the heartbeat task is still at it. *)
Record Task := mkTask { tk_job : Job; tk_phase : Phase; tk_beating : bool }.

Definition at_phase (t : Task) (p : Phase) : Task := mkTask (tk_job t) p (tk_beating t).

(** A job without a recording is completed as a no-op, without a heartbeat. *)
Definition spawn (j : Job) : Task :=
  match job_recording_id j with
  | Some _ => mkTask j (Watching None) true
  | None => mkTask j Completing false
  end.

(** What follows the outcome of the stage. *)
Definition after_outcome (o : StageOutcome) : Phase :=
  match o with
  | Finished (Ok _) => Completing
  | Finished (Err e) => Failing e
  | WindowClosed retry_in => Deferring retry_in
  end.

Definition after_ready (k : JobKind) : option Phase := if bool_decide (k = TranscribeSegment) then Some AskStatus else None.
Definition after_successors (k : JobKind) : option Phase := if is_terminal k then Some AskReady else after_ready k.

Section statements.
Context `{UuidFmt} (cfg : WorkerConfig).

(** The next statement of a task for a recording, when the connection holds,
    and the phase after it; [None]: the task has ended.  An error the schema
    answers ends it ([?]).  [Failing] and [Recording] are the two statements of
    [fail]. *)
Definition statement (j : Job) (r : Uuid) (p : Phase) (s : Db) : option Phase * Db :=
  match p with
  | Watching _ => (Some p, s)
  | Completing =>
      match Queue.complete (job_id j) s with
      | (Ok _, s') => (Some (Succeeding (JobKind.successors (job_kind j))), s')
      | (Err _, s') => (None, s')
      end
  | Succeeding [] => (after_successors (job_kind j), s)
  | Succeeding (k :: ks) =>
      match Queue.predecessors_done r k s with
      | (Ok true, s') => (Some (Enqueueing k ks), s')
      | (Ok false, s') => (Some (Succeeding ks), s')
      | (Err _, s') => (None, s')
      end
  | Enqueueing k ks =>
      match Queue.enqueue r k empty_payload s with
      | (Ok _, s') => (Some (Succeeding ks), s')
      | (Err _, s') => (None, s')
      end
  | AskReady =>
      match embed_and_summarize_done r s with
      | (Ok true, s') => (Some SettingReady, s')
      | (Ok false, s') => (after_ready (job_kind j), s')
      | (Err _, s') => (None, s')
      end
  | SettingReady =>
      match set_recording_status r Ready s with
      | (Ok _, s') => (after_ready (job_kind j), s')
      | (Err _, s') => (None, s')
      end
  | AskStatus =>
      match get_recording r s with
      | (Ok rec, s') => (if bool_decide (rec_status rec = Uploading) then Some Counting else None, s')
      | (Err _, s') => (None, s')
      end
  | Counting =>
      match count_untranscribed_segments r s with
      | (Ok n, s') => (if 0 <? n then Some Requeueing else None, s')
      | (Err _, s') => (None, s')
      end
  | Requeueing => (None, snd (Queue.enqueue r TranscribeSegment empty_payload s))
  | Deferring retry_in => (None, snd (Queue.defer (job_id j) WINDOW_CLOSED retry_in s))
  | Failing e =>
      match Queue.select_attempts (job_id j) s with
      | (Ok n, s') => (Some (Recording e n), s')
      | (Err _, s') => (None, s')
      end
  | Recording e n =>
      match Queue.record_failure (job_id j) (Error.to_string e) (cfg_max_attempts cfg) (Z.max (cfg_poll_secs cfg) 1) n s with
      | (Ok true, s') => (None, s')
      | (Ok false, s') => (Some Parking, s')
      | (Err _, s') => (None, s')
      end
  | Parking => (None, snd (set_recording_status r RecFailed s))
  end.

Definition task_statement (t : Task) (s : Db) : option Task * Db :=
  match job_recording_id (tk_job t) with
  | Some r => let '(p, s') := statement (tk_job t) r (tk_phase t) s in (at_phase t <$> p, s')
  | None => (None, snd (Queue.complete (job_id (tk_job t)) s))
  end.

(** A task left to itself, for so many statements. *)
Fixpoint run_task (n : nat) (t : option Task) (s : Db) : option Task * Db :=
  match n, t with
  | S n, Some t => let '(t', s') := task_statement t s in run_task n t' s'
  | _, _ => (t, s)
  end.
End statements.

(** One check of the window, as [watch] takes it. *)
Definition check_window (closed_since : option Z) (at_ grace : Z) (d : ScheduleDecision) : Phase :=
  if dec_allowed d then Watching None
  else
    let since := default at_ closed_since in
    if grace_nanos grace <=? at_ - since then Deferring (retry_delay d) else Watching (Some since).

(** ** Who claims *)

(** Windows' name of the host, or a Unix shell's; an empty one is none. *)
Definition hostname `{EnvVar} : option string :=
  h ← match env_var "COMPUTERNAME" with Some h => Some h | None => env_var "HOSTNAME" end;
  if is_empty h then None else Some h.

(** [pid] is the process's, [fresh] a uuid drawn. *)
Definition derive_worker_id `{EnvVar} `{UuidFmt} (pid : Z) (fresh : Uuid) : string :=
  match hostname with
  | Some h => h +:+ "-" +:+ pretty pid
  | None => "worker-" +:+ uuid_to_string fresh
  end.

(** ** The process *)

Inductive Pc :=
| Acquiring
| Deciding
| Claiming (d : ScheduleDecision)
| Idle (wait : Z)
| Stopped.

(** [pr_lost]: the jobs of tasks that panicked; [pr_parking]: recordings the
    reaper has yet to mark failed; [pr_left]: the tasks that were cut off, as
    they were. *)
Record Process := mkProcess {
  pr_pc : Pc; pr_permits : nat; pr_tasks : list Task; pr_gate : GateState; pr_lost : list Z; pr_parking : list Uuid;
  pr_left : list Task;
}.

Definition concurrency (configured : Z) : nat := Z.to_nat (Z.max configured 1).
Definition started (configured : Z) : Process := mkProcess Acquiring (concurrency configured) [] (mkGate None None) [] [] [].

Definition at_pc (pc : Pc) (permits : nat) (p : Process) : Process :=
  mkProcess pc permits (pr_tasks p) (pr_gate p) (pr_lost p) (pr_parking p) (pr_left p).
Definition with_gate (g : GateState) (p : Process) : Process :=
  mkProcess (pr_pc p) (pr_permits p) (pr_tasks p) g (pr_lost p) (pr_parking p) (pr_left p).
Definition with_tasks (ts : list Task) (p : Process) : Process :=
  mkProcess (pr_pc p) (pr_permits p) ts (pr_gate p) (pr_lost p) (pr_parking p) (pr_left p).
Definition with_parking (rs : list Uuid) (p : Process) : Process :=
  mkProcess (pr_pc p) (pr_permits p) (pr_tasks p) (pr_gate p) (pr_lost p) rs (pr_left p).

(** A task's end releases its permit. *)
Definition put_back (t : option Task) (l1 l2 : list Task) (p : Process) : Process :=
  match t with
  | Some t => with_tasks (l1 ++ t :: l2) p
  | None => at_pc (pr_pc p) (S (pr_permits p)) (with_tasks (l1 ++ l2) p)
  end.

Definition panicked (t : Task) (l1 l2 : list Task) (p : Process) : Process :=
  mkProcess (pr_pc p) (S (pr_permits p)) (l1 ++ l2) (pr_gate p) (job_id (tk_job t) :: pr_lost p) (pr_parking p) (pr_left p).

(** A statement of the task failed: [process_job] returns, its caller logs the
    error, and the permit is released. *)
Definition cut_off (t : Task) (l1 l2 : list Task) (p : Process) : Process :=
  mkProcess (pr_pc p) (S (pr_permits p)) (l1 ++ l2) (pr_gate p) (pr_lost p) (pr_parking p) (t :: pr_left p).

Definition holding (pc : Pc) : nat := match pc with Deciding | Claiming _ => 1 | _ => 0 end.

(** The process ends, and its tasks with it: [claim_one] failed, or it was
    killed. *)
Definition stopped (p : Process) : Process :=
  mkProcess Stopped (pr_permits p + holding (pr_pc p) + length (pr_tasks p)) [] (pr_gate p) (pr_lost p) []
    (pr_tasks p ++ pr_left p).

Definition is_watching (p : Phase) : bool := match p with Watching _ => true | _ => false end.

(** Nobody else claims in this worker's name. *)
Definition not_in_our_name (w : string) (s s' : Db) : Prop :=
  forall j', j' ∈ db_jobs s' -> job_state j' = Running -> job_locked_by j' = Some w ->
    exists j, j ∈ db_jobs s /\ job_id j = job_id j' /\ job_state j = Running /\ job_locked_by j = Some w.

Section process.
Context `{UuidFmt} `{Calendar} (cfg : WorkerConfig) (w : string).

(** The database, this process, and what the other processes have pending. *)
Definition System : Type := Db * Process * list task.

Inductive wstep : System -> System -> Prop :=
| w_acquire n s p ets :
    pr_pc p = Acquiring -> pr_permits p = S n -> wstep (s, p, ets) (s, at_pc Deciding n p, ets)
| w_decide now read now_local now_utc d g s p ets :
    pr_pc p = Deciding -> gate_decide now read now_local now_utc (pr_gate p) = (d, g) ->
    wstep (s, p, ets) (s, at_pc (Claiming d) (pr_permits p) (with_gate g p), ets)
| w_claimed d locked j s s' p ets :
    pr_pc p = Claiming d -> claim_iteration cfg locked w d s = (Ok (Some j), s') ->
    wstep (s, p, ets) (s', at_pc Acquiring (pr_permits p) (with_tasks (spawn j :: pr_tasks p) p), ets)
| w_nothing d locked s s' p ets :
    pr_pc p = Claiming d -> claim_iteration cfg locked w d s = (Ok None, s') ->
    wstep (s, p, ets) (s', at_pc (Idle (idle_wait (Z.max (cfg_poll_secs cfg) 1) (dec_allowed d))) (S (pr_permits p)) p, ets)
| w_notified wait s p ets :
    pr_pc p = Idle wait -> wstep (s, p, ets) (s, at_pc Acquiring (pr_permits p) (with_gate (gate_invalidate (pr_gate p)) p), ets)
| w_timer wait s p ets :
    pr_pc p = Idle wait -> wstep (s, p, ets) (s, at_pc Acquiring (pr_permits p) p, ets)
| w_stage t l1 l2 s s' p ets :
    pr_tasks p = l1 ++ t :: l2 -> is_watching (tk_phase t) = true ->
    schema_ok s' -> db_jobs s' = db_jobs s -> db_next_job s' = db_next_job s -> db_now s' = db_now s ->
    wstep (s, p, ets) (s', p, ets)
| w_stage_done r t l1 l2 s p ets :
    pr_tasks p = l1 ++ t :: l2 -> is_watching (tk_phase t) = true ->
    wstep (s, p, ets) (s, with_tasks (l1 ++ at_phase t (after_outcome (Finished r)) :: l2) p, ets)
| w_check now read sched g at_ now_local now_utc since t l1 l2 s p ets :
    pr_tasks p = l1 ++ t :: l2 -> tk_phase t = Watching since -> JobKind.bypasses_schedule (job_kind (tk_job t)) = false ->
    gate_schedule now read (pr_gate p) = (sched, g) ->
    wstep (s, p, ets) (s, with_gate g (with_tasks (l1 ++ at_phase t (check_window since at_ (sched_grace_minutes sched)
      (ProcessingSchedule.decide sched now_local now_utc)) :: l2) p), ets)
| w_panic t l1 l2 s p ets :
    pr_tasks p = l1 ++ t :: l2 -> is_watching (tk_phase t) = true -> wstep (s, p, ets) (s, panicked t l1 l2 p, ets)
| w_statement t t' l1 l2 s s' p ets :
    pr_tasks p = l1 ++ t :: l2 -> is_watching (tk_phase t) = false -> task_statement cfg t s = (t', s') ->
    wstep (s, p, ets) (s', put_back t' l1 l2 p, ets)
| w_heartbeat b t l1 l2 s s' p ets :
    pr_tasks p = l1 ++ t :: l2 -> is_watching (tk_phase t) = true -> tk_beating t = true ->
    Queue.heartbeat (job_id (tk_job t)) w s = (Ok b, s') ->
    wstep (s, p, ets) (s', with_tasks (l1 ++ mkTask (tk_job t) (tk_phase t) b :: l2) p, ets)
| w_lost_beat i s s' p ets :
    i ∈ pr_lost p -> pr_pc p <> Stopped -> s' = snd (Queue.heartbeat i w s) -> wstep (s, p, ets) (s', p, ets)
| w_reap rs s s' p ets :
    pr_parking p = [] -> pr_pc p <> Stopped -> Queue.reap_stuck (Z.max (cfg_heartbeat_secs cfg) 1 * 3) (cfg_max_attempts cfg) s = (Ok rs, s') ->
    wstep (s, p, ets) (s', with_parking (omap reaped_recording_id (bfilter reaped_exhausted rs)) p, ets)
| w_park r rs s p ets :
    pr_parking p = r :: rs -> wstep (s, p, ets) (snd (set_recording_status r RecFailed s), with_parking rs p, ets)
| w_others s s' p ets ets' :
    pstep (cfg_max_attempts cfg) (s, ets) (s', ets') -> not_in_our_name w s s' -> wstep (s, p, ets) (s', p, ets')
| w_statement_fails t l1 l2 s p ets :
    pr_tasks p = l1 ++ t :: l2 -> is_watching (tk_phase t) = false -> wstep (s, p, ets) (s, cut_off t l1 l2 p, ets)
| w_heartbeat_fails t l1 l2 s p ets :
    pr_tasks p = l1 ++ t :: l2 -> is_watching (tk_phase t) = true -> tk_beating t = true ->
    wstep (s, p, ets) (s, with_tasks (l1 ++ mkTask (tk_job t) (tk_phase t) false :: l2) p, ets)
| w_reap_unanswered rs s s' p ets :
    pr_parking p = [] -> pr_pc p <> Stopped -> Queue.reap_stuck (Z.max (cfg_heartbeat_secs cfg) 1 * 3) (cfg_max_attempts cfg) s = (Ok rs, s') ->
    wstep (s, p, ets) (s', p, ets)
| w_park_fails r rs s p ets : pr_parking p = r :: rs -> wstep (s, p, ets) (s, with_parking rs p, ets)
| w_stops s p ets : pr_pc p <> Stopped -> wstep (s, p, ets) (s, stopped p, ets).
End process.
