(* ===== verification/WorkerLoopProps.v ===== *)
(** * What the worker process keeps

    A task left to itself does what [process_job] does; no more jobs run at
    once than configured; every job this worker claimed is somebody's task; and
    the process, beside any others, is one of the workers of [WorkerProps]. *)

From Stdlib Require Import String.
From S2P Require Import Prelude RustStr Types Schedule Db DbSchema Queue QueueSteps Store StoreProps Worker WorkerProps WorkerLoop.

(** ** A task by itself *)

(** How many statements a task has left at most. *)
Definition left_to_do (p : Phase) : nat :=
  match p with
  | Watching _ => 12
  | Completing => 11
  | Succeeding ks => 6 + 2 * length ks
  | Enqueueing _ ks => 7 + 2 * length ks
  | AskReady => 5
  | SettingReady => 4
  | AskStatus => 3
  | Counting => 2
  | Requeueing | Deferring _ | Parking => 1
  | Failing _ => 3
  | Recording _ _ => 2
  end.

Lemma after_ready_left k p : after_ready k = Some p -> is_watching p = false /\ (left_to_do p <= 3)%nat.
Proof. unfold after_ready. case_bool_decide; [|done]. by intros [= <-]. Qed.
Lemma after_successors_left k p : after_successors k = Some p -> is_watching p = false /\ (left_to_do p <= 5)%nat.
Proof. unfold after_successors. destruct (is_terminal k); [by intros [= <-]|]. intros [? ?]%after_ready_left. split; [done|lia]. Qed.

Section alone.
Context `{UuidFmt} (cfg : WorkerConfig).

(** Every statement brings a task closer to its end. *)
Lemma statement_left j r p s p' s' :
  is_watching p = false -> statement cfg j r p s = (Some p', s') ->
  is_watching p' = false /\ (left_to_do p' < left_to_do p)%nat.
Proof.
  assert (Hsucc : (length (JobKind.successors (job_kind j)) <= 2)%nat) by (by destruct (job_kind j); cbn; lia).
  destruct p as [c| |[|k ks]|k ks| | | | | |d|e|e n|]; cbn [is_watching statement]; intros Hw E; try done.
  - destruct (Queue.complete _ _) as [[|] ?]; [|done]. injection E as <- <-. cbn [left_to_do]. split; [done|lia].
  - destruct (after_successors (job_kind j)) as [q|] eqn:Ea; [|done]. injection E as <- <-. apply after_successors_left in Ea as [? ?]. cbn. split; [done|lia].
  - destruct (Queue.predecessors_done _ _ _) as [[[|]|] ?]; try done; injection E as <- <-; cbn; (split; [done|lia]).
  - destruct (Queue.enqueue _ _ _ _) as [[|] ?]; [|done]. injection E as <- <-. cbn. split; [done|lia].
  - destruct (embed_and_summarize_done _ _) as [[[|]|] ?]; try done; [injection E as <- <-; cbn; (split; [done|lia])|].
    destruct (after_ready (job_kind j)) as [q|] eqn:Ea; [|done]. injection E as <- <-. apply after_ready_left in Ea as [? ?]. cbn. split; [done|lia].
  - destruct (set_recording_status _ _ _) as [[|] ?]; [|done].
    destruct (after_ready (job_kind j)) as [q|] eqn:Ea; [|done]. injection E as <- <-. apply after_ready_left in Ea as [? ?]. cbn. split; [done|lia].
  - destruct (get_recording _ _) as [[rec|] ?]; [|done]. destruct (bool_decide _); [|done]. injection E as <- <-. cbn. split; [done|lia].
  - destruct (count_untranscribed_segments _ _) as [[n|] ?]; [|done]. destruct (0 <? n); [|done]. injection E as <- <-. cbn. split; [done|lia].
  - destruct (Queue.select_attempts _ _) as [[n|] ?]; [|done]. injection E as <- <-. cbn. split; [done|lia].
  - destruct (Queue.record_failure _ _ _ _ _ _) as [[[|]|] ?]; try done. injection E as <- <-. cbn. split; [done|lia].
Qed.

(** The task's statements from this phase on leave this database. *)
Inductive runs (j : Job) (r : Uuid) : Phase -> Db -> Db -> Prop :=
| runs_last p s s' : is_watching p = false -> statement cfg j r p s = (None, s') -> runs j r p s s'
| runs_next p p' s s1 s' :
    is_watching p = false -> statement cfg j r p s = (Some p', s1) -> runs j r p' s1 s' -> runs j r p s s'.

Lemma runs_run_task j r p s s' b n :
  job_recording_id j = Some r -> runs j r p s s' -> (left_to_do p <= n)%nat -> run_task cfg n (Some (mkTask j p b)) s = (None, s').
Proof.
  intros Hr Hruns. revert n. induction Hruns as [p s s' Hw E|p p' s s1 s' Hw E _ IH]; intros n Hn.
  - destruct n as [|n]; [by destruct p; cbn in Hn; lia|]. cbn [run_task]. unfold task_statement. cbn [tk_job tk_phase].
    rewrite Hr, E. cbn. by destruct n.
  - destruct n as [|n]; [by destruct p; cbn in Hn; lia|]. cbn [run_task]. unfold task_statement. cbn [tk_job tk_phase].
    rewrite Hr, E. cbn [fmap option_fmap option_map]. apply IH. destruct (statement_left _ _ _ _ _ _ Hw E). lia.
Qed.

(** What is left, when anything is. *)
Definition ends (j : Job) (r : Uuid) (p : option Phase) (s s' : Db) : Prop :=
  match p with Some p => runs j r p s s' | None => s' = s end.

Lemma runs_step j r p s op s1 s' : is_watching p = false -> statement cfg j r p s = (op, s1) -> ends j r op s1 s' -> runs j r p s s'.
Proof.
  intros Hw E Hends. destruct op as [p'|]; cbn in Hends; [by eapply runs_next|]. subst s'. by apply runs_last.
Qed.

Lemma bind_snd {A B} (m : DbM A) (k : A -> DbM B) s :
  snd ((m ≫= k) s) = match m s with (Ok a, s') => snd (k a s') | (Err _, s') => s' end.
Proof. unfold mbind, M_bind. by destruct (m s) as [[a|e] s']. Qed.

(** The live transcription's own drain. *)
Lemma live_ends j r s : ends j r (after_ready (job_kind j)) s
  (snd ((if bool_decide (job_kind j = TranscribeSegment) then requeue_live r else mret tt) s)).
Proof.
  unfold after_ready. case_bool_decide as Hk; [|done]. cbn [ends]. unfold requeue_live. rewrite bind_snd.
  destruct (get_recording r s) as [[rec|e] s1] eqn:Eg; (eapply runs_step; [done|cbn [statement]; by rewrite Eg|]); [|done].
  case_bool_decide as Hu; [|done]. rewrite bind_snd.
  destruct (count_untranscribed_segments r s1) as [[n|e] s2] eqn:Ec; (eapply runs_step; [done|cbn [statement]; by rewrite Ec|]); [|done].
  destruct (0 <? n); [|done]. rewrite bind_snd. eapply runs_step; [done|done|]. cbn [ends].
  by destruct (Queue.enqueue _ _ _ s2) as [[|] ?].
Qed.

Lemma ready_ends j r s : ends j r (after_successors (job_kind j)) s
  (snd ((_ ← (if is_terminal (job_kind j) then maybe_mark_ready r else mret tt);
         if bool_decide (job_kind j = TranscribeSegment) then requeue_live r else mret tt) s)).
Proof.
  unfold after_successors. destruct (is_terminal (job_kind j)); [|rewrite bind_snd; apply live_ends]. cbn [ends].
  unfold maybe_mark_ready. rewrite !bind_snd. unfold mbind, M_bind.
  destruct (embed_and_summarize_done r s) as [[[|]|e] s1] eqn:Ee; (eapply runs_step; [done|cbn [statement]; by rewrite Ee|]); [|apply live_ends|done].
  destruct (set_recording_status r Ready s1) as [[u|e] s2] eqn:Es; (eapply runs_step; [done|cbn [statement]; by rewrite Es|]); [|done].
  apply live_ends.
Qed.

Lemma enqueue_if_ready_cases r k s : enqueue_if_ready r k s =
  match Queue.predecessors_done r k s with
  | (Ok true, s1) => match Queue.enqueue r k empty_payload s1 with (Ok _, s2) => (Ok tt, s2) | (Err e, s2) => (Err e, s2) end
  | (Ok false, s1) => (Ok tt, s1)
  | (Err e, s1) => (Err e, s1)
  end.
Proof. unfold enqueue_if_ready, mbind, M_bind. by destruct (Queue.predecessors_done r k s) as [[[|]|e] s1]. Qed.

Lemma successors_run j r ks s : runs j r (Succeeding ks) s
  (snd ((_ ← mfor ks (enqueue_if_ready r);
         _ ← (if is_terminal (job_kind j) then maybe_mark_ready r else mret tt);
         if bool_decide (job_kind j = TranscribeSegment) then requeue_live r else mret tt) s)).
Proof.
  revert s. induction ks as [|k ks IH]; intros s.
  - eapply runs_step; [done|done|]. rewrite bind_snd. apply ready_ends.
  - cbn [mfor]. rewrite <- bind_assoc, bind_snd, enqueue_if_ready_cases.
    destruct (Queue.predecessors_done r k s) as [[[|]|e] s1] eqn:Ep; (eapply runs_step; [done|cbn [statement]; rewrite Ep; reflexivity|]); cbn [ends];
      [|apply IH|done].
    destruct (Queue.enqueue r k empty_payload s1) as [[j'|e] s2] eqn:Eq; (eapply runs_step; [done|cbn [statement]; by rewrite Eq|]); [apply IH|done].
Qed.

(** A task left to itself is [process_job].  After the stage's outcome its
    statements, taken one by one with the database as each finds it, end within
    twelve, and leave the database [process_job] leaves. *)
Lemma task_is_process_job (j : Job) (r : Uuid) (o : StageOutcome) (beating : bool) (s : Db) :
  job_recording_id j = Some r ->
  run_task cfg 12 (Some (mkTask j (after_outcome o) beating)) s = (None, snd (process_job cfg j o s)).
Proof.
  intros Hr. apply (runs_run_task j r); [done| |destruct o as [[|]|]; cbn; lia]. unfold process_job. rewrite Hr.
  destruct o as [[u|e]|d]; cbn [after_outcome].
  - rewrite bind_snd. destruct (Queue.complete (job_id j) s) as [[u'|e] s1] eqn:Ec;
      (eapply runs_step; [done|cbn [statement]; by rewrite Ec|]); [apply successors_run|done].
  - rewrite bind_snd. unfold Queue.fail. unfold mbind at 1, M_bind at 1.
    destruct (Queue.select_attempts (job_id j) s) as [[n|e'] s0] eqn:Er; (eapply runs_step; [done|cbn [statement]; by rewrite Er|]); [|done].
    destruct (Queue.record_failure (job_id j) (Error.to_string e) (cfg_max_attempts cfg) (Z.max (cfg_poll_secs cfg) 1) n s0) as [[[|]|e'] s1] eqn:Ef;
      (eapply runs_step; [done|cbn [statement]; by rewrite Ef|]); [done| |done]. cbn [negb ends].
    eapply runs_step; [done|done|]. cbn [ends]. unfold ignore_err. by destruct (set_recording_status _ _ s1) as [[|] ?].
  - eapply runs_step; [done|done|done].
Qed.
End alone.

(** ** Permits *)

Definition capacity (p : Process) : nat := pr_permits p + holding (pr_pc p) + length (pr_tasks p).

Section steps.
Context `{UuidFmt} `{Calendar} (cfg : WorkerConfig) (w : string).

Lemma wstep_capacity st st' : wstep cfg w st st' -> capacity (snd (fst st')) = capacity (snd (fst st)).
Proof.
  destruct 1; cbn [fst snd]; unfold capacity; try done;
    repeat match goal with E : pr_pc _ = _ |- _ => rewrite E | E : pr_permits _ = _ |- _ => rewrite E
           | E : pr_tasks _ = _ |- _ => rewrite E end;
    try match goal with |- context [put_back ?t _ _ _] => destruct t end;
    cbn; rewrite ?length_app; cbn; lia.
Qed.

Lemma wsteps_capacity st st' : rtc (wstep cfg w) st st' -> capacity (snd (fst st')) = capacity (snd (fst st)).
Proof. induction 1 as [|x y z Hs _ IH]; [done|]. rewrite IH. by apply wstep_capacity. Qed.

(** C6: The semaphore does its work.  However the claims, the tasks, the reaper
    and the other processes interleave, no more jobs are in hand than configured,
    the one being claimed included; a loop that waits for a permit waits for a
    task, which there is; and a task past its stage always has a next statement
    to make, which brings it closer to its end. *)
Theorem permits_suffice (s s' : Db) (p : Process) (ets ets' : list task) (configured : Z) :
  rtc (wstep cfg w) (s, started configured, ets) (s', p, ets') ->
  (length (pr_tasks p) + holding (pr_pc p) <= Z.to_nat (Z.max configured 1))%nat /\
  (pr_pc p = Acquiring -> pr_permits p = 0%nat -> pr_tasks p <> []) /\
  (forall t s0 t' s1, is_watching (tk_phase t) = false -> task_statement cfg t s0 = (Some t', s1) ->
     (left_to_do (tk_phase t') < left_to_do (tk_phase t))%nat).
Proof.
  intros Hr. apply wsteps_capacity in Hr. unfold capacity in Hr. cbn in Hr. unfold concurrency in Hr. split; [lia|]. split.
  - intros Hpc Hp Ht. rewrite Hpc, Hp, Ht in Hr. cbn in Hr. lia.
  - intros t s0 t' s1 Hw E. unfold task_statement in E. destruct (job_recording_id _) as [r|]; [|done].
    destruct (statement _ _ _ _ _) as [[q|] s2] eqn:Es; [|done]. injection E as <- <-. cbn.
    by apply statement_left in Es as [_ ?].
Qed.

(** ** Whose job is whose *)

(** Two processes of one host have two names. *)
Lemma worker_ids_differ `{EnvVar} pid1 pid2 fresh1 fresh2 :
  is_Some hostname -> 0 <= pid1 -> 0 <= pid2 -> pid1 <> pid2 -> derive_worker_id pid1 fresh1 <> derive_worker_id pid2 fresh2.
Proof.
  intros [h Hh] Hp1 Hp2 Hne Heq. unfold derive_worker_id in Heq. rewrite Hh in Heq.
  apply (inj (String.append _)), (inj (String.append _)) in Heq. apply Hne.
  pose proof (parse_pretty pid1 Hp1) as P1. pose proof (parse_pretty pid2 Hp2) as P2. congruence.
Qed.

Lemma step_not_in_our_name m s e s' :
  schema_ok s -> queue_step m s e s' -> (forall i, e <> EClaim w i) -> not_in_our_name w s s'.
Proof.
  intros Hs Hstep Hne j' Hj' Hrun Hlock. destruct (step_rows m s e s' Hs Hstep) as (_ & _ & _ & Hrows).
  destruct (Hrows j' Hj') as [Hin|? ? _ _ Hst _ _ _|j w' He Hin _ _ ->|j Hin Hrunj _ ->
    |j -> Hin ->|j err b n _ Hin ->|j note d _ Hin ->|j older ids _ _ Hin _ ->]; cbn in Hrun, Hlock; try done.
  all: try congruence.
  - by exists j'.
  - by exists j.
  - unfold failed_job in Hrun. by destruct (_ <? m).
Qed.

Lemma same_jobs_not_in_our_name s s' : db_jobs s' = db_jobs s -> not_in_our_name w s s'.
Proof. intros Hj j' Hin Hr Hl. rewrite Hj in Hin. by exists j'. Qed.

(** A statement is a query, or a step of the queue that claims nothing. *)
Definition tame (m : Z) (s s' : Db) : Prop :=
  s' = s \/ exists e, queue_step m s e s' /\ (forall w i, e <> EClaim w i) /\ e <> EDelete.

Lemma set_status_other r st m s : schema_ok s -> queue_step m s EOther (snd (set_recording_status r st s)).
Proof.
  intros Hs.
  assert (Hjobs : db_jobs (snd (set_recording_status r st s)) = db_jobs s /\ db_next_job (snd (set_recording_status r st s)) = db_next_job s /\
    db_now (snd (set_recording_status r st s)) = db_now s).
  { unfold set_recording_status. rewrite update_or_not_found. by destruct (db_recordings s !! r). }
  destruct Hjobs as (Hj & Hn & Ht). apply q_other; [|done|done|done]. by apply (set_recording_status_schema r st).
Qed.
Lemma set_status_tame r st m s : schema_ok s -> tame m s (snd (set_recording_status r st s)).
Proof.
  intros Hs. right. exists EOther. split; [by apply set_status_other|]. split; [intros ? ?; discriminate|discriminate].
Qed.
End steps.

Lemma pstep_schema m st st' : pstep m st st' -> schema_ok (fst st) -> schema_ok (fst st').
Proof.
  destruct 1 as [e s s' ts Hstep Hq|i j r s s' ts1 ts2 Hj Hr Hc|i j s s' ts Hj Hr Hc|r k ks s ts1 ts2 Hp|r k ks s ts1 ts2 Hp
    |r k ks j s s' ts1 ts2 He|r s ts1 ts2]; cbn; intros Hs; try done.
  - by eapply step_rows.
  - pose proof (complete_schema i s Hs) as Hs'. by rewrite Hc in Hs'.
  - pose proof (complete_schema i s Hs) as Hs'. by rewrite Hc in Hs'.
  - pose proof (enqueue_schema r k empty_payload 0 s Hs) as Hs'. unfold Queue.enqueue in He. by rewrite He in Hs'.
Qed.

Section accounts.
Context `{UuidFmt} `{Calendar} (cfg : WorkerConfig) (w : string).
Notation tamed := (tame (cfg_max_attempts cfg)).

Lemma tame_schema s s' : tamed s s' -> schema_ok s -> schema_ok s'.
Proof. intros [-> |(e & Hstep & _)] Hs; [done|]. by eapply step_rows. Qed.
Lemma tame_not_in_our_name s s' : schema_ok s -> tamed s s' -> not_in_our_name w s s'.
Proof. intros Hs [-> |(e & Hstep & Hne & _)]; [by apply same_jobs_not_in_our_name|]. by eapply step_not_in_our_name. Qed.

Lemma event_tame s e s' : queue_step (cfg_max_attempts cfg) s e s' ->
  match e with EClaim _ _ | EDelete => False | _ => True end -> tamed s s'.
Proof. intros Hstep He. right. exists e. split; [done|]. split; [intros w' i ->; done|intros ->; done]. Qed.

Lemma complete_tame i s : tamed s (snd (Queue.complete i s)).
Proof. by eapply event_tame; [apply q_complete|]. Qed.
Lemma fail_tame i e b n s : tamed s (snd (Queue.record_failure i e (cfg_max_attempts cfg) b n s)).
Proof. by eapply event_tame; [apply q_fail|]. Qed.
Lemma defer_tame i note d s : tamed s (snd (Queue.defer i note d s)).
Proof. by eapply event_tame; [apply q_defer|]. Qed.
Lemma enqueue_tame r k s : tamed s (snd (Queue.enqueue r k empty_payload s)).
Proof. by eapply event_tame; [apply (q_enqueue _ _ r k empty_payload 0)|]. Qed.

(** The result of a statement decides only where the task goes on. *)
Lemma statement_state j r p s : snd (statement cfg j r p s) =
  match p with
  | Completing => snd (Queue.complete (job_id j) s)
  | Succeeding (k :: _) => snd (Queue.predecessors_done r k s)
  | Enqueueing k _ => snd (Queue.enqueue r k empty_payload s)
  | AskReady => snd (embed_and_summarize_done r s)
  | SettingReady => snd (set_recording_status r Ready s)
  | AskStatus => snd (get_recording r s)
  | Counting => snd (count_untranscribed_segments r s)
  | Requeueing => snd (Queue.enqueue r TranscribeSegment empty_payload s)
  | Deferring d => snd (Queue.defer (job_id j) WINDOW_CLOSED d s)
  | Recording e n => snd (Queue.record_failure (job_id j) (Error.to_string e) (cfg_max_attempts cfg) (Z.max (cfg_poll_secs cfg) 1) n s)
  | Parking => snd (set_recording_status r RecFailed s)
  | _ => s
  end.
Proof.
  destruct p as [c| |[|k ks]|k ks| | | | | |d|e|e n|]; cbn [statement]; try done.
  - by destruct (Queue.complete (job_id j) s) as [[|] ?].
  - by destruct (Queue.predecessors_done r k s) as [[[|]|] ?].
  - by destruct (Queue.enqueue r k empty_payload s) as [[|] ?].
  - by destruct (embed_and_summarize_done r s) as [[[|]|] ?].
  - by destruct (set_recording_status r Ready s) as [[|] ?].
  - by destruct (get_recording r s) as [[|] ?].
  - unfold Queue.select_attempts. by destruct (find_first _ _).
  - by destruct (Queue.record_failure (job_id j) (Error.to_string e) (cfg_max_attempts cfg) (Z.max (cfg_poll_secs cfg) 1) n s) as [[[|]|] ?].
Qed.

Lemma get_recording_reads r s : snd (get_recording r s) = s.
Proof. unfold get_recording. by destruct (db_recordings s !! r). Qed.

Lemma statement_tame j r p s : schema_ok s -> tamed s (snd (statement cfg j r p s)).
Proof.
  intros Hs. rewrite statement_state. destruct p as [c| |[|k ks]|k ks| | | | | |d|e|e n|]; try (by left).
  - apply complete_tame.
  - apply enqueue_tame.
  - by apply set_status_tame.
  - left. apply get_recording_reads.
  - apply enqueue_tame.
  - apply defer_tame.
  - apply fail_tame.
  - by apply set_status_tame.
Qed.

Lemma task_tame t s : schema_ok s -> tamed s (snd (task_statement cfg t s)).
Proof.
  intros Hs. unfold task_statement. destruct (job_recording_id (tk_job t)) as [r|]; [|apply complete_tame].
  pose proof (statement_tame (tk_job t) r (tk_phase t) s Hs) as Ht. by destruct (statement _ _ _ _ s).
Qed.

(** Phases in which the queue has not been told yet. *)
Definition unreported (p : Phase) : bool :=
  match p with Watching _ | Completing | Deferring _ | Failing _ | Recording _ _ => true | _ => false end.

(** The tasks at work and those cut off. *)
Definition hands (p : Process) : list Task := pr_tasks p ++ pr_left p.

(** Every job running in this worker's name is a task's that has yet to report
    it, or was when it was cut off, or was a task's that panicked. *)
Definition accounted (s : Db) (p : Process) : Prop :=
  forall j, j ∈ db_jobs s -> job_state j = Running -> job_locked_by j = Some w ->
    job_id j ∈ pr_lost p \/ exists t, t ∈ hands p /\ job_id (tk_job t) = job_id j /\ unreported (tk_phase t) = true.

Lemma accounted_later s s' p p' :
  not_in_our_name w s s' -> accounted s p ->
  (forall i, i ∈ pr_lost p -> i ∈ pr_lost p') ->
  (forall t, t ∈ hands p -> unreported (tk_phase t) = true ->
     job_id (tk_job t) ∈ pr_lost p' \/
     (exists t', t' ∈ hands p' /\ job_id (tk_job t') = job_id (tk_job t) /\ unreported (tk_phase t') = true) \/
     (forall j', j' ∈ db_jobs s' -> job_id j' = job_id (tk_job t) -> job_state j' = Running -> job_locked_by j' = Some w -> False)) ->
  accounted s' p'.
Proof.
  intros Hours Hacc Hlost Htasks j' Hj' Hrun Hlock. destruct (Hours j' Hj' Hrun Hlock) as (j & Hj & Hid & Hr & Hl).
  destruct (Hacc j Hj Hr Hl) as [Hin|(t & Ht & Hti & Hu)]; [left; rewrite <- Hid; by apply Hlost|].
  rewrite Hid in Hti. destruct (Htasks t Ht Hu) as [Hin|[(t' & Ht' & Hti' & Hu')|Hno]].
  - left. by rewrite <- Hti.
  - right. exists t'. split; [done|]. split; [congruence|done].
  - exfalso. by apply (Hno j').
Qed.

(** Phases whose statement reports the job. *)
Definition reporting (p : Phase) : bool :=
  match p with Completing | Deferring _ | Recording _ _ => true | _ => false end.

(** The statement that reports a job leaves it not running. *)
Lemma row_is s j j' i : schema_ok s -> job_of s i = Some j -> j' ∈ db_jobs s -> job_id j' = i -> j' = j.
Proof. intros Hs Hj Hin <-. rewrite (job_of_elem s j' Hs Hin) in Hj. by injection Hj. Qed.

Lemma complete_reports i s j' : schema_ok s -> j' ∈ db_jobs (snd (Queue.complete i s)) -> job_id j' = i -> job_state j' <> Running.
Proof.
  intros Hs Hin Hid. destruct (complete_eq i s Hs) as (s1 & Heq & _ & _ & _ & Hjobs). rewrite Heq in Hin. cbn in Hin. rewrite Hjobs in Hin.
  apply elem_updated in Hin as (j & Hj & [[Hp ->]|[Hp ->]]); [done|]. apply Z.eqb_neq in Hp. congruence.
Qed.

Lemma running_live j : job_state j = Running -> job_live j = true.
Proof. intros Hr. unfold job_live. by rewrite Hr. Qed.

Lemma reported t s j' :
  schema_ok s -> reporting (tk_phase t) = true ->
  j' ∈ db_jobs (snd (task_statement cfg t s)) -> job_id j' = job_id (tk_job t) ->
  job_state j' = Running -> job_locked_by j' = Some w -> False.
Proof.
  intros Hs Hu Hin Hid Hrun Hlock.
  destruct (tame_not_in_our_name s _ Hs (task_tame t s Hs) j' Hin Hrun Hlock) as (j & Hj & Hjid & Hjr & _).
  pose proof (tame_schema _ _ (task_tame t s Hs) Hs) as Hs'.
  assert (Hjo : job_of s (job_id (tk_job t)) = Some j) by (rewrite <- Hid, <- Hjid; by apply job_of_elem).
  assert (Hsnd : snd (task_statement cfg t s) =
    match job_recording_id (tk_job t) with Some r => snd (statement cfg (tk_job t) r (tk_phase t) s) | None => snd (Queue.complete (job_id (tk_job t)) s) end).
  { unfold task_statement. destruct (job_recording_id _); [|done]. by destruct (statement _ _ _ _ s). }
  rewrite Hsnd in Hin, Hs'. destruct (job_recording_id (tk_job t)) as [r|]; [|by apply (complete_reports _ s j' Hs Hin Hid)].
  rewrite statement_state in Hin, Hs'. destruct (tk_phase t) as [c| |[|k ks]|k ks| | | | | |d|e|e n|]; try done.
  - by apply (complete_reports _ s j' Hs Hin Hid).
  - destruct (defer_eq _ WINDOW_CLOSED d s j Hs Hjo (running_live j Hjr)) as (s1 & Heq & _ & Hof). rewrite Heq in Hin, Hs'. cbn in Hin, Hs'.
    specialize (Hof (job_id (tk_job t))). rewrite Z.eqb_refl in Hof. by rewrite (row_is _ _ _ _ Hs' Hof Hin Hid) in Hrun.
  - destruct (record_failure_eq _ (Error.to_string e) (cfg_max_attempts cfg) (Z.max (cfg_poll_secs cfg) 1) n s j Hs Hjo (running_live j Hjr)) as (s1 & Heq & _ & Hof).
    rewrite Heq in Hin, Hs'. cbn in Hin, Hs'. specialize (Hof (job_id (tk_job t))). rewrite Z.eqb_refl in Hof.
    rewrite (row_is _ _ _ _ Hs' Hof Hin Hid) in Hrun. unfold failed_job in Hrun. cbn in Hrun. by destruct (_ <? cfg_max_attempts cfg).
Qed.

(** A statement of a task that has yet to report: it has still, or nothing of
    its job runs in this worker's name any more. *)
Lemma statement_accounts t t' s s' :
  schema_ok s -> is_watching (tk_phase t) = false -> unreported (tk_phase t) = true -> task_statement cfg t s = (t', s') ->
  (exists t2, t' = Some t2 /\ job_id (tk_job t2) = job_id (tk_job t) /\ unreported (tk_phase t2) = true) \/
  (forall j', j' ∈ db_jobs s' -> job_id j' = job_id (tk_job t) -> job_state j' = Running -> job_locked_by j' = Some w -> False).
Proof.
  intros Hs Hw Hu E. destruct (decide (reporting (tk_phase t) = true \/ job_recording_id (tk_job t) = None)) as [Hrep|Hnot].
  - right. intros j' Hj'. replace s' with (snd (task_statement cfg t s)) in Hj' by (by rewrite E).
    destruct Hrep as [Hrep|Hnone]; [by eapply reported|]. intros Hid Hrun _.
    unfold task_statement in Hj'. rewrite Hnone in Hj'. by eapply complete_reports.
  - destruct (tk_phase t) as [c| | | | | | | | |d|e|e n|] eqn:Hph; try done; try (exfalso; apply Hnot; by left).
    unfold task_statement in E. destruct (job_recording_id (tk_job t)) as [r|] eqn:Hr; [|exfalso; apply Hnot; by right].
    rewrite Hph in E. cbn [statement] in E. unfold Queue.select_attempts in E. destruct (find_first _ (db_jobs s)) as [j|] eqn:Hj; injection E as <- <-.
    + left. by eexists.
    + right. intros j' Hin Hid _ _. pose proof (job_of_elem s j' Hs Hin) as Hof. unfold job_of in Hof. rewrite Hid, Hj in Hof. done.
Qed.
End accounts.

Section invariant.
Context `{UuidFmt} `{Calendar} (cfg : WorkerConfig) (w : string).

Lemma accounted_kept s s' p p' :
  not_in_our_name w s s' -> accounted w s p -> pr_lost p' = pr_lost p -> hands p ⊆ hands p' -> accounted w s' p'.
Proof.
  intros Hours Hacc Hl Ht. eapply accounted_later; [done|done|by rewrite Hl|]. intros t Hin Hu. right. left. exists t. split; [by apply Ht|done].
Qed.

(** One task moves, the others stay. *)
Lemma accounted_moved s s' p p' l1 t l2 :
  pr_tasks p = l1 ++ t :: l2 -> not_in_our_name w s s' -> accounted w s p ->
  (forall i, i ∈ pr_lost p -> i ∈ pr_lost p') -> l1 ++ l2 ++ pr_left p ⊆ hands p' ->
  (unreported (tk_phase t) = true ->
     job_id (tk_job t) ∈ pr_lost p' \/
     (exists t', t' ∈ hands p' /\ job_id (tk_job t') = job_id (tk_job t) /\ unreported (tk_phase t') = true) \/
     (forall j', j' ∈ db_jobs s' -> job_id j' = job_id (tk_job t) -> job_state j' = Running -> job_locked_by j' = Some w -> False)) ->
  accounted w s' p'.
Proof.
  intros Hts Hours Hacc Hl Hsub Ht. eapply accounted_later; [done|done|done|]. intros x Hx Hu. unfold hands in Hx. rewrite Hts in Hx.
  assert (x = t \/ x ∈ l1 ++ l2 ++ pr_left p) as [-> |Hin] by set_solver; [by apply Ht|].
  right. left. exists x. split; [by apply Hsub|done].
Qed.

Lemma claim_iteration_cases locked d s o s' : schema_ok s -> claim_iteration cfg locked w d s = (Ok o, s') ->
  match o with
  | None => s' = s
  | Some j => queue_step (cfg_max_attempts cfg) s (EClaim w (job_id j)) s' /\
      exists c, c ∈ db_jobs s /\ j = claimed (db_now s) w c /\
        forall i, job_of s' i = if i =? job_id j then Some j else job_of s i
  end.
Proof.
  unfold claim_iteration. intros Hs Hc.
  destruct (claim_one_eq locked w (ProcessingSchedule.claimable_kinds (cfg_stages cfg) d) s Hs)
    as [[Heq _]|(c & s1 & Hnext & Heq & Hof & _)]; rewrite Heq in Hc; injection Hc as <- <-; [done|].
  split; [by eapply q_claim|]. exists c. apply next_claim_Some in Hnext as (Hin & _). done.
Qed.

Lemma claimed_id now c : job_id (claimed now w c) = job_id c.
Proof. done. Qed.

(** A step of the process on the database: nothing much, a claim, or somebody else's. *)
Lemma reap_schema older m s rs s' : schema_ok s -> Queue.reap_stuck older m s = (Ok rs, s') -> schema_ok s'.
Proof. intros Hs E. eapply step_rows; [done|by eapply (q_reap m)]. Qed.

Lemma wstep_schema st st' : wstep cfg w st st' -> schema_ok (fst (fst st)) -> schema_ok (fst (fst st')).
Proof.
  destruct 1; cbn [fst snd]; intros Hs; try done; try (by eapply reap_schema).
  - match goal with E : claim_iteration _ _ _ _ _ = _ |- _ => apply (claim_iteration_cases _ _ _ _ _ Hs) in E as [Hq _] end.
    by eapply step_rows.
  - match goal with E : claim_iteration _ _ _ _ _ = _ |- _ => apply (claim_iteration_cases _ _ _ _ _ Hs) in E as -> end. done.
  - match goal with E : task_statement _ _ _ = _ |- _ => pose proof (tame_schema cfg _ _ (task_tame cfg t s Hs) Hs) as Hs'; by rewrite E in Hs' end.
  - match goal with E : Queue.heartbeat _ _ _ = _ |- _ => pose proof (heartbeat_schema (job_id (tk_job t)) w s Hs) as Hs'; by rewrite E in Hs' end.
  - subst. by apply heartbeat_schema.
  - by apply (tame_schema cfg _ _ (set_status_tame r RecFailed (cfg_max_attempts cfg) s Hs)).
  - match goal with E : pstep _ _ _ |- _ => by apply (pstep_schema _ _ _ E) end.
Qed.

Lemma wstep_accounted st st' : wstep cfg w st st' -> schema_ok (fst (fst st)) ->
  accounted w (fst (fst st)) (snd (fst st)) -> accounted w (fst (fst st')) (snd (fst st')).
Proof.
  destruct 1 as [| |d locked j s s' p ets Hpc Hc|d locked s s' p ets Hpc Hc| | |t l1 l2 s s' p ets Hts Hw Hs' Hj Hn Ht
    |r t l1 l2 s p ets Hts Hw|now read sched g at_ nl nu since t l1 l2 s p ets Hts Hph Hby Hg|t l1 l2 s p ets Hts Hw
    |t t' l1 l2 s s' p ets Hts Hw E|b t l1 l2 s s' p ets Hts Hw Hb E|i s s' p ets Hi Hpc ->|rs s s' p ets Hpk Hpc E|r rs s p ets Hp
    |s s' p ets ets' Hstep Hours|t l1 l2 s p ets Hts Hw|t l1 l2 s p ets Hts Hw Hb|rs s s' p ets Hpk Hpc E|r rs s p ets Hp|s p ets Hpc];
    cbn [fst snd]; intros Hs Hacc; try done.
  - apply (claim_iteration_cases _ _ _ _ _ Hs) in Hc as (Hq & c & Hin & -> & Hof). rewrite claimed_id in Hof, Hq.
    intros j' Hj' Hrun Hlock. destruct (decide (job_id j' = job_id c)) as [Hid|Hid].
    { right. exists (spawn (claimed (db_now s) w c)). split; [by left|]. unfold spawn. cbn. by destruct (job_recording_id c). }
    destruct (step_rows _ _ _ _ Hs Hq) as [Hs' _]. pose proof (job_of_elem _ _ Hs' Hj') as Hjo.
    rewrite Hof in Hjo. apply Z.eqb_neq in Hid. rewrite Hid in Hjo. apply job_of_Some in Hjo as [Hjo _].
    destruct (Hacc j' Hjo Hrun Hlock) as [?|(t & Ht & ?)]; [by left|right; exists t]. split; [by right|done].
  - apply (claim_iteration_cases _ _ _ _ _ Hs) in Hc as ->. done.
  - eapply accounted_kept; [by apply same_jobs_not_in_our_name|done..].
  - eapply accounted_moved; [done|by apply same_jobs_not_in_our_name|done|done|unfold hands; set_solver|].
    intros _. right. left. exists (at_phase t (after_outcome (Finished r))). split; [unfold hands; set_solver|]. by destruct r.
  - eapply accounted_moved; [done|by apply same_jobs_not_in_our_name|done|done|unfold hands; set_solver|].
    intros _. right. left. eexists. split; [unfold hands; cbn; apply elem_of_app; left; apply elem_of_app; right; left|]. split; [done|]. unfold at_phase, check_window. cbn.
    destruct (dec_allowed _); [done|]. by destruct (_ <=? _).
  - eapply accounted_moved; [done|by apply same_jobs_not_in_our_name|done|by right|unfold hands; set_solver|]. intros _. left. by left.
  - pose proof (task_tame cfg t s Hs) as Ht. rewrite E in Ht. cbn in Ht.
    eapply accounted_moved; [done|by eapply tame_not_in_our_name|done|by destruct t'|destruct t'; unfold hands; set_solver|].
    intros Hu. destruct (statement_accounts cfg w t t' s s' Hs Hw Hu E) as [(t2 & -> & Hid & Hu2)|?]; [right; left|by right; right].
    exists t2. split; [unfold hands; set_solver|done].
  - pose proof (q_heartbeat (cfg_max_attempts cfg) s (job_id (tk_job t)) w) as Hq. rewrite E in Hq.
    eapply accounted_moved; [done|by eapply step_not_in_our_name|done|done|unfold hands; set_solver|].
    intros Hu. right. left. exists (mkTask (tk_job t) (tk_phase t) b). split; [unfold hands; set_solver|done].
  - eapply accounted_kept; [|done..]. by eapply step_not_in_our_name; [done|apply (q_heartbeat 0)|].
  - eapply accounted_kept; [|done..]. by eapply step_not_in_our_name; [done|eapply q_reap|].
  - eapply accounted_kept; [|done..]. by apply (tame_not_in_our_name cfg w _ _ Hs), set_status_tame.
  - by eapply accounted_kept.
  - eapply accounted_moved; [done|by apply same_jobs_not_in_our_name|done|done|unfold hands; set_solver|].
    intros Hu. right. left. exists t. split; [unfold hands; set_solver|done].
  - eapply accounted_moved; [done|by apply same_jobs_not_in_our_name|done|done|unfold hands; set_solver|].
    intros Hu. right. left. exists (mkTask (tk_job t) (tk_phase t) false). split; [unfold hands; set_solver|done].
  - eapply accounted_kept; [|done..]. by eapply step_not_in_our_name; [done|eapply q_reap|].
Qed.

Lemma wsteps_accounted st st' : rtc (wstep cfg w) st st' -> schema_ok (fst (fst st)) -> accounted w (fst (fst st)) (snd (fst st)) ->
  schema_ok (fst (fst st')) /\ accounted w (fst (fst st')) (snd (fst st')).
Proof.
  induction 1 as [|x y z Hstep _ IH]; [done|]. intros Hs Hacc. apply IH; [by eapply wstep_schema|by eapply wstep_accounted].
Qed.

(** What a lapsed lease leads to. *)
Lemma reap_frees older m s rs s' j j' : schema_ok s -> Queue.reap_stuck older m s = (Ok rs, s') ->
  j ∈ db_jobs s -> expired (db_now s) older j = true -> j' ∈ db_jobs s' -> job_id j' = job_id j -> job_state j' <> Running.
Proof.
  intros Hs E Hj He Hj' Hid. destruct (reap_stuck_eq older m s Hs) as (s1 & Heq & _ & _ & Hjobs). rewrite Heq in E. injection E as _ <-.
  rewrite Hjobs in Hj'. apply elem_updated in Hj' as (x & Hx & Hcase).
  assert (job_id x = job_id j) as Hx0 by (destruct Hcase as [[_ ->]|[_ ->]]; done).
  assert (x = j) as ->. { pose proof (job_of_elem s x Hs Hx). pose proof (job_of_elem s j Hs Hj). congruence. }
  destruct Hcase as [[_ ->]|[Hn _]]; [|congruence]. cbn. by destruct (m <=? _).
Qed.

End invariant.

(** ** The process is one of the workers of [pstep] *)

Lemma pstep_frame m s ts s' ts' front : pstep m (s, ts) (s', ts') -> pstep m (s, front ++ ts) (s', front ++ ts').
Proof.
  intros Hp. inversion Hp; subst; rewrite ?app_assoc; [by eapply p_queue|by eapply p_complete|by eapply p_complete_bare
    |by apply p_check_yes|by apply p_check_no|by eapply p_enqueue|by apply p_finish].
Qed.

Lemma complete_kept i s : schema_ok s -> kept s (snd (Queue.complete i s)).
Proof. intros Hs. destruct (complete_eq i s Hs) as (s1 & Heq & _). rewrite Heq. by apply (complete_jobs i s s1 Hs). Qed.

Lemma pstep_kept m st st' : pstep m st st' -> schema_ok (fst st) -> kept (fst st) (fst st').
Proof.
  destruct 1 as [e s s' ts Hstep Hq|i j r s s' ts1 ts2 Hj Hr Hc|i j s s' ts Hj Hr Hc| | |r k ks j s s' ts1 ts2 He|];
    cbn; intros Hs; try done.
  - by eapply quiet_kept.
  - pose proof (complete_kept i s Hs) as Hk. by rewrite Hc in Hk.
  - pose proof (complete_kept i s Hs) as Hk. by rewrite Hc in Hk.
  - eapply (quiet_kept m s (EEnqueue r k)); [|done]. pose proof (q_enqueue m s r k empty_payload 0) as Hq.
    unfold Queue.enqueue in He. by rewrite He in Hq.
Qed.

Lemma tame_kept m s s' : schema_ok s -> tame m s s' -> kept s s'.
Proof.
  intros Hs [-> |(e & Hq & _ & He)]; [done|]. destruct e; try (by eapply quiet_kept).
  inversion Hq; subst. by apply complete_kept.
Qed.

(** What the task still has to do for the successors of its stage. *)
Definition pending (t : Task) : list task :=
  match job_recording_id (tk_job t), tk_phase t with
  | Some r, Succeeding ks => [TCheck r ks]
  | Some r, Enqueueing k ks => [TEnqueue r k ks]
  | _, _ => []
  end.
Definition all_pending (p : Process) : list task := hands p ≫= pending.

(** The row a task works for is still there. *)
Definition has_row (s : Db) (j : Job) : Prop :=
  exists j', j' ∈ db_jobs s /\ job_id j' = job_id j /\ job_recording_id j' = job_recording_id j /\ job_kind j' = job_kind j.
Definition rows_kept (s : Db) (p : Process) : Prop := forall t, t ∈ hands p -> has_row s (tk_job t).

Lemma kept_row s s' j : kept s s' -> has_row s j -> has_row s' j.
Proof.
  intros Hk (a & Ha & E1 & E2 & E3). destruct (Hk a Ha) as (b & Hb & F1 & F2 & F3). exists b. split; [done|]. split; [|split]; congruence.
Qed.
Lemma row_of_id s j : schema_ok s -> has_row s j ->
  exists a, job_of s (job_id j) = Some a /\ job_recording_id a = job_recording_id j /\ job_kind a = job_kind j.
Proof. intros Hs (a & Ha & E1 & E2 & E3). exists a. rewrite <- E1. split; [by apply job_of_elem|done]. Qed.

Section refinement.
Context `{UuidFmt} `{Calendar} (cfg : WorkerConfig) (w : string).
Notation psteps := (rtc (pstep (cfg_max_attempts cfg))).

Lemma quiet_psteps s e s' ts : queue_step (cfg_max_attempts cfg) s e s' -> quiet e -> psteps (s, ts) (s', ts).
Proof. intros Hq He. apply rtc_once. by eapply p_queue. Qed.

(** The phases that concern the successors; the others never lead back to them. *)
Definition succeeding (p : Phase) : bool :=
  match p with Completing | Succeeding _ | Enqueueing _ _ => true | _ => false end.

Lemma succeeding_later j r p s p' s' :
  succeeding p = false -> is_watching p = false -> statement cfg j r p s = (Some p', s') -> succeeding p' = false.
Proof.
  destruct p as [c| | | | | | | | |d|e|e n|]; cbn [statement succeeding is_watching]; intros Hp Hw E; try done.
  - destruct (embed_and_summarize_done _ _) as [[[|]|] ?]; try done; [by injection E as <- <-|].
    unfold after_ready in E. case_bool_decide; [|done]. by injection E as <- <-.
  - destruct (set_recording_status _ _ _) as [[|] ?]; [|done]. unfold after_ready in E. case_bool_decide; [|done]. by injection E as <- <-.
  - destruct (get_recording _ _) as [[rec|] ?]; [|done]. case_bool_decide; [|done]. by injection E as <- <-.
  - destruct (count_untranscribed_segments _ _) as [[n|] ?]; [|done]. destruct (0 <? n); [|done]. by injection E as <- <-.
  - destruct (Queue.select_attempts _ _) as [[n|] ?]; [|done]. by injection E as <- <-.
  - destruct (Queue.record_failure _ _ _ _ _ _) as [[[|]|] ?]; try done. by injection E as <- <-.
Qed.

Lemma aside_psteps j r p s ts :
  schema_ok s -> succeeding p = false -> psteps (s, ts) (snd (statement cfg j r p s), ts).
Proof.
  intros Hs. rewrite statement_state. destruct p as [c| | | | | | | | |d|e|e n|]; intros Hp; try done.
  - by eapply quiet_psteps; [apply set_status_other|].
  - by rewrite get_recording_reads.
  - by eapply quiet_psteps; [apply (q_enqueue _ _ r TranscribeSegment empty_payload 0)|].
  - by eapply quiet_psteps; [apply q_defer|].
  - by eapply quiet_psteps; [apply q_fail|].
  - by eapply quiet_psteps; [apply set_status_other|].
Qed.

(** Each statement of a task is a step or two of the workers. *)
Lemma statement_psteps t t' s s' a b :
  schema_ok s -> has_row s (tk_job t) -> is_watching (tk_phase t) = false -> task_statement cfg t s = (t', s') ->
  psteps (s, a ++ pending t ++ b) (s', a ++ from_option pending [] t' ++ b).
Proof.
  intros Hs Hrow Hw. destruct (row_of_id s _ Hs Hrow) as (j & Hj & Hjr & Hjk). unfold task_statement, pending.
  destruct (job_recording_id (tk_job t)) as [r|] eqn:Hr.
  2: { destruct (complete_eq (job_id (tk_job t)) s Hs) as (s1 & Heq & _). intros [= <- <-]. cbn.
       rewrite Heq. apply rtc_once. by eapply p_complete_bare. }
  assert (Hfk : fk s r).
  { pose proof (jobs_fk s Hs) as F. rewrite Forall_forall in F. apply job_of_Some in Hj as [Hin _]. by apply (F j). }
  destruct (succeeding (tk_phase t)) eqn:Hsucc.
  2: { destruct (statement cfg (tk_job t) r (tk_phase t) s) as [op s1] eqn:E. intros [= <- <-].
       assert (from_option (fun x => pending x) [] (at_phase t <$> op) = []) as Hnext.
       { destruct op as [p'|]; [|done]. apply succeeding_later in E; [|done|done]. unfold pending. cbn. rewrite Hr. by destruct p'. }
       unfold pending in Hnext. rewrite Hnext. pose proof (aside_psteps (tk_job t) r (tk_phase t) s (a ++ b) Hs Hsucc) as Hp.
       rewrite E in Hp. by destruct (tk_phase t). }
  destruct (tk_phase t) as [c| |[|k ks]|k ks| | | | | |d|e|e n|] eqn:Hph; try done; cbn [statement].
  - destruct (complete_eq (job_id (tk_job t)) s Hs) as (s1 & Heq & _). rewrite Heq. intros [= <- <-]. cbn. rewrite Hr.
    apply rtc_once. rewrite <- Hjk. by eapply p_complete.
  - intros [= <- <-]. etrans; [apply rtc_once, p_finish|]. unfold after_successors, after_ready.
    destruct (is_terminal _); cbn; [by rewrite Hr|]. case_bool_decide; cbn; [by rewrite Hr|done].
  - destruct (predecessors_gate r k s) as ([] & Hg & _); rewrite Hg; intros [= <- <-]; cbn; rewrite Hr; apply rtc_once;
      [by apply p_check_yes|by apply p_check_no].
  - destruct (enqueue_answers r k empty_payload 0 s Hs Hfk) as (j' & s1 & Heq & _). fold (Queue.enqueue r k empty_payload) in Heq.
    rewrite Heq. intros [= <- <-]. cbn. rewrite Hr. apply rtc_once. by eapply p_enqueue.
Qed.

(** What the workers of [pstep] see of this system; they do not mind the order. *)
Definition seen (st : System) : Db * list task := (fst (fst st), all_pending (snd (fst st)) ++ snd st).

Lemma all_pending_at p l1 t l2 : pr_tasks p = l1 ++ t :: l2 ->
  all_pending p = (l1 ≫= pending) ++ pending t ++ (l2 ≫= pending) ++ (pr_left p ≫= pending).
Proof. intros E. unfold all_pending, hands. by rewrite E, !bind_app, bind_cons, <- !app_assoc. Qed.

(** A step of the process that touches no job of a task's is silent or a step
    of the queue; in either case the jobs stay. *)
Lemma reap_kept older m s rs s' : Queue.reap_stuck older m s = (Ok rs, s') -> kept s s'.
Proof. intros E. by eapply quiet_kept; [apply (q_reap m _ _ _ _ E)|]. Qed.

Lemma wstep_kept st st' : wstep cfg w st st' -> schema_ok (fst (fst st)) -> kept (fst (fst st)) (fst (fst st')).
Proof.
  destruct 1; cbn [fst snd]; intros Hs; try done; try (by eapply reap_kept).
  - match goal with E : claim_iteration _ _ _ _ _ = _ |- _ => apply (claim_iteration_cases _ _ _ _ _ _ _ Hs) in E as [Hq _] end.
    by eapply quiet_kept.
  - match goal with E : claim_iteration _ _ _ _ _ = _ |- _ => apply (claim_iteration_cases _ _ _ _ _ _ _ Hs) in E as -> end. done.
  - by apply kept_same.
  - match goal with E : task_statement _ _ _ = _ |- _ => pose proof (tame_kept _ _ _ Hs (task_tame cfg t s Hs)) as Hk; by rewrite E in Hk end.
  - match goal with E : Queue.heartbeat _ _ _ = _ |- _ => pose proof (quiet_kept _ _ _ _ (q_heartbeat 0 s (job_id (tk_job t)) w) I) as Hk; by rewrite E in Hk end.
  - subst. by apply (quiet_kept _ _ _ _ (q_heartbeat 0 s i w)).
  - eapply tame_kept; [done|]. by apply (set_status_tame r RecFailed (cfg_max_attempts cfg)).
  - match goal with E : pstep _ _ _ |- _ => by apply (pstep_kept _ _ _ E) end.
Qed.

Lemma spawn_job j : tk_job (spawn j) = j.
Proof. unfold spawn. by destruct (job_recording_id j). Qed.
Lemma spawn_pending j : pending (spawn j) = [].
Proof. unfold spawn, pending. by destruct (job_recording_id j) eqn:E; cbn; rewrite E. Qed.

Lemma rows_kept_moved s s' p p' :
  kept s s' -> rows_kept s p -> (forall t, t ∈ hands p' -> exists t0, t0 ∈ hands p /\ tk_job t = tk_job t0) -> rows_kept s' p'.
Proof. intros Hk Hrows Hsub t Ht. destruct (Hsub t Ht) as (t0 & Ht0 & ->). by apply (kept_row s), Hrows. Qed.

Lemma moved_job l1 l2 t t' p p' : pr_tasks p = l1 ++ t :: l2 -> pr_tasks p' = l1 ++ t' :: l2 -> pr_left p' = pr_left p -> tk_job t' = tk_job t ->
  forall x, x ∈ hands p' -> exists x0, x0 ∈ hands p /\ tk_job x = tk_job x0.
Proof.
  unfold hands. intros -> -> -> Hj x Hx. rewrite <- app_assoc, <- app_comm_cons in *.
  apply elem_of_app in Hx as [Hx|[->|Hx]%elem_of_cons]; [exists x|exists t|exists x]; (split; [set_solver|done]).
Qed.

Lemma task_statement_job t t' s s' : task_statement cfg t s = (Some t', s') -> tk_job t' = tk_job t.
Proof.
  unfold task_statement. destruct (job_recording_id _); [|done]. destruct (statement _ _ _ _ _) as [[q|] ?]; [|done]. by intros [= <- <-].
Qed.

Lemma fewer_hands p p' : hands p' ⊆ hands p -> forall x, x ∈ hands p' -> exists x0, x0 ∈ hands p /\ tk_job x = tk_job x0.
Proof. intros Hsub x Hx. exists x. split; [by apply Hsub|done]. Qed.

Lemma wstep_rows_kept st st' : wstep cfg w st st' -> schema_ok (fst (fst st)) ->
  rows_kept (fst (fst st)) (snd (fst st)) -> rows_kept (fst (fst st')) (snd (fst st')).
Proof.
  intros Hstep Hs Hrows. pose proof (wstep_kept _ _ Hstep Hs) as Hk.
  destruct Hstep as [| |d locked j s s' p ets Hpc Hc| | | | |r t l1 l2 s p ets Hts Hw
    |now read sched g at_ nl nu since t l1 l2 s p ets Hts Hph Hby Hg|t l1 l2 s p ets Hts Hw
    |t t' l1 l2 s s' p ets Hts Hw E|b t l1 l2 s s' p ets Hts Hw Hb E| | | |
    |t l1 l2 s p ets Hts Hw|t l1 l2 s p ets Hts Hw Hb| | |s p ets Hpc]; cbn [fst snd] in *;
    try (eapply rows_kept_moved; [done|done|by apply fewer_hands]).
  - apply (claim_iteration_cases _ _ _ _ _ _ _ Hs) in Hc as (_ & c & Hin & -> & _). intros t Ht. cbn in Ht.
    apply elem_of_cons in Ht as [->|Ht]; [|by apply (kept_row s), Hrows].
    apply (kept_row s); [done|]. exists c. by rewrite spawn_job.
  - eapply rows_kept_moved; [done|done|]. by eapply moved_job.
  - eapply rows_kept_moved; [done|done|]. by eapply moved_job.
  - eapply rows_kept_moved; [done|done|apply fewer_hands]. unfold hands. cbn. rewrite Hts. set_solver.
  - eapply rows_kept_moved; [done|done|]. destruct t' as [t'|].
    + eapply (moved_job l1 l2 t t'); [done|done|done|]. by eapply task_statement_job.
    + apply fewer_hands. unfold hands. cbn. rewrite Hts. set_solver.
  - eapply rows_kept_moved; [done|done|]. by eapply moved_job.
  - eapply rows_kept_moved; [done|done|apply fewer_hands]. unfold hands. cbn. rewrite Hts. set_solver.
  - eapply rows_kept_moved; [done|done|]. by eapply moved_job.
Qed.

Lemma still_pending p l1 t t' l2 : pr_tasks p = l1 ++ t :: l2 -> pending t' = pending t ->
  all_pending (with_tasks (l1 ++ t' :: l2) p) = all_pending p.
Proof. intros E Hp. unfold all_pending, hands. cbn. by rewrite E, !bind_app, !bind_cons, Hp. Qed.

Lemma with_gate_pending g p : all_pending (with_gate g p) = all_pending p.
Proof. done. Qed.

Lemma watching_pending t : is_watching (tk_phase t) = true -> pending t = [].
Proof. unfold pending. destruct (job_recording_id _); [|done]. by destruct (tk_phase t). Qed.

Lemma reap_psteps older s rs s' ts : Queue.reap_stuck older (cfg_max_attempts cfg) s = (Ok rs, s') -> psteps (s, ts) (s', ts).
Proof. intros E. by eapply quiet_psteps; [eapply q_reap|]. Qed.

(** One step of the process is some steps of the workers, or cuts tasks off. *)
Lemma wstep_psteps st st' : wstep cfg w st st' -> schema_ok (fst (fst st)) -> rows_kept (fst (fst st)) (snd (fst st)) ->
  psteps (seen st) (seen st') \/ (fst (fst st') = fst (fst st) /\ snd (seen st') ≡ₚ snd (seen st)).
Proof.
  destruct 1 as [| |d locked j s s' p ets Hpc Hc|d locked s s' p ets Hpc Hc| | |t l1 l2 s s' p ets Hts Hw Hs' Hj Hn Ht
    |r t l1 l2 s p ets Hts Hw|now read sched g at_ nl nu since t l1 l2 s p ets Hts Hph Hby Hg|t l1 l2 s p ets Hts Hw
    |t t' l1 l2 s s' p ets Hts Hw E|b t l1 l2 s s' p ets Hts Hw Hb E|i s s' p ets Hi Hpc ->|rs s s' p ets Hpk Hpc E|r rs s p ets Hp
    |s s' p ets ets' Hstep Hours|t l1 l2 s p ets Hts Hw|t l1 l2 s p ets Hts Hw Hb|rs s s' p ets Hpk Hpc E|r rs s p ets Hp|s p ets Hpc];
    unfold seen; cbn [fst snd]; intros Hs Hrows; try (by left); try (left; by eapply reap_psteps).
  - left. apply (claim_iteration_cases _ _ _ _ _ _ _ Hs) in Hc as [Hq _].
    assert (all_pending (at_pc Acquiring (pr_permits p) (with_tasks (spawn j :: pr_tasks p) p)) = all_pending p) as ->.
    { unfold all_pending, hands. cbn [at_pc with_tasks pr_tasks pr_left app]. by rewrite bind_cons, spawn_pending. }
    by eapply quiet_psteps.
  - left. by apply (claim_iteration_cases _ _ _ _ _ _ _ Hs) in Hc as ->.
  - left. by eapply quiet_psteps; [apply q_other|].
  - left. rewrite (still_pending p l1 t); [done|done|]. rewrite (watching_pending t) by done.
    unfold pending. cbn. destruct (job_recording_id _); [|done]. by destruct r.
  - left. rewrite (with_gate_pending g), (still_pending p l1 t); [done|done|].
    rewrite (watching_pending t) by (by rewrite Hph). unfold pending. cbn. destruct (job_recording_id _); [|done].
    unfold check_window. destruct (dec_allowed _); [done|]. by destruct (_ <=? _).
  - left. rewrite (all_pending_at p l1 t l2 Hts), (watching_pending t Hw). unfold all_pending, hands. cbn. by rewrite !bind_app, <- !app_assoc.
  - left. rewrite (all_pending_at p l1 t l2 Hts), <- !app_assoc.
    pose proof (statement_psteps t t' s s' (l1 ≫= pending) ((l2 ≫= pending) ++ (pr_left p ≫= pending) ++ ets) Hs) as Hp.
    assert (all_pending (put_back t' l1 l2 p) = (l1 ≫= pending) ++ from_option pending [] t' ++ (l2 ≫= pending) ++ (pr_left p ≫= pending)) as ->.
    { clear. unfold all_pending, hands. destruct t' as [t'|]; cbn [put_back with_tasks at_pc pr_tasks pr_left from_option]; rewrite !bind_app, ?bind_cons, <- ?app_assoc; done. }
    rewrite <- !app_assoc. apply Hp; [|done|done]. apply Hrows. unfold hands. rewrite Hts. set_solver.
  - left. rewrite (still_pending p l1 t); [|done|done].
    pose proof (q_heartbeat (cfg_max_attempts cfg) s (job_id (tk_job t)) w) as Hq. rewrite E in Hq. by eapply quiet_psteps.
  - left. by eapply quiet_psteps; [apply q_heartbeat|].
  - left. by eapply quiet_psteps; [apply set_status_other|].
  - left. apply rtc_once. by apply pstep_frame.
  - right. split; [done|]. rewrite (all_pending_at p l1 t l2 Hts). unfold all_pending, hands. cbn.
    rewrite !bind_app, bind_cons, <- !app_assoc. solve_Permutation.
  - left. by rewrite (still_pending p l1 t).
Qed.

(** No stage is forgotten, whichever of its workers' tasks were cut off. *)
Lemma wsteps_not_forgotten st st' : rtc (wstep cfg w) st st' -> schema_ok (fst (fst st)) -> rows_kept (fst (fst st)) (snd (fst st)) ->
  not_forgotten (seen st) -> not_forgotten (seen st') /\ schema_ok (fst (fst st')) /\ rows_kept (fst (fst st')) (snd (fst st')).
Proof.
  induction 1 as [|x y z Hstep _ IH]; [done|]. intros Hs Hrows Hnf.
  apply IH; [by eapply wstep_schema|by eapply wstep_rows_kept|].
  destruct (wstep_psteps x y Hstep Hs Hrows) as [Hp|[Hdb Hperm]]; [by apply (psteps_invariant _ _ _ Hp)|].
  intros r k Hne Hall. unfold seen in *. cbn [fst snd] in *. rewrite Hdb in *.
  destruct (Hnf r k Hne Hall) as [?|(t & Ht & Hk)]; [by left|right]. exists t. by rewrite Hperm.
Qed.

Lemma empty_not_forgotten now ts : not_forgotten (empty_db now, ts).
Proof.
  intros r k Hne Hall. exfalso. destruct (JobKind.predecessors k) as [|p ps]; [done|].
  destruct (Hall p ltac:(left)) as (j & Hj & _). inversion Hj.
Qed.

(** The task has completed its job and has the successor [k] still to come to. *)
Definition on_its_way (r : Uuid) (k : JobKind) (t : Task) : Prop :=
  job_recording_id (tk_job t) = Some r /\
  match tk_phase t with Succeeding ks => k ∈ ks | Enqueueing k' ks => k = k' \/ k ∈ ks | _ => False end.

Lemma pending_on_its_way r k p t : t ∈ all_pending p -> will_check r k t ->
  (exists x, x ∈ pr_tasks p /\ on_its_way r k x) \/ (exists x, x ∈ pr_left p /\ on_its_way r k x).
Proof.
  unfold all_pending, hands. intros (x & Ht & Hx)%list_elem_of_bind Hk.
  assert (on_its_way r k x).
  { unfold pending, on_its_way in *. destruct (job_recording_id (tk_job x)) as [r'|]; [|inversion Ht].
    destruct (tk_phase x); try (by inversion Ht); apply list_elem_of_singleton in Ht as ->; cbn in Hk; destruct Hk as [-> ?]; done. }
  apply elem_of_app in Hx as [Hx|Hx]; [left|right]; by exists x.
Qed.


(** A task the loop leaves alone runs as [run_task]. *)
Lemma run_task_wsteps n t l1 l2 s p ets : pr_tasks p = l1 ++ t :: l2 -> is_watching (tk_phase t) = false ->
  rtc (wstep cfg w) (s, p, ets)
    (snd (run_task cfg n (Some t) s), put_back (fst (run_task cfg n (Some t) s)) l1 l2 p, ets).
Proof.
  revert t s p. induction n as [|n IH]; intros t s p Hts Hw; cbn [run_task fst snd].
  { unfold put_back, with_tasks. rewrite <- Hts. by destruct p. }
  destruct (task_statement cfg t s) as [t' s1] eqn:E. eapply rtc_l; [by eapply w_statement|].
  destruct t' as [t'|]; [|by destruct n]. apply (IH t' s1 (put_back (Some t') l1 l2 p)); [done|].
  unfold task_statement in E. destruct (job_recording_id _); [|done]. destruct (statement _ _ _ _ _) as [[q|] s2] eqn:Es; [|done].
  injection E as <- <-. by apply statement_left in Es as [? _].
Qed.
End refinement.

(** ** Witnesses: a worker that transcodes *)

Notation toy_step := (@wstep plain_uuid unix_calendar sample_cfg "w").
Definition sample_gate : ScheduleDecision * GateState :=
  gate_decide 0 (Err (Internal "no schedule")) 0 0 (mkGate None None).
Definition sample_process (pc : Pc) (ts : list Task) : Process :=
  mkProcess pc 1 ts (snd sample_gate) [] [] [].
Definition sample_task (p : Phase) : Task := mkTask (the_job sample_running) p true.

Lemma sample_claims_it : rtc toy_step (sample_queued, started 2, [])
  (sample_running, sample_process Acquiring [sample_task (Watching None)], []).
Proof.
  eapply rtc_l; [by apply (w_acquire _ _ 1)|].
  eapply rtc_l; [by apply (w_decide _ _ 0 (Err (Internal "no schedule")) 0 0 (fst sample_gate) (snd sample_gate))|].
  apply rtc_once. apply (w_claimed _ _ (fst sample_gate) [] (the_job sample_running)); [done|]. vm_compute. reflexivity.
Qed.

(** From an empty queue: somebody else puts the recording and its job there. *)
Lemma sample_arrives : rtc toy_step (empty_db 0, started 2, []) (sample_queued, started 2, []).
Proof.
  assert (Hq : queue_step 3 sample_db (EEnqueue 1 Transcode) sample_queued) by apply (q_enqueue _ _ 1 Transcode JNull 0).
  eapply rtc_l.
  - apply (w_others _ _ _ sample_db); [|by apply same_jobs_not_in_our_name].
    apply (p_queue _ EOther); [by apply (q_other _ _ sample_db sample_schema)|done].
  - apply rtc_once. apply (w_others _ _ _ sample_queued); [by apply (p_queue _ _ _ _ _ Hq)|].
    by eapply step_not_in_our_name; [apply sample_schema|exact Hq|].
Qed.

Lemma sample_runs n : rtc toy_step (empty_db 0, started 2, [])
  (snd (@run_task plain_uuid sample_cfg n (Some (sample_task Completing)) sample_running),
   put_back (fst (@run_task plain_uuid sample_cfg n (Some (sample_task Completing)) sample_running)) [] []
     (sample_process Acquiring [sample_task Completing]), []).
Proof.
  etrans; [exact sample_arrives|]. etrans; [exact sample_claims_it|].
  eapply rtc_l; [by apply (w_stage_done _ _ (Ok tt) (sample_task (Watching None)) [] [])|].
  by apply (run_task_wsteps sample_cfg "w" n (sample_task Completing) [] []).
Qed.

Lemma permits_suffice_witness :
  (length (pr_tasks (sample_process Acquiring [sample_task (Watching None)])) + 0 <= 2)%nat.
Proof.
  destruct (@permits_suffice plain_uuid unix_calendar sample_cfg "w" _ _ _ _ _ _ sample_claims_it) as [Hle _]. exact Hle.
Defined.



(** The same worker, its connection lost after [complete]: nobody enqueues the
    successors. *)
Definition cut_process : Process := cut_off (sample_task (Succeeding [Diarize; Transcribe])) [] [] (sample_process Acquiring [sample_task (Succeeding [Diarize; Transcribe])]).

Example cut_off_forgets :
  rtc toy_step (empty_db 0, started 2, []) (sample_completed, cut_process, []) /\
  pr_tasks cut_process = [] /\ ~ has_job sample_completed 1 Transcribe.
Proof.
  split; [|split; [reflexivity|]].
  - eapply rtc_r; [exact (sample_runs 1)|]. by apply (w_statement_fails _ _ (sample_task (Succeeding [Diarize; Transcribe])) [] []).
  - intros (j & Hj & _ & Hk). vm_compute in Hj. apply list_elem_of_singleton in Hj as ->. discriminate Hk.
Qed.
