(* ===== verification/Readiness.v ===== *)
(** * When a recording becomes ready

    Embedding and summarizing finish in either order, perhaps at the same time
    in two tasks, and each asks afterwards whether both are done.  Whoever asks
    last sees both: no recording whose last stages are done is left unready,
    unless the task that would ask last is cut off. *)

From Stdlib Require Import String.
From S2P Require Import Prelude RustStr Types Schedule Db DbSchema Queue QueueSteps Store StoreProps Worker WorkerProps WorkerLoop WorkerLoopProps.

(** The task that completed a last stage has yet to mark the recording. *)
Definition about_to_mark (r : Uuid) (t : Task) : Prop :=
  job_recording_id (tk_job t) = Some r /\ is_terminal (job_kind (tk_job t)) = true /\
  (tk_phase t = Succeeding [] \/ tk_phase t = AskReady \/ tk_phase t = SettingReady).

Definition is_ready (r : Uuid) (s : Db) : Prop :=
  exists row, db_recordings s !! r = Some row /\ rec_status (rr_rec row) = Ready.

(** The database and the process of a system. *)
Notation db_in st := (fst (fst st)).
Notation process_in st := (snd (fst st)).

(** The last stages of a recording are this worker's: a step that is not the
    process's own makes neither of them done. *)
Definition left_to_us (r : Uuid) (st st' : System) : Prop :=
  process_in st' = process_in st -> forall k, is_terminal k = true -> done_job (db_in st') r k -> done_job (db_in st) r k.

Section ready.
Context `{UuidFmt} `{Calendar} (cfg : WorkerConfig) (w : string).

Definition own_step (r : Uuid) (st st' : System) : Prop := wstep cfg w st st' /\ left_to_us r st st'.

(** A statement other than [complete] makes no job done. *)
Lemma statement_done j r p s r' k : schema_ok s -> p <> Completing ->
  done_job (snd (statement cfg j r p s)) r' k -> done_job s r' k.
Proof.
  intros Hs Hp. rewrite statement_state.
  assert (Hq : forall e s', queue_step (cfg_max_attempts cfg) s e s' -> quiet e -> done_job s' r' k -> done_job s r' k)
    by (intros e s'; by apply quiet_done_job).
  destruct p as [c| |[|k0 ks]|k0 ks| | | | | |d|e|e n|]; try done.
  - by eapply Hq; [apply (q_enqueue _ _ r k0 empty_payload 0)|].
  - by eapply Hq; [apply set_status_other|].
  - by rewrite get_recording_reads.
  - by eapply Hq; [apply (q_enqueue _ _ r TranscribeSegment empty_payload 0)|].
  - by eapply Hq; [apply q_defer|].
  - by eapply Hq; [apply q_fail|].
  - by eapply Hq; [apply set_status_other|].
Qed.

(** A step that is no statement of a task leaves the tasks past their stage
    alone, or cuts them off, and unless the process stays as it is makes no job
    done. *)
Lemma wstep_cases st st' : wstep cfg w st st' -> schema_ok (db_in st) ->
  (exists t t' l1 l2, pr_tasks (process_in st) = l1 ++ t :: l2 /\ is_watching (tk_phase t) = false /\
     task_statement cfg t (db_in st) = (t', db_in st') /\ process_in st' = put_back t' l1 l2 (process_in st)) \/
  ((forall t, t ∈ hands (process_in st) -> is_watching (tk_phase t) = false -> t ∈ hands (process_in st')) /\
   (process_in st' = process_in st \/ forall r k, done_job (db_in st') r k -> done_job (db_in st) r k)).
Proof.
  destruct 1 as [| |d locked j s s' p ets Hpc Hc|d locked s s' p ets Hpc Hc| | |
    |r t l1 l2 s p ets Hts Hw|now read sched g at_ nl nu since t l1 l2 s p ets Hts Hph Hby Hg|t l1 l2 s p ets Hts Hw
    |t t' l1 l2 s s' p ets Hts Hw E|b t l1 l2 s s' p ets Hts Hw Hb E| |rs s s' p ets Hpk Hpc E|r rs s p ets Hp|
    |t l1 l2 s p ets Hts Hw|t l1 l2 s p ets Hts Hw Hb| | |];
    cbn [fst snd]; intros Hs; try (right; split; [done|by left]).
  all: try (left; by exists t, t', l1, l2).
  all: try (right; split; [done|by right]).
  all: assert (Hstays : forall (l1 l2 new left : list Task) t x, is_watching (tk_phase t) = true -> x ∈ (l1 ++ t :: l2) ++ left ->
         is_watching (tk_phase x) = false -> x ∈ (l1 ++ new ++ l2) ++ left)
    by (intros m1 m2 new left t0 x Ht0 Hx Hwx; assert (x = t0 \/ x ∈ m1 ++ m2 ++ left) as [->|?] by set_solver; [congruence|set_solver]).
  all: unfold hands.
  - apply (claim_iteration_cases _ _ _ _ _ _ _ Hs) in Hc as [Hq _]. right. split; [intros x Hx _; by right|].
    right. intros r k. by eapply quiet_done_job.
  - apply (claim_iteration_cases _ _ _ _ _ _ _ Hs) in Hc as ->. right. split; [done|by right].
  - right. split; [intros x; rewrite Hts; by apply (Hstays _ _ [_])|by right].
  - right. split; [intros x; rewrite Hts; apply (Hstays _ _ [_]); by rewrite Hph|by right].
  - right. split; [intros x; rewrite Hts; by apply (Hstays _ _ [])|by right].
  - right. split; [intros x; rewrite Hts; by apply (Hstays _ _ [_])|right]. intros r k.
    pose proof (q_heartbeat 0 s (job_id (tk_job t)) w) as Hq. rewrite E in Hq. by eapply quiet_done_job.
  - right. split; [done|right]. intros r k. by eapply quiet_done_job; [|eapply q_reap|].
  - right. split; [done|right]. intros r0 k. by eapply quiet_done_job; [|by apply (set_status_other r RecFailed 0)|].
  - right. split; [|by right]. intros x. rewrite Hts. cbn. set_solver.
  - right. split; [intros x; rewrite Hts; by apply (Hstays _ _ [_])|by right].
Qed.

(** What a statement does for the recording's readiness. *)
Lemma marking t t' s s' r : schema_ok s -> has_row s (tk_job t) -> is_watching (tk_phase t) = false ->
  task_statement cfg t s = (t', s') -> both_done s' r ->
  (both_done s r /\ (about_to_mark r t -> is_ready r s' \/ from_option (about_to_mark r) False t')) \/
  from_option (about_to_mark r) False t'.
Proof.
  intros Hs Hrow Hw E Hboth. destruct (row_of_id s _ Hs Hrow) as (a & Ha & Har & Hak).
  assert ((tk_phase t = Completing \/ job_recording_id (tk_job t) = None) \/ (tk_phase t <> Completing /\ job_recording_id (tk_job t) <> None)) as [Hc|[Hnc Hnr]]
    by (destruct (tk_phase t), (job_recording_id (tk_job t)); auto).
  - assert (Hs' : s' = snd (Queue.complete (job_id (tk_job t)) s)).
    { unfold task_statement in E. destruct (job_recording_id (tk_job t)) as [r0|]; [|by injection E as _ <-].
      destruct Hc as [Hc|]; [|done]. destruct (statement _ _ _ _ _) as [q s1] eqn:Es. injection E as _ <-.
      pose proof (statement_state cfg (tk_job t) r0 (tk_phase t) s) as Hst. rewrite Es, Hc in Hst. done. }
    destruct (complete_eq (job_id (tk_job t)) s Hs) as (s1 & Heq & _). rewrite Heq in Hs'. cbn in Hs'. subst s1.
    destruct (complete_jobs _ _ _ Hs Heq) as (_ & _ & Hdone).
    assert (Hlast : forall k, is_terminal k = true -> done_job s' r k -> done_job s r k \/ from_option (about_to_mark r) False t').
    { intros k Hk [?|(j & Hj & Hjr & Hjk)]%Hdone; [by left|right]. assert (j = a) as -> by congruence.
      assert (Hr : job_recording_id (tk_job t) = Some r) by congruence. destruct Hc as [Hc|Hc]; [|congruence].
      unfold task_statement in E. rewrite Hr, Hc in E. cbn [statement] in E. rewrite Heq in E. injection E as <-. cbn.
      split; [done|]. cbn. rewrite <- Hak, Hjk. split; [done|]. left. by destruct k. }
    destruct Hboth as [He Hm]. destruct (Hlast Embed) as [Hde|?]; [done|done| |by right].
    destruct (Hlast Summarize) as [Hds|?]; [done|done| |by right]. left. split; [done|].
    intros (Hr & _ & Hph). destruct Hc as [Hc|Hc]; [|congruence]. rewrite Hc in Hph. by destruct Hph as [|[|]].
  - left. unfold task_statement in E. destruct (job_recording_id (tk_job t)) as [r0|] eqn:Hr0; [|tauto].
    destruct (statement cfg (tk_job t) r0 (tk_phase t) s) as [q s1] eqn:Es. injection E as <- <-.
    assert (Hb : both_done s r).
    { destruct Hboth as [He Hm]. pose proof (f_equal snd Es) as Hst. cbn in Hst. subst s1.
      split; (eapply statement_done; [done| |eassumption]); tauto. }
    split; [done|]. intros (Hr & Hk & Hph). rewrite Hr0 in Hr. injection Hr as ->.
    destruct Hph as [Hph|[Hph|Hph]]; rewrite Hph in Es; cbn [statement] in Es.
    + right. injection Es as <- _. unfold after_successors. rewrite Hk. cbn. split; [done|]. split; [done|]. by right; left.
    + right. destruct (both_done_query r s) as (b & Hq & Hiff). rewrite Hq in Es. rewrite (proj2 Hiff Hb) in Es.
      injection Es as <- _. cbn. split; [done|]. split; [done|]. by right; right.
    + left. destruct (set_status_ok r Ready s) as (s2 & Heq & (row & Hrw & Hrec) & _).
      { pose proof (jobs_fk s Hs) as F. rewrite Forall_forall in F. apply job_of_Some in Ha as [Hin _]. apply (F a Hin). congruence. }
      rewrite Heq in Es. injection Es as _ <-. exists (with_status Ready row). by rewrite Hrec, lookup_insert_eq.
Qed.

(** Whoever asks last sees both. *)
Definition marked_or_about (r : Uuid) (was_ready : Prop) (st : System) : Prop :=
  both_done (db_in st) r -> was_ready \/ exists t, t ∈ hands (process_in st) /\ about_to_mark r t.

Lemma about_not_watching r t : about_to_mark r t -> is_watching (tk_phase t) = false.
Proof. by intros (_ & _ & [-> |[-> | ->]]). Qed.

Lemma own_step_marked r P st st' : own_step r st st' -> schema_ok (db_in st) -> rows_kept (db_in st) (process_in st) ->
  marked_or_about r P st -> marked_or_about r (P \/ is_ready r (db_in st')) st'.
Proof.
  intros [Hstep Hours] Hs Hrows Hinv Hboth. destruct (wstep_cases _ _ Hstep Hs) as [(t & t' & l1 & l2 & Hts & Hw & E & Hp)|[Hstay Hdone]].
  - assert (Hnew : from_option (about_to_mark r) False t' -> exists x, x ∈ hands (process_in st') /\ about_to_mark r x).
    { destruct t' as [t'|]; [|done]. intros Ht. exists t'. split; [|done]. rewrite Hp. unfold hands. cbn. set_solver. }
    assert (Ht : t ∈ hands (process_in st)) by (unfold hands; rewrite Hts; set_solver).
    destruct (marking t t' _ _ r Hs (Hrows t Ht) Hw E Hboth) as [[Hb Hm]|?]; [|right; auto].
    destruct (Hinv Hb) as [?|(x & Hx & Ha)]; [by left; left|]. unfold hands in Hx. rewrite Hts in Hx.
    assert (x = t \/ x ∈ l1 ++ l2 ++ pr_left (process_in st)) as [->|Hin] by set_solver.
    + destruct (Hm Ha) as [?|?]; [by left; right|right; auto].
    + right. exists x. split; [|done]. rewrite Hp. unfold hands. destruct t' as [t'|]; cbn; set_solver.
  - assert (Hb : both_done (db_in st) r).
    { destruct Hboth as [He Hm]. destruct Hdone as [Heq|Hdone]; [|by split; apply Hdone].
      split; apply Hours; done. }
    destruct (Hinv Hb) as [?|(x & Hx & Ha)]; [by left; left|]. right. exists x. split; [|done].
    apply Hstay; [done|by eapply about_not_watching].
Qed.

(** C4: A finished recording is marked, unless the last task was cut off.  Let
    the last stages of a recording, not both done at the start, be completed by
    this worker only, by whatever tasks and interleaved in whatever way with
    everything else, statements failing where they may.  As soon as both are
    done, the recording has been marked [ready] in the course of the run, or a
    task that completed one of them is about to ask and mark it, or such a task
    was cut off there, its statement having failed or the process having ended.
    So once this worker has no task in hand and none was cut off, the recording
    has been marked. *)
Theorem finished_is_marked (r : Uuid) (s s' : Db) (p : Process) (ets ets' : list task) (configured : Z) :
  schema_ok s -> ~ both_done s r -> rtc (own_step r) (s, started configured, ets) (s', p, ets') -> both_done s' r ->
  (exists mid, rtc (own_step r) (s, started configured, ets) mid /\ rtc (own_step r) mid (s', p, ets') /\ is_ready r (db_in mid)) \/
  (exists t, t ∈ pr_tasks p /\ about_to_mark r t) \/ (exists t, t ∈ pr_left p /\ about_to_mark r t).
Proof.
  intros Hs Hno Hrun. set (st0 := (s, started configured, ets)) in *.
  assert (Hgen : forall st, rtc (own_step r) st0 st -> schema_ok (db_in st) /\ rows_kept (db_in st) (process_in st) /\
    marked_or_about r (exists mid, rtc (own_step r) st0 mid /\ rtc (own_step r) mid st /\ is_ready r (db_in mid)) st).
  { intros st Hst. pattern st. revert st Hst. apply rtc_ind_r.
    - split; [done|]. split; [intros t Ht; inversion Ht|]. intros Hb. by exfalso.
    - intros x y Hx Hstep (Hsx & Hrx & Hinv). pose proof Hstep as [Hw _].
      split; [by eapply wstep_schema|]. split; [by eapply wstep_rows_kept|]. intros Hb.
      destruct (own_step_marked r _ x y Hstep Hsx Hrx Hinv Hb) as [[(mid & Hm1 & Hm2 & Hm)|Hready]|?]; [left|left|by right].
      + exists mid. split; [done|]. split; [by eapply rtc_r|done].
      + exists y. split; [by eapply rtc_r|]. by split. }
  intros Hb. destruct (Hgen _ Hrun) as (_ & _ & Hinv).
  destruct (Hinv Hb) as [?|(t & [?|?]%elem_of_app & ?)]; [by left|right; left; by exists t|right; right; by exists t].
Qed.
End ready.

(** ** Witness: a worker that finishes the second of the two *)

Definition embedded_db : Db :=
  snd (Queue.complete 1 (snd (Queue.claim_one [] "v" [Embed] (snd (Queue.enqueue 1 Embed JNull sample_db))))).
Definition half_done : Db := snd (Queue.enqueue 1 Summarize JNull embedded_db).
Definition half_claimed : Db := snd (Queue.claim_one [] "w" JobKind.ALL half_done).
Definition both_completed : Db := snd (Queue.complete 2 half_claimed).
Definition both_marked : Db := snd (@set_recording_status plain_uuid 1 Ready both_completed).
Definition last_job : Job := default (Queue.new_job half_done 1 Summarize JNull 0) (job_of half_claimed 2).
Definition last_task (p : Phase) : Task := mkTask last_job p true.
Notation toy_own := (@own_step plain_uuid unix_calendar sample_cfg "w" 1).

Lemma half_done_schema : schema_ok half_done.
Proof. apply enqueue_schema, complete_schema, claim_one_schema, enqueue_schema, sample_schema. Qed.

Ltac own step := eapply rtc_l; [split; [step|intros Heq; vm_compute in Heq; discriminate Heq]|].

Lemma last_claimed : rtc toy_own (half_done, started 2, []) (half_claimed, sample_process Acquiring [last_task (Watching None)], []).
Proof.
  own ltac:(by apply (w_acquire _ _ 1)).
  own ltac:(by apply (w_decide _ _ 0 (Err (Internal "no schedule")) 0 0 (fst sample_gate) (snd sample_gate))).
  own ltac:(apply (w_claimed _ _ (fst sample_gate) [] last_job _ half_claimed); [done|vm_compute; reflexivity]). done.
Qed.

Lemma last_statement p p' s s' : is_watching p = false ->
  @statement plain_uuid sample_cfg last_job 1 p s = (Some p', s') -> p' <> p ->
  toy_own (s, sample_process Acquiring [last_task p], []) (s', sample_process Acquiring [last_task p'], []).
Proof.
  intros Hw E Hne. split; [|intros Heq; exfalso; apply Hne; apply (f_equal (fun q => tk_phase <$> head (pr_tasks q))) in Heq; by injection Heq].
  apply (w_statement _ _ (last_task p) (Some (last_task p')) [] []); [done|done|].
  unfold task_statement. change (job_recording_id (tk_job (last_task p))) with (Some 1%N). cbn [tk_job tk_phase last_task]. by rewrite E.
Qed.

Lemma last_marked : rtc toy_own (half_done, started 2, []) (both_marked, put_back None [] [] (sample_process Acquiring [last_task SettingReady]), []).
Proof.
  etrans; [exact last_claimed|].
  own ltac:(by apply (w_stage_done _ _ (Ok tt) (last_task (Watching None)) [] [])).
  eapply rtc_l; [apply (last_statement Completing (Succeeding []) _ both_completed); [done|vm_compute; reflexivity|done]|].
  eapply rtc_l; [apply (last_statement (Succeeding []) AskReady _ both_completed); [done|vm_compute; reflexivity|done]|].
  eapply rtc_l; [apply (last_statement AskReady SettingReady _ both_completed); [done|vm_compute; reflexivity|done]|].
  own ltac:(apply (w_statement _ _ (last_task SettingReady) None [] [] _ both_marked); [done|done|vm_compute; reflexivity]). done.
Qed.

Lemma finished_is_marked_witness : exists mid, rtc toy_own (half_done, started 2, []) mid /\ is_ready 1 (fst (fst mid)).
Proof.
  destruct (@finished_is_marked plain_uuid unix_calendar sample_cfg "w" 1 half_done both_marked (put_back None [] [] (sample_process Acquiring [last_task SettingReady])) [] [] 2 half_done_schema)
    as [(mid & Hmid & _ & Hready)|[(t & Ht & _)|(t & Ht & _)]]; [|exact last_marked| |by exists mid|cbn in Ht; inversion Ht|cbn in Ht; inversion Ht].
  - intros [_ (j & Hj & _ & Hk & Hd)]. vm_compute in Hj.
    apply elem_of_cons in Hj as [->|[->|Hj]%elem_of_cons]; [discriminate Hk|discriminate Hd|inversion Hj].
  - split.
    + eexists. split; [vm_compute; left|]. vm_compute. by repeat split.
    + eexists. split; [vm_compute; right; left|]. vm_compute. by repeat split.
Defined.
