(* ===== verification/Merge.v ===== *)
(** * The merge stage: [stages/merge.rs] and [fillers.rs]

    Words get a speaker from the diarized turns, runs of words become
    utterances, and a language model may propose corrections of their texts.
    The model's answer and [serde]'s reading of it are parameters; times are
    [i64] milliseconds that stay far from overflow. *)

From Stdlib Require Import Ascii String.
From S2P Require Import Prelude RustStr Types Llm Db DbSchema Store.

#[local] Arguments String.append !_ _ /.

Definition GAP_BREAK_MS : Z := 1500.
Definition MAX_UTTERANCE_MS : Z := 30000.
Definition SENTENCE_BREAK_AFTER_MS : Z := 12000.
Definition MAX_ISLAND_MS : Z := 800.

(** ** Filler words *)

Record FillerFilter := mkFillerFilter { ff_enabled : bool; ff_set : gset string }.

Section fillers.
Context `{CharAlnum}.

Definition normalize_filler (w : string) : string :=
  to_ascii_lowercase (trim_matches (fun c => negb (is_alphanumeric c)) (trim w)).

Definition from_config (remove_fillers : bool) (filler_words : list string) : FillerFilter :=
  mkFillerFilter remove_fillers
    (list_to_set (bfilter (fun w => negb (is_empty w)) (map normalize_filler filler_words))).

Definition is_filler (f : FillerFilter) (word : string) : bool :=
  if negb (ff_enabled f) then false
  else let n := normalize_filler word in negb (is_empty n) && bool_decide (n ∈ ff_set f).

Definition clean (f : FillerFilter) (words : list Word) : list Word * Z :=
  if negb (ff_enabled f) || bool_decide (ff_set f = ∅) then (words, 0)
  else
    let kept := bfilter (fun w => negb (is_filler f (w_text w))) words in
    (kept, Z.of_nat (length words) - Z.of_nat (length kept)).
End fillers.

(** ** Speakers of words *)

Definition overlap (a0 a1 b0 b1 : Z) : Z := Z.max (Z.min a1 b1 - Z.max a0 b0) 0.

Definition turn_overlap (w : Word) (t : TurnArtifact) : Z :=
  overlap (w_start_ms w) (w_end_ms w) (turn_start_ms t) (turn_end_ms t).

(** The [HashMap] one word fills. *)
Definition by_speaker (w : Word) (turns : list TurnArtifact) : gmap Z Z :=
  foldl (fun m t =>
    let ov := turn_overlap w t in
    if 0 <? ov then <[turn_local_idx t := default 0 (m !! turn_local_idx t) + ov]> m else m)
    ∅ turns.

(** [max_by_key(|(idx, ov)| (ov, Reverse(idx)))]: the keys are distinct, so the
    order of iteration does not matter. *)
Definition better (a b : Z * Z) : bool :=
  if snd a =? snd b then fst a <? fst b else snd b <? snd a.
Definition max_entry (l : list (Z * Z)) : option (Z * Z) :=
  foldr (fun x acc => match acc with Some y => if better x y then Some x else Some y | None => Some x end)
    None l.

Definition midpoint (a b : Z) : Z := Z.quot (a + b) 2.

Definition turn_distance (w : Word) (t : TurnArtifact) : Z :=
  Z.abs (midpoint (w_start_ms w) (w_end_ms w) - midpoint (turn_start_ms t) (turn_end_ms t)).

(** The fallback loop, carrying [best_dist] and [nearest]. *)
Fixpoint nearest_turn (w : Word) (best_dist : Z) (nearest : option Z) (turns : list TurnArtifact)
    : option Z :=
  match turns with
  | [] => nearest
  | t :: turns' =>
      let dist := turn_distance w t in
      if dist <? best_dist then nearest_turn w dist (Some (turn_local_idx t)) turns'
      else nearest_turn w best_dist nearest turns'
  end.

Definition speaker_for (w : Word) (turns : list TurnArtifact) : option Z :=
  match max_entry (map_to_list (by_speaker w turns)) with
  | Some (idx, _) => Some idx
  | None => nearest_turn w i64_max None turns
  end.

Definition with_speaker (idx : option Z) (w : Word) : Word :=
  mkWord (w_text w) (w_start_ms w) (w_end_ms w) (w_conf w) idx.

Definition assign_speakers (words : list Word) (turns : list TurnArtifact) : list Word :=
  if bool_decide (length turns = 0%nat) then words
  else map (fun w => with_speaker (speaker_for w turns) w) words.

(** ** Speaker islands *)

(** The maximal run of words that share the first word's speaker. *)
Fixpoint take_run (idx : option Z) (words : list Word) : list Word * list Word :=
  match words with
  | w :: words' =>
      if bool_decide (w_local_idx w = idx) then
        let '(run, rest) := take_run idx words' in (w :: run, rest)
      else ([], words)
  | [] => ([], [])
  end.

(** The outer loop: [prev] is [words[i - 1]], the fuel the number of words. *)
Fixpoint islands_from (fuel : nat) (prev : option Word) (words : list Word) : Z :=
  match fuel, words with
  | S fuel, w :: words' =>
      let '(run, rest) := take_run (w_local_idx w) words' in
      let last_w := default w (last run) in
      let here :=
        match prev, rest with
        | Some p, n :: _ =>
            bool_decide (w_local_idx p = w_local_idx n) &&
            negb (bool_decide (w_local_idx p = w_local_idx w)) &&
            (w_end_ms last_w - w_start_ms w <=? MAX_ISLAND_MS)
        | _, _ => false
        end in
      (if here then 1 else 0) + islands_from fuel (Some last_w) rest
  | _, _ => 0
  end.

Definition speaker_islands (words : list Word) : Z := islands_from (length words) None words.

(** ** Utterances *)

Record GroupedUtterance := mkGrouped {
  gu_local_idx : option Z; gu_start_ms : Z; gu_end_ms : Z; gu_text : string; gu_words : list Word;
}.

Definition ends_sentence (text : string) : bool :=
  match last (chars (trim_end text)) with
  | Some c => String.eqb c "." || String.eqb c "?" || String.eqb c "!"
  | None => false
  end.

Definition start_utterance (w : Word) : GroupedUtterance :=
  mkGrouped (w_local_idx w) (w_start_ms w) (w_end_ms w) (w_text w) [w].

Definition extend_utterance (c : GroupedUtterance) (w : Word) : GroupedUtterance :=
  mkGrouped (gu_local_idx c) (gu_start_ms c) (Z.max (gu_end_ms c) (w_end_ms w))
    ((if is_empty (gu_text c) then gu_text c else gu_text c +:+ " ") +:+ w_text w)
    (gu_words c ++ [w]).

(** Is the utterance long enough to break before [w]? *)
Definition long_enough (c : GroupedUtterance) (w : Word) : bool :=
  let span := w_end_ms w - gu_start_ms c in
  (MAX_UTTERANCE_MS <? span) ||
  ((SENTENCE_BREAK_AFTER_MS <? span) &&
   match last (gu_words c) with Some l => ends_sentence (w_text l) | None => false end).

Definition continues (c : GroupedUtterance) (prev_end : Z) (w : Word) : bool :=
  bool_decide (gu_local_idx c = w_local_idx w) &&
  (w_start_ms w - prev_end <=? GAP_BREAK_MS) && negb (long_enough c w).

(** The loop of [group_into_utterances], [cur] being [Some]. *)
Fixpoint group_from (cur : GroupedUtterance) (prev_end : Z) (words : list Word) : list GroupedUtterance :=
  match words with
  | [] => [cur]
  | w :: words' =>
      if continues cur prev_end w then group_from (extend_utterance cur w) (w_end_ms w) words'
      else cur :: group_from (start_utterance w) (w_end_ms w) words'
  end.

Definition group_into_utterances (words : list Word) : list GroupedUtterance :=
  match words with
  | [] => []
  | w :: words' => group_from (start_utterance w) (w_end_ms w) words'
  end.

Definition label_words (words : list Word) (turns : list TurnArtifact) : list Word * Z :=
  let words := assign_speakers words turns in (words, speaker_islands words).

Definition utterance_spans (words : list Word) : list (option Z * Z * Z * string) :=
  map (fun u => (gu_local_idx u, gu_start_ms u, gu_end_ms u, gu_text u)) (group_into_utterances words).

(** ** JSON in prose *)

Definition backslash : ascii := ascii_of_N 92.
Definition dquote : ascii := ascii_of_N 34.

(** The scan for the bracket that closes the first one: [Some] of the text up to
    and including it.  [depth] counts the open ones. *)
Fixpoint scan_balanced (open close : ascii) (depth : Z) (in_str escape : bool) (s : string) : option string :=
  match s with
  | EmptyString => None
  | String c s' =>
      let continue d i e := String c <$> scan_balanced open close d i e s' in
      if in_str then
        if escape then continue depth true false
        else if Ascii.eqb c backslash then continue depth true true
        else if Ascii.eqb c dquote then continue depth false false
        else continue depth true false
      else if Ascii.eqb c dquote then continue depth true false
      else if Ascii.eqb c open then continue (depth + 1) false false
      else if Ascii.eqb c close then
        if depth - 1 =? 0 then Some (String c "") else continue (depth - 1) false false
      else continue depth false false
  end.

(** [let start = s.find(open)?;] then the scan from there. *)
Fixpoint first_balanced (open close : ascii) (s : string) : option string :=
  match s with
  | EmptyString => None
  | String c s' =>
      if Ascii.eqb c open then scan_balanced open close 0 false false s
      else first_balanced open close s'
  end.

Definition first_json_array (s : string) : option string :=
  first_balanced (ascii_of_N 91) (ascii_of_N 93) s.

(** ** Corrections *)

Record Correction := mkCorrection { corr_i : nat; corr_text : string }.

(** [serde_json::from_str::<Vec<Correction>>(..).ok()] *)
Class CorrectionReader := parse_corrections : string -> option (list Correction).

Definition numbered_line (i : nat) (u : GroupedUtterance) : string :=
  let line := trim (gu_text u) in
  if is_empty line then "" else pretty i +:+ ": " +:+ line +:+ newline.

Definition correction_system : string :=
  "You correct speech-to-text transcription errors. Respond with only JSON.".

Definition correction_user (names : list string) (transcript : string) : string :=
  (match names with
   | [] => ""
   | _ => "Known correct names/terms (prefer these spellings): " +:+ join ", " names +:+ "." +:+ newline
   end) +:+
  "Below are numbered transcript lines from speech-to-text. Fix ONLY clear transcription errors: misheard proper nouns, names, and obviously wrong words. Do NOT paraphrase, translate, summarise, reorder, merge, or split lines, and do not change text that is already correct. Keep the wording and length as close to the original as possible. Return ONLY a JSON array of objects {" +:+
  String dquote "i" +:+ String dquote ": <line number>, " +:+ String dquote "text" +:+ String dquote ": " +:+
  String dquote "<corrected line>" +:+ String dquote "} for the lines you actually changed; return [] if nothing needs fixing." +:+
  newline +:+ newline +:+ "Lines:" +:+ newline +:+ transcript.

Definition retext (u : GroupedUtterance) (text : string) : GroupedUtterance :=
  mkGrouped (gu_local_idx u) (gu_start_ms u) (gu_end_ms u) text (gu_words u).

(** The guard of one correction: close in length to the line it replaces. *)
Definition acceptable (old new : string) : bool :=
  negb (is_empty new) && negb (String.eqb new old) &&
  (Z.abs (char_count old - char_count new) <=? Z.max (char_count old / 3) 12).

Fixpoint apply_corrections (cs : list Correction) (utts : list GroupedUtterance) (applied : Z)
    : list GroupedUtterance * Z :=
  match cs with
  | [] => (utts, applied)
  | c :: cs' =>
      match utts !! corr_i c with
      | None => apply_corrections cs' utts applied
      | Some u =>
          let new := trim (corr_text c) in
          if acceptable (gu_text u) new
          then apply_corrections cs' (<[corr_i c := retext u new]> utts) (applied + 1)
          else apply_corrections cs' utts applied
      end
  end.

Definition correct_names `{LanguageModel} `{CorrectionReader} (model : string) (names : list string)
    (utts : list GroupedUtterance) : list GroupedUtterance * Z :=
  let transcript := str_concat (imap numbered_line utts) in
  if bool_decide (length utts = 0%nat) || is_empty transcript then (utts, 0)
  else
    match chat model [ChatMessage.system correction_system; ChatMessage.user (correction_user names transcript)] with
    | Err _ => (utts, 0)
    | Ok raw =>
        match first_json_array raw with
        | None => (utts, 0)
        | Some arr =>
            match parse_corrections arr with
            | None => (utts, 0)
            | Some cs => apply_corrections cs utts 0
            end
        end
    end.

(** ** The stage *)

Record MergeConfig := mkMergeConfig {
  mc_remove_fillers : bool; mc_filler_words : list string;
  mc_correct_transcript : bool; mc_summarize_model : string;
}.

Section stage.
Context `{CharAlnum} `{LanguageModel} `{CorrectionReader} `{SerdeJson TranscriptArtifact} `{SerdeJson DiarizationArtifact} `{UuidFmt}.

(** [speaker_display_names(..).await.unwrap_or_default()] *)
Definition speaker_display_names (recording_id : Uuid) : DbM (list string) :=
  rows ← list_recording_speakers recording_id;
  mret (omap rs_display_name rows).

Definition new_utterance (u : GroupedUtterance) : NewUtterance :=
  mkNewUtterance (gu_local_idx u) (gu_start_ms u) (gu_end_ms u) (gu_text u) (gu_words u).

Definition labelled (cfg : MergeConfig) (t : TranscriptArtifact) (d : DiarizationArtifact) : list Word :=
  let '(words, _) := clean (from_config (mc_remove_fillers cfg) (mc_filler_words cfg)) (ta_words t) in
  assign_speakers words (da_turns d).

Definition run (cfg : MergeConfig) (recording_id : Uuid) : DbM unit :=
  transcript ← artifacts.get_transcript recording_id;
  diarization ← artifacts.get_diarization recording_id;
  let words := labelled cfg transcript diarization in
  let utterances := group_into_utterances words in
  utterances ← (if mc_correct_transcript cfg then
      names ← speaker_display_names recording_id;
      mret (fst (correct_names (mc_summarize_model cfg) names utterances))
    else mret utterances);
  _ ← delete_utterances_by_recording recording_id;
  inserted ← insert_utterances recording_id (map new_utterance utterances);
  if (inserted =? 0) && negb (bool_decide (length words = 0%nat))
  then fail_with (stage_err "merge" "produced no utterances from a non-empty transcript")
  else mret tt.
End stage.
