(* ===== verification/MergeProps.v ===== *)
(** * What the merge stage promises *)

From Stdlib Require Import Ascii String.
From S2P Require Import Prelude RustStr Types Llm Db DbSchema Store ArtifactCodec StoreProps Queue QueueSteps Merge.

#[local] Arguments String.append !_ _ /.

(** ** Definitions *)

(** How much of a word all the turns of one speaker cover together. *)
Definition total_overlap (w : Word) (turns : list TurnArtifact) (idx : Z) : Z :=
  zsum (map (turn_overlap w) (bfilter (fun t => turn_local_idx t =? idx) turns)).

(** Whether a word is one of the configured fillers, and the words that stay. *)
Definition filler_word `{CharAlnum} (cfg : MergeConfig) (w : Word) : Prop :=
  let n := normalize_filler (w_text w) in n <> "" /\ n ∈ map normalize_filler (mc_filler_words cfg).
#[export] Instance filler_word_dec `{CharAlnum} cfg w : Decision (filler_word cfg w).
Proof. unfold filler_word. apply _. Defined.
Definition kept_words `{CharAlnum} (cfg : MergeConfig) (t : TranscriptArtifact) : list Word :=
  if mc_remove_fillers cfg then filter (fun w => ~ filler_word cfg w) (ta_words t) else ta_words t.

(** [w'] is [w] with the speaker the turns give it. *)
Definition spoken_by (turns : list TurnArtifact) (w w' : Word) : Prop :=
  w' = with_speaker (w_local_idx w') w /\
  (turns = [] -> w' = w) /\
  ((exists t, t ∈ turns /\ 0 < turn_overlap w t) -> exists idx, w_local_idx w' = Some idx /\
     0 < total_overlap w turns idx /\
     forall o, total_overlap w turns o <= total_overlap w turns idx /\
               (total_overlap w turns o = total_overlap w turns idx -> idx <= o)) /\
  (turns <> [] -> (forall t, t ∈ turns -> turn_overlap w t = 0 /\ turn_distance w t < i64_max) ->
     exists t, t ∈ turns /\ w_local_idx w' = Some (turn_local_idx t) /\
       forall t', t' ∈ turns -> turn_distance w t <= turn_distance w t').

(** Consecutive words of one utterance: no long silence, no overrun. *)
Definition within_limits (start : Z) (ws : list Word) : Prop :=
  forall i a b, ws !! i = Some a -> ws !! S i = Some b ->
    w_start_ms b - w_end_ms a <= GAP_BREAK_MS /\ w_end_ms b - start <= MAX_UTTERANCE_MS.

Record good_utterance (u : GroupedUtterance) : Prop := {
  gu_nonempty : gu_words u <> [];
  gu_one_speaker : Forall (fun w => w_local_idx w = gu_local_idx u) (gu_words u);
  gu_starts : w_start_ms <$> head (gu_words u) = Some (gu_start_ms u);
  gu_ends : Forall (fun w => w_end_ms w <= gu_end_ms u) (gu_words u) /\
            exists w, w ∈ gu_words u /\ w_end_ms w = gu_end_ms u;
  gu_limits : within_limits (gu_start_ms u) (gu_words u);
  gu_reads : Forall (fun w => w_text w <> "") (gu_words u) -> gu_text u = join " " (map w_text (gu_words u));
}.

(** Why a new utterance was started at [w]. *)
Definition break_reason (u : GroupedUtterance) (w : Word) : Prop :=
  gu_local_idx u <> w_local_idx w \/
  (exists p, last (gu_words u) = Some p /\ GAP_BREAK_MS < w_start_ms w - w_end_ms p) \/
  long_enough u w = true.

Fixpoint justified (us : list GroupedUtterance) : Prop :=
  match us with
  | u :: ((v :: _) as rest) =>
      (exists w, head (gu_words v) = Some w /\ break_reason u w) /\ justified rest
  | _ => True
  end.

(** The reading state of a scan over JSON text: bracket depth, inside a string,
    after a backslash. *)
Definition jstep (open close : ascii) (st : Z * bool * bool) (c : ascii) : Z * bool * bool :=
  let '(d, in_str, escape) := st in
  if in_str then
    if escape then (d, true, false)
    else if Ascii.eqb c backslash then (d, true, true)
    else if Ascii.eqb c dquote then (d, false, false) else (d, true, false)
  else if Ascii.eqb c dquote then (d, true, false)
  else if Ascii.eqb c open then (d + 1, false, false)
  else if Ascii.eqb c close then (d - 1, false, false) else (d, false, false).

Fixpoint jrun (open close : ascii) (st : Z * bool * bool) (s : string) : Z * bool * bool :=
  match s with EmptyString => st | String c s' => jrun open close (jstep open close st c) s' end.

Fixpoint no_char (c : ascii) (s : string) : bool :=
  match s with EmptyString => true | String a s' => negb (Ascii.eqb a c) && no_char c s' end.

(** ** Assigning speakers *)

Lemma overlap_nonneg a b c d : 0 <= overlap a b c d.
Proof. unfold overlap. lia. Qed.

Lemma total_overlap_cons w t turns idx :
  total_overlap w (t :: turns) idx =
  (if turn_local_idx t =? idx then turn_overlap w t else 0) + total_overlap w turns idx.
Proof. unfold total_overlap. cbn. by destruct (_ =? _). Qed.

Lemma turn_overlap_nonneg w t : 0 <= turn_overlap w t.
Proof. apply overlap_nonneg. Qed.

Lemma total_overlap_nonneg w turns idx : 0 <= total_overlap w turns idx.
Proof.
  induction turns as [|t turns IH]; [done|]. rewrite total_overlap_cons.
  pose proof (turn_overlap_nonneg w t). destruct (_ =? _); lia.
Qed.

Lemma by_speaker_from w turns (m : gmap Z Z) idx :
  (forall k v, m !! k = Some v -> 0 < v) ->
  let res := foldl (fun m t =>
    let ov := turn_overlap w t in
    if 0 <? ov then <[turn_local_idx t := default 0 (m !! turn_local_idx t) + ov]> m else m) m turns in
  res !! idx =
  let v := default 0 (m !! idx) + total_overlap w turns idx in if 0 <? v then Some v else None.
Proof.
  revert m. induction turns as [|t turns IH]; intros m Hm; cbn zeta; cbn [foldl].
  - unfold total_overlap. cbn. rewrite Z.add_0_r. destruct (m !! idx) as [v|] eqn:E; cbn; [|done].
    by rewrite (proj2 (Z.ltb_lt _ _) (Hm idx v E)).
  - rewrite total_overlap_cons.
    pose proof (turn_overlap_nonneg w t) as Hn. destruct (0 <? turn_overlap w t) eqn:E; bool_to_prop.
    + rewrite IH.
      * destruct (Z.eqb_spec (turn_local_idx t) idx) as [->|Hne].
        -- rewrite lookup_insert_eq. cbn. by rewrite Z.add_assoc.
        -- by rewrite lookup_insert_ne.
      * intros k v. destruct (decide (turn_local_idx t = k)) as [->|Hne].
        -- rewrite lookup_insert_eq. intros [= <-]. destruct (m !! k) as [v|] eqn:Ek; cbn; [|lia].
           specialize (Hm k v Ek). lia.
        -- rewrite lookup_insert_ne by done. apply Hm.
    + rewrite IH by done. replace (if turn_local_idx t =? idx then turn_overlap w t else 0) with 0; [done|].
      destruct (_ =? _); lia.
Qed.

Lemma by_speaker_lookup w turns idx :
  by_speaker w turns !! idx =
  if 0 <? total_overlap w turns idx then Some (total_overlap w turns idx) else None.
Proof. unfold by_speaker. rewrite by_speaker_from; [done|]. intros k v Hk. by rewrite lookup_empty in Hk. Qed.

Lemma max_entry_Some l x : max_entry l = Some x -> x ∈ l /\ forall y, y ∈ l -> better y x = false.
Proof.
  revert x. induction l as [|a l IH]; intros x; cbn; [done|]. fold (max_entry l).
  destruct (max_entry l) as [z|] eqn:E.
  - destruct (IH z eq_refl) as [Hz Hmax]. destruct (better a z) eqn:Eb; intros [= <-].
    + split; [left|]. intros y [->|Hy]%elem_of_cons.
      * unfold better. rewrite Z.eqb_refl. apply Z.ltb_irrefl.
      * specialize (Hmax y Hy). unfold better in *.
        destruct (snd y =? snd a) eqn:E1, (snd y =? snd z) eqn:E2, (snd a =? snd z) eqn:E3;
          bool_to_prop; rewrite ?Z.ltb_ge, ?Z.eqb_eq in *; try lia; apply Z.ltb_ge; lia.
    + split; [by right|]. intros y [->|Hy]%elem_of_cons; auto.
  - intros [= <-]. split; [left|]. intros y [->|Hy]%elem_of_cons.
    + unfold better. rewrite Z.eqb_refl. apply Z.ltb_irrefl.
    + destruct l; [inversion Hy|]. cbn in E. destruct (foldr _ None l) as [q|]; [|done].
      by destruct (better _ _).
Qed.

Lemma max_entry_None l : max_entry l = None -> l = [].
Proof.
  destruct l as [|a l]; [done|]. cbn. destruct (foldr _ None l) as [q|]; [|done]. by destruct (better _ _).
Qed.

Lemma nearest_turn_spec w best near turns :
  match nearest_turn w best near turns with
  | Some i =>
      (near = Some i /\ forall t, t ∈ turns -> best <= turn_distance w t) \/
      (exists t, t ∈ turns /\ turn_local_idx t = i /\ turn_distance w t < best /\
         forall t', t' ∈ turns -> turn_distance w t <= turn_distance w t')
  | None => near = None /\ forall t, t ∈ turns -> best <= turn_distance w t
  end.
Proof.
  revert best near. induction turns as [|t turns IH]; intros best near; cbn [nearest_turn].
  - destruct near; [left|]; (split; [done|]; intros t Ht; inversion Ht).
  - destruct (turn_distance w t <? best) eqn:E; bool_to_prop.
    + specialize (IH (turn_distance w t) (Some (turn_local_idx t))).
      destruct (nearest_turn _ _ _ turns) as [i|]; [|by destruct IH].
      right. destruct IH as [[[= <-] Hall]|(u & Hu & Hi & Hlt & Hall)].
      * exists t. split; [left|]. split; [done|]. split; [done|].
        intros t' [->|Ht']%elem_of_cons; [lia|auto].
      * exists u. split; [by right|]. split; [done|]. split; [lia|].
        intros t' [->|Ht']%elem_of_cons; [lia|auto].
    + specialize (IH best near). destruct (nearest_turn _ _ _ turns) as [i|].
      * destruct IH as [[? Hall]|(u & Hu & Hi & Hlt & Hall)].
        -- left. split; [done|]. intros t' [->|Ht']%elem_of_cons; [lia|auto].
        -- right. exists u. split; [by right|]. split; [done|]. split; [lia|].
           intros t' [->|Ht']%elem_of_cons; [lia|auto].
      * destruct IH as [? Hall]. split; [done|]. intros t' [->|Ht']%elem_of_cons; [lia|auto].
Qed.

Lemma total_overlap_pos w turns :
  (exists t, t ∈ turns /\ 0 < turn_overlap w t) <-> exists idx, 0 < total_overlap w turns idx.
Proof.
  split.
  - intros (t & Ht & Hpos). exists (turn_local_idx t). revert Ht.
    induction turns as [|u turns IH]; intros Ht; [inversion Ht|]. rewrite total_overlap_cons.
    pose proof (total_overlap_nonneg w turns (turn_local_idx t)).
    pose proof (turn_overlap_nonneg w u) as Hn. apply elem_of_cons in Ht as [->|Ht].
    + rewrite Z.eqb_refl. lia.
    + specialize (IH Ht). destruct (_ =? _); lia.
  - intros (idx & Hpos). induction turns as [|u turns IH]; [unfold total_overlap in Hpos; cbn in Hpos; lia|].
    rewrite total_overlap_cons in Hpos. destruct (decide (0 < turn_overlap w u)).
    + exists u. split; [left|done].
    + destruct IH as (t & Ht & ?); [destruct (_ =? _); lia|]. exists t. split; [by right|done].
Qed.

(** The speaker of a word some turn touches. *)
Lemma speaker_for_covered w turns :
  (exists t, t ∈ turns /\ 0 < turn_overlap w t) ->
  exists idx, speaker_for w turns = Some idx /\ 0 < total_overlap w turns idx /\
    forall o, total_overlap w turns o <= total_overlap w turns idx /\
              (total_overlap w turns o = total_overlap w turns idx -> idx <= o).
Proof.
  intros Hpos. unfold speaker_for. destruct (max_entry _) as [[idx v]|] eqn:E.
  - apply max_entry_Some in E as [Hin Hmax]. exists idx. split; [done|].
    apply elem_of_map_to_list in Hin. rewrite by_speaker_lookup in Hin.
    destruct (0 <? total_overlap w turns idx) eqn:Ep; [|done]. injection Hin as <-. bool_to_prop.
    split; [done|]. intros o. destruct (0 <? total_overlap w turns o) eqn:Eo; bool_to_prop; [|lia].
    specialize (Hmax (o, total_overlap w turns o)). unfold better in Hmax. cbn in Hmax.
    assert (Hl : (o, total_overlap w turns o) ∈ map_to_list (by_speaker w turns)).
    { apply elem_of_map_to_list. rewrite by_speaker_lookup. by rewrite (proj2 (Z.ltb_lt _ _) Eo). }
    specialize (Hmax Hl). destruct (_ =? _) eqn:Eq; bool_to_prop; lia.
  - apply max_entry_None in E. apply map_to_list_empty_iff in E. exfalso. apply total_overlap_pos in Hpos as (o & Ho).
    pose proof (by_speaker_lookup w turns o) as Hl. rewrite E, lookup_empty in Hl.
    by rewrite (proj2 (Z.ltb_lt _ _) Ho) in Hl.
Qed.

(** The speaker of a word no turn touches. *)
Lemma speaker_for_nearest w turns :
  turns <> [] -> (forall t, t ∈ turns -> turn_overlap w t = 0) -> (forall t, t ∈ turns -> turn_distance w t < i64_max) ->
  exists t, speaker_for w turns = Some (turn_local_idx t) /\ t ∈ turns /\
    forall t', t' ∈ turns -> turn_distance w t <= turn_distance w t'.
Proof.
  intros Hne Hzero Hfar. unfold speaker_for. destruct (max_entry _) as [[idx v]|] eqn:E.
  - exfalso. apply max_entry_Some in E as [Hin _]. apply elem_of_map_to_list in Hin. rewrite by_speaker_lookup in Hin.
    destruct (0 <? total_overlap w turns idx) eqn:Ep; [|done]. bool_to_prop.
    destruct (proj2 (total_overlap_pos w turns)) as (t & Ht & Hpos); [by exists idx|].
    rewrite Hzero in Hpos by done. lia.
  - pose proof (nearest_turn_spec w i64_max None turns) as Hn. destruct (nearest_turn _ _ _ _) as [i|].
    + destruct Hn as [[? _]|(t & Ht & <- & _ & Hall)]; [done|]. by exists t.
    + destruct Hn as [_ Hall]. destruct turns as [|t turns]; [done|]. exfalso.
      specialize (Hall t ltac:(left)). specialize (Hfar t ltac:(left)). lia.
Qed.

(** The words keep their texts, times, number and order; each gets the speaker
    whose turns together cover it longest, the lower index breaking ties, and a
    word no turn touches that of a turn whose middle is nearest. *)
Lemma assigned_spoken_by words turns : Forall2 (spoken_by turns) words (assign_speakers words turns).
Proof.
  unfold assign_speakers. case_bool_decide as Hl.
  - apply nil_length_inv in Hl as ->. apply Forall_Forall2_diag, Forall_forall. intros w _.
    split; [by destruct w|]. split; [done|]. split; [intros (t & Ht & _); inversion Ht|done].
  - apply Forall2_fmap_r, Forall_Forall2_diag, Forall_forall. intros w _.
    split; [done|]. split; [by intros ->|]. split.
    + intros (idx & Heq & Hcov)%speaker_for_covered. by exists idx.
    + intros Hne Hall. destruct (speaker_for_nearest w turns Hne) as (t & Heq & Ht & Hmin);
        [intros t Ht; by apply Hall|intros t Ht; by apply Hall|]. by exists t.
Qed.

(** ** Grouping *)

Lemma join_snoc sep l x : l <> [] -> join sep (l ++ [x]) = join sep l +:+ sep +:+ x.
Proof.
  unfold join. induction l as [|a l IH]; intros Hl; [done|].
  destruct l as [|b l]; [done|]. cbn [app String.concat] in *. rewrite IH by done.
  by rewrite !append_assoc.
Qed.

Lemma join_nonempty sep l : l <> [] -> Forall (fun s => s <> "") l -> join sep l <> "".
Proof. destruct l as [|a [|b l]]; [done|..]; intros _ Hall; apply Forall_cons in Hall as [Ha _]; cbn; [done|]. by destruct a. Qed.

Lemma good_start w : good_utterance (start_utterance w).
Proof.
  constructor; cbn.
  - done.
  - by repeat constructor.
  - done.
  - split; [repeat constructor; lia|]. exists w. split; [left|done].
  - by intros [|i] a b.
  - done.
Qed.

Lemma good_extend c p w :
  good_utterance c -> last (gu_words c) = Some p -> continues c (w_end_ms p) w = true ->
  good_utterance (extend_utterance c w).
Proof.
  intros [Hne H1 Hst [He (m & Hm & Hme)] Hlim Htxt] Hlast Hc. unfold continues, long_enough in Hc. bool_to_prop.
  constructor; cbn.
  - by destruct (gu_words c).
  - apply Forall_app. split; [done|]. by repeat constructor.
  - destruct (gu_words c); [done|]. done.
  - split.
    + apply Forall_app. split; [|constructor; [lia|constructor]].
      eapply Forall_impl; [exact He|]. cbn. lia.
    + destruct (Z_le_gt_dec (w_end_ms w) (gu_end_ms c)).
      * exists m. split; [set_solver|lia].
      * exists w. split; [set_solver|lia].
  - intros i a b Ha Hb. destruct (decide (S i < length (gu_words c))%nat) as [Hlt|Hge].
    + rewrite lookup_app_l in Ha, Hb by lia. by apply (Hlim i).
    + apply lookup_lt_Some in Hb as Hb'. rewrite length_app in Hb'. cbn in Hb'.
      assert (S i = length (gu_words c)) as Hi by lia.
      rewrite Hi, list_lookup_middle in Hb by done. injection Hb as <-.
      rewrite lookup_app_l in Ha by lia. rewrite last_lookup in Hlast.
      replace (pred (length (gu_words c))) with i in Hlast by lia. rewrite Ha in Hlast. injection Hlast as ->.
      split; [done|lia].
  - intros Hall. apply Forall_app in Hall as [Hall Hw]. specialize (Htxt Hall).
    rewrite map_app. cbn [map]. rewrite join_snoc by (by destruct (gu_words c)). rewrite <- Htxt.
    assert (gu_text c <> "") as Hnz.
    { rewrite Htxt. apply join_nonempty; [by destruct (gu_words c)|]. by apply Forall_map. }
    destruct (gu_text c) as [|x t] eqn:Et; [done|]. cbn. f_equal. by rewrite append_assoc.
Qed.

Lemma group_from_spec cur p words :
  good_utterance cur -> last (gu_words cur) = Some p ->
  let us := group_from cur (w_end_ms p) words in
  concat (map gu_words us) = gu_words cur ++ words /\ Forall good_utterance us /\ justified us /\
  exists u us', us = u :: us' /\ head (gu_words u) = head (gu_words cur).
Proof.
  revert cur p. induction words as [|w words IH]; intros cur p Hg Hl; cbn zeta; cbn [group_from].
  - cbn. rewrite !app_nil_r. split; [done|]. split; [by constructor|]. split; [done|]. by exists cur, [].
  - destruct (continues cur (w_end_ms p) w) eqn:E.
    + destruct (IH (extend_utterance cur w) w) as (Hcat & Hgood & Hj & u & us & Hus & Hh).
      * by eapply good_extend.
      * cbn. by rewrite last_snoc.
      * split; [rewrite Hcat; cbn; by rewrite <- app_assoc|]. split; [done|]. split; [done|].
        exists u, us. split; [done|]. rewrite Hh. cbn. destruct Hg. by destruct (gu_words cur).
    + destruct (IH (start_utterance w) w (good_start w) eq_refl) as (Hcat & Hgood & Hj & u & us & Hus & Hh).
      split; [cbn; by rewrite Hcat|]. split; [by constructor|]. split; [|by eexists _, _].
      cbn [justified]. rewrite Hus in *. split; [|done]. exists w. split; [done|].
      unfold continues in E. unfold break_reason.
      destruct (bool_decide _) eqn:E1; bool_to_prop; [|by left].
      destruct (_ <=? _) eqn:E2; bool_to_prop; [|right; left; exists p; split; [done|lia]].
      right. right. cbn in E. by apply negb_false_iff in E.
Qed.

(** ** Corrections *)

Definition same_but_text (u v : GroupedUtterance) : Prop :=
  gu_local_idx v = gu_local_idx u /\ gu_start_ms v = gu_start_ms u /\ gu_end_ms v = gu_end_ms u /\
  gu_words v = gu_words u.

Lemma apply_corrections_spec cs utts n :
  let '(out, m) := apply_corrections cs utts n in
  length out = length utts /\ n <= m <= n + Z.of_nat (length cs) /\
  forall i u, utts !! i = Some u -> exists v, out !! i = Some v /\ same_but_text u v /\
    (i ∉ map corr_i cs -> v = u) /\
    (NoDup (map corr_i cs) -> gu_text v = gu_text u \/ acceptable (gu_text u) (gu_text v) = true).
Proof.
  revert utts n. induction cs as [|c cs IH]; intros utts n; cbn [apply_corrections].
  { split; [done|]. split; [cbn; lia|]. intros i u Hu. exists u. split; [done|]. split; [done|]. split; [done|]. by left. }
  assert (Hskip : let '(out, m) := apply_corrections cs utts n in
    length out = length utts /\ n <= m <= n + Z.of_nat (length (c :: cs)) /\
    forall i u, utts !! i = Some u -> exists v, out !! i = Some v /\ same_but_text u v /\
      (i ∉ map corr_i (c :: cs) -> v = u) /\
      (NoDup (map corr_i (c :: cs)) -> gu_text v = gu_text u \/ acceptable (gu_text u) (gu_text v) = true)).
  { specialize (IH utts n). destruct (apply_corrections cs utts n) as [out m].
    destruct IH as (Hlen & Hm & Hall). split; [done|]. split; [cbn in *; lia|]. intros i u Hu.
    destruct (Hall i u Hu) as (v & Hv & Hs & Hno & Hnd). exists v. split; [done|]. split; [done|].
    split; [intros Hi; apply Hno; cbn in Hi; set_solver|]. intros [_ Hd]%NoDup_cons. auto. }
  destruct (utts !! corr_i c) as [u0|] eqn:Eu; [|exact Hskip].
  destruct (acceptable (gu_text u0) (trim (corr_text c))) eqn:Ea; [|exact Hskip]. clear Hskip.
  specialize (IH (<[corr_i c := retext u0 (trim (corr_text c))]> utts) (n + 1)).
  destruct (apply_corrections _ _ _) as [out m]. destruct IH as (Hlen & Hm & Hall).
  rewrite length_insert in Hlen. split; [done|]. split; [cbn in *; lia|]. intros i u Hu.
  destruct (decide (i = corr_i c)) as [->|Hne].
  - assert (u0 = u) as -> by congruence.
    destruct (Hall (corr_i c) (retext u (trim (corr_text c)))) as (v & Hv & Hs & Hno & Hnd).
    { apply list_lookup_insert_eq. by eapply lookup_lt_Some. }
    exists v. split; [done|]. split; [done|]. split.
    + intros Hi. exfalso. apply Hi. cbn. left.
    + intros [Hi Hd]%NoDup_cons. right. by rewrite (Hno Hi).
  - destruct (Hall i u) as (v & Hv & Hs & Hno & Hnd); [by rewrite list_lookup_insert_ne|].
    exists v. split; [done|]. split; [done|]. split; [intros Hi; apply Hno; cbn in Hi; set_solver|].
    intros [_ Hd]%NoDup_cons. auto.
Qed.

(** ** Scanning *)

(** [body] then the closing bracket: the bracket closes the first one exactly
    when the scan is outside strings at depth one after [body]. *)
Definition closes_after (open close : ascii) (st : Z * bool * bool) (body : string) : Prop :=
  jrun open close st body = (1, false, false).

Definition unclosed (open close : ascii) (st : Z * bool * bool) (s : string) : Prop :=
  forall p q, s = p +:+ String close q -> ~ closes_after open close st p.

Lemma unclosed_cons open close st c s :
  (c = close -> st <> (1, false, false)) -> unclosed open close (jstep open close st c) s ->
  unclosed open close st (String c s).
Proof.
  intros Hc Hs [|b p] q; cbn.
  - intros [= <- _]. unfold closes_after. cbn. by apply Hc.
  - intros [= <- Hq]. exact (Hs p q Hq).
Qed.

Section scan.
Context (open close : ascii) (Hoc : Ascii.eqb close open = false) (Hcd : Ascii.eqb close dquote = false).

Lemma scan_step d i e c s :
  (e = true -> i = true) ->
  scan_balanced open close d i e (String c s) =
  if bool_decide (c = close /\ (d, i, e) = (1, false, false)) then Some (String c "")
  else let '(d', i', e') := jstep open close (d, i, e) c in
       String c <$> scan_balanced open close d' i' e' s.
Proof using Hoc Hcd.
  intros He. cbn [scan_balanced jstep]. case_bool_decide as Hb.
  - destruct Hb as [-> [= -> -> ->]]. rewrite Hcd, Hoc, Ascii.eqb_refl. done.
  - destruct i, e; try (by repeat case_match); try (by specialize (He eq_refl)).
    destruct (Ascii.eqb c dquote); [done|]; destruct (Ascii.eqb c open); [done|].
    destruct (Ascii.eqb_spec c close) as [->|]; [|done].
    destruct (Z.eqb_spec (d - 1) 0); [|done].
    exfalso. apply Hb. split; [done|]. f_equal. f_equal. lia.
Qed.

Lemma jstep_escape st c :
  (snd st = true -> snd (fst st) = true) ->
  snd (jstep open close st c) = true -> snd (fst (jstep open close st c)) = true.
Proof using. destruct st as [[d i] e]. cbn. intros He. by repeat case_match. Qed.

Lemma scan_balanced_spec d i e s :
  (e = true -> i = true) ->
  match scan_balanced open close d i e s with
  | Some r => exists body post, s = body +:+ String close post /\ r = body +:+ String close "" /\
      closes_after open close (d, i, e) body /\ unclosed open close (d, i, e) body
  | None => unclosed open close (d, i, e) s
  end.
Proof using Hoc Hcd.
  revert d i e. induction s as [|c s IH]; intros d i e He.
  - cbn. by intros [|a p] q.
  - rewrite scan_step by done. case_bool_decide as Hb.
    + destruct Hb as [-> Hst]. exists "", s. split; [done|]. split; [done|]. split; [done|].
      by intros [|a p] q.
    + pose proof (jstep_escape (d, i, e) c He) as He'.
      destruct (jstep open close (d, i, e) c) as [[d' i'] e'] eqn:Ej. cbn in He'.
      specialize (IH d' i' e' He').
      assert (Hc : c = close -> (d, i, e) <> (1, false, false)) by naive_solver.
      destruct (scan_balanced open close d' i' e' s) as [r|]; cbn [fmap option_fmap option_map].
      * destruct IH as (body & post & -> & -> & Hcl & Hun). exists (String c body), post.
        split; [done|]. split; [done|]. split; [unfold closes_after; cbn [jrun]; by rewrite Ej|].
        apply unclosed_cons; [done|]. by rewrite Ej.
      * apply unclosed_cons; [done|]. by rewrite Ej.
Qed.

Lemma first_balanced_spec s :
  match first_balanced open close s with
  | Some r => exists pre body post, s = pre +:+ body +:+ String close post /\ no_char open pre = true /\
      r = body +:+ String close "" /\ closes_after open close (0, false, false) body /\
      unclosed open close (0, false, false) body
  | None => no_char open s = true \/
      exists pre rest, s = pre +:+ String open rest /\ no_char open pre = true /\
        unclosed open close (0, false, false) (String open rest)
  end.
Proof using Hoc Hcd.
  induction s as [|c s IH]; [by left|]. cbn [first_balanced].
  destruct (Ascii.eqb_spec c open) as [->|Hne].
  - pose proof (scan_balanced_spec 0 false false (String open s) (fun H => H)) as Hs.
    destruct (scan_balanced _ _ _ _ _ _) as [r|].
    + destruct Hs as (body & post & Hs & ?). exists "", body, post. by rewrite Hs.
    + right. by exists "", s.
  - assert (Hn : Ascii.eqb c open = false) by (by apply Ascii.eqb_neq).
    destruct (first_balanced open close s) as [r|].
    + destruct IH as (pre & body & post & -> & Hp & ?). exists (String c pre), body, post.
      split; [done|]. split; [cbn; by rewrite Hn|done].
    + destruct IH as [IH|(pre & rest & -> & Hp & Hu)].
      * left. cbn. by rewrite Hn.
      * right. exists (String c pre), rest. split; [done|]. split; [cbn; by rewrite Hn|done].
Qed.
End scan.

(** ** Properties *)

Lemma group_into_utterances_words words :
  concat (map gu_words (group_into_utterances words)) = words /\
  Forall good_utterance (group_into_utterances words) /\
  justified (group_into_utterances words).
Proof.
  destruct words as [|w words]; [done|].
  destruct (group_from_spec (start_utterance w) w words (good_start w) eq_refl) as (? & ? & ? & _).
  done.
Qed.

(** C12: grouping neither loses, repeats nor reorders words.  Every utterance
    has one speaker, starts where its first word starts and ends where its last
    one to end does, and contains no silence over 1.5 s; no word of it after the
    first ends over 30 s after its start (the first word may itself be longer
    than that); and when none of its words is empty it reads as its words
    joined by spaces.  Two neighbouring utterances are separate for a reason:
    another speaker, a longer silence, or length. *)
Theorem group_into_utterances_spec words :
  concat (map gu_words (group_into_utterances words)) = words /\
  Forall good_utterance (group_into_utterances words) /\
  justified (group_into_utterances words).
Proof. apply group_into_utterances_words. Qed.

(** The JSON cut out of a model's prose is the shortest balanced array:
    it starts at the first opening bracket and ends at the first bracket that
    closes it, brackets inside string literals (with their escapes) not
    counting; there is none only if no bracket opens or that one never closes. *)
Theorem first_json_array_spec s :
  let lb := ascii_of_N 91 in let rb := ascii_of_N 93 in
  match first_json_array s with
  | Some r => exists pre body post, s = pre +:+ body +:+ String rb post /\ no_char lb pre = true /\
      r = body +:+ String rb "" /\ closes_after lb rb (0, false, false) body /\
      unclosed lb rb (0, false, false) body
  | None => no_char lb s = true \/
      exists pre rest, s = pre +:+ String lb rest /\ no_char lb pre = true /\
        unclosed lb rb (0, false, false) (String lb rest)
  end.
Proof. cbn zeta. by apply first_balanced_spec. Qed.

(** The language model is only allowed to reword. *)
Lemma correct_names_same `{LanguageModel} `{CorrectionReader} model names utts :
  Forall2 (fun u v => same_but_text u v) utts (fst (correct_names model names utts)).
Proof.
  assert (Hid : Forall2 (fun u v => same_but_text u v) utts utts).
  { apply Forall_Forall2_diag, Forall_forall. by intros u _. }
  unfold correct_names. repeat (case_match; try exact Hid).
  match goal with |- context [apply_corrections ?cs _ _] => pose proof (apply_corrections_spec cs utts 0) as Hc end.
  destruct (apply_corrections _ _ _) as [out m]. cbn. destruct Hc as (Hlen & _ & Hall).
  apply Forall2_same_length_lookup_2; [done|]. intros i u v Hu Hv.
  destruct (Hall i u Hu) as (v' & Hv' & Hs & _). congruence.
Qed.

(** *** The stage as a whole *)

Definition utt_core (r : UttRow) : option Z * Z * Z * string * list Word :=
  (ur_local_idx r, ur_start_ms r, ur_end_ms r, ur_text r, ur_words r).
Definition grouped_core (u : GroupedUtterance) : option Z * Z * Z * string * list Word :=
  (gu_local_idx u, gu_start_ms u, gu_end_ms u, gu_text u, gu_words u).

#[export] Instance list_recording_speakers_ro id : ReadOnly (list_recording_speakers id).
Proof. unfold list_recording_speakers. apply _. Qed.

#[export] Instance parse_artifact_ro {A} `{SerdeJson A} m v : ReadOnly (@artifacts.parse_artifact A _ m v).
Proof. intros s. unfold artifacts.parse_artifact. by repeat case_match. Qed.

#[export] Instance get_transcript_ro `{SerdeJson TranscriptArtifact} id : ReadOnly (artifacts.get_transcript id).
Proof. unfold artifacts.get_transcript, artifacts.get. apply _. Qed.

#[export] Instance get_diarization_ro `{SerdeJson DiarizationArtifact} id : ReadOnly (artifacts.get_diarization id).
Proof. unfold artifacts.get_diarization, artifacts.get. apply _. Qed.

(** Replacing a recording's utterances. *)
Lemma replace_utterances_spec id (us : list NewUtterance) s :
  recording_exists s id = true ->
  let fits := forallb utterance_ok us in
  exists s', (delete_utterances_by_recording id ≫= fun _ => insert_utterances id us) s =
      (if fits then Ok (count us) else Err nul_error, s') /\
    map utt_core (bfilter (utt_of id) (db_utterances s')) =
      (if fits then map (fun u => (nu_local_idx u, nu_start_ms u, nu_end_ms u, nu_text u, nu_words u)) us else []) /\
    bfilter (fun r => negb (utt_of id r)) (db_utterances s') =
      bfilter (fun r => negb (utt_of id r)) (db_utterances s) /\
    set_next_utt 0 (set_utterances [] s') = set_next_utt 0 (set_utterances [] s).
Proof.
  intros Hex fits. unfold delete_utterances_by_recording, delete_utterances. rewrite bind_exec. cbn [fst snd].
  unfold insert_utterances. set (s1 := set_utterances _ s).
  assert (Hkeep : bfilter (fun r => negb (utt_of id r)) (db_utterances s1) =
      bfilter (fun r => negb (utt_of id r)) (db_utterances s)) by apply bfilter_idemp.
  assert (Hnone : bfilter (utt_of id) (db_utterances s1) = []) by apply bfilter_negb_nil.
  destruct us as [|u us]; [exists s1; by rewrite Hnone|]. cbn [length]. rewrite bool_decide_false by done.
  fold fits. destruct fits; cbn [negb]; [|exists s1; by rewrite Hnone].
  change (recording_exists s1 id) with (recording_exists s id). rewrite Hex. cbn [negb].
  eexists. split; [done|]. cbn [db_utterances set_utterances set_next_utt].
  set (rows := imap _ _). assert (Hrows : forall r, r ∈ rows -> utt_of id r = true).
  { intros r (i & x & -> & _)%elem_of_lookup_imap. by apply bool_decide_true. }
  rewrite !bfilter_app, Hnone, Hkeep, (bfilter_all _ rows) by done. split; [|split].
  - cbn [app]. by apply map_imap.
  - rewrite (proj2 (bfilter_nil_iff _ rows)); [by rewrite app_nil_r|]. intros r Hr. by rewrite Hrows.
  - done.
Qed.

(** The words that are labelled: those of the transcript that stay. *)
Lemma clean_kept `{CharAlnum} cfg t :
  fst (clean (from_config (mc_remove_fillers cfg) (mc_filler_words cfg)) (ta_words t)) = kept_words cfg t.
Proof.
  unfold clean, kept_words, from_config, is_filler. cbn [ff_enabled ff_set]. destruct (mc_remove_fillers cfg); [|done]. cbn [negb orb].
  set (S := list_to_set _ : gset string).
  assert (HS : forall w, (normalize_filler (w_text w) <> "" /\ normalize_filler (w_text w) ∈ S) <-> filler_word cfg w).
  { intros w. unfold filler_word, S. rewrite elem_of_list_to_set, elem_of_bfilter, negb_true_iff, is_empty_false. tauto. }
  assert (Hiff : forall w, negb (negb (is_empty (normalize_filler (w_text w))) && bool_decide (normalize_filler (w_text w) ∈ S)) = true
    <-> ~ filler_word cfg w).
  { intros w. rewrite <- HS, negb_true_iff, andb_false_iff, negb_false_iff, bool_decide_eq_false, <- is_empty_false.
    destruct (is_empty _); intuition congruence. }
  rewrite <- (bfilter_filter _ _ _ Hiff). case_bool_decide as Hempty; cbn [fst]; [|done].
  symmetry. apply bfilter_all. intros w _. rewrite Hempty, bool_decide_false by set_solver. by rewrite andb_false_r.
Qed.

Lemma same_words gs us : Forall2 same_but_text gs us -> map gu_words us = map gu_words gs.
Proof. induction 1 as [|g u gs us (_ & _ & _ & Hw) _ IH]; [done|]. cbn. by rewrite Hw, IH. Qed.

Lemma merge_eq `{CharAlnum} `{LanguageModel} `{CorrectionReader} `{SerdeJson TranscriptArtifact}
    `{SerdeJson DiarizationArtifact} cfg id s :
  recording_exists s id = true ->
  match artifacts.get_transcript id s, artifacts.get_diarization id s with
  | (Ok t, _), (Ok d, _) =>
      exists r s' us, run cfg id s = (r, s') /\
        Forall2 same_but_text (group_into_utterances (labelled cfg t d)) us /\
        (mc_correct_transcript cfg = false -> us = group_into_utterances (labelled cfg t d)) /\
        Forall2 (spoken_by (da_turns d)) (kept_words cfg t) (concat (map gu_words us)) /\
        (if forallb utterance_ok (map new_utterance us)
         then r = Ok tt /\ map utt_core (bfilter (utt_of id) (db_utterances s')) = map grouped_core us
         else r = Err nul_error /\ bfilter (utt_of id) (db_utterances s') = []) /\
        bfilter (fun r => negb (utt_of id r)) (db_utterances s') =
          bfilter (fun r => negb (utt_of id r)) (db_utterances s) /\
        set_next_utt 0 (set_utterances [] s') = set_next_utt 0 (set_utterances [] s)
  | (Err e, _), _ => run cfg id s = (Err e, s)
  | _, (Err e, _) => run cfg id s = (Err e, s)
  end.
Proof.
  intros Hex. unfold run.
  pose proof (get_transcript_ro id s) as Ht. destruct (artifacts.get_transcript id s) as [[t|e] s1] eqn:Et;
    cbn in Ht; subst s1; [|by apply bind_err].
  rewrite (bind_ok _ _ _ _ _ Et).
  pose proof (get_diarization_ro id s) as Hd. destruct (artifacts.get_diarization id s) as [[d|e] s1] eqn:Ed;
    cbn in Hd; subst s1; [|by apply bind_err].
  rewrite (bind_ok _ _ _ _ _ Ed).
  set (gs := group_into_utterances (labelled cfg t d)).
  set (fix_names := if mc_correct_transcript cfg then _ else _).
  assert (exists us, fix_names s = (Ok us, s) /\ Forall2 same_but_text gs us /\
    (mc_correct_transcript cfg = false -> us = gs)) as (us & Hfix & Hsame & Hoff).
  { subst fix_names. destruct (mc_correct_transcript cfg).
    - eexists. split; [done|]. split; [apply correct_names_same|done].
    - exists gs. split; [done|]. split; [|done]. apply Forall_Forall2_diag, Forall_forall. by intros u _. }
  rewrite (bind_ok _ _ _ _ _ Hfix).
  destruct (group_into_utterances_words (labelled cfg t d)) as [Hcat _]. fold gs in Hcat.
  assert (Hwords : Forall2 (spoken_by (da_turns d)) (kept_words cfg t) (concat (map gu_words us))).
  { rewrite <- clean_kept, (same_words _ _ Hsame), Hcat. unfold labelled.
    destruct (clean _ _). apply assigned_spoken_by. }
  destruct (replace_utterances_spec id (map new_utterance us) s Hex) as (s' & Hrep & Hcore & Hrest).
  cbv zeta in Hrep, Hcore. rewrite bind_assoc. destruct (forallb utterance_ok _) eqn:Efits.
  - rewrite (bind_ok _ _ _ _ _ Hrep), (proj2 (andb_false_iff _ _)).
    + do 3 eexists. split; [done|]. split; [exact Hsame|]. split; [done|]. split; [done|]. rewrite Efits.
      split; [split; [done|]; by rewrite Hcore, map_map|done].
    + destruct us as [|u us]; [right|by left]. apply Forall2_nil_inv_r in Hsame. rewrite Hsame in Hcat. by rewrite <- Hcat.
  - rewrite (bind_err _ _ _ _ _ Hrep). do 3 eexists. split; [done|]. split; [exact Hsame|]. split; [done|]. split; [done|]. rewrite Efits.
    split; [split; [done|]; by apply fmap_nil_inv in Hcore|done].
Qed.

(** C11: the merge stage, once the transcript and the turns are there, replaces
    the recording's lines.  Their words are those of the transcript, in order
    and unchanged but for the speaker: all of them, or all but the configured
    fillers when those are to be removed; each has the speaker whose turns
    cover it longest; they are grouped as [group_into_utterances] groups them,
    and the language model may only reword a line, never move, time, attribute
    or drop one.  When the database does not take a text (a NUL in it) the
    stage fails and the recording is left without lines; otherwise it succeeds.
    Other recordings and tables are not touched.  Without an artifact it fails
    before writing anything. *)
Theorem merge_run_spec `{CharAlnum} `{LanguageModel} `{CorrectionReader} `{SerdeJson TranscriptArtifact}
    `{SerdeJson DiarizationArtifact} cfg id s :
  recording_exists s id = true ->
  match artifacts.get_transcript id s, artifacts.get_diarization id s with
  | (Ok t, _), (Ok d, _) =>
      exists r s' us, run cfg id s = (r, s') /\
        Forall2 same_but_text (group_into_utterances (labelled cfg t d)) us /\
        (mc_correct_transcript cfg = false -> us = group_into_utterances (labelled cfg t d)) /\
        Forall2 (spoken_by (da_turns d)) (kept_words cfg t) (concat (map gu_words us)) /\
        (if forallb utterance_ok (map new_utterance us)
         then r = Ok tt /\ map utt_core (bfilter (utt_of id) (db_utterances s')) = map grouped_core us
         else r = Err nul_error /\ bfilter (utt_of id) (db_utterances s') = []) /\
        bfilter (fun r => negb (utt_of id r)) (db_utterances s') =
          bfilter (fun r => negb (utt_of id r)) (db_utterances s) /\
        set_next_utt 0 (set_utterances [] s') = set_next_utt 0 (set_utterances [] s)
  | (Err e, _), _ => run cfg id s = (Err e, s)
  | _, (Err e, _) => run cfg id s = (Err e, s)
  end.
Proof. apply merge_eq. Qed.

(** *** Witnesses *)

Definition sample_word (text : string) (a b : Z) (i : option Z) : Word := mkWord text a b (SpecFloat.S754_zero false) i.
Definition sample_turns : list TurnArtifact := [mkTurn 0 0 1000; mkTurn 1 900 4000].
Definition sample_words : list Word :=
  [sample_word "Hello" 0 400 None; sample_word "there" 500 950 None; sample_word "Hi" 1000 1200 None;
   sample_word "late" 9000 9100 None].

Definition ascii_alnum : CharAlnum := fun c =>
  match c with String a "" => is_alpha a || bool_decide (is_Some (digit_val a)) | _ => false end.
Definition silent_model : LanguageModel := fun _ _ => Err (Http "down").
Definition no_reader : CorrectionReader := fun _ => None.
Definition sample_artifacts : Db :=
  set_artifacts {[ (1%N, KIND_TRANSCRIPT) := write_transcript (mkTranscriptArtifact "" sample_words);
                   (1%N, KIND_DIARIZATION) := write_diarization (mkDiarization sample_turns 2) ]} sample_db.

Definition sample_merge_cfg : MergeConfig := mkMergeConfig true ["uh"] true "m".

Lemma merge_run_spec_witness :
  exists s', @run ascii_alnum silent_model no_reader transcript_codec diarization_codec sample_merge_cfg 1 sample_artifacts = (Ok tt, s') /\
    map ur_text (bfilter (utt_of 1) (db_utterances s')) = ["Hello there"; "Hi"; "late"].
Proof.
  destruct (@merge_run_spec ascii_alnum silent_model no_reader transcript_codec diarization_codec sample_merge_cfg 1
    sample_artifacts eq_refl) as (r & s' & us & Hrun & _).
  pose proof Hrun as Hcopy. vm_compute in Hcopy. injection Hcopy as <- <-. eexists. split; [exact Hrun|]. vm_compute. reflexivity.
Defined.
