(* ===== verification/Embed.v ===== *)
(** * The embed stage: [stages/embed.rs]

    A merged transcript is cut into retrieval chunks, one per utterance or one
    per 45 s window of a long one, and the recording's chunks are replaced by
    their embeddings.  The embedding model is an instance of the trait. *)

From Stdlib Require Import String.
From S2P Require Import Prelude RustStr Types Llm Db DbSchema Store QueueSteps.

(** ** Chunks *)

Definition WINDOW_MS : Z := 45000.
Definition WINDOW_OVERLAP_MS : Z := 5000.

Record PendingChunk := mkPending {
  pc_start_ms : Z; pc_end_ms : Z; pc_local_idx : option Z; pc_text : string;
}.

(** The closure [|w| w.end_ms > win_start && w.start_ms < win_end]. *)
Definition in_window (win_start win_end : Z) (w : Word) : bool :=
  (win_start <? w_end_ms w) && (w_start_ms w <? win_end).

(** [iter().max()] *)
Definition max_end (ws : list Word) : option Z :=
  match ws with
  | [] => None
  | w :: ws' => Some (foldl (fun m x => Z.max m (w_end_ms x)) (w_end_ms w) ws')
  end.

(** One turn of the loop's body: the chunk of a window, when it holds words. *)
Definition window_chunk (u : Utterance) (win_start win_end : Z) : option PendingChunk :=
  let words := map w_text (bfilter (in_window win_start win_end) (utt_words u)) in
  if bool_decide (length words = 0%nat) then None
  else
    let actual_start := default win_start
      (w_start_ms <$> find_first (in_window win_start win_end) (utt_words u)) in
    let actual_end := default win_end
      (max_end (bfilter (in_window win_start win_end) (utt_words u))) in
    Some (mkPending actual_start actual_end (utt_local_idx u) (join " " words)).

Definition option_list {A} (o : option A) : list A := match o with Some x => [x] | None => [] end.

(** [while win_start < u.end_ms]; the fuel bounds the number of windows. *)
Fixpoint windows_from (fuel : nat) (u : Utterance) (win_start : Z) : list PendingChunk :=
  match fuel with
  | O => []
  | S fuel =>
      if win_start <? utt_end_ms u then
        let win_end := Z.min (win_start + WINDOW_MS) (utt_end_ms u) in
        option_list (window_chunk u win_start win_end) ++
        (if utt_end_ms u <=? win_end then []
         else windows_from fuel u (win_end - WINDOW_OVERLAP_MS))
      else []
  end.

(** Every turn but the last moves the window by 40 s. *)
Definition window_fuel (u : Utterance) : nat :=
  Z.to_nat ((utt_end_ms u - utt_start_ms u) / (WINDOW_MS - WINDOW_OVERLAP_MS) + 1).

Definition window_utterance (u : Utterance) : list PendingChunk :=
  windows_from (window_fuel u) u (utt_start_ms u).

Definition chunks_of_utterance (u : Utterance) : list PendingChunk :=
  let text := trim (utt_text u) in
  if is_empty text then []
  else
    let span := utt_end_ms u - utt_start_ms u in
    if (span <=? WINDOW_MS) || bool_decide (length (utt_words u) = 0%nat)
    then [mkPending (utt_start_ms u) (utt_end_ms u) (utt_local_idx u) text]
    else window_utterance u.

Definition build_chunks (utterances : list Utterance) : list PendingChunk :=
  flat_map chunks_of_utterance utterances.

(** ** The stage *)

Definition new_chunk (c : PendingChunk) (embedding : list f32) : NewChunk :=
  mkNewChunk (Some (pc_start_ms c)) (Some (pc_end_ms c)) (pc_local_idx c) (pc_text c) embedding.

Section stage.
Context `{Embedder}.

Definition run (recording_id : Uuid) : DbM unit :=
  utterances ← list_utterances_by_recording recording_id;
  let pending := build_chunks utterances in
  if bool_decide (length pending = 0%nat) then
    _ ← delete_chunks_by_recording recording_id; mret tt
  else
    match embed (map pc_text pending) with
    | Err e => fail_with e
    | Ok vectors =>
        if negb (bool_decide (length vectors = length pending)) then
          fail_with (stage_err "embed"
            ("embedder returned " +:+ pretty (length vectors) +:+ " vectors for " +:+
             pretty (length pending) +:+ " chunks"))
        else
          _ ← delete_chunks_by_recording recording_id;
          _ ← insert_chunks recording_id (zip_with new_chunk pending vectors);
          mret tt
    end.
End stage.

(** ** Windows *)

Definition STEP_MS : Z := WINDOW_MS - WINDOW_OVERLAP_MS.

(** How many windows a span of [len] milliseconds has. *)
Definition window_count (len : Z) : Z :=
  if len <=? 0 then 0 else if len <=? WINDOW_MS then 1 else (len - WINDOW_MS + STEP_MS - 1) / STEP_MS + 1.

(** The [i]-th window of the utterance. *)
Definition nth_window (u : Utterance) (i : Z) : option PendingChunk :=
  let win_start := utt_start_ms u + STEP_MS * i in
  window_chunk u win_start (Z.min (win_start + WINDOW_MS) (utt_end_ms u)).

Lemma omap_cons_option {A B} (f : A -> option B) x l : omap f (x :: l) = option_list (f x) ++ omap f l.
Proof. cbn. by destruct (f x). Qed.

Lemma omap_fmap_ext {A B C} (f : B -> option C) (g : A -> B) (h : A -> option C) (l : list A) :
  (forall x, f (g x) = h x) -> omap f (g <$> l) = omap h l.
Proof. intros Hf. induction l as [|x l IH]; [done|]. cbn. rewrite Hf. destruct (h x); [f_equal|]; exact IH. Qed.

Lemma window_count_step len :
  WINDOW_MS < len -> window_count len = window_count (len - STEP_MS) + 1 /\ 0 <= window_count (len - STEP_MS).
Proof.
  unfold window_count, STEP_MS, WINDOW_MS, WINDOW_OVERLAP_MS. intros Hlen.
  destruct (len <=? 0) eqn:E1; [bool_to_prop; lia|]. destruct (len <=? 45000) eqn:E2; [bool_to_prop; lia|].
  destruct (len - (45000 - 5000) <=? 0) eqn:E3; [bool_to_prop; lia|].
  destruct (len - (45000 - 5000) <=? 45000) eqn:E4; bool_to_prop; divlia.
Qed.

Lemma windows_from_eq fuel u win_start :
  utt_end_ms u - win_start < STEP_MS * Z.of_nat fuel ->
  windows_from fuel u win_start =
  omap (fun i => window_chunk u (win_start + STEP_MS * i)
          (Z.min (win_start + STEP_MS * i + WINDOW_MS) (utt_end_ms u)))
    (seqZ 0 (window_count (utt_end_ms u - win_start))).
Proof.
  revert win_start. induction fuel as [|fuel IH]; intros ws Hf.
  - cbn. unfold window_count. rewrite (proj2 (Z.leb_le _ 0)) by lia. done.
  - cbn [windows_from]. destruct (ws <? utt_end_ms u) eqn:E; bool_to_prop.
    2:{ unfold window_count. by rewrite (proj2 (Z.leb_le _ 0)) by lia. }
    destruct (utt_end_ms u <=? Z.min (ws + WINDOW_MS) (utt_end_ms u)) eqn:E2; bool_to_prop.
    + unfold window_count. rewrite (proj2 (Z.leb_gt _ 0)) by lia.
      rewrite (proj2 (Z.leb_le _ WINDOW_MS)) by (unfold WINDOW_MS in *; lia).
      rewrite seqZ_cons by lia. rewrite omap_cons_option, Z.mul_0_r, Z.add_0_r. done.
    + assert (Hlen : WINDOW_MS < utt_end_ms u - ws) by lia.
      destruct (window_count_step _ Hlen) as [Hc Hn]. rewrite Hc.
      rewrite seqZ_cons by lia. rewrite omap_cons_option, Z.mul_0_r, Z.add_0_r. f_equal.
      replace (Z.min (ws + WINDOW_MS) (utt_end_ms u) - WINDOW_OVERLAP_MS) with (ws + STEP_MS) by (unfold STEP_MS in *; lia).
      rewrite IH by (unfold STEP_MS in *; lia).
      replace (utt_end_ms u - (ws + STEP_MS)) with (utt_end_ms u - ws - STEP_MS) by lia.
      replace (Z.pred (window_count (utt_end_ms u - ws - STEP_MS) + 1)) with (window_count (utt_end_ms u - ws - STEP_MS)) by lia.
      rewrite <- (fmap_add_seqZ 1 0). symmetry. apply omap_fmap_ext.
      intros i. f_equal; [|f_equal]; lia.
Qed.

(** The windowing loop ends, and its chunks are those of the windows
    [start + 40 s * i, start + 40 s * i + 45 s), cut at the utterance's end,
    from which some word is heard: exactly as many as reach the end, each
    overlapping the next by five seconds. *)
Theorem window_utterance_equiv u :
  window_utterance u = omap (nth_window u) (seqZ 0 (window_count (utt_end_ms u - utt_start_ms u))) /\
  (forall fuel, (window_fuel u <= fuel)%nat -> windows_from fuel u (utt_start_ms u) = window_utterance u).
Proof.
  assert (Hf : forall fuel, (window_fuel u <= fuel)%nat ->
    utt_end_ms u - utt_start_ms u < STEP_MS * Z.of_nat fuel).
  { intros fuel. unfold window_fuel, STEP_MS, WINDOW_MS, WINDOW_OVERLAP_MS. intros Hle. divlia. }
  unfold window_utterance. split; [by apply windows_from_eq, Hf|].
  intros fuel Hle. rewrite !windows_from_eq by auto. done.
Qed.

Lemma window_at len p :
  0 <= p < len -> exists i, 0 <= i < window_count len /\ STEP_MS * i <= p < STEP_MS * i + WINDOW_MS.
Proof.
  intros Hp. exists (Z.min (p / STEP_MS) (window_count len - 1)).
  unfold window_count, STEP_MS, WINDOW_MS, WINDOW_OVERLAP_MS in *.
  destruct (len <=? 0) eqn:E1; [bool_to_prop; lia|]. destruct (len <=? 45000) eqn:E2; bool_to_prop; divlia.
Qed.

(** The window's bounds are tight: they are those of words it holds. *)
Definition chunk_within (u : Utterance) (win_start win_end : Z) (c : PendingChunk) : Prop :=
  let heard := bfilter (in_window win_start win_end) (utt_words u) in
  heard <> [] /\ pc_text c = join " " (map w_text heard) /\ pc_local_idx c = utt_local_idx u /\
  w_start_ms <$> head heard = Some (pc_start_ms c) /\
  (forall w, w ∈ heard -> w_end_ms w <= pc_end_ms c) /\ (exists w, w ∈ heard /\ w_end_ms w = pc_end_ms c).

Lemma find_first_head {A} (p : A -> bool) l : find_first p l = head (bfilter p l).
Proof. induction l as [|x l IH]; [done|]. cbn. by destruct (p x). Qed.

Lemma max_end_spec ws m :
  max_end ws = Some m -> (forall w, w ∈ ws -> w_end_ms w <= m) /\ exists w, w ∈ ws /\ w_end_ms w = m.
Proof.
  destruct ws as [|w ws]; [done|]. cbn. intros [= <-].
  induction ws as [|x ws IH] using rev_ind; cbn.
  - split; [|exists w; by split; [left|]]. intros y ->%list_elem_of_singleton. done.
  - rewrite foldl_app. cbn. destruct IH as [Hle (y & Hy & Hyw)]. set (m := foldl _ _ ws) in *. split.
    + intros z Hz. rewrite elem_of_cons, elem_of_app, list_elem_of_singleton in Hz.
      destruct Hz as [->|[Hz| ->]]; [|specialize (Hle z ltac:(by right))|]; try lia.
      specialize (Hle w ltac:(left)). lia.
    + destruct (Z.max_spec m (w_end_ms x)) as [[_ ->]|[_ ->]].
      * exists x. split; [|done]. right. apply elem_of_app. right. by apply list_elem_of_singleton.
      * exists y. split; [|done]. apply elem_of_cons in Hy as [->|Hy]; [left|]. right. apply elem_of_app. by left.
Qed.

Lemma window_chunk_spec u a b :
  match window_chunk u a b with
  | Some c => chunk_within u a b c
  | None => bfilter (in_window a b) (utt_words u) = []
  end.
Proof.
  unfold window_chunk, chunk_within. rewrite length_map, find_first_head.
  destruct (bfilter (in_window a b) (utt_words u)) as [|w ws] eqn:E; [done|].
  rewrite bool_decide_false by done. cbn [pc_text pc_local_idx pc_start_ms pc_end_ms]. split; [done|].
  split; [done|]. split; [done|]. split; [done|].
  destruct (max_end (w :: ws)) as [m|] eqn:Em; [|done]. exact (max_end_spec _ _ Em).
Qed.

Lemma elem_of_window_utterance u c :
  c ∈ window_utterance u <->
  exists i, 0 <= i < window_count (utt_end_ms u - utt_start_ms u) /\ nth_window u i = Some c.
Proof.
  unfold window_utterance. rewrite windows_from_eq.
  2:{ unfold window_fuel, STEP_MS, WINDOW_MS, WINDOW_OVERLAP_MS. divlia. }
  rewrite list_elem_of_omap. setoid_rewrite elem_of_seqZ. split; intros (i & Hi & Hc); exists i; (split; [lia|done]).
Qed.

Lemma nth_window_bounds u i :
  0 <= i < window_count (utt_end_ms u - utt_start_ms u) ->
  let a := utt_start_ms u + STEP_MS * i in let b := Z.min (a + WINDOW_MS) (utt_end_ms u) in
  utt_start_ms u <= a < b /\ b <= utt_end_ms u /\ b - a <= WINDOW_MS.
Proof.
  unfold window_count, STEP_MS, WINDOW_MS, WINDOW_OVERLAP_MS. intros Hi.
  destruct (_ <=? 0) eqn:E1; [lia|]. destruct (_ <=? 45000) eqn:E2; bool_to_prop; divlia.
Qed.

Lemma chunks_of_utterance_spec u :
  if is_empty (trim (utt_text u)) then chunks_of_utterance u = []
  else if (utt_end_ms u - utt_start_ms u <=? WINDOW_MS) || bool_decide (length (utt_words u) = 0%nat)
  then chunks_of_utterance u = [mkPending (utt_start_ms u) (utt_end_ms u) (utt_local_idx u) (trim (utt_text u))]
  else (WINDOW_MS < utt_end_ms u - utt_start_ms u /\ utt_words u <> []) /\
    (forall w, w ∈ utt_words u -> w_start_ms w < w_end_ms w ->
       utt_start_ms u < w_end_ms w -> w_start_ms w < utt_end_ms u ->
       exists c a b, c ∈ chunks_of_utterance u /\ chunk_within u a b c /\ in_window a b w = true) /\
    (forall c, c ∈ chunks_of_utterance u ->
       exists a b, utt_start_ms u <= a < b /\ b <= utt_end_ms u /\ b - a <= WINDOW_MS /\ chunk_within u a b c).
Proof.
  unfold chunks_of_utterance. destruct (is_empty _); [done|]. destruct (_ || _) eqn:E; [done|].
  bool_to_prop. split; [split; [done|]; intros Hnil; by rewrite Hnil in *|]. split.
  - intros w Hw Hlen Hs He.
    destruct (window_at (utt_end_ms u - utt_start_ms u) (Z.max (w_start_ms w) (utt_start_ms u) - utt_start_ms u))
      as (i & Hi & Hin); [unfold WINDOW_MS in *; lia|].
    set (a := utt_start_ms u + STEP_MS * i). set (b := Z.min (a + WINDOW_MS) (utt_end_ms u)).
    assert (Hwin : in_window a b w = true).
    { unfold in_window. apply andb_true_iff. split; apply Z.ltb_lt; unfold a, b; lia. }
    pose proof (window_chunk_spec u a b) as Hc. destruct (window_chunk u a b) as [c|] eqn:Ec.
    + exists c, a, b. split; [|done]. apply elem_of_window_utterance. by exists i.
    + exfalso. assert (Hb : w ∈ bfilter (in_window a b) (utt_words u)) by (by apply elem_of_bfilter).
      rewrite Hc in Hb. inversion Hb.
  - intros c (i & Hi & Hc)%elem_of_window_utterance. apply nth_window_bounds in Hi. unfold nth_window in Hc.
    cbn zeta in *. do 2 eexists. do 3 (split; [apply Hi|]).
    pose proof (window_chunk_spec u (utt_start_ms u + STEP_MS * i)
      (Z.min (utt_start_ms u + STEP_MS * i + WINDOW_MS) (utt_end_ms u))) as Hs. by rewrite Hc in Hs.
Qed.

(** C38: Nothing spoken is left out of retrieval and every chunk is well scoped.
    A line with text and at most 45 s (or no word timings) is one chunk; of a
    longer one, every word with a duration that reaches into the line is in a
    chunk.  Conversely each chunk is a whole line, trimmed, or the words heard
    in one window of at most 45 s of one line, with exactly their bounds. *)
Theorem build_chunks_cover us :
  (forall u, u ∈ us -> trim (utt_text u) <> "" ->
    mkPending (utt_start_ms u) (utt_end_ms u) (utt_local_idx u) (trim (utt_text u)) ∈ build_chunks us \/
    (WINDOW_MS < utt_end_ms u - utt_start_ms u /\ utt_words u <> [] /\
     forall w, w ∈ utt_words u -> w_start_ms w < w_end_ms w ->
       utt_start_ms u < w_end_ms w -> w_start_ms w < utt_end_ms u ->
       exists c a b, c ∈ build_chunks us /\ chunk_within u a b c /\ in_window a b w = true)) /\
  (forall c, c ∈ build_chunks us -> exists u, u ∈ us /\ trim (utt_text u) <> "" /\
    (c = mkPending (utt_start_ms u) (utt_end_ms u) (utt_local_idx u) (trim (utt_text u)) \/
     exists a b, utt_start_ms u <= a < b /\ b <= utt_end_ms u /\ b - a <= WINDOW_MS /\ chunk_within u a b c)).
Proof.
  unfold build_chunks. setoid_rewrite elem_of_flat_map. split.
  - intros u Hu Ht. rewrite <- is_empty_false in Ht. pose proof (chunks_of_utterance_spec u) as Hs. rewrite Ht in Hs.
    case_match.
    + left. exists u. split; [done|]. rewrite Hs. left.
    + right. destruct Hs as ([Hspan Hwords] & Hcov & _). split; [done|]. split; [done|]. intros w Hw H1 H2 H3.
      destruct (Hcov w Hw H1 H2 H3) as (c & a & b & Hc & ?). exists c, a, b. split; [by exists u|done].
  - intros c (u & Hu & Hc). exists u. split; [done|]. pose proof (chunks_of_utterance_spec u) as Hs.
    destruct (is_empty (trim (utt_text u))) eqn:Ht; [rewrite Hs in Hc; inversion Hc|].
    apply is_empty_false in Ht. split; [done|]. case_match.
    + left. rewrite Hs in Hc. by apply list_elem_of_singleton in Hc.
    + right. destruct Hs as (_ & _ & Hsound). by apply Hsound.
Qed.

(** ** The stage *)

Definition chunk_core (r : ChunkRow) : NewChunk :=
  mkNewChunk (cr_start_ms r) (cr_end_ms r) (cr_local_idx r) (cr_text r) (cr_embedding r).

(** Everything of the database except chunks: rows and the id sequence. *)
Definition but_chunks (s : Db) : Db := set_next_chunk 0 (set_chunks [] s).

Definition chunk_row_ok (c : NewChunk) : bool := halfvec_ok (nc_embedding c).

Definition chunks_of (id : Uuid) (s : Db) : list NewChunk := map chunk_core (bfilter (chunk_of id) (db_chunks s)).
Definition other_chunks (id : Uuid) (s : Db) : list ChunkRow :=
  bfilter (fun c => negb (chunk_of id c)) (db_chunks s).

Lemma insert_chunk_loop id cs s :
  recording_exists s id = true -> forallb chunk_row_ok cs = true ->
  exists s', mfor cs (insert_chunk id) s = (Ok tt, s') /\
    chunks_of id s' = chunks_of id s ++ cs /\ other_chunks id s' = other_chunks id s /\
    but_chunks s' = but_chunks s.
Proof.
  revert s. induction cs as [|c cs IH]; intros s Hex Hok; cbn [mfor].
  - exists s. by rewrite app_nil_r.
  - cbn [forallb] in Hok. apply andb_true_iff in Hok as [Hc Hok].
    unfold mbind, M_bind, insert_chunk at 1. unfold chunk_row_ok in Hc. rewrite Hc, Hex. cbn [negb].
    set (s1 := set_chunks _ _).
    destruct (IH s1 Hex Hok) as (s' & Hrun & Hcs & Hoth & Hbut). exists s'. split; [exact Hrun|].
    assert (Hme : chunk_of id (mkChunkRow (db_next_chunk s) id (nc_start_ms c) (nc_end_ms c) (nc_local_idx c)
      (nc_text c) (nc_embedding c)) = true) by (by apply bool_decide_true).
    split; [|split; [|by rewrite Hbut]].
    + rewrite Hcs. unfold chunks_of, s1. cbn [db_chunks set_chunks]. rewrite bfilter_app, map_app. cbn [bfilter List.filter].
      rewrite Hme. cbn. rewrite <- app_assoc. by destruct c.
    + rewrite Hoth. unfold other_chunks, s1. cbn [db_chunks set_chunks]. rewrite bfilter_app. cbn [bfilter List.filter].
      rewrite Hme. cbn. by rewrite app_nil_r.
Qed.

Lemma insert_chunks_spec id cs s :
  recording_exists s id = true -> forallb chunk_row_ok cs = true ->
  exists s', insert_chunks id cs s = (Ok (count cs), s') /\
    chunks_of id s' = chunks_of id s ++ cs /\ other_chunks id s' = other_chunks id s /\
    but_chunks s' = but_chunks s.
Proof.
  intros Hex Hok. unfold insert_chunks. destruct cs as [|c cs].
  - exists s. by rewrite app_nil_r.
  - rewrite bool_decide_false by done. destruct (insert_chunk_loop id (c :: cs) s Hex Hok) as (s' & Hrun & Hrest).
    exists s'. unfold transaction. by rewrite (bind_ok _ _ _ _ _ Hrun).
Qed.

(** One vector the column does not take, and the transaction inserts nothing. *)
Lemma insert_chunks_refused id cs s :
  recording_exists s id = true -> forallb chunk_row_ok cs = false -> insert_chunks id cs s = (Err vector_error, s).
Proof.
  intros Hex Hbad. unfold insert_chunks. destruct cs as [|c cs]; [done|]. rewrite bool_decide_false by done.
  assert (Hloop : forall l s, recording_exists s id = true -> forallb chunk_row_ok l = false ->
    exists s', mfor l (insert_chunk id) s = (Err vector_error, s')).
  { induction l as [|x l IH]; intros s0 Hex0; [done|]. cbn [forallb mfor]. unfold mbind, M_bind, insert_chunk at 1.
    unfold chunk_row_ok at 1. destruct (halfvec_ok _); cbn [andb negb]; [|by exists s0]. rewrite Hex0. cbn [negb]. by apply IH. }
  destruct (Hloop (c :: cs) s Hex Hbad) as (s' & Hrun). unfold transaction. by rewrite (bind_err _ _ _ _ _ Hrun).
Qed.

Lemma delete_chunks_spec id s :
  exists s', delete_chunks_by_recording id s = (Ok (count (bfilter (chunk_of id) (db_chunks s))), s') /\
    chunks_of id s' = [] /\ other_chunks id s' = other_chunks id s /\ but_chunks s' = but_chunks s /\
    recording_exists s' id = recording_exists s id.
Proof.
  eexists. split; [done|]. split; [|split; [|done]].
  - unfold chunks_of. cbn [db_chunks set_chunks]. by rewrite bfilter_negb_nil.
  - apply bfilter_idemp.
Qed.

(** C21: with a backend that keeps the trait's contract and whose width is the
    column's, the embed stage replaces the recording's chunks by those of its
    current transcript, each with its own vector, in order, and touches nothing
    else; when the model fails the old chunks are still all there.  The contract
    does not say that the numbers are finite: when one is not (or is too large
    for half precision) the stage fails, and then the old chunks are gone and
    no new one is there. *)
Theorem embed_run_spec `{EmbedderLaws} id s :
  dim = Z.of_nat CHUNK_DIM -> recording_exists s id = true ->
  let pending := build_chunks (map (utterance_from_row s) (sort_by utt_le (bfilter (utt_of id) (db_utterances s)))) in
  match embed (map pc_text pending) with
  | Err e => pending <> [] -> run id s = (Err e, s)
  | Ok vs =>
      let accepted := forallb (forallb fits_half) vs in
      exists s', run id s = (if accepted then Ok tt else Err vector_error, s') /\
        chunks_of id s' = (if accepted then zip_with new_chunk pending vs else []) /\ length vs = length pending /\
        other_chunks id s' = other_chunks id s /\ but_chunks s' = but_chunks s
  end.
Proof.
  intros Hdim Hex pending. destruct (embed (map pc_text pending)) as [vs|e] eqn:Ee.
  - intros accepted. pose proof (embed_length _ _ Ee) as Hlen. rewrite length_map in Hlen.
    pose proof (embed_dim _ _ Ee) as Hw. rewrite Hdim in Hw.
    unfold run, list_utterances_by_recording. rewrite bind_query. fold pending.
    destruct (delete_chunks_spec id s) as (s1 & Hdel & Hnil & Hoth & Hbut & Hex1). rewrite Hex in Hex1.
    assert (Hok : forallb chunk_row_ok (zip_with new_chunk pending vs) = accepted).
    { unfold accepted. clear -Hlen Hw. revert vs Hlen Hw.
      induction pending as [|p pending IH]; intros [|v vs] Hlen Hw; try done. injection Hlen as Hlen. apply Forall_cons in Hw as [Hv Hw].
      cbn. rewrite IH by done. unfold chunk_row_ok, halfvec_ok. cbn. by rewrite bool_decide_true by lia. }
    destruct (decide (length pending = 0%nat)) as [Hz|Hz].
    + rewrite bool_decide_true by done. rewrite (bind_ok _ _ _ _ _ Hdel). apply nil_length_inv in Hz.
      assert (vs = []) as -> by (apply nil_length_inv; by rewrite Hlen, Hz). cbn in accepted. subst accepted.
      exists s1. rewrite Hnil, Hz. done.
    + rewrite bool_decide_false by done. rewrite Ee, bool_decide_true by done. cbn [negb].
      rewrite (bind_ok _ _ _ _ _ Hdel). destruct accepted.
      * destruct (insert_chunks_spec id _ s1 Hex1 Hok) as (s2 & Hins & Hcs & Hoth2 & Hbut2).
        rewrite (bind_ok _ _ _ _ _ Hins). exists s2. rewrite Hcs, Hnil. split; [done|]. split; [done|].
        split; [done|]. split; congruence.
      * pose proof (insert_chunks_refused id _ s1 Hex1 Hok) as Hins. rewrite (bind_err _ _ _ _ _ Hins). by exists s1.
  - intros Hne. unfold run, list_utterances_by_recording. rewrite bind_query. fold pending.
    rewrite bool_decide_false by (by destruct pending). by rewrite Ee.
Qed.

(** *** Witnesses *)

Definition zero_vector : list f32 := replicate CHUNK_DIM (SpecFloat.S754_zero false).
Definition zero_embedder : Embedder := {| embed texts := Ok (map (fun _ => zero_vector) texts); dim := 768 |}.

Lemma zero_embedder_laws : @EmbedderLaws zero_embedder.
Proof.
  split; intros texts vs [= <-]; [by rewrite length_map|].
  apply Forall_forall. intros v (x & -> & _)%list_elem_of_fmap. done.
Qed.

Definition sample_spoken : Db :=
  set_utterances [mkUttRow 1 1 (Some 0) 0 1000 " Hello. " []; mkUttRow 2 1 (Some 1) 1000 2000 "Hi." []] sample_db.

Lemma embed_run_spec_witness :
  exists s', @run zero_embedder 1 sample_spoken = (Ok tt, s') /\
    chunks_of 1 s' = [mkNewChunk (Some 0) (Some 1000) (Some 0) "Hello." zero_vector;
                      mkNewChunk (Some 1000) (Some 2000) (Some 1) "Hi." zero_vector].
Proof.
  destruct (@embed_run_spec zero_embedder zero_embedder_laws 1 sample_spoken eq_refl eq_refl)
    as (s' & Hrun & Hcs & _).
  exists s'. split; [exact Hrun|]. rewrite Hcs. vm_compute. reflexivity.
Defined.
