(* ===== verification/Summarize.v ===== *)
(** * Summaries and titles: [stages/summarize.rs] and [title.rs]

    The transcript is rendered with names, condensed when it exceeds the prompt
    budget, and the model's answer is read leniently into a summary row; while a
    recording is still arriving its title is regenerated from what is there. *)

From Stdlib Require Import Ascii String.
From S2P Require Import Prelude RustStr Types Llm Db DbSchema Store Merge.

#[local] Arguments String.append !_ _ /.

(** [serde_json]: reading text, and [Value::to_string]. *)
Class JsonText := {
  json_from_str : string -> result string Json;
  json_to_string : Json -> string;
}.

Record LlmConfig := mkLlmConfig { summarize_model : string; max_prompt_chars : Z }.

Definition blank_line : string := newline +:+ newline.
Definition quoted (s : string) : string := String dquote "" +:+ s +:+ String dquote "".

(** ** Condensing *)

(** The loop of [split_on_lines]; [current] is the part being filled. *)
Fixpoint split_from (budget : Z) (current : string) (ls : list string) : list string :=
  match ls with
  | [] => if is_empty (trim current) then [] else [current]
  | line :: ls' =>
      let line_len := char_count line + 1 in
      if negb (is_empty current) && (budget <? char_count current + line_len)
      then current :: split_from budget (line +:+ newline) ls'
      else split_from budget (current +:+ line +:+ newline) ls'
  end.

Definition split_on_lines (text : string) (budget : Z) : list string :=
  match split_from budget "" (lines text) with
  | [] => [text]
  | parts => parts
  end.

Section condense.
Context `{LanguageModel}.

Definition notes_system : string := "You take notes on meeting transcripts. Be dense and factual.".

Definition notes_user (n total : nat) (part : string) : string :=
  "This is part " +:+ pretty n +:+ " of " +:+ pretty total +:+
  " of a meeting transcript. Write dense notes on THIS part only: what was discussed, what was decided, what was assigned to whom, and any numbers, dates or names that matter. Keep speaker names. Do not add a preamble, a conclusion, or anything that is not in this part."
  +:+ blank_line +:+ part.

(** One round's loop over the parts: [notes] so far, [i] the part's index. *)
Fixpoint take_notes (model : string) (total i : nat) (parts : list string) (notes : string)
    : result Error string :=
  match parts with
  | [] => Ok notes
  | part :: parts' =>
      match chat model [ChatMessage.system notes_system; ChatMessage.user (notes_user (S i) total part)] with
      | Err e => Err e
      | Ok text => take_notes model total (S i) parts' (notes +:+ trim text +:+ blank_line)
      end
  end.

Definition MAX_ROUNDS : nat := 4.

Fixpoint condense_rounds (rounds : nat) (model body : string) (budget : Z) : result Error string :=
  match rounds with
  | O => Ok (take_chars body budget)
  | S rounds =>
      let parts := split_on_lines body (budget * 2 / 3) in
      match take_notes model (length parts) 0 parts "" with
      | Err e => Err e
      | Ok notes =>
          let body := trim notes in
          if char_count body <=? budget then Ok body
          else condense_rounds rounds model body budget
      end
  end.

Definition condense (model transcript : string) (budget : Z) : result Error string :=
  condense_rounds MAX_ROUNDS model transcript budget.
End condense.

(** ** The prompt *)

Definition speaker_names (recording_id : Uuid) : DbM (gmap Z string) :=
  rows ← list_recording_speakers recording_id;
  mret (foldl (fun m r => <[rs_local_idx r := default (speaker_label (rs_local_idx r)) (rs_display_name r)]> m)
    ∅ rows).

Definition render_label (names : gmap Z string) (local_idx : option Z) : string :=
  match local_idx with
  | Some idx => default (speaker_label idx) (names !! idx)
  | None => "Speaker"
  end.

Definition render_transcript (utterances : list Utterance) (names : gmap Z string) : string :=
  str_concat (map (fun u =>
    render_label names (utt_local_idx u) +:+ ": " +:+ trim (utt_text u) +:+ newline) utterances).

Definition participant_line (names : gmap Z string) : string :=
  if bool_decide (names = ∅) then ""
  else
    let who := sort_by (fun a b : Z * string => fst a <=? fst b) (map_to_list names) in
    "The people speaking are: " +:+ join ", " (map snd who) +:+
    ". Attribute decisions and action items to them by name where the transcript supports it." +:+ blank_line.

Definition SYSTEM_PROMPT : string := "You are a meeting-notes assistant. Respond with only JSON.".

Definition summary_prompt (instructions roster body : string) : string :=
  instructions +:+ blank_line +:+
  "Return ONLY a JSON object with keys: " +:+
  quoted "title" +:+ " (string), " +:+ quoted "summary" +:+ " (string), " +:+
  quoted "action_items" +:+ " (array of strings), " +:+ quoted "decisions" +:+ " (array of strings), " +:+
  quoted "topics" +:+ " (array of strings). If the transcript is empty or trivial, still return the object with empty values."
  +:+ blank_line +:+ roster +:+ "Transcript:" +:+ newline +:+ body.

(** ** The answer *)

Record ParsedSummary := mkParsed {
  ps_title : option string; ps_summary : option string;
  ps_action_items : Json; ps_decisions : Json; ps_topics : Json;
}.

Definition first_json_object (s : string) : option string :=
  first_balanced (ascii_of_N 123) (ascii_of_N 125) s.

Definition string_field (v : Json) (key : string) : option string :=
  match json_get v key ≫= json_as_str with
  | Some s => let t := trim s in if is_empty t then None else Some t
  | None => None
  end.

Section parsing.
Context `{JsonText}.

Definition array_item (i : Json) : option Json :=
  match i with
  | JString s => let t := trim s in if is_empty t then None else Some (JString t)
  | other => Some (JString (json_to_string other))
  end.

Definition string_array (v : Json) (key : string) : Json :=
  match json_get v key with
  | Some (JArray items) => JArray (omap array_item items)
  | Some (JString s) => if is_empty (trim s) then JArray [] else JArray [JString (trim s)]
  | _ => JArray []
  end.

Definition parse_summary (raw : string) : ParsedSummary :=
  let fallback := mkParsed None (Some (trim raw)) (JArray []) (JArray []) (JArray []) in
  match first_json_object raw with
  | Some block =>
      match json_from_str block with
      | Ok v => mkParsed (string_field v "title") (string_field v "summary")
                  (string_array v "action_items") (string_array v "decisions") (string_array v "topics")
      | Err _ => fallback
      end
  | None => fallback
  end.
End parsing.

(** ** The stage *)

Section stage.
Context `{LanguageModel} `{JsonText} `{UuidFmt}.

Definition transcript_body (cfg : LlmConfig) (transcript : string) : string :=
  let budget := Z.max (max_prompt_chars cfg) 2000 in
  if budget <? char_count transcript then
    match condense (summarize_model cfg) transcript budget with
    | Ok notes => notes
    | Err _ => take_chars transcript budget
    end
  else transcript.

(** The answer, or an empty summary when the model cannot be reached. *)
Definition ask_summary (cfg : LlmConfig) (user : string) : ParsedSummary :=
  match chat (summarize_model cfg) [ChatMessage.system SYSTEM_PROMPT; ChatMessage.user user] with
  | Ok raw => parse_summary raw
  | Err _ => mkParsed None None (JArray []) (JArray []) (JArray [])
  end.

Definition run (cfg : LlmConfig) (recording_id : Uuid) (template : string) : DbM unit :=
  utterances ← list_utterances_by_recording recording_id;
  names ← speaker_names recording_id;
  let transcript := render_transcript utterances names in
  match summary_template.resolve template with
  | None => fail_with (Internal "no default template")
  | Some tmpl =>
      let body := transcript_body cfg transcript in
      let roster := participant_line names in
      let parsed := ask_summary cfg (summary_prompt (summary_template.instructions tmpl) roster body) in
      _ ← upsert_summary recording_id (ps_title parsed) (ps_summary parsed) (ps_action_items parsed)
            (ps_topics parsed) (ps_decisions parsed) (Some (summarize_model cfg))
            (Some (summary_template.id tmpl));
      match ps_title parsed with
      | Some title => _ ← set_recording_title_auto recording_id title; mret tt
      | None => mret tt
      end
  end.
End stage.

(** ** Provisional titles *)

Module title.
Definition SYSTEM : string :=
  "You name meetings. Given a partial meeting transcript, reply with ONLY a short, specific title (at most 8 words). No quotes, no trailing punctuation, no preamble.".
Definition MAX_CHARS : nat := 6000.

(** [String::split_off]: [None] is its panic off a character boundary. *)
Definition split_off (n : nat) (s : string) : option string :=
  let rest := String.substring n (String.length s - n) s in
  if starts_cont rest then None else Some rest.

Definition is_quote (c : string) : bool :=
  String.eqb c (String dquote "") || String.eqb c "'" || String.eqb c "`".

Definition clean_title (raw : string) : option string :=
  line ← find_first (fun l => negb (is_empty l)) (map trim (lines raw));
  let t := trim (trim_matches is_quote line) in
  if is_empty t then None else Some (take_chars t 120).

Definition all_text (utts : list Utterance) : string :=
  str_concat (map (fun u => trim (utt_text u) +:+ newline) utts).

(** What the model is shown; [None] when the thread panics. *)
Definition recent_text (utts : list Utterance) : option string :=
  let text := all_text utts in
  if (MAX_CHARS <? String.length text)%nat then split_off (String.length text - MAX_CHARS) text else Some text.

(** [regenerate] returns [None] when it panics. *)
Definition regenerate `{LanguageModel} (cfg : LlmConfig) (recording_id : Uuid) : DbM (option unit) :=
  utts ← list_utterances_by_recording recording_id;
  if bool_decide (length utts = 0%nat) then mret (Some tt)
  else
    match recent_text utts with
    | None => mret None
    | Some text =>
        match chat (summarize_model cfg) [ChatMessage.system SYSTEM; ChatMessage.user text] with
        | Err _ => mret (Some tt)
        | Ok raw =>
            match clean_title raw with
            | Some t => _ ← ignore_err (set_recording_title_auto recording_id t); mret (Some tt)
            | None => mret (Some tt)
            end
        end
    end.
End title.
