(* ===== verification/SummarizeProps.v ===== *)
(** * What summaries and titles promise *)

From Stdlib Require Import Ascii String.
From S2P Require Import Prelude RustStr Types Llm Db DbSchema Store StoreProps QueueSteps Merge MergeProps Summarize.

#[local] Arguments String.append !_ _ /.

(** ** Counting characters *)

(** ** Condensing *)

(** One part of a text: whole lines, each ended by a newline. *)
Definition joined (ls : list string) : string := str_concat (map (fun l => l +:+ newline) ls).

Lemma joined_snoc ls l : joined (ls ++ [l]) = joined ls +:+ l +:+ newline.
Proof. unfold joined. rewrite map_app, str_concat_app. cbn. by rewrite append_nil_r. Qed.

(** A part within the budget, or a single line. *)
Definition fits (budget : Z) (ls : list string) : Prop :=
  ls <> [] /\ (char_count (joined ls) <= budget \/ length ls = 1%nat).

Lemma split_from_spec budget g ls :
  (g = [] \/ fits budget g) ->
  exists gs rest, split_from budget (joined g) ls = map joined gs /\ g ++ ls = concat gs ++ rest /\
    trim (joined rest) = "" /\ Forall (fits budget) gs.
Proof.
  revert g. induction ls as [|l ls IH]; intros g Hg; cbn [split_from].
  - destruct (is_empty (trim (joined g))) eqn:E.
    + exists [], g. cbn. rewrite app_nil_r. split; [done|]. split; [done|]. split; [|constructor].
      by apply String.eqb_eq in E.
    + destruct Hg as [->|Hg]; [done|]. exists [g], []. cbn. rewrite !app_nil_r.
      split; [done|]. split; [done|]. split; [done|]. by constructor.
  - destruct (negb (is_empty (joined g)) && (budget <? char_count (joined g) + (char_count l + 1))) eqn:E.
    + destruct Hg as [->|Hg]; [done|].
      destruct (IH [l]) as (gs & rest & Heq & Hcat & Hr & Hf).
      { right. split; [done|]. by right. }
      exists (g :: gs), rest. replace (l +:+ newline) with (joined [l]) by (cbn; by rewrite append_nil_r).
      rewrite Heq. split; [done|]. split; [cbn; rewrite <- app_assoc, <- Hcat; done|]. split; [done|]. by constructor.
    + rewrite <- joined_snoc. destruct (IH (g ++ [l])) as (gs & rest & Heq & Hcat & Hr & Hf).
      { right. split; [by destruct g|]. apply andb_false_iff in E as [E|E].
        - right. destruct g as [|x g]; [done|]. exfalso. apply negb_false_iff, String.eqb_eq in E.
          cbn in E. by destruct x.
        - left. bool_to_prop. rewrite joined_snoc.
          pose proof (char_count_app_le (joined g) (l +:+ newline)).
          pose proof (char_count_app_le l newline). change (char_count newline) with 1 in *. lia. }
      exists gs, rest. rewrite Heq. split; [done|]. split; [rewrite <- Hcat, <- app_assoc; done|]. done.
Qed.

Lemma take_chars_fits s n : 0 <= n -> char_count (take_chars s n) <= n.
Proof. intros Hn. rewrite take_chars_count by done. lia. Qed.

Lemma condense_rounds_fits `{LanguageModel} rounds model body budget r :
  0 <= budget -> condense_rounds rounds model body budget = Ok r -> char_count r <= budget.
Proof.
  intros Hb. revert body. induction rounds as [|rounds IH]; intros body; cbn [condense_rounds].
  - intros [= <-]. by apply take_chars_fits.
  - destruct (take_notes _ _ _ _ _) as [notes|e]; [|done].
    destruct (_ <=? _) eqn:E; [|apply IH]. intros [= <-]. by apply Z.leb_le.
Qed.

(** Cutting a text into parts keeps its lines whole and in order: the parts
    are the text's lines, each ended by a newline, grouped; only a blank tail
    may be left out.  A part exceeds the budget only when it is one line. *)
Theorem split_on_lines_spec text budget :
  exists gs rest, lines text = concat gs ++ rest /\ trim (joined rest) = "" /\ Forall (fits budget) gs /\
    split_on_lines text budget = match gs with [] => [text] | _ => map joined gs end.
Proof.
  destruct (split_from_spec budget [] (lines text)) as (gs & rest & Heq & Hcat & Hr & Hf); [by left|].
  exists gs, rest. split; [done|]. split; [done|]. split; [done|]. unfold split_on_lines.
  change "" with (joined []). rewrite Heq. by destruct gs.
Qed.

(** Whatever the model answers or fails to, what the summary prompt quotes
    fits its budget, and a transcript that fits is quoted as it is. *)
Theorem transcript_body_fits `{LanguageModel} cfg transcript :
  char_count (transcript_body cfg transcript) <= Z.max (max_prompt_chars cfg) 2000 /\
  (char_count transcript <= Z.max (max_prompt_chars cfg) 2000 -> transcript_body cfg transcript = transcript).
Proof.
  unfold transcript_body. set (budget := Z.max _ _). assert (Hb : 0 <= budget) by lia.
  destruct (budget <? char_count transcript) eqn:E; bool_to_prop; [|done]. split; [|lia].
  destruct (condense _ _ _) as [notes|e] eqn:Ec; [|by apply take_chars_fits].
  exact (condense_rounds_fits _ _ _ _ _ Hb Ec).
Qed.

(** ** Reading the answer *)

Definition string_list (j : Json) : Prop := exists l, j = JArray (map JString l).

Record well_shaped (p : ParsedSummary) : Prop := {
  ws_title : forall t, ps_title p = Some t -> t <> "" /\ trim t = t;
  ws_actions : string_list (ps_action_items p);
  ws_decisions : string_list (ps_decisions p);
  ws_topics : string_list (ps_topics p);
}.

Lemma string_field_spec v key t : string_field v key = Some t -> t <> "" /\ trim t = t.
Proof.
  unfold string_field. destruct (_ ≫= _) as [s|]; [|done]. destruct (is_empty (trim s)) eqn:E; [done|].
  intros [= <-]. split; [by apply String.eqb_neq|apply trim_idem].
Qed.

Lemma string_list_nil : string_list (JArray []).
Proof. by exists []. Qed.

Lemma array_item_string `{JsonText} i j : array_item i = Some j -> exists s, j = JString s.
Proof. unfold array_item. intros E. destruct i; repeat case_match; simplify_eq; by eexists. Qed.

Lemma string_array_spec `{JsonText} v key : string_list (string_array v key).
Proof.
  assert (Hitems : forall items, exists l, omap array_item items = map JString l).
  { induction items as [|i items (l & IH)]; [by exists []|]. cbn. fold (omap array_item items). rewrite IH.
    destruct (array_item i) as [j|] eqn:E; [|by exists l].
    apply array_item_string in E as [s ->]. by exists (s :: l). }
  unfold string_array. destruct (json_get v key) as [[| | |s|items|]|]; try apply string_list_nil.
  - destruct (is_empty (trim s)); [apply string_list_nil|]. by exists [trim s].
  - destruct (Hitems items) as (l & ->). by exists l.
Qed.

Lemma parse_summary_shape `{JsonText} raw : well_shaped (parse_summary raw).
Proof.
  unfold parse_summary. repeat case_match; split; cbn; try apply string_list_nil; try apply string_array_spec;
    [|done..]. intros t. apply string_field_spec.
Qed.

Lemma ask_summary_shape `{LanguageModel} `{JsonText} cfg user : well_shaped (ask_summary cfg user).
Proof.
  unfold ask_summary. case_match; [apply parse_summary_shape|]. split; cbn; [done|apply string_list_nil..].
Qed.

Lemma speaker_names_ro id s : exists names, speaker_names id s = (Ok names, s).
Proof. unfold speaker_names, list_recording_speakers. rewrite bind_query. by eexists. Qed.

(** The summarize stage never holds a recording back: whatever the model
    does, wrong, unreachable or unparseable, the stage succeeds and stores one
    summary for the template, in the fixed shape (three arrays of strings, a
    trimmed title or none), replacing that template's previous one and no
    other; the title goes to the recording unless the user named it.  It fails,
    changing nothing, only for a recording that is gone. *)
Theorem summarize_run_spec `{LanguageModel} `{JsonText} cfg id template s :
  exists tmpl parsed, summary_template.resolve template = Some tmpl /\ well_shaped parsed /\
    let row := mkSummary id (ps_title parsed) (ps_summary parsed) (ps_action_items parsed) (ps_topics parsed)
      (ps_decisions parsed) (Some (summarize_model cfg)) (Some (summary_template.id tmpl)) (db_now s) in
    let s1 := set_summaries (<[(id, summary_template.id tmpl) := row]> (db_summaries s)) s in
    Summarize.run cfg id template s =
      match db_recordings s !! id with
      | None => (Err foreign_key_error, s)
      | Some r => (Ok tt, match ps_title parsed with
          | Some t => if title_replaceable r
              then set_recordings (<[id := with_title t true r]> (db_recordings s)) s1 else s1
          | None => s1
          end)
      end.
Proof.
  destruct (resolve_total template) as (tmpl & Ht & _). destruct (speaker_names_ro id s) as (names & Hn).
  set (utts := map (utterance_from_row s) (sort_by utt_le (bfilter (utt_of id) (db_utterances s)))).
  exists tmpl, (ask_summary cfg (summary_prompt (summary_template.instructions tmpl) (participant_line names)
    (transcript_body cfg (render_transcript utts names)))).
  split; [done|]. split; [apply ask_summary_shape|]. cbn zeta.
  unfold Summarize.run, list_utterances_by_recording. rewrite bind_query, (bind_ok _ _ _ _ _ Hn), Ht.
  fold utts. set (parsed := ask_summary _ _). unfold upsert_summary, mbind, M_bind, recording_exists.
  destruct (db_recordings s !! id) as [r|] eqn:Er.
  - rewrite bool_decide_true by done. cbn [negb]. destruct (ps_title parsed) as [t|]; [|done].
    unfold set_recording_title_auto, update_recording, mbind, M_bind, exec.
    cbn [db_recordings set_summaries]. rewrite Er. by destruct (title_replaceable r).
  - by rewrite bool_decide_false by (by intros [? ?]).
Qed.

(** ** Provisional titles *)

Lemma clean_title_spec raw t :
  title.clean_title raw = Some t -> t <> "" /\ char_count t <= 120.
Proof.
  unfold title.clean_title. destruct (find_first _ _) as [line|]; [|done]. cbn.
  destruct (is_empty (trim (trim_matches title.is_quote line))) eqn:E; [done|]. intros [= <-].
  split; [|by apply take_chars_fits]. intros Hn.
  apply String.eqb_neq in E. apply (f_equal char_count) in Hn.
  rewrite take_chars_count in Hn by done. change (char_count "") with 0 in Hn. unfold char_count in Hn at 1.
  assert (chars (trim (trim_matches title.is_quote line)) = []) as Hc.
  { destruct (chars _); [done|]. cbn in Hn. lia. }
  by apply chars_nil_iff in Hc.
Qed.

Lemma title_auto_state id t s :
  snd (set_recording_title_auto id t s) = s \/
  exists r, db_recordings s !! id = Some r /\ title_replaceable r = true /\
    snd (set_recording_title_auto id t s) = set_recordings (<[id := with_title t true r]> (db_recordings s)) s.
Proof.
  unfold set_recording_title_auto, update_recording. rewrite bind_exec.
  destruct (db_recordings s !! id) as [r|]; [|by left].
  destruct (title_replaceable r) eqn:E; [|by left]. right. by exists r.
Qed.

Lemma regenerate_cases `{LanguageModel} cfg id s :
  let utts := map (utterance_from_row s) (sort_by utt_le (bfilter (utt_of id) (db_utterances s))) in
  (title.regenerate cfg id s = (Ok None, s) /\ title.recent_text utts = None) \/
  (exists s', title.regenerate cfg id s = (Ok (Some tt), s') /\ title.recent_text utts <> None /\
     (s' = s \/ exists t, t <> "" /\ char_count t <= 120 /\ s' = snd (set_recording_title_auto id t s))).
Proof.
  intros utts. unfold title.regenerate, list_utterances_by_recording. rewrite bind_query. fold utts.
  case_bool_decide as Hlen.
  { apply nil_length_inv in Hlen. right. exists s. rewrite Hlen. split; [done|]. split; [done|]. by left. }
  destruct (title.recent_text utts) as [text|]; [|by left].
  right. destruct (chat _ _) as [raw|e]; [|exists s; split; [done|split; [done|by left]]].
  destruct (title.clean_title raw) as [t|] eqn:Ec; [|exists s; split; [done|split; [done|by left]]].
  apply clean_title_spec in Ec as [Hne Hc]. eexists. split; [by erewrite bind_ok by reflexivity|].
  split; [done|]. right. by exists t.
Qed.

(** Regenerating a title either panics, and then nothing has changed, or
    succeeds; the only thing it can change is the title, to a non-empty one of
    at most 120 characters, and never one the user gave.  It panics exactly
    when the text is over 6000 bytes and its last 6000 start inside a
    character. *)
Theorem regenerate_spec `{LanguageModel} cfg id s :
  let utts := map (utterance_from_row s) (sort_by utt_le (bfilter (utt_of id) (db_utterances s))) in
  let text := title.all_text utts in
  let n := String.length text in
  let cut_inside := (6000 <? n)%nat && starts_cont (String.substring (n - 6000) (n - (n - 6000)) text) in
  exists out s', title.regenerate cfg id s = (Ok out, s') /\
    (out = None <-> cut_inside = true) /\ (out = None -> s' = s) /\
    (s' = s \/ exists t r, t <> "" /\ char_count t <= 120 /\ db_recordings s !! id = Some r /\
       title_replaceable r = true /\ s' = set_recordings (<[id := with_title t true r]> (db_recordings s)) s).
Proof.
  intros utts text n cut_inside.
  assert (Hcut : title.recent_text utts = None <-> cut_inside = true).
  { unfold title.recent_text, title.split_off, cut_inside, n, text. change title.MAX_CHARS with 6000%nat.
    destruct (6000 <? _)%nat; [|done]. by destruct (starts_cont _). }
  destruct (regenerate_cases cfg id s) as [(Hrun & Hnone)|(s' & Hrun & Hok & Hs)].
  - exists None, s. split; [done|]. split; [by rewrite <- Hcut|]. split; [done|]. by left.
  - exists (Some tt), s'. split; [done|]. split.
    { split; [done|]. intros Hc. exfalso. apply Hok. by apply Hcut. }
    split; [done|]. destruct Hs as [Hs|(t & Hne & Hlen & ->)]; [by left|].
    destruct (title_auto_state id t s) as [Hs|(r & Hr & Hrep & Hs)]; [by left|].
    right. by exists t, r.
Qed.

Fixpoint repeat_str (n : nat) (c : string) : string :=
  match n with O => "" | S n => c +:+ repeat_str n c end.

(** U+00E9, two bytes. *)
Definition e_acute : string := bytes [195%N; 169%N].
Definition long_line : NewUtterance := mkNewUtterance None 0 1000 (repeat_str 3000 e_acute) [].
Definition accented_db : Db := snd (insert_utterances 1 [long_line] sample_db).

(** The panic is reachable: one provisional line of 3000 accented letters is
    enough, and the best-effort title takes the worker's task down with it. *)
Theorem regenerate_can_panic `{LanguageModel} cfg :
  schema_ok accented_db /\ title.regenerate cfg 1 accented_db = (Ok None, accented_db).
Proof.
  split; [apply insert_utterances_schema, sample_schema|].
  destruct (regenerate_cases cfg 1 accented_db) as [[Hrun _]|(s' & _ & Hsome & _)]; [exact Hrun|].
  exfalso. apply Hsome. vm_compute. reflexivity.
Qed.
