(* ===== verification/Identity.v ===== *)
(** * Recognising enrolled voices: [resolve_identities] of [stages/diarize.rs]

    Voices and voiceprints are binary32 vectors.  The thresholds may be
    overridden from the environment, whose parsed values are a parameter. *)

From Stdlib Require Import SpecFloat Bool.
From S2P Require Import Prelude Types F32.

(** [std::env::var(name).ok().and_then(|v| v.parse().ok())] *)
Class EnvF32 := env_f32 : string -> option f32.

(** 0.5, 0.10 and 0.75, rounded to binary32. *)
Definition ENROLL_MATCH_THRESHOLD_DEFAULT : f32 := S754_finite false 8388608 (-24).
Definition SEPARATION : f32 := S754_finite false 13421773 (-27).
Definition MATCH_CONSISTENCY : f32 := S754_finite false 12582912 (-24).

Section tuning.
Context `{EnvF32}.
Definition enroll_match_threshold : f32 := default ENROLL_MATCH_THRESHOLD_DEFAULT (env_f32 "SCRIBE_ENROLL_FLOOR").
Definition match_consistency : f32 := default MATCH_CONSISTENCY (env_f32 "SCRIBE_MATCH_CONSISTENCY").
Definition separation : f32 := default SEPARATION (env_f32 "SCRIBE_ENROLL_SEPARATION").
End tuning.

Definition cosine (a b : list f32) : f32 :=
  if bool_decide (length a = 0%nat) || negb (bool_decide (length a = length b)) then fzero
  else
    let dot := fsum (zip_with fmul a b) in
    let na := fsqrt (fsum (map (fun x => fmul x x) a)) in
    let nb := fsqrt (fsum (map (fun x => fmul x x) b)) in
    if fleb na EPSILON || fleb nb EPSILON then fzero else fdiv dot (fmul na nb).

Definition two : f32 := S754_finite false 8388608 (-22).

(** With a NaN the source's comparison is not an order and [sort_by] may leave
    any arrangement; the stable insertion sort here is one of them. *)
Definition median (values : list f32) : option f32 :=
  if bool_decide (length values = 0%nat) then None
  else
    let sorted := sort_by fle values in
    let mid := (length sorted / 2)%nat in
    let nth i := default fzero (sorted !! i) in
    Some (if bool_decide (length sorted mod 2 = 0)%nat
          then fdiv (fadd (nth (mid - 1)%nat) (nth mid)) two
          else nth mid).

(** [(sim, local_idx, speaker_id)] *)
Notation Candidate := (f32 * Z * Uuid)%type (only parsing).
Definition c_sim (c : Candidate) : f32 := fst (fst c).
Definition c_voice (c : Candidate) : Z := snd (fst c).
Definition c_speaker (c : Candidate) : Uuid := snd c.

(** The comparator of [candidates.sort_by]. *)
Definition candidate_cmp (a b : Candidate) : comparison :=
  match cmp_or_equal (c_sim b) (c_sim a) with
  | Eq => match c_voice a ?= c_voice b with Eq => (c_speaker a ?= c_speaker b)%N | c => c end
  | c => c
  end.
Definition candidate_le (a b : Candidate) : bool :=
  match candidate_cmp a b with Gt => false | _ => true end.

Section resolve.
Context `{EnvF32}.

(** The two [continue]s of the inner loop, for the [i]-th enrolled speaker. *)
Definition admissible (threshold : f32) (scores : list f32) (i : nat) : bool :=
  let score := default fzero (scores !! i) in
  if fltb score threshold then false
  else
    match median (delete i scores) with
    | Some baseline => negb (fltb (fsub score baseline) separation)
    | None => true
    end.

Definition voice_candidates (threshold : f32) (enrolled : list (Uuid * list f32)) (voice : Z * list f32)
    : list Candidate :=
  let '(local_idx, embedding) := voice in
  let scores := map (fun e => cosine embedding (snd e)) enrolled in
  omap (fun '(i, (speaker_id, _)) =>
    if admissible threshold scores i then Some (default fzero (scores !! i), local_idx, speaker_id) else None)
    (imap pair enrolled).

Record Resolution := mkResolution {
  resolved : gmap Z (Uuid * f32); claimed : gset Uuid; accepted : list f32;
}.

(** One turn of the greedy loop. *)
Definition take_candidate (r : Resolution) (c : Candidate) : Resolution :=
  let '(sim, local_idx, speaker_id) := c in
  if bool_decide (is_Some (resolved r !! local_idx)) || bool_decide (speaker_id ∈ claimed r) then r
  else
    let refused := match median (accepted r) with
      | Some standard => fltb sim (fmul match_consistency standard)
      | None => false
      end in
    if refused then r
    else mkResolution (<[local_idx := (speaker_id, sim)]> (resolved r)) ({[speaker_id]} ∪ claimed r)
           (accepted r ++ [sim]).

Definition candidates (voices : list (Z * list f32)) (enrolled : list (Uuid * list f32)) (threshold : f32)
    : list Candidate :=
  flat_map (voice_candidates threshold enrolled) voices.

Definition resolve_identities (voices : list (Z * list f32)) (enrolled : list (Uuid * list f32))
    (threshold : f32) : gmap Z (Uuid * f32) :=
  resolved (foldl take_candidate (mkResolution ∅ ∅ []) (sort_by candidate_le (candidates voices enrolled threshold))).
End resolve.
