(* ===== verification/IdentityProps.v ===== *)
(** * What recognition promises *)

From Stdlib Require Import SpecFloat Bool.
From S2P Require Import Prelude Types F32 Identity.

(** ** The order of candidates *)

Lemma fle_trans a b c :
  is_nan a = false -> is_nan b = false -> is_nan c = false ->
  fle a b = true -> fle b c = true -> fle a c = true.
Proof.
  intros Ha Hb Hc. rewrite !fle_key by done. unfold key_le.
  destruct (fkey a) as [[? ?] ?], (fkey b) as [[? ?] ?], (fkey c) as [[? ?] ?]. lia.
Qed.

Lemma fle_antisym a b :
  is_nan a = false -> is_nan b = false -> fle a b = true -> fle b a = true -> feqv a b.
Proof.
  intros Ha Hb. unfold fle, cmp_or_equal. rewrite (SFcompare_antisym a b).
  destruct (SFcompare a b) as [[]|] eqn:E; cbn; try done; intros _ _.
  - by apply SFcompare_Eq.
  - destruct a as [|[]| |[]], b as [|[]| |[]]; done.
Qed.

(** ** Medians *)

Lemma fkey_feqv a b : is_nan a = false -> is_nan b = false -> fkey a = fkey b -> feqv a b.
Proof.
  intros Ha Hb Hk. apply fle_antisym; try done; apply fle_key; try done; rewrite Hk;
    unfold key_le; destruct (fkey b) as [[? ?] ?]; lia.
Qed.

Definition no_nan (l : list f32) : Prop := Forall (fun a => is_nan a = false) l.

Lemma no_nan_perm l1 l2 : l1 ≡ₚ l2 -> no_nan l1 -> no_nan l2.
Proof. intros Hp. unfold no_nan. by rewrite Hp. Qed.

Lemma sort_fle_sorted l : no_nan l -> StronglySorted (fun a b => fle a b = true) (sort_by fle l).
Proof.
  apply sort_by_sorted_on; [intros x y _ _; apply fle_total|]. intros x y z. apply fle_trans.
Qed.

(** Sorting does not depend on the order of the input, up to the zeros' signs. *)
Lemma sort_fle_perm l1 l2 : no_nan l1 -> l1 ≡ₚ l2 -> Forall2 feqv (sort_by fle l1) (sort_by fle l2).
Proof.
  intros Hn Hp. assert (Hn2 : no_nan l2) by by eapply no_nan_perm.
  assert (Hk : map fkey (sort_by fle l1) = map fkey (sort_by fle l2)).
  { assert (Hs : forall l, no_nan l -> StronglySorted key_le (map fkey (sort_by fle l))).
    { intros l Hl. pose proof (sort_fle_sorted l Hl) as Hs.
      assert (Hl' : no_nan (sort_by fle l)) by (eapply no_nan_perm; [|done]; symmetry; apply sort_by_perm).
      induction Hs as [|x k Hs IH Hx]; cbn; [constructor|]. inversion Hl' as [|? ? Hnx Hnk]; subst.
      constructor; [by apply IH|]. apply Forall_map. rewrite Forall_forall in *.
      intros y Hy. apply fle_key; auto. }
    apply StronglySorted_unique_strong with (R := key_le); [|by apply Hs|by apply Hs|].
    - intros [[? ?] ?] [[? ?] ?] _ _. unfold key_le. intros ? ?. repeat f_equal; lia.
    - apply fmap_Permutation. by rewrite !sort_by_perm. }
  assert (H1 : no_nan (sort_by fle l1)) by (eapply no_nan_perm; [|exact Hn]; symmetry; apply sort_by_perm).
  assert (H2 : no_nan (sort_by fle l2)) by (eapply no_nan_perm; [|exact Hn2]; symmetry; apply sort_by_perm).
  revert Hk H1 H2. generalize (sort_by fle l1), (sort_by fle l2). clear.
  induction l as [|x l IH]; intros [|y k]; cbn; try done; intros Hk H1 H2; simplify_eq.
  inversion H1; inversion H2; subst. constructor; [by apply fkey_feqv|by apply IH].
Qed.

Lemma Forall2_feqv_nth l k i : Forall2 feqv l k -> feqv (default fzero (l !! i)) (default fzero (k !! i)).
Proof. intros Hf. revert i. induction Hf as [|x y l k Hxy Hf IH]; intros [|i]; cbn; try done; apply IH. Qed.

Definition opt_feqv (a b : option f32) : Prop :=
  match a, b with Some a, Some b => feqv a b | None, None => True | _, _ => False end.

Lemma median_perm l1 l2 : no_nan l1 -> l1 ≡ₚ l2 -> opt_feqv (median l1) (median l2).
Proof.
  intros Hn Hp. pose proof (Permutation_length Hp) as Hlen. unfold median. rewrite <- Hlen.
  case_bool_decide; [done|]. rewrite !sort_by_length, <- Hlen.
  pose proof (fun i => Forall2_feqv_nth _ _ i (sort_fle_perm l1 l2 Hn Hp)) as Hnth.
  cbn. case_bool_decide; [|apply Hnth]. apply fdiv_proper_const. by rewrite !Hnth.
Qed.

(** ** Candidates *)

Section identities.
Context `{EnvF32}.

(** What makes a pair admissible: the score clears the floor, and it is clear
    of the middle of the voice's scores against everybody else. *)
Definition stands_out (threshold score : f32) (others : list f32) : Prop :=
  fltb score threshold = false /\
  match median others with
  | Some baseline => fltb (fsub score baseline) separation = false
  | None => True
  end.

Lemma admissible_spec threshold scores i score :
  scores !! i = Some score ->
  admissible threshold scores i = true <-> stands_out threshold score (delete i scores).
Proof.
  intros Hi. unfold admissible, stands_out. rewrite Hi. cbn.
  destruct (fltb score threshold); [by split; [|intros [? _]]|].
  destruct (median _); [rewrite negb_true_iff|]; naive_solver.
Qed.

Lemma delete_fmap {A B} (f : A -> B) i (l : list A) : delete i (f <$> l) = f <$> delete i l.
Proof. revert i. induction l as [|x l IH]; intros [|i]; cbn; [done..|]. f_equal. apply IH. Qed.

(** A candidate is an admissible pair of a voice and an enrolled speaker. *)
Lemma elem_of_voice_candidates threshold enrolled idx embedding c :
  c ∈ voice_candidates threshold enrolled (idx, embedding) <->
  exists i id voiceprint, enrolled !! i = Some (id, voiceprint) /\
    c = (cosine embedding voiceprint, idx, id) /\
    stands_out threshold (cosine embedding voiceprint)
      (map (fun e => cosine embedding (snd e)) (delete i enrolled)).
Proof.
  unfold voice_candidates. rewrite list_elem_of_omap. set (scores := map _ enrolled).
  assert (Hsc : forall i id vp, enrolled !! i = Some (id, vp) -> scores !! i = Some (cosine embedding vp)).
  { intros i id vp Hi. unfold scores. rewrite list_lookup_fmap, Hi. done. }
  assert (Hdel : forall i, delete i scores = map (fun e => cosine embedding (snd e)) (delete i enrolled)).
  { intros i. apply delete_fmap. }
  split.
  - intros ([i [id vp]] & Hin & Hc). apply elem_of_lookup_imap in Hin as (j & [id' vp'] & [= -> -> ->] & Hj).
    specialize (Hsc j id' vp' Hj). destruct (admissible threshold scores j) eqn:Ea; [|done].
    rewrite Hsc in Hc. injection Hc as <-. exists j, id', vp'. split; [done|]. split; [done|].
    rewrite <- Hdel. by apply (admissible_spec _ _ _ _ Hsc).
  - intros (i & id & vp & Hi & -> & Hs). specialize (Hsc i id vp Hi). rewrite <- Hdel in Hs.
    exists (i, (id, vp)). split; [apply elem_of_lookup_imap; by exists i, (id, vp)|].
    apply (admissible_spec _ _ _ _ Hsc) in Hs. by rewrite Hs, Hsc.
Qed.

Lemma stands_out_perm threshold score others others' :
  no_nan others -> others ≡ₚ others' -> stands_out threshold score others -> stands_out threshold score others'.
Proof.
  intros Hn Hp [H1 H2]. split; [done|]. pose proof (median_perm _ _ Hn Hp) as Hm.
  destruct (median others), (median others'); try done. cbn in Hm. by rewrite <- Hm.
Qed.

Lemma delete_perm {A} (l l' : list A) i j x :
  l ≡ₚ l' -> l !! i = Some x -> l' !! j = Some x -> delete i l ≡ₚ delete j l'.
Proof.
  intros Hp Hi Hj. apply delete_Permutation in Hi, Hj. rewrite Hi, Hj in Hp.
  by apply Permutation.Permutation_cons_inv in Hp.
Qed.

(** No score of the voice is NaN. *)
Definition scored (enrolled : list (Uuid * list f32)) (voice : Z * list f32) : Prop :=
  no_nan (map (fun e => cosine (snd voice) (snd e)) enrolled).

Lemma scored_delete enrolled i idx embedding :
  scored enrolled (idx, embedding) -> no_nan (map (fun e => cosine embedding (snd e)) (delete i enrolled)).
Proof.
  unfold scored, no_nan. rewrite !Forall_map. apply Forall_delete.
Qed.

Lemma voice_candidates_perm threshold enrolled enrolled' voice c :
  enrolled ≡ₚ enrolled' -> scored enrolled voice ->
  c ∈ voice_candidates threshold enrolled voice -> c ∈ voice_candidates threshold enrolled' voice.
Proof.
  intros Hp Hn. destruct voice as [idx embedding]. rewrite !elem_of_voice_candidates.
  intros (i & id & vp & Hi & -> & Hs).
  assert (Hin : (id, vp) ∈ enrolled') by (rewrite <- Hp; by eapply list_elem_of_lookup_2).
  apply list_elem_of_lookup in Hin as (j & Hj). exists j, id, vp. split; [done|]. split; [done|].
  eapply stands_out_perm; [exact (scored_delete _ i _ _ Hn)| |done].
  apply fmap_Permutation. by eapply delete_perm.
Qed.

(** Candidates of one pass: each (voice, speaker) pair at most once. *)
Definition pair_of (c : f32 * Z * Uuid) : Z * Uuid := (c_voice c, c_speaker c).

Lemma voice_candidates_NoDup threshold enrolled idx embedding :
  NoDup (map fst enrolled) -> NoDup (map pair_of (voice_candidates threshold enrolled (idx, embedding))).
Proof.
  intros Hnd. unfold voice_candidates. set (scores := map (fun e => cosine embedding (snd e)) enrolled).
  assert (Hsub : forall (f : nat -> nat) (l : list (Uuid * list f32)),
    map pair_of (omap (fun '(i, (speaker_id, _)) =>
      if admissible threshold scores i then Some (default fzero (scores !! i), idx, speaker_id) else None)
      (imap (fun i e => (f i, e)) l)) `sublist_of` map (fun e => (idx, fst e)) l).
  { intros f l. revert f. induction l as [|[id vp] l IH]; intros f; [constructor|]. cbn.
    specialize (IH (fun i => f (S i))). destruct (admissible threshold scores (f 0%nat)); cbn; by constructor. }
  eapply sublist_NoDup; [|apply (Hsub (fun i => i))].
  rewrite <- (map_map fst (pair idx)). by apply (NoDup_fmap_2 (pair idx)).
Qed.

Lemma candidates_voice voices enrolled threshold c :
  c ∈ candidates voices enrolled threshold <->
  exists voice, voice ∈ voices /\ fst voice = c_voice c /\ c ∈ voice_candidates threshold enrolled voice.
Proof.
  unfold candidates. rewrite elem_of_flat_map. split.
  - intros ([idx e] & Hv & Hc). exists (idx, e). split; [done|]. split; [|done].
    by apply elem_of_voice_candidates in Hc as (i & id & vp & _ & -> & _).
  - intros (v & Hv & _ & Hc). by exists v.
Qed.

Lemma candidates_NoDup voices enrolled threshold :
  NoDup (map fst voices) -> NoDup (map fst enrolled) -> NoDup (map pair_of (candidates voices enrolled threshold)).
Proof.
  intros Hv He. induction voices as [|[idx e] voices IH]; [constructor|]. cbn in Hv. apply NoDup_cons in Hv as [Hnot Hv].
  unfold candidates. cbn [flat_map]. rewrite map_app. apply NoDup_app. split; [by apply voice_candidates_NoDup|].
  split; [|by apply IH].
  intros p Hp Hq. apply list_elem_of_fmap in Hp as (c & -> & Hc), Hq as (d & Hcd & Hd).
  apply candidates_voice in Hd as (v & Hvin & Hvd & _).
  apply elem_of_voice_candidates in Hc as (i & id & vp & _ & -> & _).
  unfold pair_of in Hcd. injection Hcd as Hcd _. unfold c_voice at 1 in Hcd. cbn in Hcd.
  apply Hnot. rewrite Hcd, <- Hvd. by apply (list_elem_of_fmap_2 fst).
Qed.

(** ** The greedy loop *)

Definition conflict (c d : f32 * Z * Uuid) : bool :=
  (c_voice c =? c_voice d) || (c_speaker c =? c_speaker d)%N.

Definition refused (ts : list (f32 * Z * Uuid)) (c : f32 * Z * Uuid) : bool :=
  match median (map c_sim ts) with
  | Some standard => fltb (c_sim c) (fmul match_consistency standard)
  | None => false
  end.

(** The loop on the list of matches made so far, oldest first. *)
Definition take_step (ts : list (f32 * Z * Uuid)) (c : f32 * Z * Uuid) : list (f32 * Z * Uuid) :=
  if existsb (conflict c) ts || refused ts c then ts else ts ++ [c].

Record encodes (r : Resolution) (ts : list (f32 * Z * Uuid)) : Prop := {
  enc_resolved : forall i u x, resolved r !! i = Some (u, x) <-> (x, i, u) ∈ ts;
  enc_claimed : forall u, u ∈ claimed r <-> exists c, c ∈ ts /\ c_speaker c = u;
  enc_accepted : accepted r = map c_sim ts;
  enc_voices : NoDup (map c_voice ts);
  enc_speakers : NoDup (map c_speaker ts);
}.

Lemma take_candidate_encodes r ts c : encodes r ts -> encodes (take_candidate r c) (take_step ts c).
Proof.
  intros [Hr Hc Ha Hv Hs]. destruct c as [[sim idx] id]. unfold take_candidate, take_step.
  assert (Hconf : existsb (conflict (sim, idx, id)) ts =
    bool_decide (is_Some (resolved r !! idx)) || bool_decide (id ∈ claimed r)).
  { apply eq_true_iff_eq. rewrite existsb_elem, orb_true_iff, !bool_decide_eq_true. unfold conflict. cbn. split.
    - intros ([[x i] u] & Hin & Hor). apply orb_true_iff in Hor as [Hi|Hi]; cbn in Hi.
      + apply Z.eqb_eq in Hi as <-. left. exists (u, x). by apply Hr.
      + apply N.eqb_eq in Hi as <-. right. apply Hc. by exists (x, i, id).
    - intros [[[u x] Hi]|Hi].
      + apply Hr in Hi. exists (x, idx, u). split; [done|]. cbn. by rewrite Z.eqb_refl.
      + apply Hc in Hi as (d & Hin & <-). exists d. split; [done|]. by rewrite N.eqb_refl, orb_true_r. }
  rewrite Hconf. destruct (bool_decide (is_Some _)) eqn:E1; [by split|].
  destruct (bool_decide (id ∈ claimed r)) eqn:E2; [by split|]. cbn [orb].
  unfold refused. rewrite Ha. change (c_sim (sim, idx, id)) with sim.
  set (ref := match median _ with Some _ => _ | None => _ end). destruct ref; [by split|].
  bool_to_prop. apply eq_None_not_Some in E1. split; cbn [resolved claimed accepted].
  - intros i u x. rewrite elem_of_app, list_elem_of_singleton. destruct (decide (i = idx)) as [->|Hne].
    + rewrite lookup_insert_eq. split; [intros [= -> ->]; by right|]. intros [Hin|[= -> ->]]; [|done].
      apply Hr in Hin. congruence.
    + rewrite lookup_insert_ne by done. rewrite Hr. split; [by left|]. intros [Hin|[= _ -> _]]; done.
  - intros u. rewrite elem_of_union, elem_of_singleton, Hc. setoid_rewrite elem_of_app.
    setoid_rewrite list_elem_of_singleton. split.
    + intros [->|(c & Hin & Hu)]; [exists (sim, idx, id); by split; [right|]|exists c; by split; [left|]].
    + intros (c & [Hin| ->] & <-); [right; by exists c|by left].
  - by rewrite map_app.
  - rewrite map_app. apply NoDup_app. split; [done|]. split; [|apply NoDup_singleton].
    intros i Hi ->%list_elem_of_singleton. apply list_elem_of_fmap in Hi as ([[x j] u] & Hj & Hin).
    unfold c_voice in Hj. cbn in Hj. subst j. apply Hr in Hin. congruence.
  - rewrite map_app. apply NoDup_app. split; [done|]. split; [|apply NoDup_singleton].
    intros u Hu ->%list_elem_of_singleton. apply list_elem_of_fmap in Hu as (c & Heq & Hin).
    apply E2, Hc. by exists c.
Qed.

Lemma fold_encodes cs r ts : encodes r ts -> encodes (foldl take_candidate r cs) (foldl take_step ts cs).
Proof. revert r ts. induction cs as [|c cs IH]; intros r ts He; cbn; [done|]. by apply IH, take_candidate_encodes. Qed.

Lemma take_steps_grow cs ts : exists new, foldl take_step ts cs = ts ++ new /\ forall c, c ∈ new -> c ∈ cs.
Proof.
  revert ts. induction cs as [|c cs IH]; intros ts; cbn [foldl].
  - exists []. rewrite app_nil_r. split; [done|]. intros c Hc. inversion Hc.
  - destruct (IH (take_step ts c)) as (new & -> & Hin). unfold take_step. destruct (_ || _).
    + exists new. split; [done|]. intros d Hd. right. auto.
    + exists (c :: new). rewrite <- app_assoc. split; [done|]. intros d [->|Hd]%elem_of_cons; [left|right; auto].
Qed.

(** Every candidate the loop passes over had lost to the matches made by then. *)
Lemma take_steps_maximal pre c post :
  let ts := foldl take_step [] (pre ++ c :: post) in
  c ∈ ts \/ exists before after, ts = before ++ after /\ (forall d, d ∈ before -> d ∈ pre) /\
    ((exists d, d ∈ before /\ conflict c d = true) \/ refused before c = true).
Proof.
  cbn zeta. rewrite foldl_app. cbn [foldl]. set (before := foldl take_step [] pre).
  destruct (take_steps_grow pre []) as (new & Hb & Hpre). fold before in Hb. cbn in Hb.
  destruct (take_steps_grow post (take_step before c)) as (after & -> & _).
  unfold take_step. destruct (existsb (conflict c) before || refused before c) eqn:E.
  - right. exists before, after. split; [done|]. split; [intros d; rewrite Hb; apply Hpre|].
    apply orb_true_iff in E as [E|E]; [left; by apply existsb_elem|by right].
  - left. apply elem_of_app. left. apply elem_of_app. right. left.
Qed.

Lemma candidate_le_total a b : candidate_le a b = true \/ candidate_le b a = true.
Proof.
  unfold candidate_le, candidate_cmp, cmp_or_equal. rewrite (SFcompare_antisym (c_sim a) (c_sim b)).
  destruct (SFcompare (c_sim a) (c_sim b)) as [[]|]; cbn; auto;
    rewrite (Z.compare_antisym (c_voice a) (c_voice b)), (N.compare_antisym (c_speaker a) (c_speaker b));
    destruct (c_voice a ?= c_voice b); cbn; auto; destruct (c_speaker a ?= c_speaker b)%N; auto.
Qed.

Definition tie (a b : f32 * Z * Uuid) : Prop :=
  c_voice a < c_voice b \/ (c_voice a = c_voice b /\ (c_speaker a <= c_speaker b)%N).

(** Best first, ties broken by the indices. *)
Lemma candidate_le_spec a b :
  candidate_le a b = true <->
  fle (c_sim b) (c_sim a) = true /\ (fle (c_sim a) (c_sim b) = true -> tie a b).
Proof.
  unfold candidate_le, candidate_cmp, fle, cmp_or_equal, tie.
  rewrite (SFcompare_antisym (c_sim b) (c_sim a)).
  destruct (SFcompare (c_sim b) (c_sim a)) as [[]|]; cbn; try (split; [|intros [? _]]; done); try by auto.
  all: destruct (Z.compare_spec (c_voice a) (c_voice b)); cbn; try (split; [done|]; naive_solver lia).
  all: destruct (N.compare_spec (c_speaker a) (c_speaker b)); cbn; split; try done; try naive_solver lia.
Qed.

Definition sim_ok (c : f32 * Z * Uuid) : Prop := is_nan (c_sim c) = false.

Lemma candidate_le_trans a b c :
  sim_ok a -> sim_ok b -> sim_ok c ->
  candidate_le a b = true -> candidate_le b c = true -> candidate_le a c = true.
Proof.
  intros Ha Hb Hc. rewrite !candidate_le_spec. unfold sim_ok, tie in *. rewrite !fle_key by done. unfold key_le.
  destruct (fkey (c_sim a)) as [[? ?] ?], (fkey (c_sim b)) as [[? ?] ?], (fkey (c_sim c)) as [[? ?] ?].
  intros [H1 H1'] [H2 H2']. split; [lia|]. intros H3.
  specialize (H1' ltac:(lia)). specialize (H2' ltac:(lia)). lia.
Qed.

Lemma candidate_le_antisym a b :
  candidate_le a b = true -> candidate_le b a = true -> pair_of a = pair_of b.
Proof.
  rewrite !candidate_le_spec. unfold tie, pair_of. intros [H1 H1'] [H2 H2'].
  specialize (H1' H2). specialize (H2' H1). f_equal; lia.
Qed.

Lemma candidates_sim_ok voices enrolled threshold :
  Forall (scored enrolled) voices -> Forall sim_ok (candidates voices enrolled threshold).
Proof.
  intros Hs. apply Forall_forall. intros c ([idx e] & Hv & _ & Hc)%candidates_voice.
  apply elem_of_voice_candidates in Hc as (i & id & vp & Hi & -> & _).
  rewrite Forall_forall in Hs. specialize (Hs _ Hv). unfold scored, no_nan in Hs. rewrite Forall_map, Forall_forall in Hs.
  apply list_elem_of_lookup_2 in Hi. exact (Hs _ Hi).
Qed.

Lemma candidates_perm voices enrolled enrolled' threshold :
  NoDup (map fst voices) -> NoDup (map fst enrolled) -> Forall (scored enrolled) voices -> enrolled ≡ₚ enrolled' ->
  candidates voices enrolled threshold ≡ₚ candidates voices enrolled' threshold.
Proof.
  intros Hv He Hs Hp. assert (He' : NoDup (map fst enrolled')) by (by rewrite <- Hp).
  assert (Hs' : Forall (scored enrolled') voices).
  { eapply Forall_impl; [exact Hs|]. intros v. apply no_nan_perm. by rewrite Hp. }
  apply NoDup_Permutation; [by eapply NoDup_fmap_1, candidates_NoDup..|].
  rewrite Forall_forall in Hs, Hs'. intros c. rewrite !candidates_voice.
  split; intros (v & Hvin & Hvc & Hc); exists v; (split; [done|]); (split; [done|]).
  - exact (voice_candidates_perm _ _ _ _ _ Hp (Hs v Hvin) Hc).
  - symmetry in Hp. exact (voice_candidates_perm _ _ _ _ _ Hp (Hs' v Hvin) Hc).
Qed.

(** *** Properties *)

(** The pair is a voice and an enrolled speaker whose score clears the floor and
    stands clear of the voice's scores against the rest of the library. *)
Definition recognisable (voices : list (Z * list f32)) (enrolled : list (Uuid * list f32)) (threshold : f32)
    (c : f32 * Z * Uuid) : Prop :=
  exists embedding i voiceprint, (c_voice c, embedding) ∈ voices /\
    enrolled !! i = Some (c_speaker c, voiceprint) /\ c_sim c = cosine embedding voiceprint /\
    stands_out threshold (c_sim c) (map (fun e => cosine embedding (snd e)) (delete i enrolled)).

Lemma recognisable_candidate voices enrolled threshold c :
  recognisable voices enrolled threshold c <-> c ∈ candidates voices enrolled threshold.
Proof.
  rewrite candidates_voice. unfold recognisable. split.
  - intros (e & i & vp & Hv & Hi & Hsim & Hs). exists (c_voice c, e). split; [done|]. split; [done|].
    apply elem_of_voice_candidates. rewrite Hsim in Hs. exists i, (c_speaker c), vp. split; [done|].
    split; [|done]. destruct c as [[x j] u]. cbn in Hsim. by rewrite Hsim.
  - intros ([idx e] & Hv & Hidx & Hc). cbn in Hidx. subst idx.
    apply elem_of_voice_candidates in Hc as (i & id & vp & Hi & Heq & Hs). destruct c as [[x j] u].
    cbn in Heq, Hs |- *. injection Heq as -> ->. by exists e, i, vp.
Qed.

Lemma resolve_matches voices enrolled threshold :
  exists ts,
    (forall i u x, resolve_identities voices enrolled threshold !! i = Some (u, x) <-> (x, i, u) ∈ ts) /\
    NoDup (map c_voice ts) /\ NoDup (map c_speaker ts) /\
    (forall c, c ∈ ts -> recognisable voices enrolled threshold c) /\
    (forall c, recognisable voices enrolled threshold c ->
       c ∈ ts \/ exists before after, ts = before ++ after /\
         (Forall (scored enrolled) voices -> forall d, d ∈ before -> candidate_le d c = true) /\
         ((exists d, d ∈ before /\ conflict c d = true) \/ refused before c = true)).
Proof.
  set (cs := sort_by candidate_le (candidates voices enrolled threshold)).
  assert (He : encodes (foldl take_candidate (mkResolution ∅ ∅ []) cs) (foldl take_step [] cs)).
  { apply fold_encodes. split; cbn; try done; try apply NoDup_nil_2; set_solver. }
  exists (foldl take_step [] cs). destruct He as [Hr _ _ Hv Hs].
  split; [exact Hr|]. split; [done|]. split; [done|]. split.
  - intros c Hc. destruct (take_steps_grow cs []) as (new & Heq & Hin). rewrite Heq in Hc.
    apply recognisable_candidate. by apply Hin, sort_by_elem in Hc.
  - intros c Hc. apply recognisable_candidate in Hc. rewrite <- (sort_by_elem candidate_le) in Hc. fold cs in Hc.
    apply list_elem_of_split in Hc as (pre & post & Hcs). rewrite Hcs.
    destruct (take_steps_maximal pre c post) as [Hin|(before & after & Hts & Hpre & Hwhy)]; [by left|].
    right. exists before, after. split; [done|]. split; [|done]. intros Hok d Hd.
    pose proof (sort_by_sorted_on candidate_le sim_ok (fun x y _ _ => candidate_le_total x y) candidate_le_trans
      _ (candidates_sim_ok voices enrolled threshold Hok)) as Hsort.
    fold cs in Hsort. rewrite Hcs in Hsort. apply Hpre in Hd.
    eapply StronglySorted_app_1_elem_of in Hsort; [exact Hsort|exact Hd|left].
Qed.

(** C20: recognition is one to one and greedy.  There is a list of matches, best
    first, that is exactly what is returned; no voice and no person occurs in
    it twice; every match is recognisable; and every recognisable pair left out
    had lost, when its turn came, to better matches already made: its voice or
    its person was taken, or it was far weaker than their median. *)
Theorem resolve_identities_spec voices enrolled threshold :
  exists ts,
    (forall i u x, resolve_identities voices enrolled threshold !! i = Some (u, x) <-> (x, i, u) ∈ ts) /\
    NoDup (map c_voice ts) /\ NoDup (map c_speaker ts) /\
    (forall c, c ∈ ts -> recognisable voices enrolled threshold c) /\
    (forall c, recognisable voices enrolled threshold c ->
       c ∈ ts \/ exists before after, ts = before ++ after /\
         (Forall (scored enrolled) voices -> forall d, d ∈ before -> candidate_le d c = true) /\
         ((exists d, d ∈ before /\ conflict c d = true) \/ refused before c = true)).
Proof. apply resolve_matches. Qed.

(** Who is recognised does not depend on the order the enrolled speakers
    came back from the database in. *)
Theorem resolve_identities_order voices enrolled enrolled' threshold :
  NoDup (map fst voices) -> NoDup (map fst enrolled) -> Forall (scored enrolled) voices ->
  enrolled ≡ₚ enrolled' ->
  resolve_identities voices enrolled threshold = resolve_identities voices enrolled' threshold.
Proof.
  intros Hv He Hs Hp. unfold resolve_identities. do 2 f_equal.
  apply (sort_by_perm_eq candidate_le sim_ok (fun x y _ _ => candidate_le_total x y) candidate_le_trans).
  - intros x y Hx Hy H1 H2. apply (NoDup_map_inj pair_of (candidates voices enrolled threshold)); try done.
    + by apply candidates_NoDup.
    + by apply candidate_le_antisym.
  - by apply candidates_sim_ok.
  - by apply candidates_perm.
Qed.
End identities.

(** *** Witness *)

Definition no_overrides : EnvF32 := fun _ => None.

Definition sample_voices : list (Z * list f32) :=
  [(0, [of_Z 20; of_Z 1; of_Z 0]); (1, [of_Z 0; of_Z 20; of_Z 1])].
Definition sample_library : list (Uuid * list f32) :=
  [(1%N, [of_Z 1; of_Z 0; of_Z 0]); (2%N, [of_Z 0; of_Z 1; of_Z 0])].

Lemma resolve_identities_order_witness :
  fst <$> (@resolve_identities no_overrides sample_voices sample_library ENROLL_MATCH_THRESHOLD_DEFAULT !! 0) = Some 1%N /\
  @resolve_identities no_overrides sample_voices sample_library ENROLL_MATCH_THRESHOLD_DEFAULT =
  @resolve_identities no_overrides sample_voices (reverse sample_library) ENROLL_MATCH_THRESHOLD_DEFAULT.
Proof.
  split; [vm_compute; reflexivity|].
  apply (@resolve_identities_order no_overrides).
  - apply (bool_decide_unpack _). vm_compute. exact I.
  - apply (bool_decide_unpack _). vm_compute. exact I.
  - repeat constructor.
  - symmetry. apply reverse_Permutation.
Defined.
