(* ===== verification/Wav.v ===== *)
(** * The WAV reader: [crates/scribe-asr/src/wav.rs]

    Bytes are natural numbers, below 256 in a file.  [write_pcm16_mono] is the source's own
    writer of fixtures; reading back what it writes is the identity. *)

From Stdlib Require Import SpecFloat Ascii String.
From S2P Require Import Prelude RustStr Types F32.

Definition tag (s : string) : list N := map N_of_ascii (list_ascii_of_string s).

Record WavData := mkWav { sample_rate : Z; channels : Z; samples : list f32 }.

Definition duration_ms (w : WavData) : Z :=
  if sample_rate w =? 0 then 0 else Z.quot (Z.of_nat (length (samples w)) * 1000) (sample_rate w).

Definition err (msg : string) : Error := Model ("wav: " +:+ msg).

(** ** Reading integers *)

(** [bytes.get(off..off + n)] *)
Definition slice (b : list N) (off n : Z) : option (list N) :=
  if off + n <=? Z.of_nat (length b) then Some (take (Z.to_nat n) (drop (Z.to_nat off) b)) else None.

Fixpoint from_le_bytes (l : list N) : Z :=
  match l with [] => 0 | b :: l' => Z.of_N b + 256 * from_le_bytes l' end.

(** The two's complement reading of a [w]-bit value. *)
Definition signed (w v : Z) : Z := if 2 ^ (w - 1) <=? v then v - 2 ^ w else v.

Definition read_uint (n : Z) (b : list N) (off : Z) : result Error Z :=
  match slice b off n with
  | Some s => Ok (from_le_bytes s)
  | None => Err (err "unexpected end of file")
  end.
Definition read_u16 : list N -> Z -> result Error Z := read_uint 2.
Definition read_u32 : list N -> Z -> result Error Z := read_uint 4.

(** [data.chunks_exact(k)] *)
Definition chunks_exact {A} (k : nat) (l : list A) : list (list A) :=
  map (fun i => take k (drop (i * k) l)) (seq 0 (length l / k)).

(** [f32::from_bits] *)
Definition f32_from_bits (u : Z) : f32 :=
  let s := Z.testbit u 31 in
  let e := Z.land (Z.shiftr u 23) 255 in
  let m := Z.land u 8388607 in
  if e =? 255 then (if m =? 0 then S754_infinity s else S754_nan)
  else if e =? 0 then match m with Zpos p => S754_finite s p (-149) | _ => S754_zero s end
  else match m + 8388608 with Zpos p => S754_finite s p (e - 150) | _ => S754_nan end.

Definition scaled (v denom : Z) : f32 := fdiv (of_Z v) (of_Z denom).

(** ** Samples *)

Definition decode_samples (data : list N) (bits : Z) (is_float : bool) : result Error (list f32) :=
  if is_float && (bits =? 32) then Ok (map (fun c => f32_from_bits (from_le_bytes c)) (chunks_exact 4 data))
  else if negb is_float && (bits =? 8) then Ok (map (fun b => fdiv (fsub (of_Z (Z.of_N b)) (of_Z 128)) (of_Z 128)) data)
  else if negb is_float && (bits =? 16) then
    Ok (map (fun c => scaled (signed 16 (from_le_bytes c)) 32768) (chunks_exact 2 data))
  else if negb is_float && (bits =? 24) then
    Ok (map (fun c => scaled (signed 24 (from_le_bytes c)) 8388608) (chunks_exact 3 data))
  else if negb is_float && (bits =? 32) then
    Ok (map (fun c => scaled (signed 32 (from_le_bytes c)) 2147483648) (chunks_exact 4 data))
  else Err (err ("unsupported bit depth " +:+ pretty bits)).

Definition downmix_to_mono (interleaved : list f32) (channels : Z) : list f32 :=
  if channels <=? 1 then interleaved
  else map (fun frame => fdiv (fsum frame) (of_Z channels)) (chunks_exact (Z.to_nat channels) interleaved).

(** ** Chunks *)

(** [(audio_format, channels, sample_rate, bits)] *)
Definition Fmt : Type := Z * Z * Z * Z.

Definition parse_fmt (body : list N) : result Error Fmt :=
  if (Z.of_nat (length body) <? 16) then Err (err "fmt chunk too small")
  else
    match read_u16 body 0, read_u16 body 2, read_u32 body 4, read_u16 body 14 with
    | Ok audio_format, Ok channels, Ok sample_rate, Ok bits => Ok (audio_format, channels, sample_rate, bits)
    | Err e, _, _, _ | _, Err e, _, _ | _, _, Err e, _ | _, _, _, Err e => Err e
    end.

(** The loop over chunks.  [pos] grows by at least eight, so a buffer of [n]
    bytes ends it within [n] turns. *)
Fixpoint walk (fuel : nat) (bytes : list N) (pos : Z) (fmt : option Fmt) (data : option (list N))
    : result Error (option Fmt * option (list N)) :=
  match fuel with
  | O => Ok (fmt, data)
  | S fuel =>
      let len := Z.of_nat (length bytes) in
      if pos + 8 <=? len then
        let chunk_id := default [] (slice bytes pos 4) in
        match read_u32 bytes (pos + 4) with
        | Err e => Err e
        | Ok chunk_size =>
            let body_start := pos + 8 in
            let body_end := Z.min (Z.min (body_start + chunk_size) u64_max) len in
            let body := default [] (slice bytes body_start (body_end - body_start)) in
            let advance := 8 + chunk_size + Z.land chunk_size 1 in
            let next fmt data :=
              if u64_max <? pos + advance then Err (err "chunk overflow")
              else walk fuel bytes (pos + advance) fmt data in
            if bool_decide (chunk_id = tag "fmt ") then
              match parse_fmt body with Err e => Err e | Ok f => next (Some f) data end
            else if bool_decide (chunk_id = tag "data") then next fmt (Some body)
            else next fmt data
        end
      else Ok (fmt, data)
  end.

Definition parse_wav (bytes : list N) : result Error WavData :=
  if (Z.of_nat (length bytes) <? 12) || negb (bool_decide (slice bytes 0 4 = Some (tag "RIFF")))
     || negb (bool_decide (slice bytes 8 4 = Some (tag "WAVE")))
  then Err (err "not a RIFF/WAVE file")
  else
    match walk (length bytes) bytes 12 None None with
    | Err e => Err e
    | Ok (None, _) => Err (err "missing fmt chunk")
    | Ok (Some _, None) => Err (err "missing data chunk")
    | Ok (Some (audio_format, channels, sample_rate, bits), Some data) =>
        if channels =? 0 then Err (err "zero channels")
        else
          let is_float := audio_format =? 3 in
          if negb is_float && negb (audio_format =? 1) && negb (audio_format =? 65534)
          then Err (err ("unsupported audio format " +:+ pretty audio_format))
          else
            match decode_samples data bits is_float with
            | Err e => Err e
            | Ok interleaved => Ok (mkWav sample_rate channels (downmix_to_mono interleaved channels))
            end
    end.

(** ** Writing *)

Fixpoint to_le_bytes (n : nat) (v : Z) : list N :=
  match n with O => [] | S n => Z.to_N (v mod 256) :: to_le_bytes n (v / 256) end.

(** A chunk: its id, its size, its body and the byte that pads an odd body. *)
Definition chunk (id : list N) (body : list N) : list N :=
  id ++ to_le_bytes 4 (Z.of_nat (length body)) ++ body ++
  (if Z.even (Z.of_nat (length body)) then [] else [0%N]).

Definition pcm16_bytes (samples : list Z) : list N := flat_map (fun s => to_le_bytes 2 (wrap 16 s)) samples.

(** The buffer the source's writer puts in the file; sizes are [u32]s. *)
Definition write_pcm16_mono (sample_rate : Z) (samples : list Z) : list N :=
  let data_len := wrap 32 (Z.of_nat (length samples * 2)) in
  let byte_rate := wrap 32 (sample_rate * 2) in
  tag "RIFF" ++ to_le_bytes 4 (36 + data_len) ++ tag "WAVE" ++
  tag "fmt " ++ to_le_bytes 4 16 ++ to_le_bytes 2 1 ++ to_le_bytes 2 1 ++
  to_le_bytes 4 sample_rate ++ to_le_bytes 4 byte_rate ++ to_le_bytes 2 2 ++ to_le_bytes 2 16 ++
  tag "data" ++ to_le_bytes 4 data_len ++ pcm16_bytes samples.

(** ** Bytes *)

Lemma to_le_bytes_length n v : length (to_le_bytes n v) = n.
Proof. revert v. induction n as [|n IH]; intros v; cbn; [done|]. by rewrite IH. Qed.

Lemma from_to_le_bytes n v : 0 <= v < 256 ^ Z.of_nat n -> from_le_bytes (to_le_bytes n v) = v.
Proof.
  revert v. induction n as [|n IH]; intros v Hv; cbn [to_le_bytes from_le_bytes]; [cbn in Hv; lia|].
  rewrite Nat2Z.inj_succ, Z.pow_succ_r in Hv by lia. rewrite Z2N.id by divlia. rewrite IH by divlia. divlia.
Qed.

Lemma slice_middle (pre x post : list N) off n :
  off = Z.of_nat (length pre) -> n = Z.of_nat (length x) -> slice (pre ++ x ++ post) off n = Some x.
Proof.
  intros -> ->. unfold slice. rewrite (proj2 (Z.leb_le _ _)) by (rewrite !length_app; lia).
  rewrite !Nat2Z.id, drop_app_length, take_app_length. done.
Qed.

Lemma read_uint_middle n pre v post off :
  off = Z.of_nat (length pre) -> 0 <= v < 256 ^ Z.of_nat n ->
  read_uint (Z.of_nat n) (pre ++ to_le_bytes n v ++ post) off = Ok v.
Proof.
  intros Hoff Hv. unfold read_uint. rewrite slice_middle; [by rewrite from_to_le_bytes|done|].
  by rewrite to_le_bytes_length.
Qed.

Lemma signed_wrap w z : 1 <= w -> in_i w z -> signed w (wrap w z) = z.
Proof.
  unfold in_i, signed, wrap. intros Hw Hz.
  assert (H2 : 2 ^ w = 2 * 2 ^ (w - 1)) by (rewrite <- Z.pow_succ_r by lia; f_equal; lia).
  assert (Hp : 0 < 2 ^ (w - 1)) by (apply Z.pow_pos_nonneg; lia). rewrite H2.
  destruct (Z_lt_le_dec z 0).
  - replace (z mod (2 * 2 ^ (w - 1))) with (z + 2 * 2 ^ (w - 1)).
    + rewrite (proj2 (Z.leb_le _ _)); lia.
    + rewrite <- (Z.mod_add z 1) by lia. rewrite Z.mod_small; lia.
  - rewrite Z.mod_small by lia. rewrite (proj2 (Z.leb_gt _ _)); lia.
Qed.

Lemma chunks_exact_concat k (ls : list (list N)) :
  (0 < k)%nat -> Forall (fun l => length l = k) ls -> chunks_exact k (concat ls) = ls.
Proof.
  intros Hk Hls. assert (Hlen : length (concat ls) = (length ls * k)%nat).
  { induction Hls as [|l ls Hl _ IH]; cbn; [done|]. rewrite length_app, IH, Hl. done. }
  unfold chunks_exact. rewrite Hlen, Nat.div_mul by lia. clear Hlen.
  induction Hls as [|l ls Hl _ IH]; [done|]. cbn [length seq map concat]. f_equal.
  - rewrite drop_0, <- Hl. apply take_app_length.
  - rewrite <- seq_shift, map_map. rewrite <- IH at 2. apply map_ext. intros i. f_equal.
    replace (S i * k)%nat with (length l + i * k)%nat by lia. by rewrite drop_app_add.
Qed.

(** ** Walking *)

Definition chunk_ok (c : list N * list N) : Prop :=
  length (fst c) = 4%nat /\ Z.of_nat (length (snd c)) < 2 ^ 32.

(** What one chunk does to the format and the data found so far. *)
Definition see_chunk (st : result Error (option Fmt * option (list N))) (c : list N * list N)
    : result Error (option Fmt * option (list N)) :=
  match st with
  | Err e => Err e
  | Ok (fmt, data) =>
      if bool_decide (fst c = tag "fmt ") then
        match parse_fmt (snd c) with Err e => Err e | Ok f => Ok (Some f, data) end
      else if bool_decide (fst c = tag "data") then Ok (fmt, Some (snd c)) else Ok (fmt, data)
  end.

Definition chunk_bytes (cs : list (list N * list N)) : list N := flat_map (fun c => chunk (fst c) (snd c)) cs.

Lemma chunk_length id body :
  length id = 4%nat ->
  Z.of_nat (length (chunk id body)) = 8 + Z.of_nat (length body) + Z.land (Z.of_nat (length body)) 1.
Proof.
  intros Hid. unfold chunk. rewrite !length_app, to_le_bytes_length, Hid.
  change 1 with (Z.ones 1). rewrite Z.land_ones by lia. change (2 ^ 1) with 2.
  rewrite Zmod_even. destruct (Z.even _); cbn; lia.
Qed.

Lemma see_chunk_err e cs : foldl see_chunk (Err e) cs = Err e.
Proof. induction cs; done. Qed.

(** The fields of the chunk that starts at [pos] of a buffer. *)
Lemma chunk_fields pre id body post :
  length id = 4%nat -> Z.of_nat (length body) < 2 ^ 32 ->
  let bytes := (pre ++ chunk id body) ++ post in
  let pos := Z.of_nat (length pre) in
  slice bytes pos 4 = Some id /\ read_u32 bytes (pos + 4) = Ok (Z.of_nat (length body)) /\
  slice bytes (pos + 8) (Z.of_nat (length body)) = Some body /\
  pos + 8 + Z.of_nat (length body) <= Z.of_nat (length bytes).
Proof.
  intros Hid Hbody bytes pos. unfold bytes, chunk. set (pad := if Z.even _ then _ else _).
  set (size := to_le_bytes 4 (Z.of_nat (length body))).
  assert (Hs : length size = 4%nat) by apply to_le_bytes_length. unfold pos.
  split; [|split; [|split]].
  - rewrite <- !app_assoc. apply slice_middle; [done|]. by rewrite Hid.
  - replace ((pre ++ id ++ size ++ body ++ pad) ++ post) with ((pre ++ id) ++ size ++ (body ++ pad ++ post))
      by (by rewrite <- !app_assoc).
    apply (read_uint_middle 4); [rewrite length_app, Hid; lia|]. change (256 ^ Z.of_nat 4) with (2 ^ 32). lia.
  - replace ((pre ++ id ++ size ++ body ++ pad) ++ post) with ((pre ++ id ++ size) ++ body ++ (pad ++ post))
      by (by rewrite <- !app_assoc).
    apply slice_middle; [rewrite !length_app, Hid, Hs; lia|done].
  - rewrite !length_app, Hid, Hs. lia.
Qed.

Lemma walk_chunks fuel pre cs fmt data :
  Forall chunk_ok cs -> (length cs < fuel)%nat ->
  Z.of_nat (length (pre ++ chunk_bytes cs)) < 2 ^ 62 ->
  walk fuel (pre ++ chunk_bytes cs) (Z.of_nat (length pre)) fmt data = foldl see_chunk (Ok (fmt, data)) cs.
Proof.
  revert fuel pre fmt data. induction cs as [|[id body] cs IH]; intros fuel pre fmt data Hok Hfuel Hlen.
  - destruct fuel as [|fuel]; [cbn in Hfuel; lia|]. cbn [walk chunk_bytes flat_map foldl].
    rewrite app_nil_r. by rewrite (proj2 (Z.leb_gt _ _)) by lia.
  - destruct fuel as [|fuel]; [cbn in Hfuel; lia|]. apply Forall_cons in Hok as [[Hid Hbody] Hok]. cbn [fst snd] in *.
    pose proof (chunk_length id body Hid) as Hcl.
    assert (Hbytes : pre ++ chunk_bytes ((id, body) :: cs) = (pre ++ chunk id body) ++ chunk_bytes cs).
    { unfold chunk_bytes. cbn [flat_map fst snd]. by rewrite app_assoc. }
    rewrite Hbytes in Hlen |- *.
    destruct (chunk_fields pre id body (chunk_bytes cs) Hid Hbody) as (Hsid & Hsize & Hsbody & Hfit).
    set (bytes := (pre ++ chunk id body) ++ chunk_bytes cs) in *.
    specialize (IH fuel (pre ++ chunk id body)).
    assert (Hnext : forall f d, walk fuel bytes (Z.of_nat (length pre) + (8 + Z.of_nat (length body) + Z.land (Z.of_nat (length body)) 1)) f d =
      foldl see_chunk (Ok (f, d)) cs).
    { intros f d. rewrite <- Hcl, <- Nat2Z.inj_add, <- length_app. apply IH; [done|cbn in Hfuel; lia|done]. }
    assert (Hland : 0 <= Z.land (Z.of_nat (length body)) 1 <= 1).
    { change 1 with (Z.ones 1) at 1. change 1 with (Z.ones 1) at 2. rewrite Z.land_ones by lia.
      change (2 ^ 1) with 2. divlia. }
    assert (Hmax : u64_max = 2 ^ 64 - 1) by reflexivity.
    assert (Hmin : Z.min (Z.min (Z.of_nat (length pre) + 8 + Z.of_nat (length body)) u64_max) (Z.of_nat (length bytes))
      - (Z.of_nat (length pre) + 8) = Z.of_nat (length body)) by lia.
    cbn [walk]. rewrite (proj2 (Z.leb_le _ _)) by lia. rewrite Hsid, Hsize. cbn [default].
    rewrite Hmin, Hsbody. cbn [default from_option]. rewrite (proj2 (Z.ltb_ge u64_max _)) by lia.
    cbn [foldl see_chunk fst snd]. change (Datatypes.id id) with id. change (Datatypes.id body) with body.
    case_bool_decide as E1.
    + destruct (parse_fmt body) as [f|e]; [apply Hnext|]. by rewrite see_chunk_err.
    + case_bool_decide; apply Hnext.
Qed.

(** ** Reading a file *)

Definition riff (size : Z) (cs : list (list N * list N)) : list N :=
  tag "RIFF" ++ to_le_bytes 4 size ++ tag "WAVE" ++ chunk_bytes cs.

Definition other_chunk (c : list N * list N) : Prop := fst c <> tag "fmt " /\ fst c <> tag "data".

Lemma see_other st cs : Forall other_chunk cs -> foldl see_chunk st cs = st.
Proof.
  revert st. induction cs as [|c cs IH]; intros st Hall; [done|]. apply Forall_cons in Hall as [[H1 H2] Hall].
  cbn [foldl]. rewrite IH by done. destruct st as [[f d]|e]; [|done]. cbn.
  by rewrite !bool_decide_false by done.
Qed.

(** The body of the format chunk of mono 16-bit PCM. *)
Definition pcm16_fmt (sample_rate : Z) : list N :=
  to_le_bytes 2 1 ++ to_le_bytes 2 1 ++ to_le_bytes 4 sample_rate ++ to_le_bytes 4 (wrap 32 (sample_rate * 2)) ++
  to_le_bytes 2 2 ++ to_le_bytes 2 16.

Lemma parse_pcm16_fmt rate : 0 <= rate < 2 ^ 32 -> parse_fmt (pcm16_fmt rate) = Ok (1, 1, rate, 16).
Proof.
  intros Hr. unfold parse_fmt, pcm16_fmt. rewrite !length_app, !to_le_bytes_length. cbn [Nat.add].
  rewrite (proj2 (Z.ltb_ge _ _)) by lia.
  assert (H0 : read_u16 (pcm16_fmt rate) 0 = Ok 1) by (by apply (read_uint_middle 2 [] 1)).
  assert (H2 : read_u16 (pcm16_fmt rate) 2 = Ok 1) by (by apply (read_uint_middle 2 (to_le_bytes 2 1) 1)).
  assert (H4 : read_u32 (pcm16_fmt rate) 4 = Ok rate)
    by (by apply (read_uint_middle 4 (to_le_bytes 2 1 ++ to_le_bytes 2 1) rate)).
  assert (H14 : read_u16 (pcm16_fmt rate) 14 = Ok 16).
  { unfold pcm16_fmt. rewrite <- (app_nil_r (to_le_bytes 2 16)).
    replace (to_le_bytes 2 1 ++ _) with ((to_le_bytes 2 1 ++ to_le_bytes 2 1 ++ to_le_bytes 4 rate ++
      to_le_bytes 4 (wrap 32 (rate * 2)) ++ to_le_bytes 2 2) ++ to_le_bytes 2 16 ++ []) by (by rewrite <- !app_assoc).
    by apply (read_uint_middle 2). }
  unfold pcm16_fmt in *. by rewrite H0, H2, H4, H14.
Qed.

Lemma decode_pcm16 samples :
  Forall (in_i 16) samples ->
  decode_samples (pcm16_bytes samples) 16 false = Ok (map (fun s => scaled s 32768) samples).
Proof.
  intros Hs. unfold decode_samples. cbn [andb negb Z.eqb]. f_equal.
  unfold pcm16_bytes. rewrite flat_map_concat_map, chunks_exact_concat.
  - rewrite map_map. apply map_ext_in. intros s Hin. rewrite <- list_elem_of_In in Hin. rewrite Forall_forall in Hs.
    rewrite from_to_le_bytes; [rewrite signed_wrap; [done|lia|auto]|].
    apply Z.mod_pos_bound. done.
  - lia.
  - apply Forall_map, Forall_forall. intros s _. apply to_le_bytes_length.
Qed.

Lemma parse_riff size cs :
  Forall chunk_ok cs -> Z.of_nat (length (riff size cs)) < 2 ^ 62 ->
  walk (length (riff size cs)) (riff size cs) 12 None None = foldl see_chunk (Ok (None, None)) cs /\
  (Z.of_nat (length (riff size cs)) <? 12) || negb (bool_decide (slice (riff size cs) 0 4 = Some (tag "RIFF")))
     || negb (bool_decide (slice (riff size cs) 8 4 = Some (tag "WAVE"))) = false.
Proof.
  intros Hok Hlen.
  assert (Hsplit : riff size cs = (tag "RIFF" ++ to_le_bytes 4 size ++ tag "WAVE") ++ chunk_bytes cs)
    by (unfold riff; by rewrite <- !app_assoc).
  assert (Hh : length (tag "RIFF" ++ to_le_bytes 4 size ++ tag "WAVE") = 12%nat)
    by (rewrite !length_app, to_le_bytes_length; done).
  split.
  - rewrite Hsplit in Hlen |- *. rewrite <- (walk_chunks (length ((tag "RIFF" ++ to_le_bytes 4 size ++ tag "WAVE") ++ chunk_bytes cs))
      (tag "RIFF" ++ to_le_bytes 4 size ++ tag "WAVE")); [by rewrite Hh|done| |done].
    rewrite length_app, Hh. assert (length cs <= length (chunk_bytes cs))%nat; [|lia].
    clear -Hok. induction Hok as [|[id body] cs [Hid _] _ IH]; [done|]. unfold chunk_bytes in *.
    cbn [flat_map length fst snd]. cbn in Hid. rewrite length_app. unfold chunk at 1. rewrite length_app, Hid. lia.
  - rewrite (slice_middle [] (tag "RIFF") (to_le_bytes 4 size ++ tag "WAVE" ++ chunk_bytes cs)) by done.
    replace (riff size cs) with ((tag "RIFF" ++ to_le_bytes 4 size) ++ tag "WAVE" ++ chunk_bytes cs)
      by (unfold riff; by rewrite <- !app_assoc).
    rewrite slice_middle; [|by rewrite length_app, to_le_bytes_length|done].
    rewrite !bool_decide_true by done. cbn [negb orb]. rewrite !orb_false_r. apply Z.ltb_ge.
    rewrite !length_app, to_le_bytes_length. change (length (tag "RIFF")) with 4%nat. change (length (tag "WAVE")) with 4%nat. lia.
Qed.

(** A mono 16-bit PCM file is read exactly, whatever other chunks surround
    the two that matter (odd sizes padded): its rate, and each sample over
    32768.  In particular the buffer the source's own writer makes is read back
    to the samples it was given, and its duration is theirs. *)
Theorem parse_wav_pcm16 rate ss :
  0 <= rate < 2 ^ 32 -> Forall (in_i 16) ss -> 36 + 2 * Z.of_nat (length ss) < 2 ^ 32 ->
  let w := mkWav rate 1 (map (fun s => scaled s 32768) ss) in
  (forall size xs ys zs, Forall chunk_ok (xs ++ ys ++ zs) -> Forall other_chunk (xs ++ ys ++ zs) ->
     let file := riff size (xs ++ [(tag "fmt ", pcm16_fmt rate)] ++ ys ++ [(tag "data", pcm16_bytes ss)] ++ zs) in
     Z.of_nat (length file) < 2 ^ 62 -> parse_wav file = Ok w) /\
  parse_wav (write_pcm16_mono rate ss) = Ok w /\
  duration_ms w = (if rate =? 0 then 0 else Z.of_nat (length ss) * 1000 / rate).
Proof.
  intros Hr Hs Hlen w.
  assert (Hpcm : length (pcm16_bytes ss) = (length ss * 2)%nat).
  { clear. induction ss as [|s ss IH]; [done|]. unfold pcm16_bytes in *. cbn [flat_map].
    rewrite length_app, to_le_bytes_length, IH. cbn. lia. }
  assert (Hfile : forall size xs ys zs, Forall chunk_ok (xs ++ ys ++ zs) -> Forall other_chunk (xs ++ ys ++ zs) ->
     let file := riff size (xs ++ [(tag "fmt ", pcm16_fmt rate)] ++ ys ++ [(tag "data", pcm16_bytes ss)] ++ zs) in
     Z.of_nat (length file) < 2 ^ 62 -> parse_wav file = Ok w).
  { intros size xs ys zs Hok Hother file Hfl. rewrite !Forall_app in Hok, Hother.
    destruct Hok as (Hx & Hy & Hz), Hother as (Ox & Oy & Oz).
    destruct (parse_riff size (xs ++ [(tag "fmt ", pcm16_fmt rate)] ++ ys ++ [(tag "data", pcm16_bytes ss)] ++ zs))
      as [Hwalk Hmagic]; [|done|].
    { rewrite !Forall_app. do 4 (split; [done || (repeat constructor; cbn; try done; rewrite ?Hpcm; lia)|]). done. }
    unfold parse_wav. fold file in Hwalk, Hmagic. rewrite Hmagic, Hwalk.
    rewrite foldl_app, (see_other _ xs) by done. cbn [app foldl]. unfold see_chunk at 2. cbn [fst snd].
    rewrite bool_decide_true by done. rewrite parse_pcm16_fmt by done.
    rewrite foldl_app, (see_other _ ys) by done. cbn [app foldl see_chunk fst snd].
    rewrite bool_decide_false by done. rewrite bool_decide_true by done. rewrite (see_other _ zs) by done.
    cbn [Z.eqb negb andb]. rewrite decode_pcm16 by done. done. }
  split; [exact Hfile|]. split.
  - assert (Hw : write_pcm16_mono rate ss = riff (36 + wrap 32 (Z.of_nat (length ss * 2)))
      ([] ++ [(tag "fmt ", pcm16_fmt rate)] ++ [] ++ [(tag "data", pcm16_bytes ss)] ++ [])).
    { unfold write_pcm16_mono, riff, chunk_bytes, chunk. cbn [app flat_map fst snd].
      rewrite (wrap_small 32) by (unfold in_u; lia).
      change (length (pcm16_fmt rate)) with 16%nat. rewrite Hpcm.
      rewrite (proj2 (Z.even_spec (Z.of_nat (length ss * 2)))) by (exists (Z.of_nat (length ss)); lia).
      cbn [Z.of_nat Z.even Pos.of_succ_nat]. unfold pcm16_fmt. rewrite !app_nil_r, <- !app_assoc. done. }
    rewrite Hw. apply Hfile; [done|done|]. unfold riff, chunk_bytes, chunk. cbn [app flat_map fst snd].
    rewrite !length_app, !to_le_bytes_length, Hpcm. change (length (pcm16_fmt rate)) with 16%nat.
    change (length (tag "RIFF")) with 4%nat. change (length (tag "WAVE")) with 4%nat.
    change (length (tag "fmt ")) with 4%nat. change (length (tag "data")) with 4%nat.
    repeat (destruct (Z.even _)); cbn [length]; lia.
  - unfold duration_ms, w. cbn [sample_rate samples]. rewrite length_map.
    destruct (rate =? 0) eqn:E; [done|]. bool_to_prop. apply Z.quot_div_nonneg; lia.
Qed.

(** *** Witness *)

Definition sample_pcm : list Z := [0; 1; -32768; 32767; 16384].

Lemma parse_wav_pcm16_witness :
  parse_wav (write_pcm16_mono 16000 sample_pcm) = Ok (mkWav 16000 1 (map (fun s => scaled s 32768) sample_pcm)) /\
  scaled 16384 32768 = S754_finite false 8388608 (-24).
Proof.
  assert (Hs : Forall (in_i 16) sample_pcm) by (repeat constructor; lia).
  destruct (parse_wav_pcm16 16000 sample_pcm ltac:(lia) Hs ltac:(vm_compute; reflexivity)) as (_ & Hrt & _).
  split; [exact Hrt|vm_compute; reflexivity].
Defined.
