(* ===== verification/Speech.v ===== *)
(** * Speech engines: the traits and the stub of [crates/scribe-asr]

    [SpeechEngine] is the interface the stages use ([types.rs], [engine.rs]); the
    deterministic stub of [stub.rs] is an instance of it.  An engine sees the
    bytes of the file it is handed, or that it cannot be read. *)

From Stdlib Require Import String SpecFloat.
From S2P Require Import Prelude RustStr Types F32 Wav.

Definition EMBEDDING_DIM : nat := 192.

Record AsrWord := mkAsrWord { aw_text : string; aw_start_ms : Z; aw_end_ms : Z; aw_conf : f32 }.
Record Transcript := mkTranscript { tr_text : string; tr_words : list AsrWord }.
Record SpeakerTurn := mkSpeakerTurn { st_local_idx : Z; st_start_ms : Z; st_end_ms : Z }.
Record Diarization := mkDiarizationResult {
  dz_turns : list SpeakerTurn; dz_embeddings : gmap Z (list f32); dz_num_speakers : Z;
}.

(** A file's contents, [None] when reading it fails. *)
Notation Contents := (option (list N)) (only parsing).

(** The traits [Transcriber], [Diarizer] and [SpeakerEmbedder]. *)
Class SpeechEngine := {
  transcribe : Contents -> result Error Transcript;
  diarize : Contents -> option Z -> result Error Diarization;
  embed_speaker : Contents -> result Error (list f32);
}.

Definition io_error : Error := Io "cannot read the file".

Definition read_wav (file : Contents) : result Error WavData :=
  match file with Some bytes => parse_wav bytes | None => Err io_error end.

(** ** The stub *)

Definition WORDS_PER_5S : Z := 4.
Definition TURN_MS : Z := 10000.

Definition stub_duration_ms (file : Contents) : Z :=
  match read_wav file with Ok w => Z.max (duration_ms w) 0 | Err _ => 0 end.

Definition placeholders : list string := ["[stub"; "transcription]"; "scribe"; "asr"].

Definition clamp (lo hi z : Z) : Z := Z.max lo (Z.min hi z).

Definition stub_word (dur step i : Z) : AsrWord :=
  let start := i * step in
  let end_ := Z.min (start + Z.max (step - 1) (- 2 ^ 63)) dur in
  mkAsrWord (default "" (placeholders !! Z.to_nat (i mod 4))) start (Z.max end_ start) (of_Z 1).

Definition stub_transcribe (file : Contents) : result Error Transcript :=
  let dur := Z.max (stub_duration_ms file) 1000 in
  let n := clamp 3 64 (dur * WORDS_PER_5S / 5000) in
  let step := dur / n in
  let words := map (stub_word dur step) (seqZ 0 n) in
  Ok (mkTranscript (join " " (map aw_text words)) words).

(** [while start < dur] *)
Fixpoint stub_turns (fuel : nat) (num_speakers dur start idx : Z) : list SpeakerTurn :=
  match fuel with
  | O => []
  | S fuel =>
      if start <? dur then
        let end_ := Z.min (start + TURN_MS) dur in
        mkSpeakerTurn (idx mod num_speakers) start end_ :: stub_turns fuel num_speakers dur end_ (idx + 1)
      else []
  end.

Definition u64_add (a b : Z) : Z := wrap 64 (a + b).
Definition u64_mul (a b : Z) : Z := wrap 64 (a * b).

Definition seed_step (state : Z) (b : N) : Z :=
  let state := u64_mul (u64_add state (Z.of_N b)) 0x1000000001B3 in
  Z.lxor state (Z.shiftr state 27).

Definition initial_state (seed : list N) : Z :=
  Z.lxor (foldl seed_step 0x9E3779B97F4A7C15 seed) 0xD1B54A32D192ED03.

Definition splitmix_output (state : Z) : Z :=
  let z := u64_mul (Z.lxor state (Z.shiftr state 30)) 0xBF58476D1CE4E5B9 in
  let z := u64_mul (Z.lxor z (Z.shiftr z 27)) 0x94D049BB133111EB in
  Z.lxor z (Z.shiftr z 31).

(** [n as f64] and [x as f32]. *)
Definition f64_of_Z (n : Z) : spec_float := binary_normalize 53 1024 n 0 false.
Definition f32_of_f64 (x : spec_float) : f32 :=
  match x with S754_finite s m e => binary_round F32_PREC F32_EMAX s m e | x => x end.

Definition unit_interval (z : Z) : f32 :=
  fsub (fmul (f32_of_f64 (SFdiv 53 1024 (f64_of_Z z) (f64_of_Z u64_max))) (of_Z 2)) (of_Z 1).

Fixpoint splitmix (n : nat) (state : Z) : list f32 :=
  match n with
  | O => []
  | S n =>
      let state := u64_add state 0x9E3779B97F4A7C15 in
      unit_interval (splitmix_output state) :: splitmix n state
  end.

Definition l2_normalize (v : list f32) : list f32 :=
  let norm := fsqrt (fsum (map (fun x => fmul x x) v)) in
  if fltb EPSILON norm then map (fun x => fdiv x norm) v
  else match v with [] => [] | _ :: v' => of_Z 1 :: v' end.

Definition deterministic_embedding (seed : list N) : list f32 :=
  l2_normalize (splitmix EMBEDDING_DIM (initial_state seed)).

Definition stub_embeddings (num_speakers : Z) : gmap Z (list f32) :=
  list_to_map (map (fun s => (s, deterministic_embedding [94%N; 237%N; Z.to_N (wrap 8 s)])) (seqZ 0 num_speakers)).

Definition stub_diarize (file : Contents) (expected_speakers : option Z) : result Error Diarization :=
  let dur := Z.max (stub_duration_ms file) 1000 in
  let num_speakers := Z.max (default 2 expected_speakers) 1 in
  let turns := stub_turns (Z.to_nat (dur / TURN_MS + 1)) num_speakers dur 0 0 in
  let turns := match turns with [] => [mkSpeakerTurn 0 0 dur] | _ => turns end in
  Ok (mkDiarizationResult turns (stub_embeddings num_speakers) num_speakers).

Definition stub_embed_speaker (file : Contents) : result Error (list f32) :=
  match file with Some bytes => Ok (deterministic_embedding bytes) | None => Err io_error end.

#[export] Instance stub_engine : SpeechEngine := {|
  transcribe := stub_transcribe; diarize := stub_diarize; embed_speaker := stub_embed_speaker;
|}.

(** ** What the traits promise *)

(** [Diarization]: turns sorted by start time, and a width for embeddings. *)
Class DiarizerLaws `{SpeechEngine} : Prop := {
  turns_sorted : forall file n d, diarize file n = Ok d ->
    StronglySorted (fun a b => st_start_ms a <= st_start_ms b) (dz_turns d);
  turns_positive : forall file n d, diarize file n = Ok d ->
    Forall (fun t => st_start_ms t < st_end_ms t) (dz_turns d);
  embeddings_width : forall file n d i v, diarize file n = Ok d -> dz_embeddings d !! i = Some v ->
    length v = EMBEDDING_DIM;
}.

(** [Transcript]: words in file order, none before the start of the audio. *)
Class TranscriberLaws `{SpeechEngine} : Prop := {
  words_timed : forall file t, transcribe file = Ok t ->
    Forall (fun w => 0 <= aw_start_ms w <= aw_end_ms w) (tr_words t);
  words_sorted : forall file t, transcribe file = Ok t ->
    StronglySorted (fun a b => aw_start_ms a <= aw_start_ms b) (tr_words t);
}.

(** Turns that tile an interval: each starts where the one before ended. *)
Fixpoint tiles (start stop : Z) (ts : list SpeakerTurn) : Prop :=
  match ts with
  | [] => start = stop
  | t :: ts' => st_start_ms t = start /\ start < st_end_ms t <= start + TURN_MS /\ st_end_ms t <= stop /\
      tiles (st_end_ms t) stop ts'
  end.

Lemma stub_turns_spec fuel num dur start idx :
  0 < num -> 0 <= start <= dur -> dur - start <= TURN_MS * Z.of_nat fuel ->
  tiles start dur (stub_turns fuel num dur start idx) /\
  (forall k t, stub_turns fuel num dur start idx !! k = Some t -> st_local_idx t = (idx + Z.of_nat k) mod num).
Proof.
  intros Hnum. revert start idx. induction fuel as [|fuel IH]; intros start idx Hs Hf.
  - split; [cbn; lia|done].
  - cbn [stub_turns]. destruct (start <? dur) eqn:E; bool_to_prop; [|split; [cbn; lia|done]].
    destruct (IH (Z.min (start + TURN_MS) dur) (idx + 1)) as [Ht Hi]; [unfold TURN_MS in *; lia..|].
    split.
    + cbn [tiles st_start_ms st_end_ms]. unfold TURN_MS in *. split; [done|]. split; [lia|]. split; [lia|done].
    + intros [|k] t; cbn; [intros [= <-]; cbn; f_equal; lia|]. intros Hk. rewrite (Hi k t Hk). f_equal. lia.
Qed.

Lemma tiles_sorted start stop ts :
  tiles start stop ts -> Forall (fun t => start <= st_start_ms t) ts /\
    StronglySorted (fun a b => st_start_ms a <= st_start_ms b) ts /\
    Forall (fun t => st_start_ms t < st_end_ms t) ts.
Proof.
  revert start. induction ts as [|t ts IH]; intros start Ht; [repeat constructor|].
  destruct Ht as (Hst & Hlen & Hstop & Hrest). destruct (IH _ Hrest) as (Hge & Hsort & Hpos).
  assert (Hall : Forall (fun u => st_start_ms t <= st_start_ms u) ts).
  { eapply Forall_impl; [exact Hge|]. cbn. lia. }
  split; [constructor; [lia|]; eapply Forall_impl; [exact Hall|]; cbn; lia|].
  split; [by constructor|]. constructor; [lia|done].
Qed.

Lemma splitmix_length n state : length (splitmix n state) = n.
Proof. revert state. induction n as [|n IH]; intros state; cbn; [done|]. by rewrite IH. Qed.

Lemma deterministic_embedding_length seed : length (deterministic_embedding seed) = EMBEDDING_DIM.
Proof.
  unfold deterministic_embedding, l2_normalize. destruct (fltb _ _).
  - rewrite length_map. apply splitmix_length.
  - pose proof (splitmix_length EMBEDDING_DIM (initial_state seed)) as Hl.
    by destruct (splitmix _ _).
Qed.

Lemma stub_embeddings_lookup n i :
  stub_embeddings n !! i = if bool_decide (0 <= i < n) then Some (deterministic_embedding [94%N; 237%N; Z.to_N (wrap 8 i)]) else None.
Proof.
  unfold stub_embeddings. case_bool_decide as Hi.
  - apply elem_of_list_to_map_1.
    + rewrite <- list_fmap_compose. cbn. rewrite list_fmap_id. apply NoDup_seqZ.
    + apply list_elem_of_fmap. exists i. split; [done|]. by apply elem_of_seqZ.
  - apply not_elem_of_list_to_map_1. rewrite <- list_fmap_compose. cbn. rewrite list_fmap_id, elem_of_seqZ. lia.
Qed.

Lemma stub_embeddings_width n i v : stub_embeddings n !! i = Some v -> length v = EMBEDDING_DIM.
Proof.
  rewrite stub_embeddings_lookup. destruct (bool_decide _); [|done]. intros Hv. apply (inj Some) in Hv as <-.
  apply deterministic_embedding_length.
Qed.

#[local] Opaque deterministic_embedding.

(** Whatever the file, the stub's diarization keeps the trait's contract: its
    turns tile the audio from zero to its duration (a second when it is shorter
    or unreadable) in pieces of at most ten seconds, speakers alternate through
    the expected number of them, and each of those has a voice of the column's
    width. *)
Theorem stub_diarize_spec file expected :
  exists d, stub_diarize file expected = Ok d /\
    dz_num_speakers d = Z.max (default 2 expected) 1 /\
    tiles 0 (Z.max (stub_duration_ms file) 1000) (dz_turns d) /\
    (forall k t, dz_turns d !! k = Some t -> st_local_idx t = Z.of_nat k mod dz_num_speakers d) /\
    (forall i, is_Some (dz_embeddings d !! i) <-> 0 <= i < dz_num_speakers d) /\
    (forall i v, dz_embeddings d !! i = Some v -> length v = EMBEDDING_DIM).
Proof.
  unfold stub_diarize. set (dur := Z.max _ 1000). set (n := Z.max _ 1).
  destruct (stub_turns_spec (Z.to_nat (dur / TURN_MS + 1)) n dur 0 0) as [Ht Hi];
    [lia|lia|unfold TURN_MS, dur; divlia|].
  set (ts := stub_turns _ _ _ _ _) in *. eexists. split; [done|].
  cbn [dz_num_speakers dz_turns dz_embeddings].
  destruct ts as [|t ts'] eqn:E; [exfalso; cbn in Ht; lia|].
  split; [done|]. split; [done|]. split; [intros k u Hk; rewrite (Hi k u Hk); done|]. split.
  - intros i. rewrite stub_embeddings_lookup. case_bool_decide; [done|]. split; [by intros [? ?]|done].
  - intros i v. apply stub_embeddings_width.
Qed.

#[export] Instance stub_diarizer_laws : @DiarizerLaws stub_engine.
Proof.
  assert (Hd : forall file n d, stub_diarize file n = Ok d ->
    tiles 0 (Z.max (stub_duration_ms file) 1000) (dz_turns d) /\
    (forall i v, dz_embeddings d !! i = Some v -> length v = EMBEDDING_DIM)).
  { intros file n d Hok. unfold stub_diarize in Hok. injection Hok as <-. cbn [dz_turns dz_embeddings].
    destruct (stub_turns_spec (Z.to_nat (Z.max (stub_duration_ms file) 1000 / TURN_MS + 1)) (Z.max (default 2 n) 1)
      (Z.max (stub_duration_ms file) 1000) 0 0) as [Ht _]; [lia|lia|unfold TURN_MS; divlia|]. split.
    - destruct (stub_turns _ _ _ _ _); [cbn in Ht; lia|done].
    - intros i v. apply stub_embeddings_width. }
  split.
  - intros file n d [Ht _]%Hd. by apply tiles_sorted in Ht as (_ & ? & _).
  - intros file n d [Ht _]%Hd. by apply tiles_sorted in Ht as (_ & _ & ?).
  - intros file n d i v [_ Hv]%Hd. apply Hv.
Qed.

Lemma StronglySorted_map {A B} (f : A -> B) (R : B -> B -> Prop) (Q : A -> A -> Prop) l :
  (forall a b, Q a b -> R (f a) (f b)) -> StronglySorted Q l -> StronglySorted R (map f l).
Proof.
  intros Hf. induction 1 as [|x l Hs IH Hx]; cbn; [constructor|]. constructor; [done|].
  apply Forall_map. eapply Forall_impl; [exact Hx|]. intros b. apply Hf.
Qed.

Lemma seqZ_sorted m n : StronglySorted Z.le (seqZ m n).
Proof.
  unfold seqZ. assert (H : forall k i, StronglySorted Z.le ((fun j => Z.of_nat j + m) <$> seq i k)); [|apply H].
  induction k as [|k IH]; intros i; [constructor|]. cbn. constructor; [apply IH|].
  apply Forall_map, Forall_forall. intros j Hj. apply elem_of_seq in Hj. lia.
Qed.

#[export] Instance stub_transcriber_laws : @TranscriberLaws stub_engine.
Proof.
  assert (Hstep : forall file, 0 <= Z.max (stub_duration_ms file) 1000 /
    clamp 3 64 (Z.max (stub_duration_ms file) 1000 * WORDS_PER_5S / 5000)).
  { intros file. apply Z.div_pos; unfold clamp; lia. }
  split; intros file t Hok; injection Hok as <-; cbn [tr_words].
  - apply Forall_map, Forall_forall. intros i Hi%elem_of_seqZ. specialize (Hstep file).
    unfold stub_word. cbn [aw_start_ms aw_end_ms]. split; [nia|lia].
  - eapply StronglySorted_map; [|apply seqZ_sorted]. intros a b Hab. unfold stub_word. cbn [aw_start_ms].
    specialize (Hstep file). nia.
Qed.
