(* ===== verification/Score.v ===== *)
(** * Measuring a transcript: the examples of [scribe-pipeline] and [scribe-asr]

    What [transcript_check.rs], [diarize_check.rs] and [enroll_check.rs] compute
    from a recording whose truth is known: word errors, which cluster is which
    person, how much is credited to whom, and when that is a failure.  What they
    print is left out.  The order a [HashMap] iterates in is an argument. *)

From Stdlib Require Import Ascii String SpecFloat.
From S2P Require Import Prelude RustStr Types F32 Store Merge Identity Wav Speech.

#[local] Arguments String.append !_ _ /.

(** ** Word errors *)

(** [edit_distance]'s inner loop: the rest of the row of [x], from the cell on
    its left and the row above. *)
Fixpoint row_from (left : nat) (x : string) (b : list string) (above : list nat) : list nat :=
  match b, above with
  | y :: b', diagonal :: ((up :: _) as above') =>
      let cost := if String.eqb x y then 0%nat else 1%nat in
      let cell := ((up + 1) `min` (left + 1) `min` (diagonal + cost))%nat in
      cell :: row_from cell x b' above'
  | _, _ => []
  end.

(** One turn of the outer loop, for the [i]-th word: [cur[0] = i]. *)
Definition next_row (b : list string) (row : nat * list nat) (x : string) : nat * list nat :=
  let i := S (fst row) in (i, i :: row_from i x b (snd row)).

Definition edit_distance (a b : list string) : nat :=
  default 0%nat (last (snd (foldl (next_row b) (0%nat, seq 0 (S (length b))) a))).

Section words.
Context `{CharAlnum} `{UnicodeCase}.

Definition normalise (s : string) : list string :=
  bfilter (fun w => negb (is_empty w)) (map (fun w =>
    to_lowercase (str_concat (bfilter (fun c => is_alphanumeric c || String.eqb c "'") (chars w)))) (split_whitespace s)).
End words.

(** ** Percentages *)

(** [n as f64], and the operations on [f64]. *)
Definition f64_of (n : Z) : spec_float := binary_normalize 53 1024 n 0 false.
Definition f64_percent (n of_ : Z) : spec_float := SFdiv 53 1024 (SFmul 53 1024 (f64_of 100) (f64_of n)) (f64_of of_).

(** ** Who is who *)

Record TruthTurn := mkTruthTurn { tt_speaker : string; tt_start_ms : Z; tt_end_ms : Z; tt_text : string }.

(** Counts by name and cluster: [*map.entry((name, idx)).or_insert(0) += n]. *)
Notation Counts := (gmap (string * Z) Z).
Definition add_count (m : Counts) (x : (string * Z) * Z) : Counts := <[fst x := default 0 (m !! fst x) + snd x]> m.
Definition count_pairs (l : list ((string * Z) * Z)) : Counts := foldl add_count ∅ l.

(** One turn of the loop that pairs clusters with people, over [map] and [taken]. *)
Definition claim_pair (st : gmap Z string * gset string) (x : (string * Z) * Z) : gmap Z string * gset string :=
  let '((name, idx), _) := x in
  if bool_decide (is_Some (fst st !! idx)) || bool_decide (name ∈ snd st) then st
  else (<[idx := name]> (fst st), {[ name ]} ∪ snd st).

(** [pairs.sort_by(|a, b| b.1.cmp(&a.1))] *)
Definition most_first (a b : (string * Z) * Z) : bool := snd b <=? snd a.

(** The pairing, [pairs] being the counts in the order the map gives them. *)
Definition pair_up (pairs : list ((string * Z) * Z)) : gmap Z string :=
  fst (foldl claim_pair (∅, ∅) (sort_by most_first pairs)).

(** ** [transcript_check] *)

(** [truth_at] *)
Definition truth_at (truth : list TruthTurn) (ms : Z) : list string :=
  map tt_speaker (bfilter (fun t => (tt_start_ms t <=? ms) && (ms <=? tt_end_ms t)) truth).

Definition midpoint (w : Word) : Z := Z.quot (w_start_ms w + w_end_ms w) 2.

(** The words nobody was talking over. *)
Definition clear_words (truth : list TruthTurn) (words : list Word) : list ((string * Z) * Z) :=
  omap (fun w => match truth_at truth (midpoint w), w_local_idx w with
                 | [name], Some idx => Some ((name, idx), 1)
                 | _, _ => None
                 end) words.

Record Tally := mkTally { ta_scored : Z; ta_correct : Z; ta_unlabelled : Z; ta_contested : Z; ta_contested_ok : Z }.

Definition tally_word (truth : list TruthTurn) (names : gmap Z string) (n : Tally) (w : Word) : Tally :=
  match truth_at truth (midpoint w) with
  | [] => n
  | who =>
      let overlapped := bool_decide (1 < length who)%nat in
      let contested := if (overlapped : bool) then ta_contested n + 1 else ta_contested n in
      match w_local_idx w with
      | None => mkTally (ta_scored n + 1) (ta_correct n) (ta_unlabelled n + 1) contested (ta_contested_ok n)
      | Some idx =>
          let hit := match names !! idx with Some name => bool_decide (name ∈ who) | None => false end in
          mkTally (ta_scored n + 1) (if hit then ta_correct n + 1 else ta_correct n) (ta_unlabelled n) contested
            (if hit && overlapped then ta_contested_ok n + 1 else ta_contested_ok n)
      end
  end.

Definition tally (truth : list TruthTurn) (names : gmap Z string) (words : list Word) : Tally :=
  foldl (tally_word truth names) (mkTally 0 0 0 0 0) words.

(** [scored - correct - unlabelled] and the words in the clear are subtractions
    of [usize]; [adrift] saturates. *)
Definition wrong (n : Tally) : Z := ta_scored n - ta_correct n - ta_unlabelled n.
Definition clear (n : Tally) : Z := ta_scored n - ta_contested n.
Definition clear_ok (n : Tally) : Z := ta_correct n - ta_contested_ok n.
Definition adrift (words : list Word) (n : Tally) : Z := Z.max 0 (Z.of_nat (length words) - ta_scored n).

(** [std::env::var(name).ok().and_then(|v| v.parse::<f64>().ok())] *)
Class EnvF64 := env_f64 : string -> option spec_float.

Inductive Failure :=
| WordErrorsAbove (wer max : spec_float)
| CorrectBelow (correct floor : spec_float)
| SpeakersDiffer (got want : Z)
| RecognisedBelow (right_ want : Z)
| NamedWrongly (false_positive wrong_ : Z).

Definition f64_below (a b : spec_float) : bool := match SFcompare a b with Some Lt => true | _ => false end.

Section transcript_check.
Context `{CharAlnum} `{UnicodeCase} `{EnvF64}.

(** [wer_pct]. *)
Definition word_error_rate (truth : list TruthTurn) (words : list Word) : spec_float :=
  match flat_map (fun t => normalise (tt_text t)) truth with
  | [] => f64_of 0
  | spoken =>
      let heard := flat_map (fun w => normalise (w_text w)) words in
      f64_percent (Z.of_nat (edit_distance spoken heard)) (Z.of_nat (length spoken))
  end.

Definition pct (scored n : Z) : spec_float := f64_percent n (Z.max scored 1).

Definition transcript_failures (wer : spec_float) (n : Tally) : list Failure :=
  (match env_f64 "TRANSCRIPT_MAX_WER" with
   | Some max => if f64_below max wer then [WordErrorsAbove wer max] else []
   | None => []
   end) ++
  (match env_f64 "TRANSCRIPT_MIN_CORRECT" with
   | Some floor => let correct := pct (ta_scored n) (ta_correct n) in
       if f64_below correct floor then [CorrectBelow correct floor] else []
   | None => []
   end).

(** The scoring of labelled words, [order] being the order of the map's pairs:
    the names, the counts, and what makes the command exit with 1. *)
Definition score_transcript (order : Counts -> list ((string * Z) * Z)) (truth : list TruthTurn) (words : list Word)
    : gmap Z string * Tally * list Failure :=
  let names := pair_up (order (count_pairs (clear_words truth words))) in
  let n := tally truth names words in
  (names, n, transcript_failures (word_error_rate truth words) n).

(** The words as recognized (or cached), before anybody is credited with them. *)
Definition recognised_words (words : list Word) : list Word :=
  map (fun w => mkWord (w_text w) (w_start_ms w) (w_end_ms w) (w_conf w) None) words.

Definition diarized_turns (turns : list SpeakerTurn) : list TurnArtifact :=
  map (fun t => mkTurn (st_local_idx t) (st_start_ms t) (st_end_ms t)) turns.

(** The command: the merge stage's own labelling, scored when there is a truth. *)
Definition check_transcript (order : Counts -> list ((string * Z) * Z)) (truth : list TruthTurn) (words : list Word)
    (turns : list SpeakerTurn) : option (gmap Z string * Tally * list Failure) :=
  let words := fst (label_words (recognised_words words) (diarized_turns turns)) in
  match truth with
  | [] => None
  | _ => Some (score_transcript order truth words)
  end.
End transcript_check.

(** ** [diarize_check]: ten milliseconds at a time *)

Definition STEP_MS : Z := 10.

(** [for f in from..=to { at[f as usize] = v }]; a negative [f] is out of bounds
    as a [usize]. *)
Definition set_frames {A} (v : A) (start_ms end_ms : Z) (at_ : list (option A)) : option (list (option A)) :=
  let from := Z.quot start_ms STEP_MS in
  let to_ := Z.min (Z.quot end_ms STEP_MS) (Z.of_nat (length at_) - 1) in
  if to_ <? from then Some at_
  else if from <? 0 then None
  else Some (foldl (fun l f => <[Z.to_nat f := Some v]> l) at_ (seqZ from (to_ - from + 1))).

Fixpoint label_frames {A T} (label : T -> A) (start end_ : T -> Z) (turns : list T) (at_ : list (option A))
    : option (list (option A)) :=
  match turns with
  | [] => Some at_
  | t :: turns' => at' ← set_frames (label t) (start t) (end_ t) at_; label_frames label start end_ turns' at'
  end.

Definition frame_pairs (truth : list (option string)) (found : list (option Z)) : list ((string * Z) * Z) :=
  omap (fun th => match th with (Some name, Some idx) => Some ((name, idx), 1) | _ => None end) (zip truth found).

Record Frames := mkFrames { fr_speech : Z; fr_correct : Z; fr_missed : Z }.

Definition tally_frame (names : gmap Z string) (n : Frames) (th : option string * option Z) : Frames :=
  match th with
  | (None, _) => n
  | (Some _, None) => mkFrames (fr_speech n + 1) (fr_correct n) (fr_missed n + 1)
  | (Some name, Some idx) =>
      mkFrames (fr_speech n + 1) (if bool_decide (names !! idx = Some name) then fr_correct n + 1 else fr_correct n) (fr_missed n)
  end.

(** [None]: it panics, as on a length that is negative as an [i64]. *)
Definition score_frames (order : Counts -> list ((string * Z) * Z)) (truth : list TruthTurn) (turns : list SpeakerTurn)
    : option (gmap Z string * Frames) :=
  let audio_ms := from_option tt_end_ms 0 (last truth) in
  let len := Z.quot audio_ms STEP_MS + 1 in
  let empty {A} : list (option A) := replicate (Z.to_nat len) None in
  _ ← guard (0 <= len);
  truth_frames ← label_frames tt_speaker tt_start_ms tt_end_ms truth empty;
  found_frames ← label_frames st_local_idx st_start_ms st_end_ms turns empty;
  let names := pair_up (order (count_pairs (frame_pairs truth_frames found_frames))) in
  Some (names, foldl (tally_frame names) (mkFrames 0 0 0) (zip truth_frames found_frames)).

Definition frame_failures `{EnvF64} (want_speakers : option Z) (found : Z) (n : Frames) : list Failure :=
  (match want_speakers with
   | Some want => if negb (found =? want) then [SpeakersDiffer found want] else []
   | None => []
   end) ++
  (match env_f64 "DIARIZE_MIN_CORRECT" with
   | Some floor => let correct := pct (fr_speech n) (fr_correct n) in
       if f64_below correct floor then [CorrectBelow correct floor] else []
   | None => []
   end).

(** [(0..found).filter(|i| !map.contains_key(i))] *)
Definition unmapped (names : gmap Z string) (found : Z) : list Z := bfilter (fun i => bool_decide (names !! i = None)) (seqZ 0 found).

(** ** [enroll_check] *)

(** How much of a person's speech each cluster accounts for. *)
Definition overlaps (turns : list SpeakerTurn) (truth : list TruthTurn) : list ((string * Z) * Z) :=
  flat_map (fun turn => omap (fun t =>
    let ms := Z.max 0 (Z.min (st_end_ms turn) (tt_end_ms t) - Z.max (st_start_ms turn) (tt_start_ms t)) in
    if 0 <? ms then Some ((tt_speaker t, st_local_idx turn), ms) else None) truth) turns.

Definition name_clusters (order : Counts -> list ((string * Z) * Z)) (turns : list SpeakerTurn) (truth : list TruthTurn)
    : gmap Z string := pair_up (order (count_pairs (overlaps turns truth))).

Record Verdict := mkVerdict { ve_right : Z; ve_wrong : Z; ve_missed : Z; ve_false : Z }.

(** One voice of the second meeting: the name it is given, and whether its
    owner was enrolled. *)
Definition judge (n : Verdict) (voice : string * option string * bool) : Verdict :=
  let '(truth_name, got, enrolled_here) := voice in
  match got, enrolled_here with
  | Some name, true =>
      if String.eqb name truth_name then mkVerdict (ve_right n + 1) (ve_wrong n) (ve_missed n) (ve_false n)
      else mkVerdict (ve_right n) (ve_wrong n + 1) (ve_missed n) (ve_false n)
  | Some _, false => mkVerdict (ve_right n) (ve_wrong n) (ve_missed n) (ve_false n + 1)
  | None, true => mkVerdict (ve_right n) (ve_wrong n) (ve_missed n + 1) (ve_false n)
  | None, false => n
  end.

Definition enrollment_failures (expect : option Z) (forbid_false : bool) (n : Verdict) : list Failure :=
  (match expect with Some want => if ve_right n <? want then [RecognisedBelow (ve_right n) want] else [] | None => [] end) ++
  (if forbid_false && ((0 <? ve_false n) || (0 <? ve_wrong n)) then [NamedWrongly (ve_false n) (ve_wrong n)] else []).

(** The voices [A] enrols: named, not withheld, and with an embedding; [names]
    in the order the map gives them, each with the identifier drawn. *)
Definition enrol_voices (names : list (Z * string)) (ids : list Uuid) (withheld : gset string) (embeddings : gmap Z (list f32))
    : list (Uuid * string * list f32) :=
  omap (fun '((idx, name), id) =>
    if bool_decide (name ∈ withheld) then None else (fun emb => (id, name, emb)) <$> embeddings !! idx) (zip names ids).

(** A voice of [SCRIBE_ENROLL_EXTRA]'s recordings, unless its owner is enrolled
    already or withheld. *)
Definition enrol_extra_voice (withheld : gset string) (embeddings : gmap Z (list f32))
    (enrolled : list (Uuid * string * list f32)) (v : (Z * string) * Uuid) : list (Uuid * string * list f32) :=
  let '((idx, name), id) := v in
  if existsb (fun e => String.eqb (snd (fst e)) name) enrolled || bool_decide (name ∈ withheld) then enrolled
  else match embeddings !! idx with
       | Some emb => enrolled ++ [(id, name, emb)]
       | None => enrolled
       end.

(** The roster: [A]'s voices, then the recordings'; each recording is its names
    in the order the map gives them, with the identifiers drawn, and its
    embeddings. *)
Definition enrol_roster (withheld : gset string) (a : list (Z * string) * list Uuid * gmap Z (list f32))
    (extra : list (list ((Z * string) * Uuid) * gmap Z (list f32))) : list (Uuid * string * list f32) :=
  let '(names, ids, embeddings) := a in
  let enrolled := foldl (fun enrolled r => foldl (enrol_extra_voice withheld (snd r)) enrolled (fst r))
                    (enrol_voices names ids withheld embeddings) extra in
  sort_by (fun a b => (fst (fst a) <=? fst (fst b))%N) enrolled.

(** The voices of the second meeting that are offered to the matcher, and all
    the voices judged, by cluster; [names_b] in the order the map gives them. *)
Definition offered_voices (absent : gset string) (names_b : list (Z * string)) (embeddings : gmap Z (list f32))
    : list (Z * list f32) :=
  omap (fun '(idx, name) => if bool_decide (name ∈ absent) then None else (fun e => (idx, e)) <$> embeddings !! idx) names_b.

Definition judged_voices (absent : gset string) (names_b : list (Z * string)) : list (Z * string) :=
  sort_by (fun a b => fst a <=? fst b) (bfilter (fun v => negb (bool_decide (snd v ∈ absent))) names_b).

(** The verdict on the second meeting's voices. *)
Definition judge_meeting `{EnvF32} (enrolled : list (Uuid * string * list f32)) (names_a : gmap Z string)
    (names_b : list (Z * string)) (embeddings_b : gmap Z (list f32)) (withheld absent : gset string) : Verdict :=
  let roster := map (fun e => (fst (fst e), snd e)) enrolled in
  let resolved := resolve_identities (offered_voices absent names_b embeddings_b) roster enroll_match_threshold in
  let who id := snd <$> find_first (fun e => bool_decide (fst e = id)) (map fst enrolled) in
  let here name := negb (bool_decide (name ∈ withheld)) && existsb (fun kv => String.eqb (snd kv) name) (map_to_list names_a) in
  foldl judge (mkVerdict 0 0 0 0)
    (map (fun v => (snd v, r ← resolved !! fst v; who (fst r), here (snd v))) (judged_voices absent names_b)).

(** ** [denoise] *)

(** [f32::clamp], and [as i16], which truncates and saturates. *)
Definition fclamp (lo hi x : f32) : f32 :=
  let x := if fltb x lo then lo else x in if fltb hi x then hi else x.

Definition as_i16 (x : f32) : Z :=
  match x with
  | S754_zero _ | S754_nan => 0
  | S754_infinity s => if s then -32768 else 32767
  | S754_finite s m e =>
      let v := if 0 <=? e then Zpos m * 2 ^ e else Zpos m / 2 ^ (- e) in
      Z.max (-32768) (Z.min 32767 (if s then - v else v))
  end.

Definition quantised (s : f32) : Z := as_i16 (fmul (fclamp (of_Z (-1)) (of_Z 1) s) (of_Z 32767)).

(** [write_wav]: the bytes of the file. *)
Definition write_wav (samples : list f32) (sample_rate : Z) : list N :=
  let data_len := wrap 32 (Z.of_nat (length samples * 2)) in
  tag "RIFF" ++ to_le_bytes 4 (36 + data_len) ++ tag "WAVEfmt " ++ to_le_bytes 4 16 ++
  to_le_bytes 2 1 ++ to_le_bytes 2 1 ++ to_le_bytes 4 sample_rate ++ to_le_bytes 4 (wrap 32 (sample_rate * 2)) ++
  to_le_bytes 2 2 ++ to_le_bytes 2 16 ++ tag "data" ++ to_le_bytes 4 data_len ++
  flat_map (fun s => to_le_bytes 2 (wrap 16 (quantised s))) samples.

(** [denoiser] is sherpa-onnx's; the rates are cast between [u32] and [i32]. *)
Definition denoise (denoiser : list f32 -> Z -> list f32 * Z) (bytes : list N) : result Error (list N) :=
  match parse_wav bytes with
  | Err e => Err e
  | Ok wav =>
      let '(out, rate) := denoiser (samples wav) (signed 32 (sample_rate wav)) in
      Ok (write_wav out (wrap 32 rate))
  end.

(** ** The distance is the least number of edits *)

(** [n] substitutions, insertions and deletions make [b] of [a]. *)
Inductive edits : list string -> list string -> nat -> Prop :=
| ed_nil : edits [] [] 0
| ed_keep x a b n : edits a b n -> edits (x :: a) (x :: b) n
| ed_replace x y a b n : edits a b n -> edits (x :: a) (y :: b) (S n)
| ed_insert y a b n : edits a b n -> edits a (y :: b) (S n)
| ed_delete x a b n : edits a b n -> edits (x :: a) b (S n).

Lemma edits_app a b n c d m : edits a b n -> edits c d m -> edits (a ++ c) (b ++ d) (n + m).
Proof. intros Hab Hcd. induction Hab; cbn; [done|by constructor..]. Qed.

Lemma edits_rev a b n : edits a b n -> edits (reverse a) (reverse b) n.
Proof.
  induction 1 as [|x a b n _ IH|x y a b n _ IH|y a b n _ IH|x a b n _ IH]; [constructor|..]; rewrite ?reverse_cons.
  - rewrite <- (Nat.add_0_r n). apply edits_app; [done|]. apply ed_keep, ed_nil.
  - rewrite <- Nat.add_1_r. apply edits_app; [done|]. apply ed_replace, ed_nil.
  - rewrite <- (app_nil_r (reverse a)), <- Nat.add_1_r. apply edits_app; [done|]. apply ed_insert, ed_nil.
  - rewrite <- (app_nil_r (reverse b)), <- Nat.add_1_r. apply edits_app; [done|]. apply ed_delete, ed_nil.
Qed.

(** The recursion the table follows, on reversed prefixes. *)
Fixpoint lev (a : list string) : list string -> nat :=
  fix lev_a (b : list string) : nat :=
    match a, b with
    | [], _ => length b
    | _, [] => length a
    | x :: a', y :: b' => ((lev a' b + 1) `min` (lev_a b' + 1) `min` (lev a' b' + (if String.eqb x y then 0 else 1)))%nat
    end.

Lemma lev_nil_r a : lev a [] = length a.
Proof. by destruct a. Qed.
Lemma lev_nil_l b : lev [] b = length b.
Proof. by destruct b. Qed.
Lemma lev_cons x a y b :
  lev (x :: a) (y :: b) = ((lev a (y :: b) + 1) `min` (lev (x :: a) b + 1) `min` (lev a b + (if String.eqb x y then 0 else 1)))%nat.
Proof. done. Qed.

Lemma lev_insert a y b : (lev a (y :: b) <= S (lev a b))%nat.
Proof. destruct a as [|x a]; [by destruct b|]. rewrite lev_cons. lia. Qed.
Lemma lev_delete x a b : (lev (x :: a) b <= S (lev a b))%nat.
Proof. destruct b as [|y b]; [rewrite !lev_nil_r; cbn; lia|]. rewrite lev_cons. lia. Qed.

Lemma lev_least a b n : edits a b n -> (lev a b <= n)%nat.
Proof.
  induction 1 as [|x a b n _ IH|x y a b n _ IH|y a b n _ IH|x a b n _ IH]; [done|..].
  - rewrite lev_cons, String.eqb_refl. lia.
  - rewrite lev_cons. destruct (String.eqb x y); lia.
  - pose proof (lev_insert a y b). lia.
  - pose proof (lev_delete x a b). lia.
Qed.

Lemma edits_to_nil a : edits a [] (length a).
Proof. induction a; cbn; by constructor. Qed.
Lemma edits_from_nil b : edits [] b (length b).
Proof. induction b; cbn; by constructor. Qed.

Lemma lev_edits a b : edits a b (lev a b).
Proof.
  revert b. induction a as [|x a IHa]; intros b; [rewrite lev_nil_l; apply edits_from_nil|].
  induction b as [|y b IHb]; [apply edits_to_nil|]. rewrite lev_cons.
  destruct (Nat.min_spec ((lev a (y :: b) + 1) `min` (lev (x :: a) b + 1)) (lev a b + (if String.eqb x y then 0 else 1))) as [[_ ->]|[_ ->]].
  - destruct (Nat.min_spec (lev a (y :: b) + 1) (lev (x :: a) b + 1)) as [[_ ->]|[_ ->]]; rewrite Nat.add_1_r.
    + apply ed_delete, IHa.
    + apply ed_insert, IHb.
  - destruct (String.eqb x y) eqn:E.
    + apply String.eqb_eq in E as ->. rewrite Nat.add_0_r. apply ed_keep, IHa.
    + rewrite Nat.add_1_r. apply ed_replace, IHa.
Qed.

(** A row of the table: the distances of the prefixes of [rb ++ b] from [rb] on. *)
Fixpoint row (ra rb b : list string) : list nat :=
  lev ra rb :: match b with [] => [] | y :: b' => row ra (y :: rb) b' end.

Lemma row_from_row x ra rb b : row_from (lev (x :: ra) rb) x b (row ra rb b) = tail (row (x :: ra) rb b).
Proof.
  revert rb. induction b as [|y b IH]; intros rb; [done|].
  assert (Hrow : exists t, row ra (y :: rb) b = lev ra (y :: rb) :: t) by (destruct b; cbn [row]; eauto).
  destruct Hrow as [t Ht]. specialize (IH (y :: rb)). cbn [row tail] in *. rewrite Ht in *. cbn [row_from].
  rewrite <- lev_cons, IH. by destruct b.
Qed.

Lemma row_start rb b : row [] rb b = seq (length rb) (S (length b)).
Proof. revert rb. induction b as [|y b IH]; intros rb; [cbn; by rewrite lev_nil_l|]. cbn [row length seq]. by rewrite IH, lev_nil_l. Qed.

Lemma rows_fold a ra b :
  foldl (next_row b) (length ra, row ra [] b) a = ((length a + length ra)%nat, row (reverse a ++ ra) [] b).
Proof.
  revert ra. induction a as [|x a IH]; intros ra; [done|]. cbn [foldl]. unfold next_row at 2. cbn [fst snd].
  assert (S (length ra) :: row_from (S (length ra)) x b (row ra [] b) = row (x :: ra) [] b) as ->.
  { change (S (length ra)) with (lev (x :: ra) []). rewrite row_from_row. by destruct b. }
  change (S (length ra)) with (length (x :: ra)). rewrite IH, reverse_cons, <- app_assoc. cbn. by rewrite Nat.add_succ_r.
Qed.

Lemma row_last ra rb b : last (row ra rb b) = Some (lev ra (reverse b ++ rb)).
Proof.
  revert rb. induction b as [|y b IH]; intros rb; [done|]. cbn [row]. rewrite last_cons, IH, reverse_cons, <- app_assoc. done.
Qed.

Lemma edit_distance_lev a b : edit_distance a b = lev (reverse a) (reverse b).
Proof.
  unfold edit_distance. pose proof (rows_fold a [] b) as Hf. rewrite (row_start [] b), app_nil_r in Hf. cbn [length] in Hf.
  rewrite Hf. cbn [snd]. by rewrite row_last, app_nil_r.
Qed.

(** C39: The table computes the word errors.  [edit_distance] is the least number of
    words that have to be substituted, inserted or deleted to make what was
    heard of what was spoken: that many edits do it and no fewer. *)
Theorem edit_distance_least (spoken heard : list string) :
  edits spoken heard (edit_distance spoken heard) /\
  forall n, edits spoken heard n -> (edit_distance spoken heard <= n)%nat.
Proof.
  rewrite edit_distance_lev. split; [|by intros n Hn%edits_rev; apply lev_least].
  rewrite <- (reverse_involutive spoken) at 1. rewrite <- (reverse_involutive heard) at 1. apply edits_rev, lev_edits.
Qed.

(** ** The pairing is one to one, and at least half as good as any *)

Section pairing.
Notation Pair := ((string * Z) * Z)%type.
Implicit Types (e : Pair) (l N : list Pair).

Definition pair_name e : string := fst (fst e).
Definition pair_idx e : Z := snd (fst e).
Definition total l : Z := zsum (map snd l).
#[local] Arguments total : simpl never.

Definition one_to_one N : Prop := NoDup (map pair_name N) /\ NoDup (map pair_idx N).

(** The pairs the names credit. *)
Definition credited (names : gmap Z string) l : list Pair :=
  bfilter (fun e => bool_decide (names !! pair_idx e = Some (pair_name e))) l.

(** No pair of [N] is spoken for. *)
Definition open_ (st : gmap Z string * gset string) N : Prop :=
  Forall (fun e => fst st !! pair_idx e = None /\ pair_name e ∉ snd st) N.

Lemma claim_pair_cases st e :
  (claim_pair st e = st /\ (is_Some (fst st !! pair_idx e) \/ pair_name e ∈ snd st)) \/
  (claim_pair st e = (<[pair_idx e := pair_name e]> (fst st), {[ pair_name e ]} ∪ snd st) /\
   fst st !! pair_idx e = None /\ pair_name e ∉ snd st).
Proof.
  destruct e as [[name idx] c]. unfold claim_pair, pair_idx, pair_name. cbn [fst snd].
  destruct (st.1 !! idx) eqn:E; [left; split; [by rewrite bool_decide_true|left; by eexists]|].
  rewrite (bool_decide_false (is_Some None)) by (by intros [? ?]). case_bool_decide; [left; by auto|by right].
Qed.

(** The state's names are the ones taken, each once. *)
Definition consistent (st : gmap Z string * gset string) : Prop :=
  (forall i n, fst st !! i = Some n -> n ∈ snd st) /\
  (forall i j n, fst st !! i = Some n -> fst st !! j = Some n -> i = j).

Lemma claim_consistent st e : consistent st -> consistent (claim_pair st e).
Proof.
  intros [Ht Hi]. destruct (claim_pair_cases st e) as [[-> _]|(-> & Hnone & Hnew)]; [done|]. split; cbn.
  - intros i n [[_ <-]|[_ Hn]]%lookup_insert_Some; [set_solver|]. apply Ht in Hn. set_solver.
  - intros i j n [[<- <-]|[_ Ha]]%lookup_insert_Some [[<- Hb]|[_ Hb]]%lookup_insert_Some; [done|..].
    + exfalso. by apply Hnew, (Ht j).
    + subst n. exfalso. by apply Hnew, (Ht i).
    + by apply (Hi i j n).
Qed.

Lemma claims_consistent st l : consistent st -> consistent (foldl claim_pair st l).
Proof. revert st. induction l as [|e l IH]; intros st Hc; [done|]. by apply IH, claim_consistent. Qed.

Lemma claims_keep st l i n : fst st !! i = Some n -> fst (foldl claim_pair st l) !! i = Some n.
Proof.
  revert st. induction l as [|e l IH]; intros st Hn; [done|]. cbn [foldl]. apply IH.
  destruct (claim_pair_cases st e) as [[-> _]|(-> & Hnone & _)]; [done|]. cbn. rewrite lookup_insert_ne; [done|congruence].
Qed.

Lemma total_app l1 l2 : total (l1 ++ l2) = total l1 + total l2.
Proof. unfold total. by rewrite map_app, zsum_app. Qed.
Lemma total_cons e l : total (e :: l) = snd e + total l.
Proof. done. Qed.
Lemma total_nonneg l : Forall (fun e => 0 <= snd e) l -> 0 <= total l.
Proof. induction 1 as [|e l He _ IH]; [done|]. rewrite total_cons. lia. Qed.
Lemma total_split (p : Pair -> bool) l : total l = total (bfilter p l) + total (bfilter (fun e => negb (p e)) l).
Proof. unfold bfilter. induction l as [|e l IH]; [done|]. cbn. destruct (p e); cbn; rewrite !total_cons; lia. Qed.

(** Of pairs with one key, all different, one is the whole. *)
Lemma total_one {K} (key : Pair -> K) k c l :
  NoDup (map key l) -> Forall (fun e => key e = k /\ snd e <= c) l -> 0 <= c -> total l <= c.
Proof.
  intros Hnd Hl Hc. destruct l as [|a [|b l]]; [done|..].
  - apply Forall_cons in Hl as [[_ Ha] _]. unfold total, zsum. cbn. lia.
  - exfalso. apply Forall_cons in Hl as [[Ha _] Hl]. apply Forall_cons in Hl as [[Hb _] _].
    cbn in Hnd. rewrite Ha, Hb in Hnd. apply NoDup_cons in Hnd as [Hn _]. apply Hn. by left.
Qed.

(** Taking the largest pair costs at most two of any other choice's. *)
Lemma conflicts_bounded e N : one_to_one N -> Forall (fun x => snd x <= snd e) N -> 0 <= snd e ->
  total N <= 2 * snd e + total (bfilter (fun x => negb (bool_decide (pair_name x = pair_name e)) && negb (bool_decide (pair_idx x = pair_idx e))) N).
Proof.
  intros [Hn Hi] Hle He. set (p := fun x => bool_decide (pair_name x = pair_name e)). set (q := fun x => bool_decide (pair_idx x = pair_idx e)).
  rewrite (total_split p N), (total_split q (bfilter (fun x => negb (p x)) N)).
  assert (total (bfilter p N) <= snd e).
  { apply (total_one pair_name (pair_name e)); [by apply NoDup_map_bfilter| |done]. apply Forall_forall.
    intros x [Hx Hp%bool_decide_eq_true_1]%elem_of_bfilter. split; [done|]. rewrite Forall_forall in Hle. by apply Hle. }
  assert (total (bfilter q (bfilter (fun x => negb (p x)) N)) <= snd e).
  { apply (total_one pair_idx (pair_idx e)); [by apply NoDup_map_bfilter, NoDup_map_bfilter| |done]. apply Forall_forall.
    intros x [[Hx _]%elem_of_bfilter Hq%bool_decide_eq_true_1]%elem_of_bfilter. split; [done|]. rewrite Forall_forall in Hle. by apply Hle. }
  assert (bfilter (fun x => negb (q x)) (bfilter (fun x => negb (p x)) N) = bfilter (fun x => negb (p x) && negb (q x)) N) as ->.
  { unfold bfilter. clear. induction N as [|x N IH]; [done|]. cbn. destruct (p x); cbn; [exact IH|]. destruct (q x); cbn; by rewrite IH. }
  unfold p, q in *. lia.
Qed.

Lemma one_to_one_bfilter p N : one_to_one N -> one_to_one (bfilter p N).
Proof. intros [? ?]. split; by apply NoDup_map_bfilter. Qed.

Lemma greedy_half l st N :
  StronglySorted (fun a b => snd b <= snd a) l -> Forall (fun e => 0 <= snd e) l ->
  (forall x, x ∈ N -> x ∈ l) -> one_to_one N -> open_ st N ->
  total N <= 2 * total (credited (fst (foldl claim_pair st l)) l).
Proof.
  revert st N. induction l as [|e l IH]; intros st N Hsort Hpos Hsub Hone Hopen.
  { destruct N as [|x N]; [done|]. exfalso. assert (Hx : x ∈ []) by (apply Hsub; by left). inversion Hx. }
  apply StronglySorted_inv in Hsort as [Hsort Hhead]. apply Forall_cons in Hpos as [He Hpos]. cbn [foldl].
  set (names := fst (foldl claim_pair (claim_pair st e) l)).
  assert (Hcred : credited names (e :: l) = if bool_decide (names !! pair_idx e = Some (pair_name e)) then e :: credited names l else credited names l) by done.
  assert (Hnn : 0 <= total (credited names l)).
  { apply total_nonneg, Forall_forall. intros x [Hx _]%elem_of_bfilter. rewrite Forall_forall in Hpos. by apply Hpos. }
  destruct (claim_pair_cases st e) as [[Hst Htaken]|(Hst & Hnone & Hnew)].
  - assert (HN : forall x, x ∈ N -> x ∈ l).
    { intros x Hx. apply Hsub in Hx as Hin. apply elem_of_cons in Hin as [->|?]; [exfalso|done].
      unfold open_ in Hopen. rewrite Forall_forall in Hopen. destruct (Hopen e Hx) as [Hn Ht]. destruct Htaken as [[? Hs]|?]; [congruence|done]. }
    specialize (IH st N Hsort Hpos HN Hone Hopen). unfold names in *. rewrite Hst in *. rewrite Hcred.
    case_bool_decide; rewrite ?total_cons; lia.
  - pose proof (conflicts_bounded e N Hone) as Hle. set (N' := bfilter _ N) in Hle.
    assert (HN' : forall x, x ∈ N' -> x ∈ N /\ pair_name x <> pair_name e /\ pair_idx x <> pair_idx e).
    { intros x [Hx Hp]%elem_of_bfilter. apply andb_prop in Hp as [Hp%negb_true_iff%bool_decide_eq_false_1 Hq%negb_true_iff%bool_decide_eq_false_1]. done. }
    assert (names !! pair_idx e = Some (pair_name e)) as Hgot.
    { unfold names. apply claims_keep. rewrite Hst. cbn. by rewrite lookup_insert_eq. }
    rewrite Hcred, bool_decide_true, total_cons by done.
    assert (total N' <= 2 * total (credited names l)).
    { apply IH; [done|done| |by apply one_to_one_bfilter|].
      - intros x (Hx & Hn & _)%HN'. apply Hsub in Hx. apply elem_of_cons in Hx as [->|?]; done.
      - apply Forall_forall. intros x (Hx & Hn & Hi)%HN'. unfold open_ in Hopen. rewrite Forall_forall in Hopen.
        destruct (Hopen x Hx) as [Ho Ht]. rewrite Hst. cbn. rewrite lookup_insert_ne by congruence. split; [done|set_solver]. }
    assert (Forall (fun x => snd x <= snd e) N).
    { apply Forall_forall. intros x Hx%Hsub. apply elem_of_cons in Hx as [->|Hx]; [lia|]. rewrite Forall_forall in Hhead. by apply Hhead. }
    specialize (Hle ltac:(done) He). lia.
Qed.

(** Only counted pairs are made. *)
Lemma claims_from st l i n : fst (foldl claim_pair st l) !! i = Some n ->
  fst st !! i = Some n \/ exists e, e ∈ l /\ pair_idx e = i /\ pair_name e = n.
Proof.
  revert st. induction l as [|e l IH]; intros st; [by left|]. cbn [foldl]. intros [Hc|(x & Hx & Hi)]%IH; [|right; exists x; split; [by right|done]].
  destruct (claim_pair_cases st e) as [[Heq _]|(Heq & _)]; rewrite Heq in Hc; [by left|]. cbn in Hc.
  apply lookup_insert_Some in Hc as [[Hi Hn]|[_ ?]]; [|by left]. right. exists e. split; [by left|done].
Qed.

Lemma credited_cons names e l :
  total (credited names (e :: l)) = (if bool_decide (names !! pair_idx e = Some (pair_name e)) then snd e else 0) + total (credited names l).
Proof. unfold credited, bfilter. cbn. destruct (bool_decide _); [by rewrite total_cons|done]. Qed.

Lemma credited_perm names l l' : l ≡ₚ l' -> total (credited names l) = total (credited names l').
Proof. induction 1; rewrite ?credited_cons; lia. Qed.

(** Who is who is decided one to one, and at least half as well as it could be.
    Whatever the order the counts come in, no person is given two clusters, only
    counted pairs are made, and the words (frames, milliseconds) credited are at
    least half of what any one-to-one pairing of the counts would credit. *)
Theorem pairing_spec (pairs N : list Pair) :
  Forall (fun e => 0 <= snd e) pairs -> one_to_one N -> (forall x, x ∈ N -> x ∈ pairs) ->
  (forall i j n, pair_up pairs !! i = Some n -> pair_up pairs !! j = Some n -> i = j) /\
  (forall i n, pair_up pairs !! i = Some n -> exists c, ((n, i), c) ∈ pairs) /\
  total N <= 2 * total (credited (pair_up pairs) pairs).
Proof.
  intros Hpos Hone Hsub. unfold pair_up. split.
  - apply (claims_consistent (∅, ∅)). split; [intros i n Hx|intros i j n Hx]; cbn in Hx; by rewrite lookup_empty in Hx.
  - split.
    { intros i n [Hx|([[name idx] c] & Hx & <- & <-)]%claims_from; [cbn in Hx; by rewrite lookup_empty in Hx|].
      exists c. by apply sort_by_elem in Hx. }
    rewrite <- (credited_perm _ _ _ (sort_by_perm most_first pairs)). apply greedy_half; [| | |done|].
    + assert (Hs : StronglySorted (fun a b => most_first a b = true) (sort_by most_first pairs)).
      { apply sort_by_sorted; unfold most_first; intros; lia. }
      induction Hs as [|a l Hl IH Ha]; constructor; [done|]. eapply Forall_impl; [exact Ha|]. unfold most_first. intros x Hx. lia.
    + by rewrite sort_by_perm.
    + intros x Hx. apply sort_by_elem. by apply Hsub.
    + apply Forall_forall. intros x _. cbn. split; [apply lookup_empty|set_solver].
Qed.
End pairing.

(** Not the best pairing: crediting the most first loses nearly half here. *)
Example most_first_is_not_best :
  let counts := [(("A", 0), 10); (("A", 1), 9); (("B", 0), 9)] in
  total (credited (pair_up counts) counts) = 10 /\ one_to_one [(("A", 1), 9); (("B", 0), 9)] /\
  total [(("A", 1), 9); (("B", 0), 9)] = 18.
Proof. split; [vm_compute; reflexivity|]. split; [split; vm_compute; repeat constructor; set_solver|reflexivity]. Qed.

(** Nor one pairing: of equal counts the one the map gives first wins, and the
    score with it. *)
Example ties_go_by_order :
  let counts := [(("A", 0), 5); (("A", 1), 5); (("B", 0), 5)] in
  let reordered := [(("A", 1), 5); (("A", 0), 5); (("B", 0), 5)] in
  total (credited (pair_up counts) counts) = 5 /\ total (credited (pair_up reordered) counts) = 10.
Proof. split; vm_compute; reflexivity. Qed.

Lemma pairing_spec_witness : 18 <= 2 * total (credited (pair_up [(("A", 0), 10); (("A", 1), 9); (("B", 0), 9)]) [(("A", 0), 10); (("A", 1), 9); (("B", 0), 9)]).
Proof.
  apply (pairing_spec [(("A", 0), 10); (("A", 1), 9); (("B", 0), 9)] [(("A", 1), 9); (("B", 0), 9)]).
  - repeat constructor; cbn; lia.
  - split; vm_compute; repeat constructor; set_solver.
  - intros x [->| ->%list_elem_of_singleton]%elem_of_cons; set_solver.
Defined.

(** ** The tally adds up *)

Section tally.
Context (truth : list TruthTurn) (names : gmap Z string).

Definition who (w : Word) : list string := truth_at truth (midpoint w).
Definition spoken_in (w : Word) : bool := negb (bool_decide (who w = [])).
Definition overlapped (w : Word) : bool := bool_decide (1 < length (who w))%nat.
Definition hit (w : Word) : bool :=
  match w_local_idx w with
  | Some idx => match names !! idx with Some name => bool_decide (name ∈ who w) | None => false end
  | None => false
  end.
Definition number (p : Word -> bool) (words : list Word) : Z := Z.of_nat (length (bfilter p words)).

Lemma number_cons p w words : number p (w :: words) = (if p w then 1 else 0) + number p words.
Proof. unfold number, bfilter. cbn. destruct (p w); cbn [length]; lia. Qed.

Lemma tally_from n words : foldl (tally_word truth names) n words =
  mkTally (ta_scored n + number spoken_in words) (ta_correct n + number hit words)
    (ta_unlabelled n + number (fun w => spoken_in w && bool_decide (w_local_idx w = None)) words)
    (ta_contested n + number overlapped words) (ta_contested_ok n + number (fun w => hit w && overlapped w) words).
Proof.
  revert n. induction words as [|w words IH]; intros n; [destruct n; unfold number; cbn -[Z.add]; f_equal; lia|]. cbn [foldl]. rewrite IH, !number_cons.
  unfold tally_word, spoken_in, overlapped, hit, who. destruct (truth_at truth (midpoint w)) as [|a l] eqn:E.
  - rewrite !bool_decide_true by done. rewrite !(bool_decide_false (1 < length [])%nat) by (cbn; lia). cbn [negb andb].
    destruct (w_local_idx w) as [idx|]; [|cbn [andb]; f_equal; lia].
    destruct (names !! idx) as [name|]; [|cbn [andb]; f_equal; lia]. rewrite bool_decide_false by (intros Hx; inversion Hx). cbn [andb]. f_equal; lia.
  - rewrite !(bool_decide_false (a :: l = [])) by done. cbn [negb andb].
    destruct (w_local_idx w) as [idx|]; cbn [ta_scored ta_correct ta_unlabelled ta_contested ta_contested_ok].
    + rewrite (bool_decide_false (Some idx = None)) by done. destruct (bool_decide (1 < length (a :: l))%nat), (names !! idx) as [name|];
        try destruct (bool_decide (name ∈ a :: l)); cbn [andb]; f_equal; lia.
    + rewrite (bool_decide_true (@None Z = None)) by done. destruct (bool_decide _); cbn [andb]; f_equal; lia.
Qed.

Lemma number_le p q words : (forall w, p w = true -> q w = true) -> number p words <= number q words.
Proof. intros Hpq. induction words as [|w words IH]; [done|]. rewrite !number_cons. generalize (Hpq w). destruct (p w), (q w); naive_solver lia. Qed.

Lemma number_split p q words : number p words = number (fun w => p w && q w) words + number (fun w => p w && negb (q w)) words.
Proof. induction words as [|w words IH]; [done|]. rewrite !number_cons. destruct (p w), (q w); cbn; lia. Qed.

(** The score counts what it says.  Scored are the words somebody spoke at, the
    rest of them adrift; right are those whose cluster's person spoke then, and
    wrong, right and unlabelled make up the scored; in the clear are those only
    one spoke at.  So the unsigned subtractions never wrap. *)
Theorem tally_spec (words : list Word) :
  let n := tally truth names words in
  ta_scored n = number spoken_in words /\ adrift words n = number (fun w => negb (spoken_in w)) words /\
  ta_correct n = number hit words /\
  wrong n = number (fun w => spoken_in w && negb (hit w) && bool_decide (is_Some (w_local_idx w))) words /\
  clear n = number (fun w => spoken_in w && negb (overlapped w)) words /\
  clear_ok n = number (fun w => hit w && negb (overlapped w)) words /\
  0 <= wrong n /\ 0 <= clear_ok n <= clear n.
Proof.
  cbn zeta. unfold tally, adrift, wrong, clear, clear_ok. rewrite tally_from. cbn [ta_scored ta_correct ta_unlabelled ta_contested ta_contested_ok].
  assert (Hhs : forall w, hit w = true -> spoken_in w = true).
  { intros w. unfold hit, spoken_in. destruct (w_local_idx w); [|done]. destruct (names !! _); [|done]. intros Hx%bool_decide_eq_true_1.
    apply negb_true_iff, bool_decide_eq_false_2. intros E. rewrite E in Hx. inversion Hx. }
  assert (Hos : forall w, overlapped w = true -> spoken_in w = true).
  { intros w Hx%bool_decide_eq_true_1. apply negb_true_iff, bool_decide_eq_false_2. intros E. rewrite E in Hx. cbn in Hx. lia. }
  assert (Hlen : Z.of_nat (length words) = number (fun _ => true) words) by (induction words as [|w ws IH]; [done|]; rewrite number_cons, <- IH; cbn [length]; lia).
  assert (Hsame : forall p q, (forall w, p w = q w) -> number p words = number q words) by (intros p q Hpq; apply Z.le_antisymm; apply number_le; intros w; by rewrite Hpq).
  pose proof (number_split (fun _ => true) spoken_in words) as H1. pose proof (number_split spoken_in hit words) as H2.
  pose proof (number_split (fun w => spoken_in w && negb (hit w)) (fun w => bool_decide (is_Some (w_local_idx w))) words) as H3.
  pose proof (number_split spoken_in overlapped words) as H4. pose proof (number_split hit overlapped words) as H5.
  assert (number (fun w => spoken_in w && hit w) words = number hit words) as E1.
  { apply Hsame. intros w. generalize (Hhs w). destruct (hit w); [intros ->; done|by rewrite andb_false_r]. }
  assert (number (fun w => spoken_in w && overlapped w) words = number overlapped words) as E2.
  { apply Hsame. intros w. generalize (Hos w). destruct (overlapped w); [intros ->; done|by rewrite andb_false_r]. }
  assert (number (fun w => spoken_in w && negb (hit w) && negb (bool_decide (is_Some (w_local_idx w)))) words =
          number (fun w => spoken_in w && bool_decide (w_local_idx w = None)) words) as E3.
  { apply Hsame. intros w. unfold hit. destruct (w_local_idx w) as [idx|].
    - rewrite (bool_decide_true (is_Some (Some idx))) by (by eexists). rewrite (bool_decide_false (Some idx = None)) by done. by rewrite !andb_false_r.
    - rewrite (bool_decide_false (is_Some (@None Z))) by (by intros [? ?]). rewrite (bool_decide_true (@None Z = None)) by done. by rewrite !andb_true_r. }
  assert (number (fun w => true && spoken_in w) words = number spoken_in words) as E4 by (by apply Hsame).
  assert (number (fun w => true && negb (spoken_in w)) words = number (fun w => negb (spoken_in w)) words) as E5 by (by apply Hsame).
  assert (number (fun w => hit w && negb (overlapped w)) words <= number (fun w => spoken_in w && negb (overlapped w)) words).
  { apply number_le. intros w [Hh ->]%andb_prop. by rewrite (Hhs w Hh). }
  assert (forall p, 0 <= number p words) as Hnn by (intros p; unfold number; lia).
  pose proof (Hnn (fun w => negb (spoken_in w))). pose proof (Hnn (fun w => hit w && negb (overlapped w))).
  pose proof (Hnn (fun w => spoken_in w && negb (hit w) && bool_decide (is_Some (w_local_idx w)))). cbn beta in *. rewrite Hlen. repeat split; lia.
Qed.
End tally.

(** ** One voiceprint to a person *)

Section roster.
Context (withheld : gset string).

Notation owner := (fun e : Uuid * string * list f32 => snd (fst e)).

Lemma enrol_voices_owners names ids embeddings :
  map owner (enrol_voices names ids withheld embeddings) `sublist_of` map snd names.
Proof.
  revert ids. induction names as [|[idx name] names IH]; intros [|id ids]; try apply sublist_nil_l.
  change (enrol_voices ((idx, name) :: names) (id :: ids) withheld embeddings) with
    (match (if bool_decide (name ∈ withheld) then None else (fun emb => (id, name, emb)) <$> embeddings !! idx) with
     | Some x => x :: enrol_voices names ids withheld embeddings
     | None => enrol_voices names ids withheld embeddings
     end).
  specialize (IH ids). cbn [map]. destruct (bool_decide _); [by constructor|]. destruct (embeddings !! idx); cbn [fmap option_fmap option_map map]; by constructor.
Qed.

Lemma enrol_voices_kept names ids embeddings e :
  e ∈ enrol_voices names ids withheld embeddings -> owner e ∉ withheld.
Proof.
  unfold enrol_voices. intros ([[idx name] id] & _ & Hx)%list_elem_of_omap. cbn in Hx. case_bool_decide; [done|].
  destruct (embeddings !! idx); [|done]. by injection Hx as <-.
Qed.

Definition one_each (enrolled : list (Uuid * string * list f32)) : Prop :=
  NoDup (map owner enrolled) /\ Forall (fun e => owner e ∉ withheld) enrolled.

Lemma enrol_extra_one_each embeddings enrolled v :
  one_each enrolled -> one_each (enrol_extra_voice withheld embeddings enrolled v).
Proof.
  intros [Hnd Hw]. destruct v as [[idx name] id]. cbn. destruct (existsb _ enrolled) eqn:E; [done|]. cbn.
  case_bool_decide as Hn; [done|]. destruct (embeddings !! idx) as [emb|]; [|done]. split.
  - rewrite map_app. apply NoDup_app. split; [done|]. split; [|apply NoDup_singleton].
    intros x Hx ->%list_elem_of_singleton. cbn in *. apply list_elem_of_fmap in Hx as (e & He & Hx).
    assert (existsb (fun e => String.eqb (snd (fst e)) name) enrolled = true); [|congruence].
    apply existsb_exists. exists e. rewrite <- list_elem_of_In. split; [done|]. apply String.eqb_eq; done.
  - apply Forall_app. split; [done|]. by apply Forall_singleton.
Qed.

(** Whatever recordings fill the roster, a person has one voiceprint in it and
    nobody withheld has one: [A]'s names are one to one with its clusters, as
    [pairing_spec] has it, and a filler recording never enrols anybody again. *)
Theorem roster_once names ids embeddings extra :
  NoDup (map snd names) -> one_each (enrol_roster withheld (names, ids, embeddings) extra).
Proof.
  intros Hnd. unfold enrol_roster.
  assert (Hsort : forall l, one_each l -> one_each (sort_by (fun a b => (fst (fst a) <=? fst (fst b))%N) l)).
  { intros l [H1 H2]. pose proof (sort_by_perm (fun a b : Uuid * string * list f32 => (fst (fst a) <=? fst (fst b))%N) l) as Hp.
    split; [|by rewrite Hp]. by rewrite Hp. }
  apply Hsort. clear Hsort.
  assert (Hbase : one_each (enrol_voices names ids withheld embeddings)).
  { split; [eapply sublist_NoDup; [exact Hnd|]; apply enrol_voices_owners|]. apply Forall_forall. apply enrol_voices_kept. }
  revert Hbase. generalize (enrol_voices names ids withheld embeddings). clear.
  induction extra as [|[vs embs] extra IH]; intros l Hl; [done|]. cbn [foldl fst snd]. apply IH.
  clear IH. revert l Hl. induction vs as [|v vs IH]; intros l Hl; [done|]. cbn [foldl]. by apply IH, enrol_extra_one_each.
Qed.
End roster.

(** ** What the denoiser writes is read back *)

Lemma as_i16_range x : in_i 16 (as_i16 x).
Proof. unfold in_i. destruct x as [s|s| |s m e]; cbn; [lia|destruct s; lia|lia|]. destruct (0 <=? e), s; lia. Qed.

Lemma write_wav_pcm16 samples rate : write_wav samples rate = write_pcm16_mono rate (map quantised samples).
Proof.
  unfold write_wav, write_pcm16_mono, pcm16_bytes. rewrite length_map.
  assert (flat_map (fun s => to_le_bytes 2 (wrap 16 (quantised s))) samples =
          flat_map (fun s => to_le_bytes 2 (wrap 16 s)) (map quantised samples)) as ->.
  { induction samples as [|x l IH]; cbn [map flat_map]; by rewrite ?IH. }
  change (tag "WAVEfmt ") with (tag "WAVE" ++ tag "fmt "). by rewrite <- !app_assoc.
Qed.

(** Whatever the denoiser answers, the file written is a WAV of its rate and of
    its samples, clamped and rounded to 16 bits, and [read_wav] reads that. *)
Theorem denoised_read_back denoiser bytes wav out rate :
  parse_wav bytes = Ok wav -> denoiser (samples wav) (signed 32 (sample_rate wav)) = (out, rate) ->
  0 <= rate < 2 ^ 31 -> 36 + 2 * Z.of_nat (length out) < 2 ^ 32 ->
  exists file, denoise denoiser bytes = Ok file /\
    parse_wav file = Ok (mkWav rate 1 (map (fun s => scaled (quantised s) 32768) out)).
Proof.
  intros Hread Hrun Hrate Hlen. exists (write_wav out rate). unfold denoise. rewrite Hread, Hrun, wrap_small by (unfold in_u; lia).
  split; [done|]. rewrite write_wav_pcm16.
  destruct (parse_wav_pcm16 rate (map quantised out)) as (_ & Hw & _); [lia| |by rewrite length_map|].
  - apply Forall_map, Forall_forall. intros x _. apply as_i16_range.
  - rewrite Hw. by rewrite map_map.
Qed.

(** Full scale and beyond, and not a number. *)
Example quantised_ends : map quantised [of_Z 1; of_Z (-1); of_Z 7; S754_infinity true; S754_nan; fdiv (of_Z 1) (of_Z 2)] =
  [32767; -32767; 32767; -32767; 0; 16383].
Proof. vm_compute. reflexivity. Qed.
