(* ===== verification/Stages.v ===== *)
(** * The audio stages: transcode, diarize, transcribe and live transcription

    [stages/transcode.rs], [diarize.rs], [transcribe.rs] and
    [transcribe_segment.rs] act on a world of a database and files.  The
    operating system's file calls and [ffmpeg] are parameters; engines are
    instances of [SpeechEngine].  Blocking threads are just calls. *)

From Stdlib Require Import Ascii String.
From S2P Require Import Prelude RustStr Types Llm F32 Db DbSchema Store Merge Summarize Identity Wav Speech.

#[local] Arguments String.append !_ _ /.

Notation Files := (gmap string (list N)) (only parsing).

Record World := mkWorld { w_db : Db; w_files : Files }.
Notation WorldM := (M World Error).

Definition lift {A} (m : DbM A) : WorldM A := fun w =>
  let '(r, s) := m (w_db w) in (r, mkWorld s (w_files w)).

Definition of_result {A} (r : result Error A) : WorldM A :=
  match r with Ok a => mret a | Err e => fail_with e end.

Definition path_exists (p : string) : WorldM bool := fun w => (Ok (bool_decide (is_Some (w_files w !! p))), w).
Definition read_file (p : string) : WorldM (option (list N)) := fun w => (Ok (w_files w !! p), w).

Record Output := mkOutput { exit_code : Z; stderr : string }.

Class System := {
  sys_create_dir_all : Files -> string -> result Error unit;
  sys_write : Files -> string -> list N -> result Error Files;
  sys_remove_file : Files -> string -> Files;
  (** Spawning it may fail; otherwise it exits, having written what it did. *)
  sys_ffmpeg : Files -> list string -> result string Output * Files;
  (** [Display] of an [ExitStatus]. *)
  sys_exit_status : Z -> string;
}.

(** ** Transcoding *)

(** [Path::parent]: everything before the last component. *)
Definition path_parent (p : string) : string :=
  let dir := str_concat (drop_while_end (fun c => negb (String.eqb c "/")) (chars p)) in
  let trimmed := trim_end_matches (String.eqb "/") dir in
  if is_empty trimmed then (if is_empty dir then "" else "/") else trimmed.

(** [s.replace('\'', "'\\''")] *)
Definition quote : ascii := ascii_of_N 39.
Fixpoint escape_quotes (s : string) : string :=
  match s with
  | EmptyString => ""
  | String a s' =>
      if Ascii.eqb a quote
      then String quote (String backslash (String quote (String quote (escape_quotes s'))))
      else String a (escape_quotes s')
  end.

Definition concat_line (p : string) : string :=
  "file " +:+ String quote (escape_quotes p +:+ String quote newline).

Definition ffmpeg_args (list_path out : string) : list string :=
  ["-y"; "-hide_banner"; "-loglevel"; "error"; "-f"; "concat"; "-safe"; "0"; "-i"; list_path;
   "-ac"; "1"; "-ar"; "16000"; "-c:a"; "pcm_s16le"; out].

Section transcode.
Context `{System} `{UuidFmt}.

Definition create_dir_all (p : string) : WorldM unit := fun w => (sys_create_dir_all (w_files w) p, w).
Definition write (p : string) (content : list N) : WorldM unit := fun w =>
  match sys_write (w_files w) p content with
  | Ok fs => (Ok tt, mkWorld (w_db w) fs)
  | Err e => (Err e, w)
  end.
Definition remove_file (p : string) : WorldM unit := fun w =>
  (Ok tt, mkWorld (w_db w) (sys_remove_file (w_files w) p)).
Definition run_ffmpeg (args : list string) : WorldM (result string Output) := fun w =>
  let '(r, fs) := sys_ffmpeg (w_files w) args in (Ok r, mkWorld (w_db w) fs).

Definition transcode_to_wav (inputs : list string) (out : string) : WorldM unit :=
  _ ← create_dir_all (path_parent out);
  let list_path := storage.path_join (path_parent out) "concat.txt" in
  _ ← write list_path (tag (str_concat (map concat_line inputs)));
  spawned ← run_ffmpeg (ffmpeg_args list_path out);
  match spawned with
  | Err e => fail_with (stage_err "transcode" ("failed to spawn ffmpeg: " +:+ e))
  | Ok output =>
      _ ← remove_file list_path;
      if negb (exit_code output =? 0) then
        fail_with (stage_err "transcode" ("ffmpeg exited with " +:+ sys_exit_status (exit_code output) +:+ ": " +:+
          trim (stderr output)))
      else
        there ← path_exists out;
        if (there : bool) then mret tt else fail_with (stage_err "transcode" "ffmpeg produced no output WAV")
  end.

(** [for p in &inputs { if !p.exists() { return Err(..) } }] *)
Fixpoint require_files (paths : list string) : WorldM unit :=
  match paths with
  | [] => mret tt
  | p :: paths' =>
      there ← path_exists p;
      if (there : bool) then require_files paths'
      else fail_with (stage_err "transcode" ("segment file missing: " +:+ p))
  end.

Definition transcode_run (blobs : string) (recording_id : Uuid) : WorldM unit :=
  let wav := storage.wav_path blobs recording_id in
  segments ← lift (list_segments_by_recording recording_id);
  _ ← (if bool_decide (length segments = 0%nat) then
         there ← path_exists wav;
         if (there : bool) then mret tt
         else fail_with (stage_err "transcode"
           ("recording " +:+ uuid_to_string recording_id +:+ " has no segments and no audio.wav"))
       else
         let inputs := map (fun x => storage.resolve_key blobs (seg_storage_key x)) segments in
         _ ← require_files inputs;
         transcode_to_wav inputs wav);
  _ ← lift (set_recording_storage_key recording_id (storage.storage_key recording_id));
  file ← read_file wav;
  decoded ← of_result (read_wav file);
  lift (set_recording_duration recording_id (duration_ms decoded)).
End transcode.

(** ** Transcribing *)

Definition core_word (offset : Z) (w : AsrWord) : Word :=
  mkWord (aw_text w) (aw_start_ms w + offset) (aw_end_ms w + offset) (aw_conf w) None.

(** [.map_err(|e| stage_err(STAGE, e))]: the error is kept as its text. *)
Definition in_stage {A} (stage : string) (r : result Error A) : result Error A :=
  match r with Ok a => Ok a | Err e => Err (stage_err stage (Error.to_string e)) end.

Section engines.
Context `{SpeechEngine} `{UuidFmt} `{SerdeJson TranscriptArtifact} `{SerdeJson DiarizationArtifact} `{EnvF32}.

Definition require_wav (stage wav : string) : WorldM unit :=
  there ← path_exists wav;
  if (there : bool) then mret tt else fail_with (stage_err stage ("transcoded WAV missing: " +:+ wav)).

Definition transcribe_run (blobs : string) (recording_id : Uuid) : WorldM unit :=
  let wav := storage.wav_path blobs recording_id in
  _ ← require_wav "transcribe" wav;
  file ← read_file wav;
  transcript ← of_result (in_stage "transcribe" (transcribe file));
  let artifact := mkTranscriptArtifact (tr_text transcript) (map (core_word 0) (tr_words transcript)) in
  lift (artifacts.put_transcript recording_id artifact).

(** ** Diarizing *)

(** The [BTreeSet] of the indices the turns mention, ascending. *)
Definition speakers_of (turns : list SpeakerTurn) : list Z :=
  sort_by Z.leb (dedup_first [] (map st_local_idx turns)).

Definition voices_of (d : Diarization) : list (Z * list f32) :=
  omap (fun idx => pair idx <$> dz_embeddings d !! idx) (speakers_of (dz_turns d)).

Definition turn_artifact (t : SpeakerTurn) : TurnArtifact :=
  mkTurn (st_local_idx t) (st_start_ms t) (st_end_ms t).

Definition store_speakers (recording_id : Uuid) (d : Diarization) : DbM unit :=
  stored ← list_enrolled_voiceprints;
  let identities := resolve_identities (voices_of d) (map (fun e => (spk_id (fst e), snd e)) stored)
    enroll_match_threshold in
  let speakers := speakers_of (dz_turns d) in
  _ ← mfor speakers (fun local_idx =>
        upsert_recording_speaker recording_id local_idx (fst <$> identities !! local_idx) (dz_embeddings d !! local_idx));
  _ ← prune_recording_speakers recording_id speakers;
  artifacts.put_diarization recording_id
    (mkDiarization (map turn_artifact (dz_turns d)) (dz_num_speakers d)).

Definition diarize_run (blobs : string) (recording_id : Uuid) : WorldM unit :=
  let wav := storage.wav_path blobs recording_id in
  _ ← require_wav "diarize" wav;
  recording ← lift (get_recording recording_id);
  file ← read_file wav;
  diarization ← of_result (in_stage "diarize" (diarize file (rec_participants_expected recording)));
  lift (store_speakers recording_id diarization).
End engines.

(** ** Live transcription *)

Section live.
Context `{System} `{SpeechEngine} `{UuidFmt} `{CharAlnum} `{LanguageModel}.

Record LiveConfig := mkLiveConfig {
  lc_blobs : string; lc_remove_fillers : bool; lc_filler_words : list string; lc_llm : LlmConfig;
}.

Definition live_words (cfg : LiveConfig) (offset : Z) (t : Transcript) : list Word :=
  fst (clean (from_config (lc_remove_fillers cfg) (lc_filler_words cfg))
    (map (core_word offset) (tr_words t))).

(** One turn of the loop; it returns the next offset. *)
Definition live_segment (cfg : LiveConfig) (recording_id : Uuid) (offset : Z) (seg : Segment) : WorldM Z :=
  let seg_path := storage.resolve_key (lc_blobs cfg) (seg_storage_key seg) in
  there ← path_exists seg_path;
  if negb there then mret offset
  else
    let wav := storage.path_join (storage.recording_dir (lc_blobs cfg) recording_id)
      ("seg-" +:+ pad06 (seg_seq seg) +:+ ".wav") in
    _ ← transcode_to_wav [seg_path] wav;
    file ← read_file wav;
    decoded ← of_result (in_stage "transcribe_segment" (read_wav file));
    transcript ← of_result (in_stage "transcribe_segment" (transcribe file));
    _ ← remove_file wav;
    let us := group_into_utterances (live_words cfg offset transcript) in
    _ ← lift (insert_utterances recording_id (map new_utterance us));
    _ ← lift (mark_segment_transcribed (seg_id seg) offset (duration_ms decoded));
    mret (offset + duration_ms decoded).

Fixpoint live_segments (cfg : LiveConfig) (recording_id : Uuid) (offset : Z) (segs : list Segment) : WorldM Z :=
  match segs with
  | [] => mret offset
  | seg :: segs' => live_segment cfg recording_id offset seg ≫= fun next => live_segments cfg recording_id next segs'
  end.

(** [None] is the panic of [title::regenerate]. *)
Definition transcribe_segment_run (cfg : LiveConfig) (recording_id : Uuid) : WorldM (option unit) :=
  recording ← lift (get_recording recording_id);
  if negb (bool_decide (rec_status recording = Uploading)) then mret (Some tt)
  else
    segments ← lift (list_untranscribed_segments recording_id);
    if bool_decide (length segments = 0%nat) then mret (Some tt)
    else
      start ← lift (max_transcribed_end_ms recording_id);
      _ ← live_segments cfg recording_id (default 0 start) segments;
      lift (title.regenerate (lc_llm cfg) recording_id).
End live.
