(* ===== verification/StagesProps.v ===== *)
(** * What the audio stages promise *)

From Stdlib Require Import Ascii String.
From S2P Require Import Prelude RustStr Types Llm F32 Db DbSchema Store StoreProps QueueSteps Merge MergeProps.
From S2P Require Import Summarize SummarizeProps Identity IdentityProps Wav Speech Stages.

(** ** Live transcription only appends *)

(** The transcript of [w'] is that of [w] with rows of this recording added, all
    without a speaker and starting at [lo] or later. *)
Definition live_row (id : Uuid) (lo : Z) (u : UttRow) : Prop :=
  ur_recording_id u = id /\ ur_local_idx u = None /\ lo <= ur_start_ms u.

Definition appends (id : Uuid) (lo : Z) (w w' : World) : Prop :=
  exists new, db_utterances (w_db w') = db_utterances (w_db w) ++ new /\ Forall (live_row id lo) new.

#[export] Instance appends_preorder id lo : PreOrder (appends id lo).
Proof.
  split.
  - intros w. exists []. by rewrite app_nil_r.
  - intros w1 w2 w3 (n1 & H1 & F1) (n2 & H2 & F2). exists (n1 ++ n2). rewrite H2, H1, app_assoc.
    split; [done|]. by apply Forall_app.
Qed.

Lemma appends_weaken id lo lo' w w' : lo <= lo' -> appends id lo' w w' -> appends id lo w w'.
Proof.
  intros Hle (new & Hn & Hf). exists new. split; [done|]. eapply Forall_impl; [exact Hf|].
  intros u (? & ? & ?). split; [done|]. split; [done|lia].
Qed.

(** Steps that leave the transcript alone. *)
Definition same_text (w w' : World) : Prop := db_utterances (w_db w') = db_utterances (w_db w).

#[export] Instance same_text_preorder : PreOrder same_text.
Proof. split; [done|]. intros w1 w2 w3 H1 H2. unfold same_text in *. congruence. Qed.

Lemma steps_same_appends {A} id lo (m : M World Error A) : Steps same_text m -> Steps (appends id lo) m.
Proof. intros Hm w. exists []. rewrite app_nil_r. split; [apply Hm|constructor]. Qed.

Section files.
Context `{System}.

#[export] Instance path_exists_steps p : Steps same_text (path_exists p).
Proof. by intros w. Qed.
#[export] Instance read_file_steps p : Steps same_text (read_file p).
Proof. by intros w. Qed.
#[export] Instance create_dir_all_steps p : Steps same_text (create_dir_all p).
Proof. by intros w. Qed.
#[export] Instance write_steps p c : Steps same_text (write p c).
Proof. intros w. unfold write. by destruct (sys_write _ _ _). Qed.
#[export] Instance remove_file_steps p : Steps same_text (remove_file p).
Proof. by intros w. Qed.
#[export] Instance run_ffmpeg_steps args : Steps same_text (run_ffmpeg args).
Proof. intros w. unfold run_ffmpeg. by destruct (sys_ffmpeg _ _). Qed.
#[export] Instance of_result_steps {A} (r : result Error A) : Steps same_text (of_result r).
Proof. by destruct r; intros w. Qed.
#[export] Instance lift_ro_steps {A} (m : DbM A) : ReadOnly m -> Steps same_text (lift m).
Proof.
  intros Hm w. unfold lift, same_text. specialize (Hm (w_db w)). destruct (m (w_db w)) as [r s]. cbn in *. by subst s.
Qed.
#[export] Instance transcode_to_wav_steps inputs out : Steps same_text (transcode_to_wav inputs out).
Proof.
  unfold transcode_to_wav. do 3 (apply steps_bind; [apply _|apply _|intros ?]).
  case_match; [|apply _]. apply steps_bind; apply _.
Qed.

(** Reading the database at the head of a sequence. *)
Lemma bind_lift_ro {A B} (m : DbM A) (k : A -> WorldM B) w :
  ReadOnly m ->
  (lift m ≫= k) w = match fst (m (w_db w)) with Ok a => k a w | Err e => (Err e, w) end.
Proof.
  intros Hm. unfold mbind, M_bind, lift. specialize (Hm (w_db w)).
  destruct (m (w_db w)) as [[a|e] s]; cbn in *; subst s; by destruct w.
Qed.
End files.

Lemma live_words_ok `{CharAlnum} cfg offset (t : Transcript) :
  Forall (fun w => 0 <= aw_start_ms w <= aw_end_ms w) (tr_words t) ->
  Forall (fun w => w_local_idx w = None /\ offset <= w_start_ms w) (live_words cfg offset t).
Proof.
  intros Hw. unfold live_words, clean.
  assert (Hall : Forall (fun w => w_local_idx w = None /\ offset <= w_start_ms w) (map (core_word offset) (tr_words t))).
  { apply Forall_map. eapply Forall_impl; [exact Hw|]. intros w Hb. cbn in *. split; [done|lia]. }
  destruct (_ || _); cbn [fst]; [done|]. rewrite Forall_forall in *. intros w [Hin _]%elem_of_bfilter. auto.
Qed.

Lemma grouped_rows_ok offset words :
  Forall (fun w => w_local_idx w = None /\ offset <= w_start_ms w) words ->
  Forall (fun u => gu_local_idx u = None /\ offset <= gu_start_ms u) (group_into_utterances words).
Proof.
  intros Hw. destruct (group_into_utterances_words words) as (Hcat & Hgood & _).
  rewrite Forall_forall in Hgood. rewrite Forall_forall in Hw. apply Forall_forall. intros u Hu. destruct (Hgood u Hu) as [Hne Hsp Hst _ _ _].
  destruct (gu_words u) as [|w ws] eqn:E; [done|]. cbn in Hst. injection Hst as <-.
  assert (Hin : w ∈ words).
  { rewrite <- Hcat. apply list_elem_of_In, in_concat. exists (gu_words u). rewrite E. split; [|left; done].
    apply in_map_iff. exists u. rewrite E. split; [done|]. by apply list_elem_of_In. }
  apply Forall_cons in Hsp as [Hsp _]. destruct (Hw w Hin) as [Hn Hle]. split; [congruence|done].
Qed.

(** Inserting rows that are live appends them; the rest of the loop's statements
    leave the transcript alone. *)
Lemma insert_live_appends id lo us :
  Forall (fun u => gu_local_idx u = None /\ lo <= gu_start_ms u) us ->
  Steps (appends id lo) (lift (insert_utterances id (map new_utterance us)) : WorldM Z).
Proof.
  intros Hus w. unfold lift, insert_utterances. rewrite length_map.
  assert (Hsame : appends id lo w w) by reflexivity.
  destruct us as [|u us]; [destruct w; exact Hsame|]. rewrite bool_decide_false by done.
  destruct (forallb utterance_ok _); cbn [negb snd]; [|destruct w; exact Hsame].
  destruct (recording_exists (w_db w) id); cbn [negb snd].
  - eexists. split; [done|]. apply Forall_forall. intros r (i & n & -> & Hn)%elem_of_lookup_imap.
    rewrite list_lookup_fmap in Hn. destruct ((u :: us) !! i) as [g|] eqn:Eg; [|done]. injection Hn as <-.
    rewrite Forall_forall in Hus. destruct (Hus g) as [H1 H2]; [by eapply list_elem_of_lookup_2|]. done.
  - exists []. by rewrite app_nil_r.
Qed.

Lemma mark_segment_same id start dur : Steps same_text (lift (mark_segment_transcribed id start dur)).
Proof. by intros w. Qed.

#[export] Instance list_untranscribed_ro id : ReadOnly (list_untranscribed_segments id).
Proof. unfold list_untranscribed_segments. apply _. Qed.
#[export] Instance max_transcribed_ro id : ReadOnly (max_transcribed_end_ms id).
Proof. unfold max_transcribed_end_ms. apply _. Qed.

Section live.
Context `{System} `{TranscriberLaws} `{UuidFmt} `{CharAlnum} `{LanguageModel}.

Lemma from_le_bytes_nonneg l : 0 <= from_le_bytes l.
Proof. induction l as [|b l IH]; cbn [from_le_bytes]; lia. Qed.

Lemma read_uint_nonneg n b off v : read_uint n b off = Ok v -> 0 <= v.
Proof. unfold read_uint. destruct (slice b off n); intros [= <-]. apply from_le_bytes_nonneg. Qed.

Lemma walk_rate_nonneg fuel b pos fmt data f d :
  (forall x, fmt = Some x -> 0 <= snd (fst x)) -> walk fuel b pos fmt data = Ok (Some f, d) -> 0 <= snd (fst f).
Proof.
  revert pos fmt data. induction fuel as [|fuel IH]; intros pos fmt data Hf; cbn [walk]; [intros [= ->]; auto|].
  destruct (_ <=? _); [|intros [= ->]; auto].
  destruct (read_u32 _ _) as [size|e]; [|done]. case_bool_decide.
  - destruct (parse_fmt _) as [g|e] eqn:Eg; [|done]. destruct (_ <? _); [done|]. apply IH. intros x [= <-].
    unfold parse_fmt in Eg. destruct (_ <? 16); [done|]. repeat (case_match; try done). simplify_eq. cbn.
    by eapply read_uint_nonneg.
  - case_bool_decide; (destruct (_ <? _); [done|]); by apply IH.
Qed.

Lemma duration_nonneg file w : read_wav file = Ok w -> 0 <= duration_ms w.
Proof.
  intros Hr. assert (Hrate : 0 <= sample_rate w).
  { unfold read_wav, parse_wav in Hr. destruct file as [b|]; [|done]. destruct (_ || _); [done|].
    destruct (walk _ _ _ _ _) as [[[[[[af ch] rate] bits]|] [d|]]|e] eqn:Ew; try done.
    apply walk_rate_nonneg in Ew; [|done]. cbn in Ew. repeat (case_match; try done). by simplify_eq. }
  unfold duration_ms. destruct (_ =? 0) eqn:E; [lia|]. bool_to_prop. apply Z.quot_pos; lia.
Qed.

Lemma of_result_does {A} (R : relation World) `{!PreOrder R} (r : result Error A) :
  does R (fun a => r = Ok a) (of_result r).
Proof. intros w. destruct r as [a|e]; (split; [reflexivity|]); [by intros b [= <-]|done]. Qed.

Lemma in_stage_Ok {A} stage (r : result Error A) a : in_stage stage r = Ok a -> r = Ok a.
Proof. by destruct r. Qed.

Lemma does_same {A B} id lo (Q : B -> Prop) (m : WorldM A) (k : A -> WorldM B) :
  Steps same_text m -> (forall a, does (appends id lo) Q (k a)) -> does (appends id lo) Q (m ≫= k).
Proof.
  intros Hm Hk. eapply does_bind; [apply _|by apply does_steps, steps_same_appends|]. intros a _. apply Hk.
Qed.

Lemma live_segment_does cfg id offset seg :
  does (appends id offset) (fun next => offset <= next) (live_segment cfg id offset seg).
Proof.
  unfold live_segment. apply does_same; [apply _|]. intros there. destruct there; cbn [negb].
  2:{ apply does_ret; [apply _|lia]. }
  do 2 (apply does_same; [apply _|intros ?]).
  eapply does_bind; [apply _|apply of_result_does; apply _|]. intros decoded Hd%in_stage_Ok.
  eapply does_bind; [apply _|apply of_result_does; apply _|]. intros t Ht%in_stage_Ok.
  apply does_same; [apply _|intros ?]. eapply does_bind; [apply _| |].
  - apply does_steps, insert_live_appends, grouped_rows_ok, live_words_ok. by eapply words_timed.
  - intros _ _. apply does_same; [apply mark_segment_same|]. intros _. apply does_ret; [apply _|].
    pose proof (duration_nonneg _ _ Hd). lia.
Qed.

Lemma live_segments_does cfg id offset segs :
  does (appends id offset) (fun next => offset <= next) (live_segments cfg id offset segs).
Proof.
  revert offset. induction segs as [|seg segs IH]; intros offset; cbn [live_segments].
  - apply does_ret; [apply _|lia].
  - eapply does_bind; [apply _|apply live_segment_does|]. cbn. intros next Hn w.
    destruct (IH next w) as [Ha Hq]. split; [by eapply appends_weaken|]. intros a Ha'. specialize (Hq a Ha'). lia.
Qed.

Lemma title_same cfg id : Steps same_text (lift (title.regenerate cfg id)).
Proof.
  intros w. unfold lift, same_text. destruct (regenerate_cases cfg id (w_db w)) as [[Hr _]|(s' & Hr & _ & Hs)];
    rewrite Hr; cbn; [done|]. destruct Hs as [->|(t & _ & _ & ->)]; [done|].
  destruct (title_auto_state id t (w_db w)) as [->|(r & _ & _ & ->)]; done.
Qed.

(** Live transcription only ever adds to what is on screen.  Whatever fails
    on the way, it keeps every line already there and appends lines of its own
    recording, without speakers, none of which starts before the end of what
    had been transcribed; and once the recording is no longer uploading it does
    nothing at all, leaving the transcript to the full pass. *)
Theorem transcribe_segment_appends cfg id w :
  let before := max_transcribed_end_ms id (w_db w) in
  let lo := match before with (Ok (Some e), _) => e | _ => 0 end in
  appends id lo w (snd (transcribe_segment_run cfg id w)) /\
  (forall r, db_recordings (w_db w) !! id = Some r -> rec_status (rr_rec r) <> Uploading ->
     transcribe_segment_run cfg id w = (Ok (Some tt), w)).
Proof.
  intros before lo. unfold transcribe_segment_run. rewrite bind_lift_ro by apply _. split.
  - destruct (fst (get_recording id (w_db w))) as [r|e]; [|reflexivity].
    destruct (negb _); [reflexivity|]. rewrite bind_lift_ro by apply _.
    destruct (fst (list_untranscribed_segments id (w_db w))) as [segs|e]; [|reflexivity].
    destruct (bool_decide _); [reflexivity|]. rewrite bind_lift_ro by apply _.
    assert (Hro : before = (fst before, w_db w)).
    { unfold before. pose proof (max_transcribed_ro id (w_db w)) as Hs.
      destruct (max_transcribed_end_ms id (w_db w)) as [x s]. cbn in *. by subst s. }
    assert (Hlo : forall start, fst before = Ok start -> default 0 start = lo).
    { intros start Hb. unfold lo. rewrite Hro, Hb. by destruct start. }
    fold before. destruct (fst before) as [start|e]; [|reflexivity]. rewrite (Hlo start eq_refl).
    assert (Hrun : does (appends id lo) (fun _ => True) (live_segments cfg id lo segs ≫= fun _ =>
      lift (title.regenerate (lc_llm cfg) id))).
    { eapply does_bind; [apply _|apply live_segments_does|]. intros _ _.
      apply does_steps, steps_same_appends, title_same. }
    apply Hrun.
  - intros r Hr Hst. unfold get_recording. rewrite Hr. cbn [fst]. rewrite bool_decide_false by done. done.
Qed.
End live.

(** ** Diarization *)

Section diarize.
Context `{EnvF32} `{SerdeJson TranscriptArtifact} `{SerdeJson DiarizationArtifact}.

Definition library (s : Db) : list (Uuid * list f32) := map (fun e => (spk_id (fst e), snd e)) (enrolled s).

Lemma library_known s u vp : schema_ok s -> (u, vp) ∈ library s -> is_Some (db_speakers s !! u).
Proof.
  intros Hs. unfold library, enrolled, speakers_by. rewrite list_elem_of_fmap. intros ([p v] & [= -> ->] & Hin).
  apply list_elem_of_omap in Hin as (q & Hq & He). rewrite sort_by_elem in Hq.
  apply list_elem_of_fmap in Hq as ([k q'] & -> & Hk). apply elem_of_map_to_list in Hk. cbn in He.
  destruct (spk_embedding q') as [w|]; [|done]. injection He as -> ->.
  pose proof (speakers_key s Hs k p Hk) as Heq. cbn in Heq. rewrite Heq. by exists p.
Qed.

Lemma upsert_loop id (sp : Z -> option Uuid) (emb : Z -> option (list f32)) is_ s :
  recording_exists s id = true ->
  (forall i, i ∈ is_ -> speaker_ref_ok s (sp i) = true /\ opt_vector_ok (emb i) = true) ->
  mfor is_ (fun i => upsert_recording_speaker id i (sp i) (emb i)) s =
  (Ok tt, set_recording_speakers
     (foldl (fun m i => <[(id, i) := mkRsRow (sp i) (emb i)]> m) (db_recording_speakers s) is_) s).
Proof.
  revert s. induction is_ as [|i is_ IH]; intros s Hex Hok; cbn [mfor foldl]; [by destruct s|].
  destruct (Hok i ltac:(left)) as [Hsp Hemb]. unfold mbind, M_bind, upsert_recording_speaker at 1.
  rewrite Hemb, Hex, Hsp. cbn [negb andb]. rewrite IH; [done|exact Hex|].
  intros j Hj. apply Hok. by right.
Qed.

Lemma lookup_upserts (id : Uuid) (f : Z -> RsRow) (is_ : list Z) (m : gmap (Uuid * Z) RsRow) (r : Uuid) (i : Z) :
  foldl (fun m i => <[(id, i) := f i]> m) m is_ !! (r, i) =
  if bool_decide (r = id /\ i ∈ is_) then Some (f i) else m !! (r, i).
Proof.
  revert m. induction is_ as [|j is_ IH]; intros m; cbn [foldl].
  - rewrite bool_decide_false by (intros [_ Hi]; inversion Hi). done.
  - rewrite IH. destruct (decide (r = id)) as [->|Hr].
    + destruct (decide (i = j)) as [->|Hij].
      * rewrite lookup_insert_eq, (bool_decide_true (id = id /\ j ∈ j :: is_)) by (split; [done|left]).
        by case_bool_decide.
      * rewrite lookup_insert_ne by congruence.
        rewrite (bool_decide_ext _ (id = id /\ i ∈ j :: is_)); [done|]. rewrite elem_of_cons. naive_solver.
    + rewrite lookup_insert_ne by congruence. by rewrite !bool_decide_false by naive_solver.
Qed.

Lemma lookup_filter_keys (P : Uuid * Z -> Prop) `{forall k, Decision (P k)}
    `{dec : forall kv : (Uuid * Z) * RsRow, Decision (P (fst kv))} (m : gmap (Uuid * Z) RsRow) k :
  filter (fun kv => P (fst kv)) m !! k = if decide (P k) then m !! k else None.
Proof.
  rewrite map_lookup_filter. destruct (m !! k) as [v|]; cbn; [|by case_decide].
  case_guard as Hg; cbn in Hg; [by rewrite decide_True|by rewrite decide_False].
Qed.

Lemma speakers_of_elem ts i : i ∈ speakers_of ts <-> i ∈ map st_local_idx ts.
Proof. unfold speakers_of. rewrite sort_by_elem, elem_of_dedup_first. set_solver. Qed.

(** The turns as they are handed to the merge stage. *)
Definition parked_turns (d : Diarization) : Json :=
  to_value (mkDiarization (map turn_artifact (dz_turns d)) (dz_num_speakers d)).

Lemma store_speakers_eq id d s :
  schema_ok s -> recording_exists s id = true ->
  (forall i, i ∈ map st_local_idx (dz_turns d) -> opt_vector_ok (dz_embeddings d !! i) = true) ->
  json_ok (parked_turns d) = true ->
  let people := resolve_identities (voices_of d) (library s) enroll_match_threshold in
  exists s', store_speakers id d s = (Ok tt, s') /\
    (forall i, db_recording_speakers s' !! (id, i) =
       if bool_decide (i ∈ map st_local_idx (dz_turns d))
       then Some (mkRsRow (fst <$> people !! i) (dz_embeddings d !! i)) else None) /\
    (forall r i, r <> id -> db_recording_speakers s' !! (r, i) = db_recording_speakers s !! (r, i)) /\
    (forall i j u a b, db_recording_speakers s' !! (id, i) = Some a -> db_recording_speakers s' !! (id, j) = Some b ->
       rsr_speaker_id a = Some u -> rsr_speaker_id b = Some u -> i = j) /\
    db_artifacts s' = <[(id, KIND_DIARIZATION) :=
      to_value (mkDiarization (map turn_artifact (dz_turns d)) (dz_num_speakers d))]> (db_artifacts s) /\
    db_utterances s' = db_utterances s /\
    set_artifacts ∅ (set_recording_speakers ∅ s') = set_artifacts ∅ (set_recording_speakers ∅ s).
Proof.
  intros Hs Hex Hvec Hjson people. destruct (resolve_matches (voices_of d) (library s) enroll_match_threshold)
    as (ts & Hpeople & Hvoices & Hspeakers & Hrec & _). fold people in Hpeople.
  assert (Hknown : forall i, speaker_ref_ok s (fst <$> people !! i) = true).
  { intros i. destruct (people !! i) as [[u x]|] eqn:Ei; [|done]. cbn. apply bool_decide_true.
    apply Hpeople in Ei. apply Hrec in Ei as (e & k & vp & _ & Hk & _). cbn in Hk.
    eapply library_known; [done|]. by eapply list_elem_of_lookup_2. }
  unfold store_speakers, list_enrolled_voiceprints. rewrite bind_query. fold (library s). fold people.
  set (speakers := speakers_of (dz_turns d)).
  rewrite (bind_ok _ _ _ _ _ (upsert_loop id (fun i => fst <$> people !! i) (fun i => dz_embeddings d !! i) speakers s Hex
    (fun i Hi => conj (Hknown i) (Hvec i (proj1 (speakers_of_elem _ _) Hi))))).
  unfold prune_recording_speakers. rewrite bind_exec. cbn [fst snd].
  unfold artifacts.put_diarization, artifacts.put. fold (parked_turns d). rewrite Hjson. cbn [negb]. set (s2 := set_recording_speakers _ _).
  change (recording_exists s2 id) with (recording_exists s id). rewrite Hex. cbn [negb].
  eexists. split; [done|]. cbn [db_recording_speakers db_artifacts db_utterances set_artifacts].
  assert (Hrows : forall r i, db_recording_speakers s2 !! (r, i) =
    if bool_decide (r = id) then
      if bool_decide (i ∈ map st_local_idx (dz_turns d))
      then Some (mkRsRow (fst <$> people !! i) (dz_embeddings d !! i)) else None
    else db_recording_speakers s !! (r, i)).
  { intros r i. unfold s2. cbn [db_recording_speakers set_recording_speakers]. rewrite (lookup_filter_keys (fun k => ~ (k.1 = id /\ k.2 ∉ speakers))).
    rewrite (lookup_upserts id (fun i => mkRsRow (fst <$> people !! i) (dz_embeddings d !! i))).
    pose proof (speakers_of_elem (dz_turns d) i) as Hsp. fold speakers in Hsp. cbn [fst snd].
    destruct (decide (r = id)) as [->|Hr].
    - rewrite (bool_decide_true (id = id)) by done. destruct (decide (i ∈ map st_local_idx (dz_turns d))) as [Hi|Hi].
      + rewrite decide_True by naive_solver. rewrite !bool_decide_true by naive_solver. done.
      + rewrite decide_False by naive_solver. by rewrite bool_decide_false.
    - rewrite (bool_decide_false (r = id)) by done. rewrite decide_True by naive_solver.
      by rewrite bool_decide_false by naive_solver. }
  split; [|split; [|split; [|done]]].
  - intros i. by rewrite Hrows, bool_decide_true.
  - intros r i Hr. by rewrite Hrows, bool_decide_false.
  - intros i j u a b. rewrite !Hrows, !bool_decide_true by done. do 2 (case_bool_decide; [|done]).
    intros [= <-] [= <-]. cbn [rsr_speaker_id].
    destruct (people !! i) as [[u1 x1]|] eqn:E1, (people !! j) as [[u2 x2]|] eqn:E2; try done.
    cbn. intros [= ->] [= ->]. apply Hpeople in E1, E2.
    assert (Heq : (x1, i, u) = (x2, j, u)); [|by injection Heq].
    by apply (NoDup_map_inj c_speaker ts).
Qed.

(** Storing succeeds only for voices the column takes. *)
Lemma upsert_loop_ok id (sp : Z -> option Uuid) (emb : Z -> option (list f32)) is_ s s' :
  mfor is_ (fun i => upsert_recording_speaker id i (sp i) (emb i)) s = (Ok tt, s') ->
  forall i, i ∈ is_ -> opt_vector_ok (emb i) = true.
Proof.
  revert s. induction is_ as [|i is_ IH]; intros s Hrun j Hj; [by inversion Hj|]. cbn [mfor] in Hrun.
  unfold mbind, M_bind, upsert_recording_speaker at 1 in Hrun. destruct (opt_vector_ok (emb i)) eqn:Ev; [|done]. cbn [negb] in Hrun.
  destruct (_ && _) in Hrun; [|done]. cbn [negb] in Hrun. apply elem_of_cons in Hj as [->|Hj]; [done|]. by eapply IH.
Qed.

Lemma store_speakers_ok id d s s' :
  store_speakers id d s = (Ok tt, s') ->
  (forall i, i ∈ map st_local_idx (dz_turns d) -> opt_vector_ok (dz_embeddings d !! i) = true) /\ json_ok (parked_turns d) = true.
Proof.
  unfold store_speakers, list_enrolled_voiceprints. rewrite bind_query. intros Hrun.
  apply bind_inv in Hrun as ([] & s1 & E & Hrun). apply bind_inv in Hrun as (? & s2 & _ & Hput). split.
  - intros i Hi. apply speakers_of_elem in Hi. by apply (upsert_loop_ok _ _ _ _ _ _ E).
  - unfold artifacts.put_diarization, artifacts.put in Hput. fold (parked_turns d) in Hput. by destruct (json_ok _).
Qed.

(** Diarization leaves the recording with exactly the speakers of its turns,
    each with its voice and the enrolled person it was recognised as, if any;
    rows of an earlier run are gone, other recordings' are untouched, and no
    person labels two of its speakers.  The turns are handed to the merge stage
    and the transcript is not touched. *)
Theorem diarize_store_spec id d s :
  schema_ok s -> recording_exists s id = true ->
  (forall i v, dz_embeddings d !! i = Some v -> vector_ok VOICE_DIM v = true) -> json_ok (parked_turns d) = true ->
  let people := resolve_identities (voices_of d) (library s) enroll_match_threshold in
  exists s', store_speakers id d s = (Ok tt, s') /\
    (forall i, db_recording_speakers s' !! (id, i) =
       if bool_decide (i ∈ map st_local_idx (dz_turns d))
       then Some (mkRsRow (fst <$> people !! i) (dz_embeddings d !! i)) else None) /\
    (forall r i, r <> id -> db_recording_speakers s' !! (r, i) = db_recording_speakers s !! (r, i)) /\
    (forall i j u a b, db_recording_speakers s' !! (id, i) = Some a -> db_recording_speakers s' !! (id, j) = Some b ->
       rsr_speaker_id a = Some u -> rsr_speaker_id b = Some u -> i = j) /\
    db_artifacts s' = <[(id, KIND_DIARIZATION) :=
      to_value (mkDiarization (map turn_artifact (dz_turns d)) (dz_num_speakers d))]> (db_artifacts s) /\
    db_utterances s' = db_utterances s.
Proof.
  intros Hs Hex Hemb Hjson people. destruct (store_speakers_eq id d s Hs Hex) as (s' & Hrun & Hrows & Hoth & Hone & Hart & Hutt & _); [|done|by exists s'].
  intros i _. unfold opt_vector_ok. destruct (dz_embeddings d !! i) as [v|] eqn:Ev; [by eapply Hemb|done].
Qed.
End diarize.

(** ** Witnesses *)

(** A system whose [ffmpeg] writes half a second of silence to its last argument. *)
Definition silent_system : System := {|
  sys_create_dir_all _ _ := Ok tt;
  sys_write fs p c := Ok (<[p := c]> fs);
  sys_remove_file fs p := delete p fs;
  sys_ffmpeg fs args := (Ok (mkOutput 0 ""), <[default "" (last args) := write_pcm16_mono 2 [0]]> fs);
  sys_exit_status _ := "exit status: 0";
|}.

Definition live_recording : RecordingRow :=
  mkRecordingRow (mkRecording 1 None 0 None None Uploading None None None None [] []) true.
Definition live_seg (transcribed : option Z) : SegmentRow :=
  mkSegmentRow (mkSegment 5 1 0 "k" None None None None 0) transcribed.
Definition live_world : World :=
  mkWorld (set_segments [live_seg None] (set_recordings {[ 1%N := live_recording ]} (empty_db 0))) {[ "b/k" := [] ]}.
Definition live_cfg : LiveConfig := mkLiveConfig "b" true ["uh"] (mkLlmConfig "m" 0).

Lemma transcribe_segment_appends_witness :
  appends 1 0 live_world (snd (@transcribe_segment_run silent_system stub_engine plain_uuid ascii_alnum silent_model
    live_cfg 1 live_world)) /\
  map ur_text (db_utterances (w_db (snd (@transcribe_segment_run silent_system stub_engine plain_uuid ascii_alnum
    silent_model live_cfg 1 live_world)))) = ["[stub transcription] scribe"].
Proof.
  split; [|vm_compute; reflexivity].
  apply (@transcribe_segment_appends silent_system stub_engine stub_transcriber_laws plain_uuid ascii_alnum silent_model
    live_cfg 1 live_world).
Defined.

Definition stub_result : Diarization :=
  mkDiarizationResult [mkSpeakerTurn 0 0 400; mkSpeakerTurn 1 400 900] (stub_embeddings 2) 2.
Definition diarization_writer : SerdeJson DiarizationArtifact := {| to_value _ := JNull; from_value _ := Err "" |}.

Lemma diarize_store_spec_witness :
  exists s', @store_speakers diarization_writer no_overrides 1 stub_result sample_db = (Ok tt, s') /\
    is_Some (db_recording_speakers s' !! (1%N, 1)) /\ db_recording_speakers s' !! (1%N, 2) = None.
Proof.
  destruct (@diarize_store_spec no_overrides diarization_writer 1 stub_result sample_db sample_schema eq_refl)
    as (s' & Hrun & Hrows & _).
  - intros i v Hv. unfold stub_result in Hv. cbn [dz_embeddings] in Hv. rewrite stub_embeddings_lookup in Hv.
    destruct (bool_decide (0 <= i < 2)) eqn:E; [|discriminate]. apply bool_decide_eq_true_1 in E.
    apply (inj Some) in Hv as <-. assert (Hi : i = 0 \/ i = 1) by lia.
    destruct Hi as [->| ->]; vm_compute; reflexivity.
  - reflexivity.
  - exists s'. split; [exact Hrun|]. rewrite !Hrows. split; [eexists; reflexivity|reflexivity].
Defined.
