(* ===== verification/Http.v ===== *)
(** * Serving requests: byte ranges and authentication of [scribe-api]

    [range.rs] cuts an audio file to the single range a header asks for;
    [auth.rs] and [state.rs] decide which requests pass.  A request is its
    headers (a value that is not readable text is absent, as [to_str().ok()]
    makes it) and the address it came from. *)

From Stdlib Require Import Ascii String.
From S2P Require Import Prelude RustStr Types.

#[local] Arguments String.append !_ _ /.

(** ** Ranges *)

Inductive ParsedRange := Full | Bytes (start end_ : Z) | Unsatisfiable.

Definition parse_range (value : string) (total : Z) : ParsedRange :=
  match strip_prefix "bytes=" (trim value) with
  | None => Full
  | Some spec =>
      let first := trim (split_first "," spec) in
      match split_once "-" first with
      | None => Full
      | Some (start_s, end_s) =>
          if total =? 0 then Unsatisfiable
          else
            let last := total - 1 in
            if is_empty start_s then
              match parse_u64 end_s with
              | None => Full
              | Some suffix =>
                  if suffix =? 0 then Unsatisfiable
                  else let len := Z.min suffix total in Bytes (total - len) last
              end
            else
              match parse_u64 start_s with
              | None => Full
              | Some start =>
                  if last <? start then Unsatisfiable
                  else
                    let end_ := if is_empty end_s then Some last
                      else match parse_u64 end_s with Some e => Some (Z.min e last) | None => None end in
                    match end_ with
                    | None => Full
                    | Some end_ => if end_ <? start then Unsatisfiable else Bytes start end_
                    end
              end
      end
  end.

Record Response := mkResponse {
  resp_status : Z; content_type : option string; accept_ranges : option string;
  content_range : option string; content_length : option Z; body : list N;
}.

(** The bytes [HeaderValue::from_str] takes; a value with another is not sent. *)
Definition header_byte (a : ascii) : bool :=
  let b := byte_of a in (b =? 9)%N || ((32 <=? b)%N && negb (b =? 127)%N).

Definition full_body (content_type : option string) (file : list N) : Response :=
  mkResponse 200 content_type (Some "bytes") None (Some (Z.of_nat (length file))) file.

(** [file] is what opening the path gives: its bytes or an error. *)
Definition serve_file_range (path content_type : string) (range_header : option string)
    (file : result Error (option (list N))) : result Error Response :=
  match file with
  | Err e => Err e
  | Ok None => Err (NotFound ("audio not found: " +:+ path))
  | Ok (Some file) =>
      let total := Z.of_nat (length file) in
      let content_type := if all_bytes header_byte content_type then Some content_type else None in
      match range_header with
      | None => Ok (full_body content_type file)
      | Some h =>
          match parse_range h total with
          | Full => Ok (full_body content_type file)
          | Unsatisfiable =>
              Ok (mkResponse 416 content_type (Some "bytes") (Some ("bytes */" +:+ pretty total)) None [])
          | Bytes start end_ =>
              let len := end_ - start + 1 in
              Ok (mkResponse 206 content_type (Some "bytes")
                (Some ("bytes " +:+ pretty start +:+ "-" +:+ pretty end_ +:+ "/" +:+ pretty total))
                (Some len) (take (Z.to_nat len) (drop (Z.to_nat start) file)))
          end
      end
  end.

(** ** Authentication *)

Inductive IpAddr := V4 (bits : N) | V6 (bits : N).

(** [IpAddr::is_loopback]: 127.0.0.0/8, or [::1]. *)
Definition is_loopback (a : IpAddr) : bool :=
  match a with V4 b => (N.shiftr b 24 =? 127)%N | V6 b => (b =? 1)%N end.

Record Request := mkRequest { header : string -> option string; peer : option IpAddr }.

Record AuthState := mkAuthState {
  require_device_token : bool; keys : gmap string string;
  trust_tailscale_identity : bool; tailnet_users : list string;
}.

Definition tailnet_user_allowed (auth : AuthState) (login : string) : bool :=
  bool_decide (length (tailnet_users auth) = 0%nat) ||
  existsb (fun u => eq_ignore_ascii_case u login) (tailnet_users auth).

Definition is_valid (auth : AuthState) (token : string) : bool := bool_decide (is_Some (keys auth !! token)).

Definition TAILSCALE_USER_LOGIN : string := "tailscale-user-login".

Definition tailnet_login (auth : AuthState) (req : Request) : option string :=
  if negb (trust_tailscale_identity auth) then None
  else
    match header req TAILSCALE_USER_LOGIN with
    | None => None
    | Some v =>
        let login := trim v in
        if is_empty login then None
        else if negb (match peer req with Some a => is_loopback a | None => false end) then None
        else if negb (tailnet_user_allowed auth login) then None
        else Some login
    end.

Definition bearer_token (req : Request) : option string :=
  match header req "authorization" with
  | None => None
  | Some value =>
      match split_once " " value with
      | None => None
      | Some (scheme, token) =>
          if eq_ignore_ascii_case scheme "bearer" then
            let token := trim token in if is_empty token then None else Some token
          else None
      end
  end.

(** [Ok] lets the request through to the handler. *)
Definition require_auth (auth : AuthState) (req : Request) : result Error unit :=
  if negb (require_device_token auth) then Ok tt
  else
    match tailnet_login auth req with
    | Some _ => Ok tt
    | None =>
        match bearer_token req with
        | Some t => if is_valid auth t then Ok tt else Err (Unauthorized "invalid device token")
        | None => Err (Unauthorized "missing Authorization: Bearer <device_token>")
        end
    end.

Record UpdateConfig := mkUpdateConfig { upd_enabled : bool; upd_token : option string }.

(** [subtle]'s comparison decides equality of equally long byte strings. *)
Definition ct_eq (a b : string) : bool :=
  bool_decide (String.length a = String.length b) && String.eqb a b.

Definition require_update_auth (upd : UpdateConfig) (req : Request) : result Error unit :=
  if negb (upd_enabled upd) then Err (NotFound "update endpoint disabled")
  else
    match upd_token upd with
    | Some expected =>
        if is_empty expected then Err (Config "update enabled but [update].token is unset")
        else
          match bearer_token req with
          | Some t => if ct_eq t expected then Ok tt else Err (Unauthorized "invalid update token")
          | None => Err (Unauthorized "missing Authorization: Bearer <update_token>")
          end
    | None => Err (Config "update enabled but [update].token is unset")
    end.

(** [path.exists()], [read_to_string] and [toml::from_str] are arguments; the
    table comes in an order [HashMap] does not fix. *)
Definition load_device_keys (path_exists : string -> bool) (read_to_string : string -> result Error string)
    (from_toml : string -> result string (list (string * string))) (path : option string)
    : result Error (gmap string string) :=
  match path with
  | None => Ok ∅
  | Some path =>
      if negb (path_exists path) then Ok ∅
      else
        match read_to_string path with
        | Err e => Err e
        | Ok text =>
            match from_toml text with
            | Err e => Err (Config ("invalid device_keys file " +:+ path +:+ ": " +:+ e))
            | Ok table => Ok (foldl (fun keys '(device_id, key) => <[key := device_id]> keys) ∅ table)
            end
        end
  end.

(** ** Ranges served *)

Lemma parse_range_bounds value total start end_ :
  0 <= total -> parse_range value total = Bytes start end_ -> 0 <= start <= end_ /\ end_ < total.
Proof.
  intros Ht. unfold parse_range. destruct (strip_prefix _ _) as [spec|]; [|done].
  destruct (split_once _ _) as [[start_s end_s]|]; [|done]. destruct (total =? 0) eqn:E0; [done|].
  bool_to_prop. destruct (is_empty start_s).
  - destruct (parse_u64 end_s) as [suffix|] eqn:Es; [|done]. apply parse_u64_range in Es.
    destruct (suffix =? 0) eqn:E1; [done|]. bool_to_prop. intros [= <- <-]. lia.
  - destruct (parse_u64 start_s) as [s|] eqn:Es; [|done]. apply parse_u64_range in Es.
    destruct (total - 1 <? s) eqn:E1; [done|]. bool_to_prop.
    set (e := if is_empty end_s then _ else _). intros Hr. destruct e as [e1|] eqn:Ee; [|done].
    destruct (e1 <? s) eqn:E2; [done|]. bool_to_prop. injection Hr as <- <-.
    assert (e1 <= total - 1); [|lia]. unfold e in *. clear e.
    destruct (is_empty end_s); [by injection Ee as <-|]. destruct (parse_u64 end_s); [|done]. injection Ee as <-. lia.
Qed.

Lemma all_digit_not a c : is_digit c = false -> is_digit a = true -> negb (Ascii.eqb a c) = true.
Proof. intros Hc Ha. apply negb_true_iff, Ascii.eqb_neq. intros ->. congruence. Qed.

(** Digits and dashes, as a single well-formed range is written. *)
Lemma range_text_plain s e :
  all_bytes is_digit s = true -> all_bytes is_digit e = true ->
  trim ("bytes=" +:+ s +:+ "-" +:+ e) = "bytes=" +:+ s +:+ "-" +:+ e /\
  trim (split_first "," (s +:+ "-" +:+ e)) = s +:+ "-" +:+ e /\
  split_once "-" (s +:+ "-" +:+ e) = Some (s, e).
Proof.
  intros Hs He. pose proof (all_bytes_impl _ _ s digit_plain Hs) as Ps. pose proof (all_bytes_impl _ _ e digit_plain He) as Pe.
  assert (Hp : all_bytes plain (s +:+ "-" +:+ e) = true) by (by rewrite !all_bytes_app, Ps, Pe).
  split; [|split].
  - apply trim_plain. rewrite all_bytes_app, Hp. done.
  - unfold split_first. rewrite split_once_absent; [by apply trim_plain|]. rewrite !all_bytes_app.
    pose proof (fun a => all_digit_not a ","%char eq_refl) as Hd.
    by rewrite (all_bytes_impl _ _ s Hd Hs), (all_bytes_impl _ _ e Hd He).
  - apply split_once_at. apply (all_bytes_impl is_digit); [intros a; by apply all_digit_not|done].
Qed.

Lemma is_empty_pretty n : 0 <= n <= u64_max -> is_empty (pretty n) = false.
Proof.
  intros Hn. pose proof (parse_u64_pretty n Hn) as Hp. destruct (is_empty (pretty n)) eqn:E; [|done].
  apply String.eqb_eq in E. by rewrite E in Hp.
Qed.

(** A well-formed single range means what it says. *)
Lemma parse_range_closed a b total :
  0 <= a <= u64_max -> 0 <= b <= u64_max -> 0 < total ->
  parse_range ("bytes=" +:+ pretty a +:+ "-" +:+ pretty b) total =
  if (total <=? a) || (b <? a) then Unsatisfiable else Bytes a (Z.min b (total - 1)).
Proof.
  intros Ha Hb Ht. unfold parse_range.
  destruct (range_text_plain (pretty a) (pretty b)) as (-> & Hf & Ho); [apply pretty_digits; lia..|].
  rewrite strip_prefix_app, Hf, Ho, !is_empty_pretty, !parse_u64_pretty by done.
  destruct (total =? 0) eqn:E0; [bool_to_prop; lia|].
  destruct (total - 1 <? a) eqn:E1, (total <=? a) eqn:E2; bool_to_prop; try lia; cbn [orb]; [done|].
  destruct (b <? a) eqn:E3, (Z.min b (total - 1) <? a) eqn:E4; bool_to_prop; try lia; done.
Qed.

Lemma parse_range_open a total :
  0 <= a <= u64_max -> 0 < total ->
  parse_range ("bytes=" +:+ pretty a +:+ "-") total = if total <=? a then Unsatisfiable else Bytes a (total - 1).
Proof.
  intros Ha Ht. unfold parse_range.
  destruct (range_text_plain (pretty a) "") as (Htr & Hf & Ho); [apply pretty_digits; lia|done|].
  change ("-" +:+ "") with "-" in *. rewrite Htr, strip_prefix_app, Hf, Ho, is_empty_pretty, parse_u64_pretty by done.
  destruct (total =? 0) eqn:E0; [bool_to_prop; lia|].
  destruct (total - 1 <? a) eqn:E1, (total <=? a) eqn:E2; bool_to_prop; try lia; [done|].
  cbn [is_empty String.eqb]. by rewrite (proj2 (Z.ltb_ge _ _)) by lia.
Qed.

Lemma parse_range_suffix n total :
  0 < n <= u64_max -> 0 < total ->
  parse_range ("bytes=-" +:+ pretty n) total = Bytes (total - Z.min n total) (total - 1).
Proof.
  intros Hn Ht. unfold parse_range.
  destruct (range_text_plain "" (pretty n)) as (Htr & Hf & Ho); [done|apply pretty_digits; lia|].
  change ("" +:+ "-" +:+ pretty n) with ("-" +:+ pretty n) in *.
  change ("bytes=-" +:+ pretty n) with ("bytes=" +:+ "-" +:+ pretty n).
  rewrite Htr, strip_prefix_app, Hf, Ho, parse_u64_pretty by lia. cbn [is_empty String.eqb].
  destruct (total =? 0) eqn:E0; [bool_to_prop; lia|]. destruct (n =? 0) eqn:E1; [bool_to_prop; lia|]. done.
Qed.

(** Of several ranges only the first counts. *)
Lemma parse_range_first first rest total :
  all_bytes plain first = true -> all_bytes (fun a => negb (Ascii.eqb a ",")) first = true -> all_bytes plain rest = true ->
  parse_range ("bytes=" +:+ first +:+ "," +:+ rest) total = parse_range ("bytes=" +:+ first) total.
Proof.
  intros Pf Hf Pr. unfold parse_range. rewrite !trim_plain by (by rewrite !all_bytes_app, ?Pf, ?Pr). rewrite !strip_prefix_app.
  change ("," +:+ rest) with (String "," rest). unfold split_first.
  by rewrite (split_once_at "," first rest), (split_once_absent "," first) by done.
Qed.

(** What each kind of answer carries. *)
Definition good_response (file : list N) (r : Response) : Prop :=
  accept_ranges r = Some "bytes" /\
  ((resp_status r = 200 /\ body r = file /\ content_length r = Some (Z.of_nat (length file)) /\ content_range r = None) \/
   (resp_status r = 416 /\ body r = [] /\ content_range r = Some ("bytes */" +:+ pretty (Z.of_nat (length file)))) \/
   (resp_status r = 206 /\ exists start end_ before after,
      file = before ++ body r ++ after /\ Z.of_nat (length before) = start /\
      Z.of_nat (length (before ++ body r)) = end_ + 1 /\ body r <> [] /\
      content_length r = Some (Z.of_nat (length (body r))) /\
      content_range r = Some ("bytes " +:+ pretty start +:+ "-" +:+ pretty end_ +:+ "/" +:+
        pretty (Z.of_nat (length file))))).

(** C22: audio is served byte for byte.  Whatever the header, the answer is the
    whole file, a refusal naming its length, or exactly the bytes its
    [Content-Range] names, never empty and of the announced length.  A single
    well-formed range gives the bytes it asks for, clamped to the file, be it
    closed ([bytes=a-b]), open ([bytes=a-]) or a suffix ([bytes=-n]); an open one
    that starts past the end is refused.  Of several ranges (written without
    spaces) the first is served and the others are ignored. *)
Theorem serve_file_range_spec path ct header file :
  (exists r, serve_file_range path ct header (Ok (Some file)) = Ok r /\ good_response file r) /\
  (header = None -> serve_file_range path ct header (Ok (Some file)) =
     Ok (full_body (if all_bytes header_byte ct then Some ct else None) file)) /\
  (forall a b, 0 <= a <= b -> a < Z.of_nat (length file) -> Z.of_nat (length file) <= u64_max -> b <= u64_max ->
     header = Some ("bytes=" +:+ pretty a +:+ "-" +:+ pretty b) ->
     exists r, serve_file_range path ct header (Ok (Some file)) = Ok r /\ resp_status r = 206 /\
       body r = take (Z.to_nat (Z.min b (Z.of_nat (length file) - 1) - a + 1)) (drop (Z.to_nat a) file)) /\
  (forall a, 0 <= a <= u64_max -> file <> [] -> header = Some ("bytes=" +:+ pretty a +:+ "-") ->
     exists r, serve_file_range path ct header (Ok (Some file)) = Ok r /\ body r = drop (Z.to_nat a) file /\
       resp_status r = if a <? Z.of_nat (length file) then 206 else 416) /\
  (forall n, 0 < n <= u64_max -> file <> [] -> header = Some ("bytes=-" +:+ pretty n) ->
     exists r, serve_file_range path ct header (Ok (Some file)) = Ok r /\ resp_status r = 206 /\
       body r = drop (Z.to_nat (Z.of_nat (length file) - n)) file) /\
  (forall first rest, all_bytes plain first = true -> all_bytes (fun a => negb (Ascii.eqb a ",")) first = true ->
     all_bytes plain rest = true -> header = Some ("bytes=" +:+ first +:+ "," +:+ rest) ->
     serve_file_range path ct header (Ok (Some file)) = serve_file_range path ct (Some ("bytes=" +:+ first)) (Ok (Some file))).
Proof.
  split; [|split; [by intros ->|split; [|split; [|split]]]].
  - unfold serve_file_range. destruct header as [h|].
    2:{ eexists. split; [done|]. split; [done|]. by left. }
    destruct (parse_range h (Z.of_nat (length file))) as [|start end_|] eqn:E; (eexists; split; [done|]; split; [done|]).
    + by left.
    + right. right. apply parse_range_bounds in E; [|lia]. split; [done|]. cbn [body content_length content_range].
      exists start, end_, (take (Z.to_nat start) file), (drop (Z.to_nat (end_ - start + 1)) (drop (Z.to_nat start) file)).
      assert (Hlen : length (take (Z.to_nat (end_ - start + 1)) (drop (Z.to_nat start) file)) = Z.to_nat (end_ - start + 1))
        by (rewrite length_take, length_drop; lia).
      split; [by rewrite !take_drop|]. split; [rewrite length_take; lia|].
      split; [rewrite length_app, Hlen, length_take; lia|].
      split; [intros Hn; rewrite Hn in Hlen; cbn in Hlen; lia|]. split; [f_equal; lia|done].
    + right. by left.
  - intros a b Hab Ha Hmax Hb ->. unfold serve_file_range. rewrite parse_range_closed by lia.
    rewrite (proj2 (Z.leb_gt _ _)), (proj2 (Z.ltb_ge _ _)) by lia. cbn [orb]. by eexists.
  - intros a Ha Hne ->. assert (0 < Z.of_nat (length file)) by (destruct file; [done|cbn; lia]).
    unfold serve_file_range. rewrite parse_range_open by lia.
    destruct (Z.of_nat (length file) <=? a) eqn:E; bool_to_prop; (eexists; split; [done|]; cbn [body resp_status]).
    + rewrite drop_ge by lia. by rewrite (proj2 (Z.ltb_ge _ _)) by lia.
    + rewrite take_ge by (rewrite length_drop; lia). by rewrite (proj2 (Z.ltb_lt _ _)) by lia.
  - intros n Hn Hne ->. unfold serve_file_range.
    assert (0 < Z.of_nat (length file)) by (destruct file; [done|cbn; lia]).
    rewrite parse_range_suffix by lia. eexists. split; [done|]. split; [done|]. cbn [body].
    rewrite take_ge by (rewrite length_drop; lia). f_equal. lia.
  - intros first rest Pf Hf Pr ->. unfold serve_file_range. by rewrite parse_range_first.
Qed.

(** ** Who gets in *)

(** The identity header counts: it is trusted, came from this machine and names
    an allowed login. *)
Definition vouched (auth : AuthState) (req : Request) : Prop :=
  trust_tailscale_identity auth = true /\
  (exists a, peer req = Some a /\ is_loopback a = true) /\
  exists v, header req TAILSCALE_USER_LOGIN = Some v /\ trim v <> "" /\
    (tailnet_users auth = [] \/ exists u, u ∈ tailnet_users auth /\ eq_ignore_ascii_case u (trim v) = true).

Lemma tailnet_login_spec auth req : is_Some (tailnet_login auth req) <-> vouched auth req.
Proof.
  unfold tailnet_login, vouched, tailnet_user_allowed. destruct (trust_tailscale_identity auth); cbn [negb].
  2:{ split; [by intros [? ?]|by intros [? _]]. }
  destruct (header req TAILSCALE_USER_LOGIN) as [v|]; [|split; [by intros [? ?]|by intros (_ & _ & ? & ? & _)]].
  destruct (is_empty (trim v)) eqn:Ev.
  { apply String.eqb_eq in Ev. split; [by intros [? ?]|]. intros (_ & _ & w & [= <-] & Hne & _). done. }
  apply String.eqb_neq in Ev. destruct (peer req) as [a|]; [|split; [by intros [? ?]|by intros (_ & (? & ? & _) & _)]].
  destruct (is_loopback a) eqn:El; cbn [negb].
  2:{ split; [by intros [? ?]|]. intros (_ & (b & [= <-] & Hb) & _). congruence. }
  destruct (bool_decide _ || _) eqn:Eu; cbn [negb].
  - split; [|by intros _]. intros _. split; [done|]. split; [by exists a|]. exists v. split; [done|]. split; [done|].
    apply orb_true_iff in Eu as [Eu|Eu]; [left; bool_to_prop; by apply nil_length_inv|right; by apply existsb_elem].
  - split; [by intros [? ?]|]. intros (_ & _ & w & [= <-] & _ & Hu). apply orb_false_iff in Eu as [E1 E2].
    bool_to_prop. destruct Hu as [Hu|Hu]; [by rewrite Hu in E1|]. apply existsb_elem in Hu. congruence.
Qed.

Lemma bearer_token_nonempty req t : bearer_token req = Some t -> t <> "".
Proof.
  unfold bearer_token. repeat case_match; intros; simplify_eq.
  match goal with H : is_empty _ = false |- _ => by apply String.eqb_neq in H end.
Qed.

Lemma require_auth_cases auth req :
  require_auth auth req =
    if negb (require_device_token auth) then Ok tt
    else if bool_decide (is_Some (tailnet_login auth req)) then Ok tt
    else match bearer_token req with
      | Some t => if is_valid auth t then Ok tt else Err (Unauthorized "invalid device token")
      | None => Err (Unauthorized "missing Authorization: Bearer <device_token>") end.
Proof. unfold require_auth. destruct (negb _); [done|]. by destruct (tailnet_login auth req). Qed.

(** Who passes. *)
Definition device_admitted (auth : AuthState) (req : Request) : Prop :=
  require_device_token auth = false \/ vouched auth req \/
  exists t, bearer_token req = Some t /\ t <> "" /\ is_Some (keys auth !! t).

Lemma require_auth_admits auth req : require_auth auth req = Ok tt <-> device_admitted auth req.
Proof.
  unfold device_admitted. rewrite require_auth_cases. destruct (require_device_token auth); cbn [negb]; [|split; [by left|done]].
  case_bool_decide as Ht; [split; [by right; left; apply tailnet_login_spec|done]|].
  rewrite tailnet_login_spec in Ht. destruct (bearer_token req) as [t|] eqn:Eb.
  + apply bearer_token_nonempty in Eb as Hne. unfold is_valid. case_bool_decide as Hk.
    * split; [|done]. intros _. right. right. by exists t.
    * split; [done|]. intros [?|[?|(t' & [= <-] & _ & ?)]]; done.
  + split; [done|]. intros [?|[?|(t' & ? & _)]]; done.
Qed.

(** A request passes exactly when tokens are not required, or it is vouched
    for by the local tailnet proxy, or its bearer token is a device's key;
    otherwise it is refused as unauthorized.  An identity header that did not
    come from this machine, or is not trusted, makes no difference at all. *)
Theorem require_auth_spec auth req :
  (require_auth auth req = Ok tt <->
     require_device_token auth = false \/ vouched auth req \/
     exists t, bearer_token req = Some t /\ t <> "" /\ is_Some (keys auth !! t)) /\
  (require_auth auth req = Ok tt \/ exists m, require_auth auth req = Err (Unauthorized m)) /\
  (forall v, trust_tailscale_identity auth = false \/ (forall a, peer req = Some a -> is_loopback a = false) ->
     let forged := mkRequest (fun h => if String.eqb h TAILSCALE_USER_LOGIN then v else header req h) (peer req) in
     require_auth auth forged = require_auth auth req).
Proof.
  split; [exact (require_auth_admits auth req)|]. split.
  - rewrite require_auth_cases. repeat case_match; eauto.
  - intros v Hno forged.
    assert (Hnone : forall r, peer r = peer req -> tailnet_login auth r = None).
    { intros r Hp. destruct (tailnet_login auth r) as [l|] eqn:El; [exfalso|done].
      assert (Hv : vouched auth r) by (apply tailnet_login_spec; by eexists).
      destruct Hv as (Ht & (a & Ha & Hl) & _). destruct Hno as [Hno|Hno]; [congruence|].
      rewrite (Hno a) in Hl; congruence. }
    unfold require_auth. rewrite !Hnone by done. done.
Qed.
