(* ===== verification/Api.v ===== *)
(** * The API's handlers: [crates/scribe-api/src/handlers]

    What each route does to the database and to the audio on disk, with its
    guards and its answer.  Extracting the request and rendering the response
    are axum's; a body that is absent is [None].  The file system and the hash
    are parameters; a fresh uuid and each reading of a clock are arguments. *)

From Stdlib Require Import Ascii String SpecFloat.
From S2P Require Import Prelude RustStr Types RustPath Llm Schedule Db DbSchema Queue Store Worker Summarize Stages Http.

#[local] Arguments String.append !_ _ /.

(** ** Files *)

(** The calls the handlers make; an error is the text it displays.  A failed
    write may have written a part. *)
Class BlobFs := {
  fs_create_dir_all : Files -> string -> result string unit;
  fs_create : Files -> string -> result string Files;
  fs_write_all : Files -> string -> list N -> result string unit * Files;
  fs_flush : Files -> string -> result string unit;
  fs_rename : Files -> string -> string -> result string Files;
  fs_remove_file : Files -> string -> Files;
  (** [inl tt]: there is no such directory. *)
  fs_remove_dir_all : Files -> string -> result (unit + string) unit * Files;
}.

(** [q] lies in the directory [dir]. *)
Definition under (dir q : string) : bool :=
  match strip_prefix (dir +:+ "/") q with Some _ => true | None => false end.

(** What the calls are documented to do to files, directories left out. *)
Class BlobFsLaws `{BlobFs} : Prop := {
  create_law : forall fs p fs', fs_create fs p = Ok fs' -> fs' = <[p := []]> fs;
  write_law : forall fs p bs old fs', fs !! p = Some old ->
    fs_write_all fs p bs = (Ok tt, fs') -> fs' = <[p := old ++ bs]> fs;
  write_other : forall fs p bs q, q <> p -> snd (fs_write_all fs p bs) !! q = fs !! q;
  rename_law : forall fs a b c fs', fs !! a = Some c -> fs_rename fs a b = Ok fs' ->
    fs' = <[b := c]> (delete a fs);
  remove_other : forall fs p q, q <> p -> fs_remove_file fs p !! q = fs !! q;
  remove_dir_law : forall fs d fs', fs_remove_dir_all fs d = (Ok tt, fs') ->
    forall q, fs' !! q = if under d q then None else fs !! q;
  remove_dir_absent : forall fs d fs', fs_remove_dir_all fs d = (Err (inl tt), fs') ->
    fs' = fs /\ forall q, under d q = true -> fs !! q = None;
  remove_dir_other : forall fs d q, under d q = false -> snd (fs_remove_dir_all fs d) !! q = fs !! q;
}.

Section files.
Context `{BlobFs}.

Definition create_blob_dir (dir : string) : WorldM unit := fun w =>
  (match fs_create_dir_all (w_files w) dir with
   | Ok _ => Ok tt
   | Err e => Err (Storage ("creating blob dir " +:+ dir +:+ ": " +:+ e))
   end, w).

(** A directory that is not there needs no removal. *)
Definition remove_blobs (dir : string) : WorldM unit := fun w =>
  let '(r, fs) := fs_remove_dir_all (w_files w) dir in
  (match r with Ok _ | Err (inl _) => Ok tt | Err (inr e) => Err (Io e) end, mkWorld (w_db w) fs).
End files.

Definition json_opt_string (o : option string) : Json := match o with Some s => JString s | None => JNull end.
Definition json_opt_number (o : option Z) : Json := match o with Some n => JNumber (pretty n) | None => JNull end.

(** ** [handlers/recordings.rs] *)

Record CreateRecordingBody := mkCreateBody {
  cb_title : option string; cb_participants_expected : option Z; cb_device_id : option string;
  cb_audio_format : option string; cb_sample_rate : option Z;
}.
Record ListQuery := mkListQuery { lq_limit : option Z; lq_offset : option Z; lq_tag : option string }.
Record CompleteBody := mkCompleteBody { comp_duration_ms : option Z; comp_marks : option (list Z) }.

(** One stage as reported to the client, and the checklist of all of them. *)
Record StageProgress := mkStageProgress {
  sp_kind : JobKind; sp_state : string; sp_started_at : option Instant; sp_finished_at : option Instant;
  sp_attempts : Z; sp_error : option string;
}.
Record PipelineProgress := mkPipelineProgress {
  pp_stages : list StageProgress; pp_current : option JobKind; pp_completed : Z; pp_total : Z;
}.
Record RecordingDetail := mkDetail {
  det_recording : Recording; det_speakers : list RecordingSpeaker; det_utterances : list Utterance;
  det_summaries : list Summary; det_progress : option PipelineProgress;
}.

Definition PIPELINE_STAGES : list JobKind := [Transcode; Diarize; Transcribe; Merge; Embed; Summarize].

(** The closure of [build_progress]: the last job of the kind wins. *)
Definition stage_progress (jobs : list Job) (kind : JobKind) : StageProgress :=
  match find_last (fun j => bool_decide (job_kind j = kind)) jobs with
  | Some job => mkStageProgress kind (JobState.as_str (job_state job)) (job_locked_at job)
      (match job_state job with Done | JobFailed => Some (job_updated_at job) | _ => None end)
      (job_attempts job) (job_error job)
  | None => mkStageProgress kind "pending" None None 0 None
  end.

Definition build_progress (jobs : list Job) : PipelineProgress :=
  let stages := map (stage_progress jobs) PIPELINE_STAGES in
  mkPipelineProgress stages
    (sp_kind <$> find_first (fun x => String.eqb (sp_state x) "running") stages)
    (count (bfilter (fun x => String.eqb (sp_state x) "done") stages))
    (count PIPELINE_STAGES).

Module recordings.
Section handlers.
Context `{UuidFmt} `{UnicodeCase}.

Definition status_answer (id : Uuid) : Json :=
  JObject [("id", JString (uuid_to_string id)); ("status", JString (RecordingStatus.as_str Processing))].

(** 201 with the id and the segment upload template. *)
Definition create_recording `{BlobFs} (blobs : string) (id : Uuid) (body : option CreateRecordingBody)
    : WorldM Json :=
  let body := default (mkCreateBody None None None None None) body in
  let audio_format := match cb_audio_format body with Some f => Some f | None => Some "m4a" end in
  recording ← lift (Store.create_recording id (cb_title body) (cb_device_id body)
    (cb_participants_expected body) audio_format (cb_sample_rate body));
  _ ← lift (set_recording_storage_key (rec_id recording) (storage.storage_key (rec_id recording)));
  let seg_dir := storage.segments_dir blobs (rec_id recording) in
  _ ← create_blob_dir seg_dir;
  mret (JObject [("id", JString (uuid_to_string (rec_id recording)));
    ("status", JString (RecordingStatus.as_str Uploading));
    ("upload", JObject [("segment_url_template",
       JString ("/recordings/" +:+ uuid_to_string (rec_id recording) +:+ "/segments/{seq}"))])]).

Definition list_recordings (q : ListQuery) : DbM (list Recording) :=
  let limit := Z.max 1 (Z.min (default 50 (lq_limit q)) 500) in
  let offset := Z.max (default 0 (lq_offset q)) 0 in
  let tag := match trim <$> lq_tag q with Some t => if is_empty t then None else Some t | None => None end in
  Store.list_recordings limit offset tag.

Definition get_recording (id : Uuid) : DbM RecordingDetail :=
  recording ← Store.get_recording id;
  speakers ← list_recording_speakers id;
  utterances ← list_utterances_by_recording id;
  summaries ← list_summaries_by_recording id;
  progress ← match rec_status recording with
    | Processing | RecFailed => jobs ← Queue.list_jobs_by_recording id; mret (Some (build_progress jobs))
    | _ => mret None
    end;
  mret (mkDetail recording speakers utterances summaries progress).

(** The audio first, then the row. *)
Definition delete_recording `{BlobFs} (blobs : string) (id : Uuid) : WorldM Json :=
  _ ← lift (Store.get_recording id);
  _ ← remove_blobs (storage.recording_dir blobs id);
  _ ← lift (Store.delete_recording id);
  mret (JObject [("id", JString (uuid_to_string id)); ("deleted", JBool true)]).

Definition complete_recording (id : Uuid) (body : option CompleteBody) : DbM Json :=
  let body := default (mkCompleteBody None None) body in
  recording ← Store.get_recording id;
  if negb (bool_decide (rec_status recording = Uploading)) then
    fail_with (Conflict ("recording " +:+ uuid_to_string id +:+ " is `" +:+
      RecordingStatus.as_str (rec_status recording) +:+ "`, not `uploading`; cannot complete"))
  else
    _ ← match comp_duration_ms body with Some d => set_recording_duration id d | None => mret tt end;
    _ ← match comp_marks body with Some m => set_recording_marks id m | None => mret tt end;
    _ ← set_recording_status id Processing;
    _ ← Queue.enqueue id Transcode empty_payload;
    mret (status_answer id).

Definition reprocess_recording (id : Uuid) : DbM Json :=
  _ ← Store.get_recording id;
  _ ← reset_for_reprocess id;
  _ ← Queue.enqueue id Transcode empty_payload;
  mret (status_answer id).

Definition rediarize_recording (id : Uuid) : DbM Json :=
  _ ← Store.get_recording id;
  reset ← reset_for_rediarize id;
  if negb reset then
    fail_with (Conflict "no stored transcript to re-diarize against; use POST /recordings/{id}/reprocess")
  else
    _ ← Queue.enqueue id Diarize empty_payload;
    mret (status_answer id).

(** The template asked for: none is the default, an unknown one is refused. *)
Definition requested_template (template : option string) : result Error string :=
  let raw := trim (default "" template) in
  if is_empty raw then Ok summary_template.DEFAULT_TEMPLATE_ID
  else if summary_template.is_known raw then Ok (summary_template.canonical_id raw)
  else Err (BadRequest ("unknown summary template `" +:+ raw +:+ "`")).

Definition template_payload (template : string) : Json := JObject [("template", JString template)].

Definition summarize_recording (id : Uuid) (template : option string) : DbM Json :=
  match requested_template template with
  | Err e => fail_with e
  | Ok template =>
      _ ← Store.get_recording id;
      _ ← Queue.enqueue id Summarize (template_payload template);
      mret (JObject [("id", JString (uuid_to_string id)); ("template", JString template);
        ("status", JString "queued")])
  end.

Definition list_summary_templates : Json :=
  JObject [("templates", JArray (map (fun t =>
    JObject [("id", JString (summary_template.id t)); ("label", JString (summary_template.label t))])
    summary_template.TEMPLATES))].

(** [tags] is the body's list, empty when there is no body. *)
Definition set_recording_tags (id : Uuid) (tags : list string) : DbM Json :=
  tags ← Store.set_recording_tags id tags;
  mret (JObject [("id", JString (uuid_to_string id)); ("tags", JArray (map JString tags))]).

Definition set_participants (id : Uuid) (participants_expected : option Z) : DbM Json :=
  let answer := JObject [("id", JString (uuid_to_string id));
    ("participants_expected", json_opt_number participants_expected)] in
  let store := (_ ← set_participants_expected id participants_expected; mret answer) in
  match participants_expected with
  | Some n =>
      if negb ((1 <=? n) && (n <=? 64))
      then fail_with (BadRequest "participants_expected must be between 1 and 64") else store
  | None => store
  end.

Definition list_tags : DbM Json :=
  tags ← distinct_tags; mret (JObject [("tags", JArray (map JString tags))]).

Definition edit_utterance (id : Uuid) (utterance_id : Z) (text : string) : DbM Utterance :=
  let text := trim text in
  if is_empty text then fail_with (BadRequest "utterance text must not be empty")
  else
    updated ← update_utterance_text id utterance_id text;
    match updated with
    | Some u => mret u
    | None => fail_with (NotFound ("utterance " +:+ pretty utterance_id +:+ " not found in recording " +:+
        uuid_to_string id))
    end.
End handlers.

(** *** Translating a summary *)

Section translate.
Context `{JsonText} `{LanguageModel}.

Definition json_strings (value : Json) : list string :=
  match value with
  | JArray items => omap (fun i =>
      match i with
      | JString s => let t := trim s in if is_empty t then None else Some t
      | other => Some (json_to_string other)
      end) items
  | _ => []
  end.

Definition push_list (header : string) (value : Json) : string :=
  let items := json_strings value in
  if bool_decide (length items = 0%nat) then ""
  else header +:+ newline +:+ str_concat (map (fun i => "- " +:+ i +:+ newline) items) +:+ newline.

Definition paragraph (o : option string) : string :=
  match trim <$> o with
  | Some t => if is_empty t then "" else t +:+ newline +:+ newline
  | None => ""
  end.

Definition render_summary_block (summary : Summary) : string :=
  let topics := json_strings (sum_topics summary) in
  trim_end (paragraph (sum_title summary) +:+ paragraph (sum_summary summary) +:+
    push_list "Action items:" (sum_action_items summary) +:+ push_list "Decisions:" (sum_decisions summary) +:+
    (if bool_decide (length topics = 0%nat) then "" else "Topics: " +:+ join ", " topics +:+ newline)).

Definition translate_prompt (lang block : string) : string :=
  "Translate the following meeting summary into " +:+ lang +:+
  ". Preserve the structure and meaning. Output only the translation, no preamble." +:+
  newline +:+ newline +:+ block.

Definition translate_summary (summarize_model : string) (id : Uuid) (lang : string)
    : DbM (string * string) :=
  let lang := trim lang in
  if is_empty lang then fail_with (BadRequest "target language must not be empty")
  else
    summaries ← list_summaries_by_recording id;
    let general := find_first (fun s => bool_decide (sum_template s = Some summary_template.DEFAULT_TEMPLATE_ID))
      summaries in
    match (match general with Some s => Some s | None => head summaries end) with
    | None => fail_with (NotFound "no summary to translate")
    | Some summary =>
        match chat summarize_model [ChatMessage.system "You are a translator.";
                ChatMessage.user (translate_prompt lang (render_summary_block summary))] with
        | Ok text => mret (lang, trim text)
        | Err e => fail_with (ServiceUnavailable ("the language model is unavailable: " +:+ Error.to_string e))
        end
    end.
End translate.
End recordings.

(** ** [handlers/segments.rs] *)

Module segments.
Section handlers.
Context `{UuidFmt} `{BlobFs} `{Sha256}.

Definition ext_from_content_type (ct : string) : option string :=
  let one_of l := bool_decide (ct ∈ l) in
  if one_of ["audio/mp4"; "audio/m4a"; "audio/x-m4a"; "audio/aac"] then Some "m4a"
  else if one_of ["audio/mpeg"; "audio/mp3"] then Some "mp3"
  else if one_of ["audio/wav"; "audio/x-wav"; "audio/wave"] then Some "wav"
  else if one_of ["audio/ogg"; "audio/opus"] then Some "ogg"
  else if one_of ["audio/webm"] then Some "webm"
  else if one_of ["audio/flac"; "audio/x-flac"] then Some "flac"
  else None.

Definition audio_content_type (ext : string) : string :=
  let one_of l := bool_decide (ext ∈ l) in
  if one_of ["m4a"; "mp4"; "aac"] then "audio/mp4"
  else if one_of ["mp3"] then "audio/mpeg"
  else if one_of ["wav"] then "audio/wav"
  else if one_of ["ogg"; "opus"] then "audio/ogg"
  else if one_of ["webm"] then "audio/webm"
  else if one_of ["flac"] then "audio/flac"
  else "application/octet-stream".

(** The explicit extension wins, then the content type, then [m4a]. *)
Definition resolve_ext (ext_q : option string) (headers : string -> option string) : string :=
  let from_type :=
    match headers "content-type" with
    | Some ct => default "m4a" (ext_from_content_type (trim (split_first ";" ct)))
    | None => "m4a"
    end in
  match ext_q with
  | Some ext =>
      let ext := to_ascii_lowercase (trim_start_matches (String.eqb ".") (trim ext)) in
      if is_empty ext then from_type else ext
  | None => from_type
  end.

Definition header_i64 (headers : string -> option string) (name : string) : option Z :=
  v ← headers name; parse_i64 (trim v).

(** One chunk of the request body, or why the next could not be read. *)
Notation Chunk := (result string (list N)) (only parsing).

Definition write_chunk (tmp_path : string) (chunk : list N) : WorldM unit := fun w =>
  match fs_write_all (w_files w) tmp_path chunk with
  | (Ok _, fs) => (Ok tt, mkWorld (w_db w) fs)
  | (Err e, fs) =>
      (Err (Storage ("writing segment " +:+ tmp_path +:+ ": " +:+ e)),
       mkWorld (w_db w) (fs_remove_file fs tmp_path))
  end.

(** The loop over the body; the answer is what the hasher has been fed. *)
Fixpoint receive (tmp_path : string) (received : list N) (stream : list Chunk) : WorldM (list N) :=
  match stream with
  | [] => mret received
  | Err e :: _ => fail_with (BadRequest ("reading upload body: " +:+ e))
  | Ok chunk :: stream' =>
      _ ← write_chunk tmp_path chunk;
      receive tmp_path (received ++ chunk) stream'
  end.

Definition create_file (path : string) : WorldM unit := fun w =>
  match fs_create (w_files w) path with
  | Ok fs => (Ok tt, mkWorld (w_db w) fs)
  | Err e => (Err (Storage ("creating temp " +:+ path +:+ ": " +:+ e)), w)
  end.

Definition flush_file (path : string) : WorldM unit := fun w =>
  (match fs_flush (w_files w) path with
   | Ok _ => Ok tt
   | Err e => Err (Storage ("flushing " +:+ path +:+ ": " +:+ e))
   end, w).

Definition arrow : string :=
  String " "%char (String (ascii_of_N 226) (String (ascii_of_N 134) (String (ascii_of_N 146) " "))).

Definition rename_file (from to : string) : WorldM unit := fun w =>
  match fs_rename (w_files w) from to with
  | Ok fs => (Ok tt, mkWorld (w_db w) fs)
  | Err e => (Err (Storage ("renaming " +:+ from +:+ arrow +:+ to +:+ ": " +:+ e)), w)
  end.

Definition tmp_path (blobs : string) (id : Uuid) (seq : Z) (ext : string) : string :=
  storage.path_join (storage.segments_dir blobs id) ("." +:+ pad06 seq +:+ "." +:+ ext +:+ ".partial").

(** The body arrives in a file of its own and is published by a rename. *)
Definition store_body (blobs : string) (id : Uuid) (seq : Z) (ext : string) (stream : list Chunk)
    : WorldM (list N) :=
  let tmp := tmp_path blobs id seq ext in
  _ ← create_blob_dir (storage.segments_dir blobs id);
  _ ← create_file tmp;
  received ← receive tmp [] stream;
  _ ← flush_file tmp;
  _ ← rename_file tmp (storage.segment_path blobs id seq ext);
  mret received.

(** What happens to the database while the body arrives, and to the two
    statements that follow it: [None] when the statement gets through. *)
Record Amid := mkAmid {
  left_by_others : Db -> Db; insert_lost : option Error; enqueue_lost : option Error;
}.
Definition undisturbed : Amid := mkAmid (fun s => s) None None.

Definition others_act (f : Db -> Db) : WorldM unit := fun w => (Ok tt, mkWorld (f (w_db w)) (w_files w)).
Definition over_link {A} (lost : option Error) (m : DbM A) : DbM A :=
  match lost with Some e => fail_with e | None => m end.

Definition put_segment_amid (amid : Amid) (blobs : string) (segment_id id : Uuid) (seq : Z) (ext_q : option string)
    (headers : string -> option string) (stream : list Chunk) : WorldM Json :=
  recording ← lift (get_recording id);
  let ext := resolve_ext ext_q headers in
  let start_ms := header_i64 headers "x-segment-start-ms" in
  let duration_ms := header_i64 headers "x-segment-duration-ms" in
  _ ← others_act (left_by_others amid);
  received ← store_body blobs id seq ext stream;
  let bytes_written := count received in
  let storage_key := storage.segment_key id seq ext in
  _ ← lift (over_link (insert_lost amid)
        (insert_segment segment_id id seq storage_key start_ms duration_ms (Some bytes_written) (Some (sha256 received))));
  _ ← (if bool_decide (rec_status recording = Uploading)
       then lift (ignore_err (over_link (enqueue_lost amid) (Queue.enqueue id TranscribeSegment empty_payload))) else mret tt);
  mret (JObject [("seq", JNumber (pretty seq)); ("bytes", JNumber (pretty bytes_written));
    ("storage_key", JString storage_key)]).

Definition put_segment : string -> Uuid -> Uuid -> Z -> option string -> (string -> option string) -> list Chunk -> WorldM Json :=
  put_segment_amid undisturbed.

Definition get_segment (blobs : string) (id : Uuid) (seq : Z) (range_header : option string)
    : WorldM Response :=
  segments ← lift (list_segments_by_recording id);
  match find_first (fun s => seg_seq s =? seq) segments with
  | None => fail_with (NotFound ("segment " +:+ pretty seq +:+ " of recording " +:+ uuid_to_string id))
  | Some segment =>
      let path := storage.resolve_key blobs (seg_storage_key segment) in
      let ext := to_ascii_lowercase (default "m4a" (path_extension path)) in
      file ← read_file path;
      of_result (serve_file_range path (audio_content_type ext) range_header (Ok file))
  end.
End handlers.
End segments.

(** ** [handlers/schedule.rs] *)

Record SetScheduleRequest := mkSetSchedule {
  req_enabled : bool; req_days : list DayWindow; req_grace_minutes : Z;
}.
Inductive OverrideAction := ActRun | ActPause | ActClear.
Record OverrideRequest := mkOverrideRequest { req_mode : OverrideAction; req_minutes : option Z }.

Record ScheduleStatus := mkScheduleStatus {
  st_decision : ScheduleDecision; st_next_change_at : option Instant; st_server_time : string;
}.
Record ScheduleResponse := mkScheduleResponse {
  sr_schedule : ProcessingSchedule; sr_status : ScheduleStatus; sr_backlog : QueueBacklog;
}.

(** chrono's rendering of the local time. *)
Class LocalTimeFmt := format_local : Instant -> string.

Module schedule.
Definition NOTIFY_PAYLOAD : string := "schedule".
Definition default_grace : Z := 10.

Section handlers.
Context `{Calendar} `{LocalTimeFmt} `{SerdeJson ProcessingSchedule}.

(** The readings of the clocks while the response is built. *)
Record Now := mkNow { now_utc : Instant; now_local : Instant }.

Definition build_response (now : Now) (schedule : ProcessingSchedule) (backlog : QueueBacklog)
    : ScheduleResponse :=
  let decision := ProcessingSchedule.decide schedule (now_local now) (now_utc now) in
  let next_change_at := (fun secs => now_utc now + secs * NANOS_PER_SEC) <$> dec_next_change_secs decision in
  mkScheduleResponse schedule (mkScheduleStatus decision next_change_at (format_local (now_local now))) backlog.

Definition bad_day (d : DayWindow) : bool := (MINUTES_PER_DAY <? day_start d) || (MINUTES_PER_DAY <? day_end d).

Fixpoint check_days (i : nat) (days : list DayWindow) : result Error unit :=
  match days with
  | [] => Ok tt
  | d :: days' =>
      if bad_day d then Err (BadRequest ("day " +:+ pretty i +:+ ": start and end must be between 0 and " +:+
        pretty MINUTES_PER_DAY +:+ " minutes"))
      else check_days (S i) days'
  end.

Definition validate_days (days : list DayWindow) : result Error unit :=
  if negb (bool_decide (length days = 7%nat)) then
    Err (BadRequest ("days must have exactly 7 entries (Monday first), got " +:+ pretty (length days)))
  else check_days 0 days.

Definition wake_workers : DbM unit := ignore_err (Queue.notify_workers NOTIFY_PAYLOAD).

Definition get_schedule (utc : Instant) (now : Now) : DbM ScheduleResponse :=
  schedule ← processing_schedule utc;
  backlog ← Queue.backlog;
  mret (build_response now schedule backlog).

(** What both writers end with; [utc] is when the document is normalized. *)
Definition save (utc : Instant) (now : Now) (schedule : ProcessingSchedule) : DbM ScheduleResponse :=
  saved ← set_processing_schedule utc schedule;
  _ ← wake_workers;
  backlog ← Queue.backlog;
  mret (build_response now saved backlog).

Definition set_schedule (utc_read utc_write : Instant) (now : Now) (req : SetScheduleRequest)
    : DbM ScheduleResponse :=
  match validate_days (req_days req) with
  | Err e => fail_with e
  | Ok _ =>
      if 24 * 60 <? req_grace_minutes req
      then fail_with (BadRequest "grace_minutes must be 1440 or less")
      else
        existing ← processing_schedule utc_read;
        save utc_write now (mkSchedule (req_enabled req) (req_days req) (req_grace_minutes req)
          (sched_override existing))
  end.

Definition requested_override (utc : Instant) (req : OverrideRequest) : result Error (option ScheduleOverride) :=
  let timed mode :=
    let minutes := default 60 (req_minutes req) in
    if (minutes <? 1) || (MAX_OVERRIDE_MINUTES <? minutes)
    then Err (BadRequest ("minutes must be between 1 and " +:+ pretty MAX_OVERRIDE_MINUTES))
    else Ok (Some (mkOverride mode (utc + minutes * NANOS_PER_MINUTE))) in
  match req_mode req with
  | ActClear => Ok None
  | ActRun => timed Run
  | ActPause => timed Pause
  end.

Definition set_override (utc_read utc_set utc_write : Instant) (now : Now) (req : OverrideRequest)
    : DbM ScheduleResponse :=
  schedule ← processing_schedule utc_read;
  match requested_override utc_set req with
  | Err e => fail_with e
  | Ok o => save utc_write now (mkSchedule (sched_enabled schedule) (sched_days schedule)
      (sched_grace_minutes schedule) o)
  end.
End handlers.
End schedule.

(** ** [handlers/speakers.rs] *)

Record SpeakerView := mkSpeakerView {
  sv_id : Uuid; sv_display_name : string; sv_created_at : Instant; sv_has_voiceprint : bool;
  sv_recording_count : Z;
}.
Record NameBody := mkNameBody {
  nb_name : option string; nb_speaker_id : option Uuid; nb_enroll : bool; nb_replace_voiceprint : bool;
}.
(** The answer to naming a speaker. *)
Record Named := mkNamed {
  nm_local_idx : Z; nm_already_enrolled_as : option string; nm_speaker_id : Uuid;
  nm_display_name : string; nm_enrolled : bool;
}.

Module speakers.
Section handlers.
Context `{UuidFmt} `{UnicodeCase} `{PgVector}.

Definition view (speaker : Speaker) (recording_count : Z) : SpeakerView :=
  mkSpeakerView (spk_id speaker) (spk_display_name speaker) (spk_created_at speaker)
    (bool_decide (is_Some (spk_embedding speaker))) recording_count.

Definition delete_recording_speaker (id : Uuid) (local_idx : Z) : DbM Json :=
  _ ← get_recording id;
  removed ← Store.delete_recording_speaker id local_idx;
  _ ← mfor [Embed; Summarize] (fun kind => _ ← Queue.enqueue id kind empty_payload; mret tt);
  mret (JObject [("id", JString (uuid_to_string id)); ("local_idx", JNumber (pretty local_idx));
    ("utterances_removed", JNumber (pretty removed))]).

(** The identity asked for: an id of the library, a name in it, or a new one;
    [new_id] is the uuid a new one gets. *)
Definition identity_for (new_id : Uuid) (body : NameBody) (name : string) (voice : option (list f32))
    : DbM Speaker :=
  match nb_speaker_id body with
  | Some speaker_id => get_speaker speaker_id
  | None =>
      library ← list_speakers;
      match find_first (fun s => eq_ignore_ascii_case (spk_display_name s) name) library with
      | Some s => mret s
      | None => create_speaker new_id name (if nb_enroll body then voice else None)
      end
  end.

(** [if let Ok(Some((other, _))) = ... { if other.id != speaker.id { ... } }] *)
Definition resembles (speaker : Speaker) (voice : list f32) : DbM (option string) :=
  nearest ← attempt (nearest_enrolled voice DUPLICATE_VOICE_SIMILARITY);
  mret (match nearest with
    | Ok (Some (other, _)) =>
        if bool_decide (spk_id other = spk_id speaker) then None else Some (spk_display_name other)
    | _ => None
    end).

(** What the voice teaches the identity: is it enrolled, and whom it resembles. *)
Definition learn_voice (body : NameBody) (speaker : Speaker) (voice : option (list f32))
    : DbM (bool * option string) :=
  let enrolled := bool_decide (is_Some (spk_embedding speaker)) in
  match voice with
  | Some voice =>
      if nb_enroll body && (negb enrolled || nb_replace_voiceprint body) then
        other ← resembles speaker voice;
        _ ← set_speaker_embedding (spk_id speaker) voice;
        mret (true, other)
      else mret (enrolled, None)
  | None => mret (enrolled, None)
  end.

Definition name_speaker (new_id : Uuid) (id : Uuid) (local_idx : Z) (body : NameBody) : DbM Named :=
  let name := trim (default "" (nb_name body)) in
  if is_empty name && bool_decide (nb_speaker_id body = None)
  then fail_with (BadRequest "one of name or speaker_id is required")
  else
    rec_speakers ← list_recording_speakers id;
    match find_first (fun s => rs_local_idx s =? local_idx) rec_speakers with
    | None => fail_with (NotFound ("speaker " +:+ pretty local_idx +:+ " not found in recording " +:+
        uuid_to_string id))
    | Some rec_speaker =>
        speaker ← identity_for new_id body name (rs_embedding rec_speaker);
        learned ← learn_voice body speaker (rs_embedding rec_speaker);
        _ ← set_recording_speaker id local_idx (Some (spk_id speaker));
        mret (mkNamed local_idx (snd learned) (spk_id speaker) (spk_display_name speaker) (fst learned))
    end.

Definition unname_speaker (id : Uuid) (local_idx : Z) : DbM Json :=
  _ ← set_recording_speaker id local_idx None;
  mret (JObject [("local_idx", JNumber (pretty local_idx)); ("speaker_id", JNull)]).

Definition list_speakers : DbM (list SpeakerView) :=
  speakers ← list_speakers_with_usage; mret (map (fun '(s, n) => view s n) speakers).

Definition rename_speaker (id : Uuid) (name : string) : DbM SpeakerView :=
  let name := trim name in
  if is_empty name then fail_with (BadRequest "name must not be empty")
  else
    _ ← Store.rename_speaker id name;
    speaker ← get_speaker id;
    usage ← list_speakers_with_usage;
    mret (view speaker (default 0 (snd <$> find_first (fun x => bool_decide (spk_id (fst x) = id)) usage))).

Definition delete_speaker (id : Uuid) : DbM Json :=
  _ ← Store.delete_speaker id;
  mret (JObject [("id", JString (uuid_to_string id)); ("deleted", JBool true)]).
End handlers.
End speakers.
