(* ===== verification/ApiProps.v ===== *)
(** * What the API's handlers promise *)

From Stdlib Require Import Ascii String SpecFloat.
From S2P Require Import Prelude RustStr Types Llm Schedule Db DbSchema Queue QueueSteps Store StoreProps Worker.
From S2P Require Import Summarize Stages StagesProps Http Api.

#[local] Arguments String.append !_ _ /.

(** ** Enqueueing from a handler *)

(** Everything but the queue and its notifications. *)
Definition but_jobs (s : Db) : Db := set_jobs [] (set_next_job 0 (set_notified [] s)).

Lemma enqueue_frame r k payload s : but_jobs (snd (Queue.enqueue r k payload s)) = but_jobs s.
Proof.
  unfold Queue.enqueue. rewrite enqueue_state. unfold Queue.insert_job. cbn zeta.
  case_bool_decide; [done|]. by destruct (negb _).
Qed.

(** A handler's enqueueing on a recording that exists: one live job of the kind,
    no job lost, nothing but the queue touched. *)
Lemma enqueue_ok r k payload s :
  schema_ok s -> fk s r ->
  exists j s', Queue.enqueue r k payload s = (Ok j, s') /\ but_jobs s' = but_jobs s /\
    j ∈ db_jobs s' /\ live_key j = Some (r, k) /\
    (db_jobs s' = db_jobs s \/
     ((r, k) ∉ live_keys (db_jobs s) /\ db_jobs s' = db_jobs s ++ [j] /\ job_payload j = payload)).
Proof.
  intros Hs Hr. destruct (enqueue_answers r k payload 0 s Hs Hr) as (j & s' & Heq & Hj & Hk & Hjobs & _).
  exists j, s'. split; [done|]. split; [|split; [done|split; [done|]]].
  - pose proof (enqueue_frame r k payload s) as Hf. unfold Queue.enqueue in Hf. by rewrite Heq in Hf.
  - destruct Hjobs as [?|(Hno & -> & Ha)]; [by left|right; by auto].
Qed.

Lemma but_jobs_recordings s s' : but_jobs s' = but_jobs s -> db_recordings s' = db_recordings s.
Proof. intros H. change (db_recordings (but_jobs s') = db_recordings (but_jobs s)). by rewrite H. Qed.

Section handlers.
Context `{UuidFmt}.

Lemma get_recording_eq id s :
  get_recording id s = (match db_recordings s !! id with Some row => Ok (rr_rec row)
                        | None => Err (recording_not_found id) end, s).
Proof. unfold get_recording. by destruct (_ !! _). Qed.

Lemma row_then {A} id f (k : unit -> DbM A) s row :
  db_recordings s !! id = Some row ->
  ((affected ← update_recording id always f; not_found_if_zero affected id) ≫= k) s =
  k tt (set_recordings (<[id := f row]> (db_recordings s)) s).
Proof. intros Hr. apply bind_ok. by rewrite update_or_not_found, Hr. Qed.

(** The row of a recording that has been completed. *)
Definition completed_row (body : option CompleteBody) (row : RecordingRow) : RecordingRow :=
  let b := default (mkCompleteBody None None) body in
  let row := match comp_duration_ms b with Some d => with_duration d row | None => row end in
  let row := match comp_marks b with Some m => with_marks m row | None => row end in
  with_status Processing row.

Lemma complete_row_steps {A} id body (k : unit -> DbM A) s row :
  db_recordings s !! id = Some row ->
  let b := default (mkCompleteBody None None) body in
  (_ ← match comp_duration_ms b with Some d => set_recording_duration id d | None => mret tt end;
   _ ← match comp_marks b with Some m => set_recording_marks id m | None => mret tt end;
   set_recording_status id Processing ≫= k) s =
  k tt (set_recordings (<[id := completed_row body row]> (db_recordings s)) s).
Proof.
  intros Hr b. unfold completed_row. fold b.
  unfold set_recording_duration, set_recording_marks, set_recording_status.
  destruct (comp_duration_ms b) as [d|], (comp_marks b) as [m|]; rewrite ?bind_mret;
    rewrite (row_then id _ _ s row Hr); rewrite ?bind_mret; [| | |done].
  - rewrite (row_then id _ _ _ (with_duration d row)) by (cbn; apply lookup_insert_eq).
    rewrite (row_then id _ _ _ (with_marks m (with_duration d row))) by (cbn; apply lookup_insert_eq).
    cbn. by rewrite !insert_insert_eq.
  - rewrite (row_then id _ _ _ (with_duration d row)) by (cbn; apply lookup_insert_eq).
    cbn. by rewrite !insert_insert_eq.
  - rewrite (row_then id _ _ _ (with_marks m row)) by (cbn; apply lookup_insert_eq).
    cbn. by rewrite !insert_insert_eq.
Qed.

(** A recording is completed once.  Completing one that is uploading
    stores what the body gives, marks it [processing] and leaves a live
    transcode job, no other table, recording or job changing; from then on, and
    for a recording in any other state, completing is a conflict that changes
    nothing, and for an unknown one it is not found. *)
Theorem complete_recording_spec id body s :
  schema_ok s ->
  match db_recordings s !! id with
  | None => recordings.complete_recording id body s = (Err (recording_not_found id), s)
  | Some row =>
      (rec_status (rr_rec row) <> Uploading ->
         exists m, recordings.complete_recording id body s = (Err (Conflict m), s)) /\
      (rec_status (rr_rec row) = Uploading ->
         exists s', recordings.complete_recording id body s = (Ok (recordings.status_answer id), s') /\
           db_recordings s' = <[id := completed_row body row]> (db_recordings s) /\
           but_jobs (set_recordings ∅ s') = but_jobs (set_recordings ∅ s) /\
           (exists j, j ∈ db_jobs s' /\ live_key j = Some (id, Transcode)) /\
           (forall j, j ∈ db_jobs s -> j ∈ db_jobs s') /\
           forall again, exists m, recordings.complete_recording id again s' = (Err (Conflict m), s'))
  end.
Proof.
  intros Hs. destruct (db_recordings s !! id) as [row|] eqn:Hr.
  2:{ unfold recordings.complete_recording. apply bind_err. by rewrite get_recording_eq, Hr. }
  assert (Hconflict : forall b s0 row0, db_recordings s0 !! id = Some row0 -> rec_status (rr_rec row0) <> Uploading ->
    exists m, recordings.complete_recording id b s0 = (Err (Conflict m), s0)).
  { intros b s0 row0 Hr0 Hst. eexists. unfold recordings.complete_recording.
    rewrite (bind_ok _ _ _ (rr_rec row0) s0) by (by rewrite get_recording_eq, Hr0).
    by rewrite bool_decide_eq_false_2. }
  split; [intros Hst; by eapply Hconflict|]. intros Hst.
  set (s1 := set_recordings (<[id := completed_row body row]> (db_recordings s)) s).
  assert (Hs1 : schema_ok s1).
  { apply schema_ok_recordings; [done|intros k; apply fk_insert|]. apply map_Forall_insert_2; [|by apply recordings_key].
    unfold completed_row. destruct (comp_duration_ms _), (comp_marks _); cbn; by apply (recordings_key s Hs). }
  destruct (enqueue_ok id Transcode empty_payload s1 Hs1) as (j & s' & Heq & Hframe & Hj & Hk & Hjobs).
  { unfold fk. cbn. rewrite lookup_insert_eq. by eexists. }
  exists s'. assert (Hrec : db_recordings s' = <[id := completed_row body row]> (db_recordings s))
    by (apply (but_jobs_recordings _ _ Hframe)).
  split; [|split; [done|split; [|split; [by exists j|split]]]].
  - unfold recordings.complete_recording. rewrite (bind_ok _ _ _ (rr_rec row) s) by (by rewrite get_recording_eq, Hr).
    rewrite bool_decide_eq_true_2 by done. cbn [negb]. rewrite (complete_row_steps id body _ s row Hr).
    fold s1. by rewrite (bind_ok _ _ _ _ _ Heq).
  - transitivity (set_recordings ∅ (but_jobs s')); [done|]. rewrite Hframe. done.
  - intros j0 Hj0. destruct Hjobs as [->|(_ & -> & _)]; [done|]. apply elem_of_app. by left.
  - intros again. eapply (Hconflict again); [by rewrite Hrec, lookup_insert_eq|]. done.
Qed.
End handlers.

(** ** Uploading a segment *)

(** What [Path::join] puts before a relative path. *)
Definition join_base (base : string) : string :=
  if is_empty base then ""
  else if String.eqb (trim_end_matches (String.eqb "/") base) base then base +:+ "/" else base.

Definition relative (p : string) : Prop := forall p', p <> String "/" p'.

Lemma path_join_rel base p : relative p -> storage.path_join base p = join_base base +:+ p.
Proof.
  intros Hp. unfold join_base.
  assert (Hgo : storage.path_join base p =
    if is_empty base then p
    else if String.eqb (trim_end_matches (String.eqb "/") base) base then base +:+ "/" +:+ p else base +:+ p).
  { unfold storage.path_join. destruct p as [|a p]; [done|].
    destruct (Ascii.eqb_spec a "/") as [->|Ha]; [by destruct (Hp p)|].
    destruct a as [[] [] [] [] [] [] [] []]; try done. }
  rewrite Hgo. destruct (is_empty base); [done|]. destruct (String.eqb _ _); [|done]. by rewrite <- append_assoc.
Qed.

Lemma zeros_digits n : all_bytes is_digit (zeros n) = true.
Proof. induction n; [done|]. cbn [zeros all_bytes]. by rewrite IHn. Qed.

(** A padded number starts with a digit or a minus sign. *)
Lemma pad06_head n : exists a s, pad06 n = String a s /\ a <> "/"%char /\ a <> "."%char.
Proof.
  unfold pad06. set (digits := pretty (Z.abs n)). destruct (n <? 0); [by eexists _, _|]. cbn [String.append String.length].
  assert (Hd : all_bytes is_digit (zeros (6 - (0 + String.length digits)) +:+ digits) = true).
  { rewrite all_bytes_app, zeros_digits. apply pretty_digits. lia. }
  destruct (zeros (6 - (0 + String.length digits)) +:+ digits) as [|a s] eqn:E.
  - exfalso. destruct digits; [done|]. cbn in E. destruct (5 - String.length digits)%nat; done.
  - exists a, s. split; [done|]. cbn in Hd. apply andb_true_iff in Hd as [Ha _].
    split; intros ->; done.
Qed.

Section upload.
Context `{BlobFsLaws} `{UuidFmt}.

Lemma tmp_not_final blobs id seq ext :
  segments.tmp_path blobs id seq ext <> storage.segment_path blobs id seq ext.
Proof.
  unfold segments.tmp_path, storage.segment_path. destruct (pad06_head seq) as (a & s & -> & Hslash & Hdot).
  rewrite !path_join_rel by (intros p' Hp; by inversion Hp).
  intros Heq. apply (inj (String.append _)) in Heq. by inversion Heq.
Qed.

(** The files a step may have changed. *)
Definition only_at (p : string) (w w' : World) : Prop :=
  w_db w' = w_db w /\ forall q, q <> p -> w_files w' !! q = w_files w !! q.

Lemma receive_spec tmp received stream w :
  w_files w !! tmp = Some received ->
  match segments.receive tmp received stream w with
  | (Ok out, w') => exists chunks, stream = map Ok chunks /\ out = received ++ concat chunks /\
      w' = mkWorld (w_db w) (<[tmp := out]> (w_files w))
  | (Err _, w') => only_at tmp w w'
  end.
Proof.
  revert received w. induction stream as [|[chunk|e] stream IH]; intros received w Hw; cbn [segments.receive].
  - exists []. cbn. rewrite app_nil_r, insert_id by done. by destruct w.
  - unfold mbind, M_bind, segments.write_chunk.
    destruct (fs_write_all (w_files w) tmp chunk) as [[[]|e] fs] eqn:E.
    + apply (write_law _ _ _ _ _ Hw) in E as ->.
      specialize (IH (received ++ chunk) (mkWorld (w_db w) (<[tmp := received ++ chunk]> (w_files w)))
        (lookup_insert_eq _ _ _)).
      destruct (segments.receive _ _ _ _) as [[out|e] w'].
      * destruct IH as (chunks & -> & -> & ->). exists (chunk :: chunks). cbn. split; [done|].
        by rewrite <- app_assoc, insert_insert_eq.
      * destruct IH as [Hdb Hf]. split; [done|]. intros q Hq. rewrite Hf by done. cbn. by rewrite lookup_insert_ne.
    + split; [done|]. intros q Hq. cbn. rewrite remove_other by done.
      pose proof (write_other (w_files w) tmp chunk q Hq) as Ho. by rewrite E in Ho.
  - by split.
Qed.

Lemma store_body_spec blobs id seq ext stream w :
  let tmp := segments.tmp_path blobs id seq ext in
  match segments.store_body blobs id seq ext stream w with
  | (Ok out, w') => exists chunks, stream = map Ok chunks /\ out = concat chunks /\
      w' = mkWorld (w_db w) (<[storage.segment_path blobs id seq ext := out]> (delete tmp (w_files w)))
  | (Err _, w') => only_at tmp w w'
  end.
Proof.
  intros tmp. unfold segments.store_body. fold tmp.
  unfold mbind at 1, M_bind at 1, create_blob_dir. destruct (fs_create_dir_all _ _); [|by split].
  unfold mbind at 1, M_bind at 1, segments.create_file. destruct (fs_create (w_files w) tmp) as [fs|e] eqn:E; [|by split].
  apply create_law in E as ->. set (w1 := mkWorld (w_db w) (<[tmp := []]> (w_files w))).
  pose proof (receive_spec tmp [] stream w1 (lookup_insert_eq _ _ _)) as Hr.
  unfold mbind at 1, M_bind at 1. destruct (segments.receive tmp [] stream w1) as [[out|e] w2].
  - destruct Hr as (chunks & -> & -> & ->). cbn [app]. unfold mbind at 1, M_bind at 1, segments.flush_file.
    assert (Hother : only_at tmp w (mkWorld (w_db w1) (<[tmp := concat chunks]> (w_files w1)))).
    { split; [done|]. intros q Hq. cbn. by rewrite !lookup_insert_ne. }
    destruct (fs_flush _ _); [|done]. unfold mbind at 1, M_bind at 1, segments.rename_file. cbn [w_files w_db].
    destruct (fs_rename _ _ _) as [fs|e] eqn:E; [|done].
    eapply rename_law in E as ->; [|apply lookup_insert_eq]. exists chunks. split; [done|]. split; [done|]. cbn.
    by rewrite insert_insert_eq, delete_insert_eq.
  - destruct Hr as [Hdb Hf]. split; [done|]. intros q Hq. rewrite Hf by done. cbn. by rewrite lookup_insert_ne.
Qed.
End upload.

(** ** The path a key resolves to *)

Lemma chars_snoc s a : is_cont a = false -> chars (s +:+ String a "") = chars s ++ [String a ""].
Proof.
  intros Ha. induction s as [|b s IH]; [done|]. cbn [String.append chars]. rewrite IH.
  destruct (chars s) as [|c cs]; cbn [app]; [cbn [starts_cont]; by rewrite Ha|]. by destruct (starts_cont c).
Qed.

Lemma string_snoc s : s <> "" -> exists s' a, s = s' +:+ String a "".
Proof.
  induction s as [|a s IH]; [done|]. intros _. destruct (decide (s = "")) as [->|Hs]; [by exists "", a|].
  destruct (IH Hs) as (s' & b & ->). by exists (String a s'), b.
Qed.

Lemma join_base_snoc s a : is_cont a = false -> a <> "/"%char ->
  join_base (s +:+ String a "") = s +:+ String a "" +:+ "/".
Proof.
  intros Hc Ha. unfold join_base. destruct (is_empty (s +:+ String a "")) eqn:E.
  { apply String.eqb_eq in E. by destruct s. }
  rewrite (proj2 (String.eqb_eq _ _)); [by rewrite append_assoc|].
  unfold trim_end_matches, drop_while_end. rewrite chars_snoc, reverse_snoc by done. cbn [drop_while].
  destruct (String.eqb_spec "/" (String a "")) as [Heq|]; [by inversion Heq; subst|].
  by rewrite reverse_cons, reverse_involutive, <- chars_snoc, concat_chars.
Qed.

(** The text of a uuid, as far as paths care. *)
Definition path_byte (a : ascii) : bool := (byte_of a <? 128)%N && negb (Ascii.eqb a "/").
Definition path_component (s : string) : Prop := s <> "" /\ all_bytes path_byte s = true.

Lemma path_byte_ok a : path_byte a = true -> is_cont a = false /\ a <> "/"%char.
Proof.
  unfold path_byte, is_cont. intros [H1 H2]%andb_prop. apply N.ltb_lt in H1. apply negb_true_iff, Ascii.eqb_neq in H2.
  split; [|done]. by rewrite (proj2 (N.leb_gt 128 _)) by lia.
Qed.

Lemma join_base_component s c : path_component c -> join_base (s +:+ c) = s +:+ c +:+ "/".
Proof.
  intros [Hne Hc]. destruct (string_snoc c Hne) as (c' & a & ->). rewrite all_bytes_app in Hc.
  apply andb_prop in Hc as [_ Ha]. cbn [all_bytes] in Ha. rewrite andb_true_r in Ha. apply path_byte_ok in Ha as [? ?].
  rewrite <- append_assoc, join_base_snoc by done. by rewrite !append_assoc.
Qed.

Lemma component_relative c s : path_component c -> relative (c +:+ s).
Proof.
  intros [Hne Hc] p' Hp. destruct c as [|a c]; [done|]. inversion Hp; subst. cbn in Hc. done.
Qed.

(** The key stored for a segment leads back to the file it was written to. *)
Lemma resolve_segment_key `{UuidFmt} blobs id seq ext :
  path_component (uuid_to_string id) ->
  storage.resolve_key blobs (storage.segment_key id seq ext) = storage.segment_path blobs id seq ext.
Proof.
  intros Hu. assert (Hs : path_component "segments") by done.
  unfold storage.resolve_key, storage.segment_key, storage.segment_path, storage.segments_dir, storage.recording_dir.
  destruct (pad06_head seq) as (a & s & Hp & Hslash & _).
  rewrite (path_join_rel blobs (uuid_to_string id)) by (rewrite <- (append_nil_r (uuid_to_string id)); by apply component_relative).
  rewrite (path_join_rel _ "segments") by done.
  rewrite (path_join_rel _ (pad06 seq +:+ _)) by (rewrite Hp; intros p' Hq; by inversion Hq).
  rewrite (join_base_component _ "segments" Hs), (join_base_component _ _ Hu).
  rewrite path_join_rel by (by apply component_relative). by rewrite !append_assoc.
Qed.

(** ** What an upload leaves *)

Definition others (k : Uuid * Z) (segs : list SegmentRow) : list SegmentRow :=
  bfilter (fun x => negb (bool_decide (seg_key x = k))) segs.

Lemma bfilter_map_other {A} (p : A -> bool) (f : A -> A) l :
  (forall x, p (f x) = p x) -> (forall x, p x = true -> f x = x) -> bfilter p (map f l) = bfilter p l.
Proof.
  intros Hp Hf. unfold bfilter. induction l as [|x l IH]; [done|]. cbn. rewrite Hp, IH.
  destruct (p x) eqn:E; [by rewrite Hf|done].
Qed.

Lemma insert_segment_ok id r q key st du by_ sha s :
  fk s r -> id ∉ map (fun x => seg_id (sr_seg x)) (db_segments s) ->
  exists g segs, insert_segment id r q key st du by_ sha s = (Ok g, set_segments segs s) /\
    (exists x, x ∈ segs /\ seg_key x = (r, q) /\ sr_seg x = g) /\ others (r, q) segs = others (r, q) (db_segments s) /\
    seg_storage_key g = key /\ seg_bytes g = by_ /\ seg_sha256 g = sha.
Proof.
  intros Hr Hid. unfold insert_segment. destruct (find_first _ _) as [old|] eqn:E.
  - apply find_first_Some in E as [Hin Hk%bool_decide_eq_true_1]. eexists _, _. split; [reflexivity|].
    split; [|split; [|done]].
    + exists (mkSegmentRow (mkSegment (seg_id (sr_seg old)) r q key st du by_ sha (db_now s)) (sr_transcribed_at old)).
      split; [|done]. apply list_elem_of_fmap. exists old. split; [|done]. by rewrite bool_decide_eq_true_2.
    + unfold others. apply bfilter_map_other; intros x; destruct (decide (seg_key x = (r, q))) as [Hx|Hx];
        rewrite ?(bool_decide_eq_true_2 _ Hx), ?(bool_decide_eq_false_2 _ Hx); [|done..].
      unfold seg_key. cbn. by rewrite bool_decide_eq_true_2.
  - unfold recording_exists. rewrite bool_decide_eq_true_2 by done. cbn [negb].
    rewrite bool_decide_eq_false_2 by done. eexists _, _. split; [reflexivity|]. split; [|split; [|done]].
    + eexists. split; [apply elem_of_app; right; by left|]. by split.
    + unfold others. rewrite bfilter_app. cbn. unfold seg_key at 2. cbn. rewrite bool_decide_eq_true_2 by done.
      by rewrite app_nil_r.
Qed.

Lemma lift_then {A B} (m : DbM A) (k : A -> WorldM B) w a s :
  m (w_db w) = (Ok a, s) -> (lift m ≫= k) w = k a (mkWorld s (w_files w)).
Proof. intros Hm. unfold mbind, M_bind, lift. by rewrite Hm. Qed.

Section put.
Context `{BlobFsLaws} `{Sha256} `{UuidFmt}.

(** Without its recording a segment is refused. *)
Lemma insert_segment_orphan id r q key st du by_ sha s :
  schema_ok s -> db_recordings s !! r = None -> insert_segment id r q key st du by_ sha s = (Err foreign_key_error, s).
Proof.
  intros Hs Hr. unfold insert_segment. destruct (find_first _ _) as [old|] eqn:E.
  - exfalso. apply find_first_Some in E as [Hin Hk%bool_decide_eq_true_1]. pose proof (segments_fk s Hs) as F.
    rewrite Forall_forall in F. destruct (F old Hin) as [row Hrow]. injection Hk as Hk _. congruence.
  - unfold recording_exists. by rewrite Hr, bool_decide_eq_false_2 by (by intros [? ?]).
Qed.

Lemma enqueue_lost_ok amid id s : schema_ok s -> fk s id ->
  exists s', ignore_err (segments.over_link (segments.enqueue_lost amid) (Queue.enqueue id TranscribeSegment empty_payload)) s = (Ok tt, s') /\
    but_jobs s' = but_jobs s /\ (forall j, j ∈ db_jobs s -> j ∈ db_jobs s') /\ schema_ok s' /\
    (segments.enqueue_lost amid = None -> exists j, j ∈ db_jobs s' /\ live_key j = Some (id, TranscribeSegment)).
Proof.
  intros Hs Hfk. destruct (segments.enqueue_lost amid) as [e|] eqn:E; [by exists s|].
  destruct (enqueue_ok id TranscribeSegment empty_payload s Hs Hfk) as (j & s' & Heq & Hframe & Hj & Hlk & Hjobs).
  exists s'. split; [unfold ignore_err, segments.over_link; by rewrite Heq|]. split; [done|]. split; [|split; [|by intros _; exists j]].
  - intros j0 Hj0. destruct Hjobs as [->|(_ & -> & _)]; [done|]. apply elem_of_app. by left.
  - pose proof (enqueue_schema id TranscribeSegment empty_payload 0 _ Hs) as Hp. unfold Queue.enqueue in Heq. by rewrite Heq in Hp.
Qed.

Lemma put_segment_state amid blobs sid id seq ext_q headers stream w :
  let w1 := mkWorld (segments.left_by_others amid (w_db w)) (w_files w) in
  schema_ok (w_db w1) -> sid ∉ map (fun x => seg_id (sr_seg x)) (db_segments (w_db w1)) ->
  let ext := segments.resolve_ext ext_q headers in
  let tmp := segments.tmp_path blobs id seq ext in
  let published chunks := <[storage.segment_path blobs id seq ext := concat chunks]> (delete tmp (w_files w)) in
  match segments.put_segment_amid amid blobs sid id seq ext_q headers stream w with
  | (Err _, w') => (w' = w /\ db_recordings (w_db w) !! id = None) \/ only_at tmp w1 w' \/
      (exists chunks, stream = map Ok chunks /\ w_files w' = published chunks /\ w_db w' = w_db w1 /\
         (is_Some (segments.insert_lost amid) \/ db_recordings (w_db w1) !! id = None))
  | (Ok _, w') => exists chunks row,
      stream = map Ok chunks /\ db_recordings (w_db w) !! id = Some row /\ w_files w' = published chunks /\
      (exists x, x ∈ db_segments (w_db w') /\ seg_key x = (id, seq) /\
         seg_storage_key (sr_seg x) = storage.segment_key id seq ext /\
         seg_bytes (sr_seg x) = Some (count (concat chunks)) /\ seg_sha256 (sr_seg x) = Some (sha256 (concat chunks))) /\
      others (id, seq) (db_segments (w_db w')) = others (id, seq) (db_segments (w_db w1)) /\
      set_segments [] (but_jobs (w_db w')) = set_segments [] (but_jobs (w_db w1)) /\
      (forall j, j ∈ db_jobs (w_db w1) -> j ∈ db_jobs (w_db w')) /\
      (rec_status (rr_rec row) = Uploading -> segments.enqueue_lost amid = None ->
         exists j, j ∈ db_jobs (w_db w') /\ live_key j = Some (id, TranscribeSegment)) /\
      (rec_status (rr_rec row) <> Uploading -> db_jobs (w_db w') = db_jobs (w_db w1)) /\ schema_ok (w_db w')
  end.
Proof.
  intros w1 Hs Hid ext tmp published. unfold segments.put_segment_amid. rewrite bind_lift_ro by apply _. rewrite get_recording_eq.
  destruct (db_recordings (w_db w) !! id) as [row|] eqn:Hr; cbn [fst]; [|by left]. fold ext.
  unfold segments.others_act. rewrite (bind_ok _ _ w tt w1 eq_refl).
  pose proof (store_body_spec blobs id seq ext stream w1) as Hb. cbn zeta in Hb. unfold mbind at 1, M_bind at 1.
  destruct (segments.store_body blobs id seq ext stream w1) as [[out|e] w2]; [|by right; left].
  destruct Hb as (chunks & -> & -> & ->). fold tmp. change (w_files w1) with (w_files w). fold (published chunks).
  destruct (segments.insert_lost amid) as [e|] eqn:El; cbn [segments.over_link].
  { right. right. exists chunks. split; [done|]. split; [done|]. split; [done|]. by left. }
  destruct (db_recordings (w_db w1) !! id) as [row1|] eqn:Hr1.
  2: { unfold mbind at 1, M_bind at 1, lift at 1. cbn [w_db]. rewrite insert_segment_orphan by done. right. right. exists chunks.
       split; [done|]. split; [done|]. split; [done|]. by right. }
  assert (Hfk : fk (w_db w1) id) by (by exists row1).
  destruct (insert_segment_ok sid id seq (storage.segment_key id seq ext) (segments.header_i64 headers "x-segment-start-ms")
    (segments.header_i64 headers "x-segment-duration-ms") (Some (count (concat chunks)))
    (Some (sha256 (concat chunks))) (w_db w1) Hfk Hid) as (g & segs & Hins & (x & Hx & Hkx & Hgx) & Hoth & Hk & Hby & Hsha).
  assert (Hs1 : schema_ok (set_segments segs (w_db w1))).
  { pose proof (insert_segment_schema sid id seq (storage.segment_key id seq ext) (segments.header_i64 headers "x-segment-start-ms")
      (segments.header_i64 headers "x-segment-duration-ms") (Some (count (concat chunks)))
      (Some (sha256 (concat chunks))) (w_db w1) Hs) as Hp. by rewrite Hins in Hp. }
  rewrite (lift_then _ _ (mkWorld (w_db w1) (published chunks)) _ _ Hins). cbn [w_db w_files].
  destruct (enqueue_lost_ok amid id (set_segments segs (w_db w1)) Hs1 Hfk) as (s' & Heq & Hframe & Hkeep & Hs' & Hlive).
  case_bool_decide as Hst; [rewrite (lift_then _ _ (mkWorld _ _) tt s' Heq)|];
    cbn; exists chunks, row; (split; [done|]); (split; [done|]); (split; [done|]).
  - assert (Hsegs : db_segments s' = segs)
      by (change (db_segments (but_jobs s') = db_segments (but_jobs (set_segments segs (w_db w1)))); by rewrite Hframe).
    rewrite Hsegs. split; [exists x; subst g; done|]. split; [done|]. rewrite Hframe. split; [done|].
    split; [exact Hkeep|]. split; [by intros _|]. split; [done|exact Hs'].
  - split; [exists x; subst g; done|]. split; [done|]. split; [done|]. split; [done|]. split; [done|]. by split.
Qed.

(** C27: a segment is published whole or not at all.  While the body arrives
    others may change the database, and the two statements after it may fail.
    When the upload is answered with success the segment's file holds the body,
    byte for byte, its scratch file is gone and no other file has changed; its
    row records the key, length and hash of those bytes, no other segment's row
    has changed, and if the recording was still uploading a live transcription
    is queued unless that statement failed.  When it fails the handler has
    changed nothing in the database.  No file but the scratch file has changed
    either, except in one case: the body was all there and the segment's row
    could not be written, because the statement failed or the recording had been
    deleted meanwhile; then the new audio is already in the segment's place. *)
Theorem put_segment_spec amid blobs sid id seq ext_q headers stream w :
  let w1 := mkWorld (segments.left_by_others amid (w_db w)) (w_files w) in
  schema_ok (w_db w1) -> sid ∉ map (fun x => seg_id (sr_seg x)) (db_segments (w_db w1)) ->
  let ext := segments.resolve_ext ext_q headers in
  let tmp := segments.tmp_path blobs id seq ext in
  let published chunks := <[storage.segment_path blobs id seq ext := concat chunks]> (delete tmp (w_files w)) in
  match segments.put_segment_amid amid blobs sid id seq ext_q headers stream w with
  | (Err _, w') => (w' = w /\ db_recordings (w_db w) !! id = None) \/ only_at tmp w1 w' \/
      (exists chunks, stream = map Ok chunks /\ w_files w' = published chunks /\ w_db w' = w_db w1 /\
         (is_Some (segments.insert_lost amid) \/ db_recordings (w_db w1) !! id = None))
  | (Ok _, w') => exists chunks row,
      stream = map Ok chunks /\ db_recordings (w_db w) !! id = Some row /\ w_files w' = published chunks /\
      (exists x, x ∈ db_segments (w_db w') /\ seg_key x = (id, seq) /\
         seg_storage_key (sr_seg x) = storage.segment_key id seq ext /\
         seg_bytes (sr_seg x) = Some (count (concat chunks)) /\ seg_sha256 (sr_seg x) = Some (sha256 (concat chunks))) /\
      others (id, seq) (db_segments (w_db w')) = others (id, seq) (db_segments (w_db w1)) /\
      set_segments [] (but_jobs (w_db w')) = set_segments [] (but_jobs (w_db w1)) /\
      (forall j, j ∈ db_jobs (w_db w1) -> j ∈ db_jobs (w_db w')) /\
      (rec_status (rr_rec row) = Uploading -> segments.enqueue_lost amid = None ->
         exists j, j ∈ db_jobs (w_db w') /\ live_key j = Some (id, TranscribeSegment)) /\
      (rec_status (rr_rec row) <> Uploading -> db_jobs (w_db w') = db_jobs (w_db w1))
  end.
Proof.
  intros w1 Hs Hid ext tmp published. pose proof (put_segment_state amid blobs sid id seq ext_q headers stream w Hs Hid) as Hput.
  cbn zeta in Hput. destruct (segments.put_segment_amid _ _ _ _ _ _ _ _ _) as [[a|e] w']; [|done].
  destruct Hput as (chunks & row & Hput). exists chunks, row.
  destruct Hput as (? & ? & ? & ? & ? & ? & ? & ? & ? & _). by do 8 (split; [done|]).
Qed.

(** C28: what is uploaded can be played back.  Right after a successful upload,
    asking for the segment gives its body, byte for byte, whatever extension or
    content type it came with. *)
Theorem put_then_get blobs sid id seq ext_q headers chunks w answer w' :
  path_component (uuid_to_string id) ->
  schema_ok (w_db w) -> sid ∉ map (fun x => seg_id (sr_seg x)) (db_segments (w_db w)) ->
  segments.put_segment blobs sid id seq ext_q headers (map Ok chunks) w = (Ok answer, w') ->
  exists r, segments.get_segment blobs id seq None w' = (Ok r, w') /\
    resp_status r = 200 /\ body r = concat chunks /\ content_length r = Some (count (concat chunks)).
Proof.
  intros Hu Hs Hid Hput. pose proof (put_segment_state segments.undisturbed blobs sid id seq ext_q headers (map Ok chunks) w Hs Hid) as Hst.
  unfold segments.put_segment in Hput. cbn zeta in Hst. rewrite Hput in Hst.
  destruct Hst as (chunks' & row & Hc & _ & Hf & (x & Hx & Hkx & Hsk & _) & _ & _ & _ & _ & _ & Hs').
  apply (list_fmap_eq_inj Ok) in Hc as <-; [|by intros ? ? [=]]. unfold segments.get_segment. rewrite bind_lift_ro by apply _.
  cbn [list_segments_by_recording query exec fst].
  set (segs := map sr_seg _).
  assert (Hsegs : forall g, g ∈ segs <-> exists y, y ∈ db_segments (w_db w') /\ seg_recording_id (sr_seg y) = id /\ g = sr_seg y).
  { intros g. unfold segs, segs_of. rewrite list_elem_of_fmap. split.
    - intros (y & -> & Hy). rewrite sort_by_elem, elem_of_bfilter in Hy. destruct Hy as [Hy Hid']. bool_to_prop. eauto.
    - intros (y & Hy & Hid' & ->). exists y. split; [done|]. rewrite sort_by_elem, elem_of_bfilter. split; [done|].
      by apply bool_decide_eq_true_2. }
  injection Hkx as Hxid Hxseq.
  assert (Hfind : find_first (fun s => seg_seq s =? seq) segs = Some (sr_seg x)).
  { destruct (find_first _ segs) as [g|] eqn:E.
    - apply find_first_Some in E as [Hg Hseq]. bool_to_prop. apply Hsegs in Hg as (y & Hy & Hyid & ->). do 2 f_equal.
      apply (NoDup_map_inj seg_key (db_segments (w_db w'))); [by apply segments_key|done|done|].
      unfold seg_key. by rewrite Hyid, Hseq, Hxid, Hxseq.
    - rewrite find_first_None in E. assert (Hin : sr_seg x ∈ segs) by (apply Hsegs; eauto).
      specialize (E _ Hin). bool_to_prop. by rewrite Hxseq in E. }
  rewrite Hfind, Hsk, resolve_segment_key by done. unfold mbind, M_bind, read_file. cbn [fst snd].
  rewrite Hf, lookup_insert_eq. eexists. split; [reflexivity|]. done.
Qed.
End put.

(** *** Deleting a recording *)

Section delete.
Context `{BlobFsLaws} `{UuidFmt}.

(** Deleting a recording deletes its audio and then all its rows, and
    nothing else.  An unknown id is not found.  When the audio cannot be
    removed the answer is an error and no row is lost, so the deletion can be
    tried again; when it is gone, or was never there, every row of the recording
    goes and those of the others stay.  No file outside the recording's
    directory is touched either way. *)
Theorem delete_recording_api_spec blobs id w :
  schema_ok (w_db w) ->
  let dir := storage.recording_dir blobs id in
  let '(answer, w') := recordings.delete_recording blobs id w in
  (forall q, under dir q = false -> w_files w' !! q = w_files w !! q) /\
  match db_recordings (w_db w) !! id, fst (fs_remove_dir_all (w_files w) dir) with
  | None, _ => answer = Err (recording_not_found id) /\ w' = w
  | Some _, Err (inr e) => answer = Err (Io e) /\ w_db w' = w_db w
  | Some _, _ => (exists a, answer = Ok a) /\
      (forall q, under dir q = true -> w_files w' !! q = None) /\
      db_recordings (w_db w') = delete id (db_recordings (w_db w)) /\
      (forall r, derived (w_db w') r = if decide (r = id) then nothing_derived else derived (w_db w) r) /\
      (forall r, segs_of r (w_db w') = if decide (r = id) then [] else segs_of r (w_db w)) /\
      db_speakers (w_db w') = db_speakers (w_db w)
  end.
Proof.
  intros Hs dir. unfold recordings.delete_recording. rewrite bind_lift_ro by apply _. rewrite get_recording_eq.
  destruct (db_recordings (w_db w) !! id) as [row|] eqn:Hr; cbn [fst]; [|by repeat split].
  unfold mbind at 1, M_bind at 1, remove_blobs. fold dir.
  pose proof (remove_dir_law (w_files w) dir) as Hgone. pose proof (remove_dir_absent (w_files w) dir) as Habsent.
  pose proof (remove_dir_other (w_files w) dir) as Hother.
  assert (Hdel : exists s', delete_recording id (w_db w) = (Ok tt, s') /\
    db_recordings s' = delete id (db_recordings (w_db w)) /\
    (forall r, derived s' r = if decide (r = id) then nothing_derived else derived (w_db w) r) /\
    (forall r, segs_of r s' = if decide (r = id) then [] else segs_of r (w_db w)) /\
    db_speakers s' = db_speakers (w_db w)).
  { destruct (delete_recording_spec id (w_db w) Hs) as (s' & Heq & Ha & Hb & Hc & Hd & _).
    exists s'. rewrite Heq. unfold recording_exists. by rewrite bool_decide_eq_true_2 by eauto. }
  destruct Hdel as (s' & Heq & Hrest).
  destruct (fs_remove_dir_all (w_files w) dir) as [[[]|[[]|e]] fs]; cbn [fst snd w_files w_db] in *.
  1,2: rewrite (lift_then _ _ (mkWorld (w_db w) fs) tt s' Heq); cbn; split; [by intros q Hq; apply Hother|].
  1,2: split; [by eexists|]; split; [|done]; intros q Hq.
  - rewrite (Hgone _ eq_refl), Hq. done.
  - destruct (Habsent _ eq_refl) as [-> Hno]. by apply Hno.
  - split; [by intros q Hq; apply Hother|]. done.
Qed.
End delete.

(** ** The processing schedule *)

Lemma clamp_day_idem d : ProcessingSchedule.clamp_day (ProcessingSchedule.clamp_day d) = ProcessingSchedule.clamp_day d.
Proof. unfold ProcessingSchedule.clamp_day. cbn. f_equal; lia. Qed.

(** What [normalize] does to the override, and to days it has been over. *)
Lemma normalize_again t u s o :
  let p := ProcessingSchedule.normalize u s in
  ProcessingSchedule.normalize t (mkSchedule (sched_enabled p) (sched_days p) (sched_grace_minutes p) o) =
  mkSchedule (sched_enabled p) (sched_days p) (sched_grace_minutes p)
    (match o with Some o => if ov_until o <=? t then None else Some o | None => None end).
Proof.
  cbn zeta. unfold ProcessingSchedule.normalize. cbn [sched_enabled sched_days sched_grace_minutes sched_override].
  set (days := map ProcessingSchedule.clamp_day (take 7 (sched_days s) ++ _)).
  assert (Hlen : length days = 7%nat) by (unfold days; rewrite length_map, length_app, length_replicate, length_take; lia).
  rewrite take_ge, Hlen by lia. cbn [replicate Nat.sub]. rewrite app_nil_r. f_equal; [|lia].
  unfold days. rewrite map_map. apply map_ext, clamp_day_idem.
Qed.

Lemma normalize_accepted t p :
  length (sched_days p) = 7%nat -> Forall (fun d => schedule.bad_day d = false) (sched_days p) ->
  sched_grace_minutes p <= 24 * 60 ->
  ProcessingSchedule.normalize t p =
  mkSchedule (sched_enabled p) (sched_days p) (sched_grace_minutes p)
    (match sched_override p with Some o => if ov_until o <=? t then None else Some o | None => None end).
Proof.
  intros Hlen Hdays Hg. unfold ProcessingSchedule.normalize. rewrite take_ge, Hlen by lia. cbn [replicate Nat.sub].
  rewrite app_nil_r. f_equal; [|lia]. rewrite <- (list_fmap_id (sched_days p)) at 2. apply Forall_fmap_ext_1.
  eapply Forall_impl; [exact Hdays|]. intros [en st end_]. unfold schedule.bad_day, ProcessingSchedule.clamp_day. cbn.
  intros [H1 H2]%orb_false_iff. bool_to_prop. f_equal; lia.
Qed.

Lemma check_days_ok i days :
  (schedule.check_days i days = Ok tt /\ Forall (fun d => schedule.bad_day d = false) days) \/
  (exists m, schedule.check_days i days = Err (BadRequest m)) /\ ~ Forall (fun d => schedule.bad_day d = false) days.
Proof.
  revert i. induction days as [|d days IH]; intros i; cbn [schedule.check_days]; [left; by split|].
  destruct (schedule.bad_day d) eqn:E.
  - right. split; [by eexists|]. intros Hf. inversion Hf; congruence.
  - destruct (IH (S i)) as [[? ?]|[? Hn]]; [left; by auto|right]. split; [done|]. intros Hf. by inversion Hf.
Qed.

Section schedules.
Context `{Calendar} `{LocalTimeFmt} `{SerdeJson ProcessingSchedule}.

Lemma schedule_read s : exists raw, forall t s', db_settings s' !! SETTING_KEY = db_settings s !! SETTING_KEY ->
  processing_schedule t s' = (Ok (ProcessingSchedule.normalize t raw), s').
Proof.
  eexists. intros t s' Heq. unfold processing_schedule, get_setting. rewrite bind_query, Heq. done.
Qed.

(** Storing a document: read back as it is, workers told, nothing else changed. *)
Lemma save_ok utc now p s :
  (forall q : ProcessingSchedule, from_value (to_value q) = Ok q) ->
  exists resp s', schedule.save utc now p s = (Ok resp, s') /\
    s' = pg_notify JOBS_CHANNEL schedule.NOTIFY_PAYLOAD (set_settings (db_settings s') s) /\
    delete SETTING_KEY (db_settings s') = delete SETTING_KEY (db_settings s) /\
    forall t, processing_schedule t s' =
      (Ok (ProcessingSchedule.normalize t (ProcessingSchedule.normalize utc p)), s').
Proof.
  intros Hser. unfold schedule.save, set_processing_schedule. eexists _, _. split; [reflexivity|]. split; [reflexivity|].
  cbn. split; [by rewrite delete_insert_eq|].
  intros t. unfold processing_schedule, get_setting. rewrite bind_query. cbn. by rewrite lookup_insert_eq, Hser.
Qed.

(** Saving the weekly windows keeps the override.  A request whose days
    are not seven or out of range, or whose grace exceeds a day, is refused and
    nothing changes.  Any other is what every later read gives, days and grace
    exactly as sent, with the override that was in force before and for as long
    as it would have been; the workers are notified and nothing else changes. *)
Theorem set_schedule_spec utc_read utc_write now req s :
  (forall q : ProcessingSchedule, from_value (to_value q) = Ok q) -> utc_read <= utc_write ->
  let good := length (req_days req) = 7%nat /\ Forall (fun d => schedule.bad_day d = false) (req_days req) /\
    req_grace_minutes req <= 24 * 60 in
  (~ good -> exists m, schedule.set_schedule utc_read utc_write now req s = (Err (BadRequest m), s)) /\
  (good -> exists resp s', schedule.set_schedule utc_read utc_write now req s = (Ok resp, s') /\
     s' = pg_notify JOBS_CHANNEL schedule.NOTIFY_PAYLOAD (set_settings (db_settings s') s) /\
     delete SETTING_KEY (db_settings s') = delete SETTING_KEY (db_settings s) /\
     forall t, utc_write <= t -> exists before after,
       processing_schedule t s = (Ok before, s) /\ processing_schedule t s' = (Ok after, s') /\
       sched_enabled after = req_enabled req /\ sched_days after = req_days req /\
       sched_grace_minutes after = req_grace_minutes req /\ sched_override after = sched_override before).
Proof.
  intros Hser Hutc good. unfold schedule.set_schedule, schedule.validate_days.
  destruct (schedule_read s) as (raw & Hread). destruct (decide (length (req_days req) = 7%nat)) as [Hlen|Hlen].
  2:{ rewrite bool_decide_eq_false_2 by done. split; [intros _; by eexists|by intros [? _]]. }
  rewrite bool_decide_eq_true_2 by done. cbn [negb].
  destruct (check_days_ok 0 (req_days req)) as [[-> Hdays]|[[m ->] Hdays]].
  2:{ split; [intros _; by eexists|by intros (_ & ? & _)]. }
  destruct (24 * 60 <? req_grace_minutes req) eqn:Eg; bool_to_prop.
  { split; [intros _; by eexists|intros (_ & _ & ?); lia]. }
  split; [by intros []|]. intros _. rewrite (bind_ok _ _ _ _ _ (Hread utc_read s eq_refl)).
  set (p := mkSchedule _ _ _ _). destruct (save_ok utc_write now p s Hser) as (resp & s' & Hsave & Hs' & Hset & Hback).
  exists resp, s'. split; [done|]. split; [done|]. split; [done|]. intros t Ht. eexists _, _.
  split; [by apply Hread|]. split; [apply Hback|]. rewrite (normalize_accepted utc_write p) by (done || lia).
  rewrite normalize_accepted by (cbn; done || lia). cbn. do 3 (split; [done|]).
  destruct (sched_override raw) as [o|]; [|done].
  destruct (ov_until o <=? utc_read) eqn:E1; cbn; [|destruct (ov_until o <=? utc_write) eqn:E3; cbn];
    destruct (ov_until o <=? t) eqn:E2; rewrite ?E2; try done; bool_to_prop; lia.
Qed.

(** An override does what it says for as long as it says.  A run or pause
    for fewer than one or more than the permitted minutes is refused and nothing
    changes.  Otherwise the weekly windows stay as they were; until the minutes
    are up every decision is to run, or to pause, whatever the local time; from
    then on, and at once after a clear, no override is left. *)
Theorem set_override_spec utc_read utc_set utc_write now req s :
  (forall q : ProcessingSchedule, from_value (to_value q) = Ok q) ->
  let minutes := default 60 (req_minutes req) in
  let until := utc_set + minutes * NANOS_PER_MINUTE in
  let good := req_mode req = ActClear \/ 1 <= minutes <= MAX_OVERRIDE_MINUTES in
  (~ good -> exists m, schedule.set_override utc_read utc_set utc_write now req s = (Err (BadRequest m), s)) /\
  (good -> exists resp s', schedule.set_override utc_read utc_set utc_write now req s = (Ok resp, s') /\
     forall t, utc_write <= t -> exists before after,
       processing_schedule t s = (Ok before, s) /\ processing_schedule t s' = (Ok after, s') /\
       sched_enabled after = sched_enabled before /\ sched_days after = sched_days before /\
       sched_grace_minutes after = sched_grace_minutes before /\
       (req_mode req = ActClear \/ until <= t -> sched_override after = None) /\
       (req_mode req = ActRun -> t < until -> forall local,
          dec_allowed (ProcessingSchedule.decide after local t) = true) /\
       (req_mode req = ActPause -> t < until -> forall local,
          dec_allowed (ProcessingSchedule.decide after local t) = false)).
Proof.
  intros Hser minutes until good. unfold schedule.set_override.
  destruct (schedule_read s) as (raw & Hread). rewrite (bind_ok _ _ _ _ _ (Hread utc_read s eq_refl)).
  set (p := ProcessingSchedule.normalize utc_read raw).
  assert (Hreq : (good /\ exists o, schedule.requested_override utc_set req = Ok o /\
      match o with
      | None => req_mode req = ActClear
      | Some o => ov_until o = until /\ (req_mode req = ActRun /\ ov_mode o = Run \/ req_mode req = ActPause /\ ov_mode o = Pause)
      end) \/
    (~ good /\ exists m, schedule.requested_override utc_set req = Err (BadRequest m))).
  { unfold schedule.requested_override, good. fold minutes. destruct (req_mode req);
      [| |left; split; [by left|by exists None]];
      (destruct ((minutes <? 1) || (MAX_OVERRIDE_MINUTES <? minutes)) eqn:E;
       [right; split; [|by eexists]; apply orb_true_iff in E as [E|E]; bool_to_prop; intros [?|?]; (done || lia)
       |left; apply orb_false_iff in E as [E1 E2]; bool_to_prop; split; [right; lia|];
        eexists; split; [reflexivity|]; cbn; split; [done|by auto]]). }
  destruct Hreq as [(Hgood & o & -> & Ho)|(Hbad & m & ->)]; [|split; [intros _; by eexists|done]].
  split; [done|]. intros _.
  destruct (save_ok utc_write now (mkSchedule (sched_enabled p) (sched_days p) (sched_grace_minutes p) o) s Hser)
    as (resp & s' & Hsave & _ & _ & Hback).
  exists resp, s'. split; [done|]. intros t Ht. eexists _, _. split; [by apply Hread|]. split; [apply Hback|].
  unfold p. rewrite !normalize_again. cbn. do 3 (split; [done|]).
  destruct o as [o|]; cbn; [|split; [done|split; congruence]].
  destruct Ho as [Hu Hm].
  destruct (ov_until o <=? utc_write) eqn:E1; cbn; [|destruct (ov_until o <=? t) eqn:E2; cbn]; bool_to_prop.
  - split; [done|]. split; intros; lia.
  - split; [done|]. split; intros; lia.
  - split; [intros [?|?]; [destruct Hm as [[? _]|[? _]]; congruence|lia]|].
    unfold ProcessingSchedule.decide. cbn. rewrite (proj2 (Z.ltb_lt _ _)) by lia.
    split; intros Hmode _ local; destruct Hm as [[? ->]|[? ->]]; congruence || done.
Qed.
End schedules.

(** ** Asking for another summary *)

Section summaries.
Context `{UuidFmt}.

Lemma requested_template_known template t :
  recordings.requested_template template = Ok t -> t ∈ map summary_template.id summary_template.TEMPLATES.
Proof.
  unfold recordings.requested_template. destruct (is_empty _); [intros [= <-]; by left|].
  destruct (summary_template.is_known _); [|done]. intros [= <-]. unfold summary_template.canonical_id.
  destruct (resolve_total (trim (default "" template))) as (x & -> & Hx). apply list_elem_of_fmap. by exists x.
Qed.

Lemma template_payload_runs cfg t :
  t ∈ map summary_template.id summary_template.TEMPLATES ->
  summarize_template cfg (recordings.template_payload t) = t.
Proof.
  intros Ht. unfold summary_template.TEMPLATES in Ht. cbn [map summary_template.id] in Ht.
  repeat (apply elem_of_cons in Ht as [->|Ht]; [reflexivity|]). inversion Ht.
Qed.

(** A request for a summary.  A template that is not known is refused
    before anything is looked up.  With a known one, or none, a recording that
    exists has a live summarize job afterwards; when it had none, the job will
    run with the template asked for, whatever the worker's configuration.  When
    it had one, the queue is left as it is: the answer names the new template,
    but the job that runs keeps the one it was queued with. *)
Theorem summarize_recording_spec id template s :
  schema_ok s ->
  match recordings.requested_template template with
  | Err e => (exists m, e = BadRequest m) /\ recordings.summarize_recording id template s = (Err e, s)
  | Ok t =>
      if recording_exists s id then
        exists answer s' j, recordings.summarize_recording id template s = (Ok answer, s') /\
          json_get answer "template" = Some (JString t) /\
          but_jobs s' = but_jobs s /\ j ∈ db_jobs s' /\ live_key j = Some (id, Summarize) /\
          (if bool_decide ((id, Summarize) ∈ live_keys (db_jobs s))
           then db_jobs s' = db_jobs s
           else db_jobs s' = db_jobs s ++ [j] /\ forall cfg, summarize_template cfg (job_payload j) = t)
      else recordings.summarize_recording id template s = (Err (recording_not_found id), s)
  end.
Proof.
  intros Hs. unfold recordings.summarize_recording.
  destruct (recordings.requested_template template) as [t|e] eqn:Et.
  2:{ split; [|done]. revert Et. unfold recordings.requested_template. repeat case_match; try done.
      intros [= <-]. by eexists. }
  unfold recording_exists. case_bool_decide as Hr.
  2:{ apply bind_err. rewrite get_recording_eq. apply eq_None_not_Some in Hr. by rewrite Hr. }
  destruct Hr as [row Hr]. rewrite (bind_ok _ _ _ (rr_rec row) s) by (by rewrite get_recording_eq, Hr).
  destruct (enqueue_ok id Summarize (recordings.template_payload t) s Hs) as (j & s' & Heq & Hframe & Hj & Hk & Hjobs);
    [by exists row|].
  rewrite (bind_ok _ _ _ _ _ Heq). eexists _, s', j. split; [reflexivity|]. do 4 (split; [done|]).
  case_bool_decide as Hlive.
  - destruct Hjobs as [?|[Hno _]]; done.
  - destruct Hjobs as [Heqj|(_ & Hjobs & Hp)].
    + exfalso. apply Hlive, list_elem_of_omap. exists j. by rewrite <- Heqj.
    + split; [done|]. intros cfg. rewrite Hp. apply template_payload_runs. by eapply requested_template_known.
Qed.
End summaries.

(** ** Naming a speaker *)

Section naming.
Context `{UuidFmt} `{PgVector}.

Lemma list_rs_find id idx s :
  exists l, list_recording_speakers id s = (Ok l, s) /\
    find_first (fun x => rs_local_idx x =? idx) l =
    (fun row => rs_from_row s ((id, idx), row)) <$> db_recording_speakers s !! (id, idx).
Proof.
  eexists. split; [reflexivity|].
  set (rows := filter (fun kv => kv.1.1 = id) (map_to_list (db_recording_speakers s))).
  assert (Hrows : forall k row, (k, row) ∈ rows <-> k.1 = id /\ db_recording_speakers s !! k = Some row).
  { intros k row. unfold rows. by rewrite list_elem_of_filter, elem_of_map_to_list. }
  destruct (find_first _ _) as [x|] eqn:E.
  - apply find_first_Some in E as [Hx Hidx]. bool_to_prop.
    apply list_elem_of_fmap in Hx as ([[r i] row] & -> & Hin). rewrite sort_by_elem in Hin.
    apply Hrows in Hin as [Hr Hl]. cbn in Hr, Hidx. subst. by rewrite Hl.
  - rewrite find_first_None in E. destruct (db_recording_speakers s !! (id, idx)) as [row|] eqn:Hl; [|done]. exfalso.
    assert (Hin : rs_from_row s ((id, idx), row) ∈ map (rs_from_row s) (sort_by (fun a b => a.1.2 <=? b.1.2) rows)).
    { apply list_elem_of_fmap. eexists. split; [reflexivity|]. rewrite sort_by_elem. by apply Hrows. }
    specialize (E _ Hin). cbn in E. by rewrite Z.eqb_refl in E.
Qed.

(** What finding or making the identity leaves. *)
Lemma identity_ok new_id body name voice s :
  schema_ok s -> opt_vector_ok voice = true -> db_speakers s !! new_id = None ->
  (forall u, nb_speaker_id body = Some u -> is_Some (db_speakers s !! u)) ->
  exists p m, speakers.identity_for new_id body name voice s = (Ok p, set_speakers m s) /\
    m !! spk_id p = Some p /\ (forall u, u <> spk_id p -> m !! u = db_speakers s !! u) /\
    (forall q, db_speakers s !! spk_id p = Some q -> p = q) /\
    match nb_speaker_id body with
    | Some u => spk_id p = u
    | None => eq_ignore_ascii_case (spk_display_name p) name = true
    end.
Proof.
  intros Hs Hv Hnew Hknown. unfold speakers.identity_for. destruct (nb_speaker_id body) as [u|].
  - destruct (Hknown u eq_refl) as [p Hp]. exists p, (db_speakers s). unfold get_speaker. rewrite Hp.
    pose proof (speakers_key s Hs u p Hp) as Hk. cbn in Hk. split; [by destruct s|]. rewrite Hk, Hp.
    split; [done|]. split; [done|]. split; [by intros q [= ->]|done].
  - unfold list_speakers. rewrite bind_query. destruct (find_first _ _) as [p|] eqn:E.
    + apply find_first_Some in E as [Hp Hname]. apply list_speakers_elem in Hp as [u Hp].
      pose proof (speakers_key s Hs u p Hp) as Hk. cbn in Hk. exists p, (db_speakers s). split; [by destruct s|].
      rewrite Hk, Hp. split; [done|]. split; [done|]. split; [by intros q [= ->]|done].
    + unfold create_speaker. assert (Hok : opt_vector_ok (if nb_enroll body then voice else None) = true)
        by (by destruct (nb_enroll body)).
      rewrite Hok, Hnew. cbn [negb]. rewrite bool_decide_eq_false_2 by (by intros [? ?]).
      eexists _, _. split; [reflexivity|]. cbn. split; [apply lookup_insert_eq|].
      split; [intros u Hu; by rewrite lookup_insert_ne|]. split; [intros q; by rewrite Hnew|].
      unfold eq_ignore_ascii_case. by apply String.eqb_eq.
Qed.

(** What learning the voice leaves. *)
Lemma learn_ok body p voice s :
  opt_vector_ok voice = true -> db_speakers s !! spk_id p = Some p ->
  exists other q, speakers.learn_voice body p voice s =
      (Ok (bool_decide (is_Some (spk_embedding q)), other),
       set_speakers (<[spk_id p := q]> (db_speakers s)) s) /\
    spk_id q = spk_id p /\ spk_display_name q = spk_display_name p /\
    spk_embedding q =
      (if nb_enroll body && (negb (bool_decide (is_Some (spk_embedding p))) || nb_replace_voiceprint body)
       then match voice with Some v => Some v | None => spk_embedding p end else spk_embedding p) /\
    (bool_decide (is_Some (spk_embedding p)) = true -> nb_replace_voiceprint body = false -> other = None).
Proof.
  intros Hv Hp. unfold speakers.learn_voice.
  assert (Hsame : set_speakers (<[spk_id p := p]> (db_speakers s)) s = s) by (rewrite insert_id by done; by destruct s).
  destruct voice as [v|].
  2:{ exists None, p. rewrite Hsame. do 3 (split; [done|]). by destruct (_ && _). }
  destruct (nb_enroll body && _) eqn:E.
  2:{ exists None, p. rewrite Hsame. done. }
  unfold speakers.resembles, nearest_enrolled, match_speaker_by_embedding, attempt. rewrite <- bind_assoc. erewrite bind_ok by reflexivity. rewrite bind_mret.
  eexists _, (mkSpeaker (spk_id p) (spk_display_name p) (Some v) (spk_created_at p)).
  split; [|split; [done|split; [done|split; [done|]]]].
  - unfold set_speaker_embedding. cbn in Hv. rewrite Hv. cbn [negb].
    rewrite (bind_ok _ _ _ tt (set_speakers (<[spk_id p :=
      mkSpeaker (spk_id p) (spk_display_name p) (Some v) (spk_created_at p)]> (db_speakers s)) s))
      by (unfold update_speaker; by rewrite Hp). reflexivity.
  - intros He Hr. rewrite He, Hr in E. cbn in E. by rewrite andb_false_r in E.
Qed.

Lemma set_rs_row id idx p s row :
  db_recording_speakers s !! (id, idx) = Some row -> is_Some (db_speakers s !! p) ->
  set_recording_speaker id idx (Some p) s =
  (Ok tt, set_recording_speakers (<[(id, idx) := mkRsRow (Some p) (rsr_embedding row)]> (db_recording_speakers s)) s).
Proof.
  intros Hr Hp. unfold set_recording_speaker. rewrite Hr. unfold speaker_ref_ok. by rewrite bool_decide_eq_true_2.
Qed.

Lemma name_speaker_state new_id id idx body s row :
  schema_ok s -> db_recording_speakers s !! (id, idx) = Some row ->
  opt_vector_ok (rsr_embedding row) = true -> db_speakers s !! new_id = None ->
  let name := trim (default "" (nb_name body)) in
  name <> "" \/ is_Some (nb_speaker_id body) ->
  (forall u, nb_speaker_id body = Some u -> is_Some (db_speakers s !! u)) ->
  exists nm s' p, speakers.name_speaker new_id id idx body s = (Ok nm, s') /\
    db_recording_speakers s' = <[(id, idx) := mkRsRow (Some (nm_speaker_id nm)) (rsr_embedding row)]>
      (db_recording_speakers s) /\
    db_speakers s' !! nm_speaker_id nm = Some p /\ spk_display_name p = nm_display_name nm /\
    nm_enrolled nm = bool_decide (is_Some (spk_embedding p)) /\
    (forall u, u <> nm_speaker_id nm -> db_speakers s' !! u = db_speakers s !! u) /\
    match nb_speaker_id body with
    | Some u => nm_speaker_id nm = u
    | None => eq_ignore_ascii_case (nm_display_name nm) name = true
    end /\
    (forall q, db_speakers s !! nm_speaker_id nm = Some q ->
       spk_display_name p = spk_display_name q /\
       spk_embedding p = (if nb_enroll body && (negb (bool_decide (is_Some (spk_embedding q))) || nb_replace_voiceprint body)
         then match rsr_embedding row with Some v => Some v | None => spk_embedding q end else spk_embedding q)) /\
    (nb_speaker_id body = None ->
       (forall q u, db_speakers s !! u = Some q -> eq_ignore_ascii_case (spk_display_name q) name = false) ->
       spk_embedding p = (if nb_enroll body then rsr_embedding row else None) /\
       (nb_enroll body = true -> nb_replace_voiceprint body = false -> nm_already_enrolled_as nm = None)).
Proof.
  intros Hs Hrow Hv Hnew name Hsome Hknown. unfold speakers.name_speaker. fold name.
  rewrite (proj2 (andb_false_iff _ _)).
  2:{ destruct Hsome as [Hn|[u Hu]]; [left; by apply String.eqb_neq|right; rewrite Hu; by apply bool_decide_eq_false_2]. }
  destruct (list_rs_find id idx s) as (l & Hl & Hfind). rewrite (bind_ok _ _ _ _ _ Hl), Hfind, Hrow. cbn [fmap option_fmap option_map].
  change (rs_embedding (rs_from_row s ((id, idx), row))) with (rsr_embedding row).
  destruct (identity_ok new_id body name (rsr_embedding row) s Hs Hv Hnew Hknown)
    as (p & m & Hid & Hm & Hother & Hold & Hwho).
  rewrite (bind_ok _ _ _ _ _ Hid).
  destruct (learn_ok body p (rsr_embedding row) (set_speakers m s) Hv Hm) as (other & q & Hlearn & Hqid & Hqname & Hqemb & Hwarn).
  rewrite (bind_ok _ _ _ _ _ Hlearn).
  set (s2 := set_speakers _ (set_speakers m s)).
  rewrite (bind_ok _ _ _ _ _ (set_rs_row id idx (spk_id p) s2 row Hrow (mk_is_Some _ q (lookup_insert_eq _ _ _)))).
  eexists _, _, q. split; [reflexivity|]. cbn. split; [done|]. split; [apply lookup_insert_eq|].
  split; [done|]. split; [done|]. split; [intros u Hu; rewrite lookup_insert_ne by done; by apply Hother|].
  split; [done|]. split.
  - intros q0 Hq0. rewrite <- (Hold q0 Hq0). done.
  - intros Hnone Hfresh. assert (Hpemb : spk_embedding p = if nb_enroll body then rsr_embedding row else None).
    { revert Hid. unfold speakers.identity_for, list_speakers. rewrite Hnone, bind_query.
      rewrite (proj2 (find_first_None _ _)); [|intros x [u Hx]%list_speakers_elem; by eapply Hfresh].
      assert (Hok : opt_vector_ok (if nb_enroll body then rsr_embedding row else None) = true) by (by destruct (nb_enroll body)).
      unfold create_speaker. rewrite Hok, Hnew. cbn [negb]. rewrite bool_decide_eq_false_2 by (by intros [? ?]).
      intros Hc. by injection Hc as <- _. }
    rewrite Hqemb, Hpemb. split.
    + clear. destruct (nb_enroll body), (nb_replace_voiceprint body); cbn; destruct (rsr_embedding row); done.
    + intros He Hr. rewrite Hpemb, He in Hwarn. destruct (rsr_embedding row) as [v|] eqn:Ev.
      * by apply Hwarn.
      * unfold speakers.learn_voice in Hlearn. injection Hlearn as _ <-. done.
Qed.

(** Naming a diarized speaker.  The speaker is bound to the identity asked
    for, one of the library by id or by name without regard to case, or a new
    one; the transcript shows its name, and no other speaker of any recording
    and no other identity changes.  With [enroll], the recording's voice becomes
    the identity's voiceprint exactly when it had none or the caller asked to
    replace it; without, voiceprints are left alone; the answer says whether
    the identity has one. *)
Theorem name_speaker_spec new_id id idx body s row :
  schema_ok s -> db_recording_speakers s !! (id, idx) = Some row ->
  opt_vector_ok (rsr_embedding row) = true -> db_speakers s !! new_id = None ->
  let name := trim (default "" (nb_name body)) in
  name <> "" \/ is_Some (nb_speaker_id body) ->
  (forall u, nb_speaker_id body = Some u -> is_Some (db_speakers s !! u)) ->
  exists nm s' p, speakers.name_speaker new_id id idx body s = (Ok nm, s') /\
    joined_name s' id (Some idx) = Some (nm_display_name nm) /\
    (forall k, k <> (id, idx) -> db_recording_speakers s' !! k = db_recording_speakers s !! k) /\
    (forall u, u <> nm_speaker_id nm -> db_speakers s' !! u = db_speakers s !! u) /\
    db_speakers s' !! nm_speaker_id nm = Some p /\ nm_enrolled nm = bool_decide (is_Some (spk_embedding p)) /\
    match nb_speaker_id body with
    | Some u => nm_speaker_id nm = u
    | None => eq_ignore_ascii_case (nm_display_name nm) name = true
    end /\
    (forall q, db_speakers s !! nm_speaker_id nm = Some q ->
       spk_embedding p = (if nb_enroll body && (negb (bool_decide (is_Some (spk_embedding q))) || nb_replace_voiceprint body)
         then match rsr_embedding row with Some v => Some v | None => spk_embedding q end else spk_embedding q)).
Proof.
  intros Hs Hrow Hv Hnew name Hsome Hknown.
  destruct (name_speaker_state new_id id idx body s row Hs Hrow Hv Hnew Hsome Hknown)
    as (nm & s' & p & Heq & Hrs & Hp & Hname & Henr & Hoth & Hwho & Hemb & _).
  exists nm, s', p. split; [done|]. split.
  { unfold joined_name. cbn. rewrite Hrs, lookup_insert_eq. cbn. by rewrite Hp, <- Hname. }
  split; [intros k Hk; rewrite Hrs; by apply lookup_insert_ne|]. do 4 (split; [done|]).
  intros q Hq. by apply Hemb.
Qed.

(** The warning about a voice that is already enrolled is never given where
    it is needed.  When a voice the library already holds under another name is
    enrolled under a new one, the answer names nobody: the new identity has
    taken the voice before the check, and the check is skipped for identities
    that have one. *)
Theorem new_name_never_warned new_id id idx body s row voice other sim :
  schema_ok s -> db_recording_speakers s !! (id, idx) = Some row ->
  rsr_embedding row = Some voice -> vector_ok VOICE_DIM voice = true -> db_speakers s !! new_id = None ->
  nearest_enrolled voice DUPLICATE_VOICE_SIMILARITY s = (Ok (Some (other, sim)), s) ->
  nb_speaker_id body = None -> nb_enroll body = true -> nb_replace_voiceprint body = false ->
  trim (default "" (nb_name body)) <> "" ->
  (forall q u, db_speakers s !! u = Some q ->
     eq_ignore_ascii_case (spk_display_name q) (trim (default "" (nb_name body))) = false) ->
  exists nm s', speakers.name_speaker new_id id idx body s = (Ok nm, s') /\
    nm_already_enrolled_as nm = None /\ nm_enrolled nm = true /\ nm_speaker_id nm <> spk_id other.
Proof.
  intros Hs Hrow Hvoice Hv Hnew Hnear Hnone He Hrep Hname Hfresh.
  destruct (name_speaker_state new_id id idx body s row) as (nm & s' & p & Heq & _ & Hp & Hpn & Henr & _ & Hwho & Hsame & Hnever);
    try done.
  - rewrite Hvoice. done.
  - by left.
  - by rewrite Hnone.
  - destruct (Hnever Hnone Hfresh) as [Hemb Hwarn]. exists nm, s'. split; [done|]. split; [by apply Hwarn|].
    rewrite He, Hvoice in Hemb. split; [rewrite Henr, Hemb; by apply bool_decide_eq_true_2|].
    rewrite Hnone in Hwho. intros Hid. unfold nearest_enrolled, match_speaker_by_embedding in Hnear.
    injection Hnear as Hnear. destruct (head _) as [[o v]|] eqn:Eh; [|done]. destruct (SFltb _ _); [done|]. injection Hnear as -> _.
    assert (Hin : (other, v) ∈ enrolled s).
    { rewrite <- (sort_by_elem (fun a b => float_le (cosine_distance (snd a) voice) (cosine_distance (snd b) voice))).
      destruct (sort_by _ _) as [|x l]; [done|]. injection Eh as ->. by left. }
    unfold enrolled in Hin. apply list_elem_of_omap in Hin as (q & Hq & Hqv).
    assert (Hq' : exists u, db_speakers s !! u = Some other).
    { destruct (spk_embedding q); [|done]. injection Hqv as <- _. unfold speakers_by in Hq. rewrite sort_by_elem in Hq.
      apply list_elem_of_fmap in Hq as ([u q'] & -> & Hin%elem_of_map_to_list). by exists u. }
    destruct Hq' as [u Hu]. pose proof (speakers_key s Hs u other Hu) as Hk. cbn in Hk. subst u.
    rewrite <- Hid in Hu. destruct (Hsame other Hu) as [Hn _]. rewrite <- Hpn, Hn, (Hfresh other _ Hu) in Hwho. done.
Qed.
End naming.

(** *** Witnesses *)

(** A file system in memory on which every call succeeds. *)
Definition memory_fs : BlobFs := {|
  fs_create_dir_all _ _ := Ok tt;
  fs_create fs p := Ok (<[p := []]> fs);
  fs_write_all fs p bs := (Ok tt, <[p := default [] (fs !! p) ++ bs]> fs);
  fs_flush _ _ := Ok tt;
  fs_rename fs a b := match fs !! a with Some c => Ok (<[b := c]> (delete a fs)) | None => Err "no such file" end;
  fs_remove_file fs p := delete p fs;
  fs_remove_dir_all fs d := (Ok tt, filter (fun e => under d (fst e) = false) fs);
|}.

Lemma memory_fs_laws : @BlobFsLaws memory_fs.
Proof.
  constructor; cbn.
  - by intros fs p fs' [= <-].
  - intros fs p bs old fs' Hp [= <-]. by rewrite Hp.
  - intros fs p bs q Hq. by rewrite lookup_insert_ne.
  - intros fs a b c fs' Hc. rewrite Hc. by intros [= <-].
  - intros fs p q Hq. by rewrite lookup_delete_ne.
  - intros fs d fs' [= <-] q. destruct (under d q) eqn:E.
    + apply map_lookup_filter_None. right. intros x _. cbn. by rewrite E.
    + destruct (fs !! q) as [x|] eqn:Eq; [by apply map_lookup_filter_Some|].
      apply map_lookup_filter_None. by left.
  - done.
  - intros fs d q Hq. destruct (fs !! q) as [x|] eqn:Eq; [by apply map_lookup_filter_Some|].
    apply map_lookup_filter_None. by left.
Qed.

Definition length_hash : Sha256 := fun bs => pretty (length bs).
Definition no_headers : string -> option string := fun _ => None.
Definition uploading_db : Db := set_recordings {[ 1%N := with_status Uploading sample_recording ]} (empty_db 0).
Definition uploading : World := mkWorld uploading_db ∅.

Lemma uploading_schema : schema_ok uploading_db.
Proof.
  apply schema_ok_recordings; [apply empty_db_schema| |].
  - intros k [x Hx]. cbn in Hx. by rewrite lookup_empty in Hx.
  - by apply map_Forall_singleton.
Qed.

Lemma complete_recording_spec_witness :
  exists s', @recordings.complete_recording plain_uuid 1 None uploading_db =
    (Ok (@recordings.status_answer plain_uuid 1), s') /\ exists j, j ∈ db_jobs s' /\ live_key j = Some (1%N, Transcode).
Proof.
  destruct (@complete_recording_spec plain_uuid 1 None uploading_db uploading_schema) as [_ Hup].
  destruct (Hup eq_refl) as (s' & Heq & _ & _ & Hj & _). exists s'. split; [exact Heq|exact Hj].
Defined.

Definition sample_upload : result Error Json * World :=
  @segments.put_segment_amid plain_uuid memory_fs length_hash segments.undisturbed "/b" 9 1 0 None no_headers
    [Ok [7%N]; Ok [8%N]] uploading.

(** A second upload of the segment whose row cannot be written: the answer is an
    error, and the row still describes the bytes that are no longer there. *)
Definition lost_upload : result Error Json * World :=
  @segments.put_segment_amid plain_uuid memory_fs length_hash
    (segments.mkAmid (fun s => s) (Some (Database "connection closed")) None) "/b" 10 1 0 None no_headers
    [Ok [5%N]] (snd sample_upload).

Theorem lost_insert_mismatch :
  fst lost_upload = Err (Database "connection closed") /\
  w_files (snd lost_upload) !! "/b/u/segments/000000.m4a" = Some [5%N] /\
  map (fun x => (seg_storage_key (sr_seg x), seg_bytes (sr_seg x))) (db_segments (w_db (snd lost_upload))) =
    [("u/segments/000000.m4a", Some 2)].
Proof. vm_compute. done. Qed.

Lemma put_segment_spec_witness :
  w_files (snd sample_upload) = {[ "/b/u/segments/000000.m4a" := [7%N; 8%N] ]} /\
  exists chunks : list (list N), [Ok [7%N]; Ok [8%N]] = map (@Ok string (list N)) chunks /\
    w_files (snd sample_upload) = <["/b/u/segments/000000.m4a" := concat chunks]> (w_files (snd sample_upload)).
Proof.
  split; [vm_compute; reflexivity|].
  pose proof (@put_segment_spec memory_fs memory_fs_laws length_hash plain_uuid segments.undisturbed "/b" 9 1 0 None no_headers
    [Ok [7%N]; Ok [8%N]] uploading uploading_schema) as Hput.
  assert (Hid : 9%N ∉ map (fun x => seg_id (sr_seg x)) (db_segments (w_db uploading))) by (vm_compute; intros H; inversion H).
  specialize (Hput Hid). cbn zeta in Hput. fold sample_upload in Hput.
  assert (Hok : is_ok (fst sample_upload) = true) by (vm_compute; reflexivity).
  destruct sample_upload as [[a|e] w']; [|discriminate Hok].
  destruct Hput as (chunks & row & Hc & _ & Hf & _). exists chunks. split; [exact Hc|]. cbn [snd]. rewrite Hf.
  symmetry. apply insert_insert_eq.
Defined.

Lemma put_then_get_witness :
  exists r, @segments.get_segment plain_uuid "/b" 1 0 None
      (snd (@segments.put_segment plain_uuid memory_fs length_hash "/b" 9 1 0 None no_headers [Ok [7%N]; Ok [8%N]] uploading))
    = (Ok r, snd (@segments.put_segment plain_uuid memory_fs length_hash "/b" 9 1 0 None no_headers [Ok [7%N]; Ok [8%N]] uploading)) /\
    body r = [7%N; 8%N].
Proof.
  destruct (@put_then_get memory_fs memory_fs_laws length_hash plain_uuid "/b" 9 1 0 None no_headers [[7%N]; [8%N]] uploading
    (JObject [("seq", JNumber "0"); ("bytes", JNumber "2"); ("storage_key", JString "u/segments/000000.m4a")])
    (snd (@segments.put_segment plain_uuid memory_fs length_hash "/b" 9 1 0 None no_headers [Ok [7%N]; Ok [8%N]] uploading)))
    as (r & Heq & _ & Hb & _).
  - split; [discriminate|reflexivity].
  - exact uploading_schema.
  - vm_compute. intros H; inversion H.
  - vm_compute. reflexivity.
  - exists r. split; [exact Heq|exact Hb].
Defined.

Lemma delete_recording_api_spec_witness :
  exists a, fst (@recordings.delete_recording plain_uuid memory_fs "/b" 1 uploading) = Ok a.
Proof.
  pose proof (@delete_recording_api_spec memory_fs memory_fs_laws plain_uuid "/b" 1 uploading uploading_schema) as Hdel.
  cbn zeta in Hdel. destruct (@recordings.delete_recording plain_uuid memory_fs "/b" 1 uploading) as [answer w'].
  destruct Hdel as [_ [[a Ha] _]]. exists a. exact Ha.
Defined.

(** A lossless codec: the document's binary code, a bit per array. *)
#[local] Instance day_window_eq_dec : EqDecision DayWindow.
Proof. solve_decision. Defined.
#[local] Instance day_window_countable : Countable DayWindow :=
  inj_countable' (fun d => (day_enabled d, day_start d, day_end d)) (fun '(e, s, f) => mkDay e s f) ltac:(by intros []).
#[local] Instance override_mode_eq_dec : EqDecision OverrideMode.
Proof. solve_decision. Defined.
#[local] Instance override_eq_dec : EqDecision ScheduleOverride.
Proof. solve_decision. Defined.
#[local] Instance override_countable : Countable ScheduleOverride :=
  inj_countable' (fun o => (match ov_mode o with Run => true | Pause => false end, ov_until o))
    (fun '(r, u) => mkOverride (if r : bool then Run else Pause) u) ltac:(by intros [[] ?]).
#[local] Instance schedule_eq_dec : EqDecision ProcessingSchedule.
Proof. solve_decision. Defined.
#[local] Instance schedule_countable : Countable ProcessingSchedule :=
  inj_countable' (fun p => (sched_enabled p, sched_days p, sched_grace_minutes p, sched_override p))
    (fun '(e, d, g, o) => mkSchedule e d g o) ltac:(by intros []).

Fixpoint bits (p : positive) : Json :=
  match p with xH => JNull | xO q => JArray [bits q] | xI q => JArray [JNull; bits q] end.
Fixpoint unbits (v : Json) : positive :=
  match v with JArray [v'] => xO (unbits v') | JArray [_; v'] => xI (unbits v') | _ => xH end.
Definition binary_codec : SerdeJson ProcessingSchedule := {|
  to_value p := bits (encode p);
  from_value v := match decode (unbits v) with Some p => Ok p | None => Err "unreadable" end;
|}.

Lemma binary_codec_lossless p : @from_value _ binary_codec (@to_value _ binary_codec p) = Ok p.
Proof.
  cbn. assert (Hb : forall q, unbits (bits q) = q) by (intros q; induction q; cbn; congruence).
  by rewrite Hb, countable.decode_encode.
Qed.

#[local] Instance wall_clock : LocalTimeFmt := fun _ => "now".
#[local] Existing Instance binary_codec.
Definition all_off : list DayWindow := repeat DayWindow.OFF 7.
Definition noon : schedule.Now := schedule.mkNow 5 5.

Lemma set_schedule_spec_witness :
  exists resp s', schedule.set_schedule 4 5 noon (mkSetSchedule true all_off 10) sample_db = (Ok resp, s') /\
    exists after, processing_schedule 6 s' = (Ok after, s') /\ sched_days after = all_off.
Proof.
  destruct (set_schedule_spec 4 5 noon (mkSetSchedule true all_off 10) sample_db binary_codec_lossless) as [_ Hgood].
  { lia. }
  destruct Hgood as (resp & s' & Heq & _ & _ & Hread).
  { split; [reflexivity|]. split; [repeat constructor|]. cbn. lia. }
  exists resp, s'. split; [exact Heq|]. destruct (Hread 6) as (before & after & _ & Ha & _ & Hd & _); [lia|].
  exists after. split; [exact Ha|exact Hd].
Defined.

Lemma set_override_spec_witness :
  exists resp s', schedule.set_override 4 5 6 noon (mkOverrideRequest ActPause None) sample_db = (Ok resp, s') /\
    exists after, processing_schedule 7 s' = (Ok after, s') /\
      dec_allowed (ProcessingSchedule.decide after 0 7) = false.
Proof.
  destruct (set_override_spec 4 5 6 noon (mkOverrideRequest ActPause None) sample_db binary_codec_lossless) as [_ Hgood].
  destruct Hgood as (resp & s' & Heq & Hread); [right; vm_compute; split; discriminate|].
  exists resp, s'. split; [exact Heq|]. destruct (Hread 7) as (before & after & _ & Ha & _ & _ & _ & _ & _ & Hp); [lia|].
  exists after. split; [exact Ha|]. apply Hp; reflexivity.
Defined.

Lemma summarize_recording_spec_witness :
  exists a s', @recordings.summarize_recording plain_uuid 1 (Some " Interview ") sample_db = (Ok a, s').
Proof.
  pose proof (@summarize_recording_spec plain_uuid 1 (Some " Interview ") sample_db sample_schema) as Hsum.
  remember (recordings.requested_template (Some " Interview ")) as t eqn:Et. vm_compute in Et. subst t.
  cbv iota in Hsum. destruct (recording_exists sample_db 1) eqn:E; [|vm_compute in E; discriminate].
  destruct Hsum as (a & s' & j & Heq & _). exists a, s'. exact Heq.
Defined.

(** A recording with one diarized speaker, and a library that knows the voice. *)
Definition same_voice : PgVector :=
  {| cosine_distance _ _ := S754_zero false; similarity _ := S754_finite false 1 0 |}.
Definition a_voice : list f32 := repeat (S754_finite false 1 0) VOICE_DIM.
Definition known_speaker : Speaker := mkSpeaker 5 "Ana" (Some a_voice) 0.
Definition voiced_db : Db :=
  set_recording_speakers {[ (1%N, 0) := mkRsRow None (Some a_voice) ]} (set_speakers {[ 5%N := known_speaker ]} sample_db).
Definition enroll_body : NameBody := mkNameBody (Some " Bo ") None true false.

Lemma voiced_schema : schema_ok voiced_db.
Proof.
  destruct sample_schema. constructor; try assumption.
  - by apply map_Forall_singleton.
  - apply map_Forall_singleton. by exists sample_recording.
  - apply map_Forall_singleton. done.
Qed.

Lemma name_speaker_spec_witness :
  exists nm s', @speakers.name_speaker plain_uuid same_voice 6 1 0 enroll_body voiced_db = (Ok nm, s') /\
    joined_name s' 1 (Some 0) = Some (nm_display_name nm).
Proof.
  destruct (@name_speaker_spec plain_uuid same_voice 6 1 0 enroll_body voiced_db (mkRsRow None (Some a_voice)) voiced_schema)
    as (nm & s' & p & Heq & Hj & _).
  - reflexivity.
  - vm_compute. reflexivity.
  - reflexivity.
  - left. vm_compute. discriminate.
  - discriminate.
  - exists nm, s'. split; [exact Heq|exact Hj].
Defined.

Lemma new_name_never_warned_witness :
  exists nm s', @speakers.name_speaker plain_uuid same_voice 6 1 0 enroll_body voiced_db = (Ok nm, s') /\
    nm_already_enrolled_as nm = None.
Proof.
  destruct (@new_name_never_warned plain_uuid same_voice 6 1 0 enroll_body voiced_db (mkRsRow None (Some a_voice)) a_voice
    known_speaker (S754_finite false 1 0) voiced_schema) as (nm & s' & Heq & Hnone & _); try reflexivity.
  - vm_compute. discriminate.
  - intros q u Hq. cbn in Hq. apply lookup_singleton_Some in Hq as [_ <-]. reflexivity.
  - exists nm, s'. split; [exact Heq|exact Hnone].
Defined.
