(* ===== verification/Search.v ===== *)
(** * Hybrid search over the chunks: [crates/scribe-db/src/search.rs]

    The filters as SQL text with numbered placeholders and as the values bound
    to them, the keyword and the semantic ranking, and their reciprocal rank
    fusion.  What is Postgres's (full-text matching and ranks, the distance of
    [pgvector] and what its index scan returns, [numeric] division) is a
    parameter. *)

From Stdlib Require Import QArith Lqa Ascii String SpecFloat.
From S2P Require Import Prelude RustStr Types Db DbSchema Store.

#[local] Open Scope Z_scope.
#[local] Arguments String.append !_ _ /.

(** ** What Postgres does *)

(** [tsv @@ plainto_tsquery('english', q)] and [ts_rank_cd], of a chunk's text. *)
Class FullText := {
  tsv_matches : string -> string -> bool;
  ts_rank_cd : string -> string -> f32;
}.

(** [halfvec]'s [<=>], and the rows a scan of the HNSW index under
    [relaxed_order] returns of those that pass the filter. *)
Class HalfVec := {
  halfvec_distance : list f32 -> list f32 -> spec_float;
  hnsw_scan : list f32 -> list ChunkRow -> list ChunkRow;
}.

(** An approximate index may miss rows; it invents and repeats none. *)
Class HalfVecLaws `{HalfVec} : Prop :=
  hnsw_scan_sub : forall q rows, hnsw_scan q rows ⊆+ rows.

(** [1.0 / n] in [numeric], and a [numeric] as [float8] and then [f32]. *)
Class Numeric := {
  numeric_recip : Z -> Q;
  numeric_to_f32 : Q -> f32;
}.

(** A quotient has at least sixteen significant digits: it is positive, and
    those of the integers below a million are told apart. *)
Class NumericLaws `{Numeric} : Prop := {
  recip_pos : forall n, 0 < n -> (0 < numeric_recip n)%Q;
  recip_antitone : forall a b, 0 < a < b -> b <= 1000000 -> (numeric_recip b < numeric_recip a)%Q;
}.

(** ** Filters *)

Record SearchFilters := mkFilters {
  sf_from : option Instant; sf_to : option Instant;
  sf_speaker_id : option Uuid; sf_recording_id : option Uuid;
}.

Module SearchFilters.
Definition default : SearchFilters := mkFilters None None None None.
Definition is_empty (f : SearchFilters) : bool :=
  bool_decide (sf_from f = None) && bool_decide (sf_to f = None) &&
  bool_decide (sf_speaker_id f = None) && bool_decide (sf_recording_id f = None).
End SearchFilters.

Definition RRF_K : Z := 60.

(** The text after [WHERE], its placeholders numbered from [base + 1]. *)
Definition filter_clause (filters : SearchFilters) (base : nat) : string :=
  if SearchFilters.is_empty filters then ""
  else
    let '(clause, n) := match sf_from filters with
      | Some _ => (" AND r.created_at >= $" +:+ pretty (S base), S base) | None => ("", base) end in
    let '(clause, n) := match sf_to filters with
      | Some _ => (clause +:+ (" AND r.created_at <= $" +:+ pretty (S n)), S n) | None => (clause, n) end in
    let '(clause, n) := match sf_speaker_id filters with
      | Some _ => (clause +:+ (" AND EXISTS (SELECT 1 FROM recording_speakers rs WHERE rs.recording_id = c.recording_id AND rs.local_idx = c.local_idx AND rs.speaker_id = $" +:+ pretty (S n) +:+ ")"), S n)
      | None => (clause, n) end in
    match sf_recording_id filters with
    | Some _ => clause +:+ (" AND c.recording_id = $" +:+ pretty (S n)) | None => clause end.

(** The values of a query's placeholders, in order. *)
Inductive Bind := BindText (s : string) | BindVector (v : list f32) | BindInt (n : Z)
  | BindTime (t : Instant) | BindUuid (u : Uuid).

Definition bind_filters (q : list Bind) (filters : SearchFilters) : list Bind :=
  let q := match sf_from filters with Some t => q ++ [BindTime t] | None => q end in
  let q := match sf_to filters with Some t => q ++ [BindTime t] | None => q end in
  let q := match sf_speaker_id filters with Some u => q ++ [BindUuid u] | None => q end in
  match sf_recording_id filters with Some u => q ++ [BindUuid u] | None => q end.

(** What the clause says: each condition with the number of its placeholder. *)
Inductive Condition := CreatedSince | CreatedUntil | SaidBy | InRecording.

Definition condition_text (cn : Condition * nat) : string :=
  match fst cn with
  | CreatedSince => " AND r.created_at >= $" +:+ pretty (snd cn)
  | CreatedUntil => " AND r.created_at <= $" +:+ pretty (snd cn)
  | SaidBy => " AND EXISTS (SELECT 1 FROM recording_speakers rs WHERE rs.recording_id = c.recording_id AND rs.local_idx = c.local_idx AND rs.speaker_id = $" +:+ pretty (snd cn) +:+ ")"
  | InRecording => " AND c.recording_id = $" +:+ pretty (snd cn)
  end.

Definition present {A} (o : option A) (c : Condition) : list Condition :=
  match o with Some _ => [c] | None => [] end.

Definition conditions (f : SearchFilters) (base : nat) : list (Condition * nat) :=
  let cs := present (sf_from f) CreatedSince ++ present (sf_to f) CreatedUntil ++
    present (sf_speaker_id f) SaidBy ++ present (sf_recording_id f) InRecording in
  zip cs (seq (S base) (length cs)).

(** A condition on the row of chunk [c] joined with its recording's row. *)
Definition condition_holds (s : Db) (binds : list Bind) (c : ChunkRow) (cn : Condition * nat) : bool :=
  let created := (fun r => rec_created_at (rr_rec r)) <$> db_recordings s !! cr_recording_id c in
  match fst cn, binds !! pred (snd cn), created with
  | CreatedSince, Some (BindTime t), Some at_ => t <=? at_
  | CreatedUntil, Some (BindTime t), Some at_ => at_ <=? t
  | SaidBy, Some (BindUuid u), _ =>
      match cr_local_idx c with
      | Some idx => bool_decide ((r ← db_recording_speakers s !! (cr_recording_id c, idx); rsr_speaker_id r) = Some u)
      | None => false
      end
  | InRecording, Some (BindUuid u), _ => bool_decide (cr_recording_id c = u)
  | _, _, _ => false
  end.

(** [... FROM chunks c JOIN recordings r ON ... WHERE own {filter_sql}]. *)
Definition selected (s : Db) (own : ChunkRow -> bool) (filters : SearchFilters) (base : nat) (binds : list Bind)
    : list ChunkRow :=
  bfilter (fun c => recording_exists s (cr_recording_id c) && own c &&
    forallb (condition_holds s binds c) (conditions filters base)) (db_chunks s).

(** ** Rankings *)

Record SearchHit := mkHit {
  hit_recording_id : Uuid; hit_recording_title : option string; hit_start_ms : option Z;
  hit_end_ms : option Z; hit_text : string; hit_speaker : option string; hit_score : f32;
}.

Definition hit_from_row (s : Db) (c : ChunkRow) (score : f32) : SearchHit :=
  mkHit (cr_recording_id c) (r ← db_recordings s !! cr_recording_id c; rec_title (rr_rec r))
    (cr_start_ms c) (cr_end_ms c) (cr_text c)
    (match joined_name s (cr_recording_id c) (cr_local_idx c) with
     | Some n => Some n | None => speaker_label <$> cr_local_idx c end)
    score.

(** [ORDER BY key, id] for a float key, ascending or descending. *)
Definition float_then_id (key : ChunkRow -> spec_float) (a b : ChunkRow) : bool :=
  if float_le (key a) (key b) then (if float_le (key b) (key a) then cr_id a <=? cr_id b else true) else false.
Definition float_desc_then_id (key : ChunkRow -> spec_float) (a b : ChunkRow) : bool :=
  if float_le (key b) (key a) then (if float_le (key a) (key b) then cr_id a <=? cr_id b else true) else false.

Definition sql_limit {A} (n : Z) (l : list A) : list A := take (Z.to_nat n) l.
Definition limit_error : Error := Database "LIMIT must not be negative".

(** [row_number() OVER (...)]: ranks from 1. *)
Definition row_numbers (rows : list ChunkRow) : list (Z * Z) :=
  imap (fun i c => (cr_id c, Z.of_nat i + 1)) rows.

(** [limit.max(1) * 4], in [i64]. *)
Definition candidate_n (limit : Z) : Z :=
  let n := wrap 64 (Z.max limit 1 * 4) in if n <=? i64_max then n else n - 2 ^ 64.

Section search.
Context `{PgVector} `{FullText} `{HalfVec} `{Numeric}.

(** The server refuses a vector with NaN or infinities, and a distance between
    vectors of different sizes. *)
Definition finite_vector (v : list f32) : bool :=
  forallb (fun x => match x with S754_nan | S754_infinity _ => false | _ => true end) v.

Definition check_vector (v : list f32) (rows : list ChunkRow) : DbM unit :=
  if negb (finite_vector v) then fail_with vector_error
  else if negb (bool_decide (rows = [])) && negb (bool_decide (length v = CHUNK_DIM)) then
    fail_with (Database "different halfvec dimensions")
  else mret tt.

(** The two arms of the fusion: chunk ids with their ranks, best first. *)
Definition keyword_arm (s : Db) (query_text : string) (filters : SearchFilters) (binds : list Bind) (n : Z)
    : list (Z * Z) :=
  sql_limit n (row_numbers (sort_by (float_desc_then_id (fun c => ts_rank_cd (cr_text c) query_text))
    (selected s (fun c => tsv_matches (cr_text c) query_text) filters 5 binds))).

(** The cut of the second arm is by distance alone, which leaves open which of
    several equally distant chunks are kept at the limit; the window function
    above it has sorted the rows by distance and id, and the cut is taken of them
    in that order. *)
Definition semantic_arm (s : Db) (v : list f32) (filters : SearchFilters) (binds : list Bind) (n : Z)
    : list (Z * Z) :=
  sql_limit n (row_numbers (sort_by (float_then_id (fun c => halfvec_distance (cr_embedding c) v))
    (hnsw_scan v (selected s (fun _ => true) filters 5 binds)))).

(** [SELECT id, sum(score) ... GROUP BY id] over both arms. *)
Definition arm_score (arm : list (Z * Z)) (id : Z) : Q :=
  foldr (fun ir acc => if fst ir =? id then (numeric_recip (RRF_K + snd ir) + acc)%Q else acc) 0%Q arm.

Definition fuse (kw vec : list (Z * Z)) : list (Z * Q) :=
  map (fun id => (id, (arm_score kw id + arm_score vec id)%Q)) (dedup_first [] (map fst (kw ++ vec))).

(** [ORDER BY f.score DESC, c.id] *)
Definition score_then_id (a b : Z * Q) : bool :=
  match Qcompare (snd a) (snd b) with
  | Gt => true
  | Lt => false
  | Eq => fst a <=? fst b
  end.

Definition chunk_by_id (s : Db) (id : Z) : option ChunkRow := find_first (fun c => cr_id c =? id) (db_chunks s).

Definition hybrid_search (query_text : string) (query_embedding : list f32) (filters : SearchFilters)
    (limit : Z) : DbM (list SearchHit) :=
  let n := candidate_n limit in
  let binds := bind_filters [BindText query_text; BindVector query_embedding; BindInt n; BindInt RRF_K;
    BindInt limit] filters in
  if (limit <? 0) || (n <? 0) then fail_with limit_error
  else
    rows ← query (fun s => selected s (fun _ => true) filters 5 binds);
    _ ← check_vector query_embedding rows;
    query (fun s =>
      let fused := fuse (keyword_arm s query_text filters binds n) (semantic_arm s query_embedding filters binds n) in
      omap (fun f => (fun c => hit_from_row s c (numeric_to_f32 (snd f))) <$> chunk_by_id s (fst f))
        (sql_limit limit (sort_by score_then_id fused))).

Definition keyword_search (query_text : string) (filters : SearchFilters) (limit : Z) : DbM (list SearchHit) :=
  let binds := bind_filters [BindText query_text; BindInt limit] filters in
  if limit <? 0 then fail_with limit_error
  else query (fun s => map (fun c => hit_from_row s c (ts_rank_cd (cr_text c) query_text))
    (sql_limit limit (sort_by (float_desc_then_id (fun c => ts_rank_cd (cr_text c) query_text))
      (selected s (fun c => tsv_matches (cr_text c) query_text) filters 2 binds)))).

Definition semantic_search (query_embedding : list f32) (filters : SearchFilters) (limit : Z) : DbM (list SearchHit) :=
  let binds := bind_filters [BindVector query_embedding; BindInt limit] filters in
  if limit <? 0 then fail_with limit_error
  else
    rows ← query (fun s => selected s (fun _ => true) filters 2 binds);
    _ ← check_vector query_embedding rows;
    query (fun s => map (fun c => hit_from_row s c (similarity (halfvec_distance (cr_embedding c) query_embedding)))
      (sql_limit limit (sort_by (fun a b =>
          float_le (halfvec_distance (cr_embedding a) query_embedding) (halfvec_distance (cr_embedding b) query_embedding))
        (hnsw_scan query_embedding (selected s (fun _ => true) filters 2 binds))))).
End search.
