(* ===== verification/SearchProps.v ===== *)
(** * What search finds, and in which order *)

From Stdlib Require Import QArith Lqa Ascii String SpecFloat.
From S2P Require Import Prelude RustStr Types Db DbSchema Store QueueSteps Search.

#[local] Open Scope Z_scope.
#[local] Arguments String.append !_ _ /.

(** ** Filters *)

(** What a filter asks of a chunk: when its recording was made, who said it
    and where. *)
Definition matches (s : Db) (f : SearchFilters) (c : ChunkRow) : bool :=
  let created := (fun r => rec_created_at (rr_rec r)) <$> db_recordings s !! cr_recording_id c in
  match sf_from f with None => true | Some t => match created with Some a => t <=? a | None => false end end &&
  match sf_to f with None => true | Some t => match created with Some a => a <=? t | None => false end end &&
  match sf_speaker_id f with
  | None => true
  | Some u => match cr_local_idx c with
      | Some idx => bool_decide ((r ← db_recording_speakers s !! (cr_recording_id c, idx); rsr_speaker_id r) = Some u)
      | None => false
      end
  end &&
  match sf_recording_id f with None => true | Some u => bool_decide (cr_recording_id c = u) end.

Lemma bind_filters_app fixed f : bind_filters fixed f = fixed ++ bind_filters [] f.
Proof. destruct f as [[] [] [] []]; cbn; by rewrite <- ?app_assoc, ?app_nil_r. Qed.

Lemma lookup_after {A} (fixed l : list A) k : (fixed ++ l) !! (k + length fixed)%nat = l !! k.
Proof. rewrite lookup_app_r by lia. f_equal. lia. Qed.

(** The [k]-th condition reads the [k]-th value after the fixed ones. *)
Lemma condition_at s fixed l c cond k :
  condition_holds s (fixed ++ l) c (cond, S (k + length fixed)) = condition_holds s l c (cond, S k).
Proof. unfold condition_holds. cbn [fst snd pred]. by rewrite lookup_after. Qed.

Lemma filter_clause_forallb fixed f s c :
  forallb (condition_holds s (bind_filters fixed f) c) (conditions f (length fixed)) = matches s f c.
Proof.
  rewrite bind_filters_app. destruct f as [[t1|] [t2|] [u1|] [u2|]]; cbn [conditions bind_filters present
      sf_from sf_to sf_speaker_id sf_recording_id app length seq zip zip_with forallb matches];
    rewrite ?(condition_at s fixed _ c _ 0), ?(condition_at s fixed _ c _ 1), ?(condition_at s fixed _ c _ 2),
      ?(condition_at s fixed _ c _ 3); unfold matches; cbn; rewrite ?andb_true_r, ?andb_assoc; try reflexivity.
Qed.

(** The SQL and its arguments agree.  Whatever filters are present and
    however many values a query binds before them, the clause is the text of
    their conditions, each numbered with a placeholder of its own from the one
    after the fixed values to the last; the values bound are the fixed ones
    followed by one for each condition; and a row passes exactly when it
    satisfies every filter that is present. *)
Theorem filter_clause_spec fixed f s c :
  let base := length fixed in
  let binds := bind_filters fixed f in
  filter_clause f base = str_concat (map condition_text (conditions f base)) /\
  map snd (conditions f base) = seq (S base) (length binds - base) /\
  take base binds = fixed /\
  forallb (condition_holds s binds c) (conditions f base) = matches s f c.
Proof.
  cbn zeta. split; [|split; [|split]].
  - destruct f as [[] [] [] []]; unfold filter_clause, conditions; cbn; rewrite ?append_assoc, ?append_nil_r; cbn;
      rewrite ?append_assoc, ?append_nil_r; reflexivity.
  - rewrite bind_filters_app, length_app. replace (_ + _ - _)%nat with (length (bind_filters [] f)) by lia.
    by destruct f as [[] [] [] []].
  - rewrite bind_filters_app. by rewrite take_app_length.
  - apply filter_clause_forallb.
Qed.

Lemma selected_spec s own fixed f c :
  c ∈ selected s own f (length fixed) (bind_filters fixed f) <->
  c ∈ db_chunks s /\ recording_exists s (cr_recording_id c) = true /\ own c = true /\ matches s f c = true.
Proof.
  unfold selected. rewrite elem_of_bfilter.
  rewrite filter_clause_forallb. rewrite !andb_true_iff. tauto.
Qed.

(** ** Rankings *)

Lemma score_then_id_spec a b :
  score_then_id a b = true <-> (snd b < snd a)%Q \/ ((snd a == snd b)%Q /\ fst a <= fst b).
Proof.
  unfold score_then_id. destruct (Qcompare_spec (snd a) (snd b)) as [He|Hl|Hl].
  - rewrite Z.leb_le. split; [by right|]. intros [Hq|[_ ?]]; [|done]. lra.
  - split; [done|]. intros [?|[? _]]; lra.
  - split; [by left|done].
Qed.

Lemma score_then_id_total a b : score_then_id a b = true \/ score_then_id b a = true.
Proof.
  rewrite !score_then_id_spec. destruct (Q_dec (snd a) (snd b)) as [[?|?]|He]; [right; by left|left; by left|].
  destruct (Z.le_ge_cases (fst a) (fst b)); [left|right]; right; by split.
Qed.

Lemma score_then_id_trans a b c :
  score_then_id a b = true -> score_then_id b c = true -> score_then_id a c = true.
Proof.
  rewrite !score_then_id_spec. intros [H1|[H1 H1']] [H2|[H2 H2']]; [left; lra|left; lra|left; lra|right].
  split; [by etrans|lia].
Qed.

(** The rank an arm gives a chunk, and what it contributes to the score. *)
Definition rank_in (arm : list (Z * Z)) (id : Z) : option Z := snd <$> find_first (fun ir => fst ir =? id) arm.
Definition reciprocal_rank `{Numeric} (arm : list (Z * Z)) (id : Z) : Q :=
  match rank_in arm id with Some r => numeric_recip (RRF_K + r) | None => 0%Q end.

Section fusion.
Context `{Numeric}.

Lemma arm_score_absent arm id : id ∉ map fst arm -> arm_score arm id = 0%Q.
Proof.
  induction arm as [|[i r] arm IH]; [done|]. cbn. intros Hn. apply not_elem_of_cons in Hn as [Hne Hn].
  rewrite (proj2 (Z.eqb_neq i id)) by done. by apply IH.
Qed.

Lemma arm_score_rank arm id : NoDup (map fst arm) -> (arm_score arm id == reciprocal_rank arm id)%Q.
Proof.
  unfold reciprocal_rank, rank_in. induction arm as [|[i r] arm IH]; intros Hnd; [done|]. cbn in *.
  apply NoDup_cons in Hnd as [Hi Hnd]. destruct (Z.eqb_spec i id) as [->|Hne]; [|by apply IH].
  cbn. change (foldr _ 0%Q arm) with (arm_score arm id). rewrite (arm_score_absent arm id) by done. ring.
Qed.

Lemma fuse_elem kw vec id q :
  (id, q) ∈ fuse kw vec <-> id ∈ map fst (kw ++ vec) /\ q = (arm_score kw id + arm_score vec id)%Q.
Proof.
  unfold fuse. rewrite list_elem_of_fmap. split.
  - intros (i & [= -> ->] & Hi). apply elem_of_dedup_first in Hi as [Hi _]. done.
  - intros [Hi ->]. exists id. split; [done|]. apply elem_of_dedup_first. split; [done|]. by intros ?%elem_of_nil.
Qed.

Lemma fuse_NoDup kw vec : NoDup (map fst (fuse kw vec)).
Proof.
  unfold fuse. rewrite map_map. cbn. rewrite map_id. apply NoDup_dedup_first.
Qed.
End fusion.

Lemma row_numbers_fst rows : map fst (row_numbers rows) = map cr_id rows.
Proof.
  unfold row_numbers. apply list_eq. intros i. rewrite !list_lookup_fmap, list_lookup_imap. by destruct (rows !! i).
Qed.

Lemma row_numbers_at rows i c : rows !! i = Some c -> row_numbers rows !! i = Some (cr_id c, Z.of_nat i + 1).
Proof. intros Hi. unfold row_numbers. by rewrite list_lookup_imap, Hi. Qed.

(** A ranking cut to [n]: whose ids, and which ranks. *)
Lemma ranking_cut n (rows : list ChunkRow) :
  map fst (sql_limit n (row_numbers rows)) = take (Z.to_nat n) (map cr_id rows).
Proof. unfold sql_limit. rewrite <- row_numbers_fst. apply fmap_take. Qed.

Lemma ranking_NoDup n rows all :
  rows ⊆+ all -> NoDup (map cr_id all) -> NoDup (map fst (sql_limit n (row_numbers rows))).
Proof.
  intros Hsub Hnd. rewrite ranking_cut.
  destruct (submseteq_Permutation (take (Z.to_nat n) (map cr_id rows)) (map cr_id all)) as [k Hk].
  { etrans; [apply submseteq_take|]. by apply fmap_submseteq. }
  rewrite Hk in Hnd. by apply NoDup_app in Hnd as [? _].
Qed.

Lemma ranking_elem n rows id : id ∈ map fst (sql_limit n (row_numbers rows)) -> exists c, c ∈ rows /\ cr_id c = id.
Proof.
  rewrite ranking_cut. intros Hi. pose proof (elem_of_submseteq _ _ _ Hi (submseteq_take _ _)) as Hin.
  apply list_elem_of_fmap in Hin as (c & -> & Hc). by exists c.
Qed.

(** ** The fused result *)

Definition keyed (r : ChunkRow * Q) : Z * Q := (cr_id (fst r), snd r).

Lemma chunk_by_id_of s c : NoDup (map cr_id (db_chunks s)) -> c ∈ db_chunks s -> chunk_by_id s (cr_id c) = Some c.
Proof.
  intros Hnd Hc. unfold chunk_by_id. destruct (find_first _ _) as [c'|] eqn:E.
  - apply find_first_Some in E as [Hc' Hid]. bool_to_prop. f_equal. by eapply (NoDup_map_inj cr_id).
  - rewrite find_first_None in E. specialize (E c Hc). by rewrite Z.eqb_refl in E.
Qed.

(** Joining the fused ids with their chunks loses none of them. *)
Lemma join_chunks {B} s (g : ChunkRow -> Q -> B) (l : list (Z * Q)) :
  NoDup (map cr_id (db_chunks s)) ->
  (forall f, f ∈ l -> exists c, c ∈ db_chunks s /\ cr_id c = fst f) ->
  exists rows, map keyed rows = l /\ (forall r, r ∈ rows -> fst r ∈ db_chunks s) /\
    omap (fun f => (fun c => g c (snd f)) <$> chunk_by_id s (fst f)) l = map (fun r => g (fst r) (snd r)) rows.
Proof.
  intros Hnd. induction l as [|[id q] l IH]; intros Hall.
  { exists []. split; [done|]. split; [|done]. by intros r ?%elem_of_nil. }
  destruct IH as (rows & Hk & Hin & Homap); [intros f Hf; apply Hall; by right|].
  destruct (Hall (id, q)) as (c & Hc & Hid); [by left|]. cbn in Hid.
  exists ((c, q) :: rows). split; [|split].
  - cbn. unfold keyed at 1. cbn. by rewrite Hid, Hk.
  - intros r [->|Hr]%elem_of_cons; [done|by apply Hin].
  - cbn. rewrite <- Hid, (chunk_by_id_of s c Hnd Hc). cbn. by rewrite Homap.
Qed.

Lemma StronglySorted_take {A} (R : A -> A -> Prop) n l : StronglySorted R l -> StronglySorted R (take n l).
Proof.
  intros Hs. revert n. induction Hs as [|x l Hs IH Hx]; intros [|n]; cbn; try apply SSorted_nil.
  apply SSorted_cons; [apply IH|by apply Forall_take].
Qed.

(** What the cut leaves out is no better than what it keeps. *)
Lemma cut_best {A} (le : A -> A -> bool) n (l : list A) x :
  StronglySorted (fun a b => le a b = true) l -> x ∈ l ->
  x ∈ take n l \/ (length (take n l) = n /\ forall y, y ∈ take n l -> le y x = true).
Proof.
  intros Hs. revert n. induction Hs as [|y l Hs IH Hy]; intros n Hx; [by apply elem_of_nil in Hx|].
  destruct n as [|n]; [right; split; [done|]; cbn; intros z Hz; by apply elem_of_nil in Hz|].
  apply elem_of_cons in Hx as [->|Hx]; [left; by left|].
  destruct (IH n Hx) as [Hin|[Hlen Hall]]; [left; by right|right]. cbn. split; [by rewrite Hlen|].
  intros z [->|Hz]%elem_of_cons; [|by apply Hall]. rewrite Forall_forall in Hy. by apply Hy.
Qed.

Section hybrid.
Context `{PgVector} `{FullText} `{HalfVecLaws} `{NumericLaws}.

(** The values bound to the hybrid query, and its two arms. *)
Definition hybrid_binds (q : string) (v : list f32) (f : SearchFilters) (limit : Z) : list Bind :=
  bind_filters [BindText q; BindVector v; BindInt (candidate_n limit); BindInt RRF_K; BindInt limit] f.
Definition kw_arm (s : Db) (q : string) (v : list f32) (f : SearchFilters) (limit : Z) : list (Z * Z) :=
  keyword_arm s q f (hybrid_binds q v f limit) (candidate_n limit).
Definition vec_arm (s : Db) (q : string) (v : list f32) (f : SearchFilters) (limit : Z) : list (Z * Z) :=
  semantic_arm s v f (hybrid_binds q v f limit) (candidate_n limit).

Lemma kw_rows_spec s q v f limit c :
  c ∈ sort_by (float_desc_then_id (fun c => ts_rank_cd (cr_text c) q))
    (selected s (fun c => tsv_matches (cr_text c) q) f 5 (hybrid_binds q v f limit)) <->
  c ∈ db_chunks s /\ recording_exists s (cr_recording_id c) = true /\ tsv_matches (cr_text c) q = true /\
  matches s f c = true.
Proof.
  rewrite sort_by_elem. unfold hybrid_binds.
  apply (selected_spec s (fun c => tsv_matches (cr_text c) q)
    [BindText q; BindVector v; BindInt (candidate_n limit); BindInt RRF_K; BindInt limit]).
Qed.

Lemma vec_rows_sub s q v f limit :
  sort_by (float_then_id (fun c => halfvec_distance (cr_embedding c) v))
    (hnsw_scan v (selected s (fun _ => true) f 5 (hybrid_binds q v f limit))) ⊆+
  selected s (fun _ => true) f 5 (hybrid_binds q v f limit).
Proof. rewrite sort_by_perm. apply hnsw_scan_sub. Qed.

Lemma selected_sub s own f base binds : selected s own f base binds ⊆+ db_chunks s.
Proof.
  unfold selected, bfilter. induction (db_chunks s) as [|c l IH]; cbn; [done|].
  destruct (_ && _); [by apply submseteq_skip|by apply submseteq_cons].
Qed.

Lemma arms_NoDup s q v f limit :
  schema_ok s -> NoDup (map fst (kw_arm s q v f limit)) /\ NoDup (map fst (vec_arm s q v f limit)).
Proof.
  intros Hs. pose proof (chunks_ids s Hs) as Hnd. split; eapply ranking_NoDup; try exact Hnd.
  - rewrite sort_by_perm. apply selected_sub.
  - etrans; [apply vec_rows_sub|apply selected_sub].
Qed.

(** A chunk of an arm is one of the table that satisfies the filters. *)
Lemma arms_sound s q v f limit id :
  id ∈ map fst (kw_arm s q v f limit ++ vec_arm s q v f limit) ->
  exists c, c ∈ db_chunks s /\ cr_id c = id /\ matches s f c = true.
Proof.
  rewrite map_app, elem_of_app. intros [Hi|Hi]; apply ranking_elem in Hi as (c & Hc & <-).
  - apply kw_rows_spec in Hc as (? & _ & _ & ?). by exists c.
  - apply (fun Hin => elem_of_submseteq _ _ _ Hin (vec_rows_sub s q v f limit)) in Hc.
    apply (selected_spec s (fun _ => true) [BindText q; BindVector v; BindInt (candidate_n limit); BindInt RRF_K; BindInt limit]) in Hc
      as (? & _ & _ & ?). by exists c.
Qed.

Lemma candidate_n_small limit : 0 <= limit < 2 ^ 60 -> candidate_n limit = Z.max limit 1 * 4.
Proof.
  intros Hl. unfold candidate_n. rewrite wrap_small by (unfold in_u; lia).
  rewrite (proj2 (Z.leb_le _ _)); [done|]. unfold i64_max. lia.
Qed.

Lemma hybrid_search_eq s q v f limit :
  0 <= limit < 2 ^ 60 -> finite_vector v = true -> length v = CHUNK_DIM ->
  hybrid_search q v f limit s = (Ok (omap (fun r => (fun c => hit_from_row s c (numeric_to_f32 (snd r))) <$> chunk_by_id s (fst r))
    (sql_limit limit (sort_by score_then_id (fuse (kw_arm s q v f limit) (vec_arm s q v f limit))))), s).
Proof.
  intros Hl Hv Hlen. unfold hybrid_search. cbn zeta. rewrite (proj2 (Z.ltb_ge limit 0)) by lia.
  rewrite (proj2 (Z.ltb_ge (candidate_n limit) 0)) by (rewrite candidate_n_small; lia). cbn [orb].
  rewrite bind_query. unfold check_vector. rewrite Hv, (bool_decide_eq_true_2 _ Hlen). cbn [negb].
  rewrite andb_false_r. done.
Qed.

(** C32: Hybrid search returns the best chunks.  Each hit is a chunk of the
    table that satisfies every filter, none comes twice and there are at most
    [limit]; a chunk's score is the sum of the reciprocals of 60 plus its rank
    in each ranking that has it; hits come by descending score, ties by id; and
    a chunk of either ranking that is not among them is behind all of them,
    when the limit is reached. *)
Theorem hybrid_search_spec s q v f limit :
  schema_ok s -> 0 <= limit < 2 ^ 60 -> finite_vector v = true -> length v = CHUNK_DIM ->
  let score id := (reciprocal_rank (kw_arm s q v f limit) id + reciprocal_rank (vec_arm s q v f limit) id)%Q in
  exists rows, hybrid_search q v f limit s =
      (Ok (map (fun r => hit_from_row s (fst r) (numeric_to_f32 (snd r))) rows), s) /\
    count rows <= limit /\ NoDup (map (fun r => cr_id (fst r)) rows) /\
    StronglySorted (fun a b => score_then_id a b = true) (map keyed rows) /\
    (forall r, r ∈ rows -> fst r ∈ db_chunks s /\ matches s f (fst r) = true /\
       (snd r == score (cr_id (fst r)))%Q) /\
    (forall id, id ∈ map fst (kw_arm s q v f limit ++ vec_arm s q v f limit) ->
       (exists r, r ∈ rows /\ cr_id (fst r) = id) \/
       (count rows = limit /\ forall r, r ∈ rows -> exists e, (e == score id)%Q /\ score_then_id (keyed r) (id, e) = true)).
Proof.
  intros Hs Hl Hv Hlen score. destruct (arms_NoDup s q v f limit Hs) as [Hnk Hnv].
  set (fused := fuse (kw_arm s q v f limit) (vec_arm s q v f limit)).
  set (L := sort_by score_then_id fused).
  assert (HL : StronglySorted (fun a b => score_then_id a b = true) L).
  { apply sort_by_sorted; [apply score_then_id_total|apply score_then_id_trans]. }
  assert (Hscore : forall id e, (id, e) ∈ L -> (e == score id)%Q).
  { intros id e. unfold L. rewrite sort_by_elem. intros [_ ->]%fuse_elem. unfold score.
    by rewrite !arm_score_rank. }
  assert (Hfound : forall p, p ∈ sql_limit limit L -> exists c, c ∈ db_chunks s /\ cr_id c = fst p /\ matches s f c = true).
  { intros [id e] Hin. apply (fun Hi => elem_of_submseteq _ _ _ Hi (submseteq_take _ _)) in Hin.
    unfold L in Hin. rewrite sort_by_elem in Hin. apply fuse_elem in Hin as [Hin _]. by apply arms_sound in Hin. }
  destruct (join_chunks s (fun c e => hit_from_row s c (numeric_to_f32 e)) (sql_limit limit L) (chunks_ids s Hs))
    as (rows & Hk & Hrows & Homap). { intros p Hp. destruct (Hfound p Hp) as (c & ? & ? & _). by exists c. }
  exists rows. assert (Hmem : forall r, r ∈ rows -> keyed r ∈ sql_limit limit L).
  { intros r Hr. rewrite <- Hk. by apply list_elem_of_fmap_2. }
  assert (Hcount : length rows = length (sql_limit limit L)) by (by rewrite <- Hk, length_map).
  split; [rewrite hybrid_search_eq by done; fold fused L; by rewrite Homap|].
  split; [unfold count; rewrite Hcount; unfold sql_limit; rewrite length_take; lia|].
  split; [|split; [rewrite Hk; by apply StronglySorted_take|split]].
  - replace (map (fun r => cr_id (fst r)) rows) with (map fst (map keyed rows)) by (rewrite map_map; done).
    rewrite Hk. unfold sql_limit. change (map fst (take (Z.to_nat limit) L)) with (fst <$> take (Z.to_nat limit) L).
    rewrite fmap_take. eapply sublist_NoDup; [|apply sublist_take]. unfold L.
    change (fst <$> sort_by score_then_id fused) with (map fst (sort_by score_then_id fused)).
    rewrite sort_by_perm. apply fuse_NoDup.
  - intros r Hr. split; [by apply Hrows|]. pose proof (Hmem r Hr) as Hin. split.
    + destruct (Hfound _ Hin) as (c & Hc & Hid & Hm). cbn in Hid.
      by rewrite (NoDup_map_inj cr_id _ (fst r) c (chunks_ids s Hs) (Hrows r Hr) Hc (eq_sym Hid)).
    + apply Hscore. eapply elem_of_submseteq; [exact Hin|apply submseteq_take].
  - intros id Hid. set (e := (arm_score (kw_arm s q v f limit) id + arm_score (vec_arm s q v f limit) id)%Q).
    assert (Hin : (id, e) ∈ L) by (unfold L; rewrite sort_by_elem; by apply fuse_elem).
    destruct (cut_best score_then_id (Z.to_nat limit) L (id, e) HL Hin) as [Hcut|[Hfull Hall]].
    + left. fold (sql_limit limit L) in Hcut. rewrite <- Hk in Hcut. apply list_elem_of_fmap in Hcut as (r & [= Hi _] & Hr).
      by exists r.
    + right. split; [unfold count; rewrite Hcount; unfold sql_limit; rewrite Hfull; lia|].
      intros r Hr. exists e. split; [by apply Hscore|]. apply Hall, Hmem, Hr.
Qed.

(** An arm's ranks: the first has rank one, every other a larger one, none
    beyond the size of the candidate pool. *)
Lemma rank_in_range n rows id r :
  rank_in (sql_limit n (row_numbers rows)) id = Some r -> 1 <= r <= Z.max n 0 /\
    forall id0 r0 l, sql_limit n (row_numbers rows) = (id0, r0) :: l -> r0 = 1 /\ (id <> id0 -> 2 <= r).
Proof.
  unfold rank_in. destruct (find_first _ _) as [[i k]|] eqn:E; [|done]. cbn. intros [= ->].
  apply find_first_Some in E as [Hin Hi]. cbn in Hi. bool_to_prop. subst i.
  apply list_elem_of_lookup in Hin as [j Hj]. unfold sql_limit in Hj. apply lookup_take_Some in Hj as [Hj Hlt].
  unfold row_numbers in Hj. rewrite list_lookup_imap in Hj. destruct (rows !! j) as [c|] eqn:Ec; [|done].
  injection Hj as Hid <-. split; [lia|]. intros id0 r0 l Heq.
  assert (Hz : row_numbers rows !! 0%nat = Some (id0, r0)).
  { rewrite <- (lookup_take_lt (row_numbers rows) (Z.to_nat n) 0) by lia. fold (sql_limit n (row_numbers rows)). by rewrite Heq. }
  unfold row_numbers in Hz. rewrite list_lookup_imap in Hz. destruct (rows !! 0%nat) as [c0|] eqn:E0; [|done].
  injection Hz as Hc0 <-. split; [done|]. intros Hne. destruct j as [|j]; [|lia].
  rewrite E0 in Ec. injection Ec as ->. congruence.
Qed.

Lemma first_beats n rows id0 r0 l id :
  n <= 400000 -> sql_limit n (row_numbers rows) = (id0, r0) :: l -> id <> id0 ->
  (reciprocal_rank (sql_limit n (row_numbers rows)) id < reciprocal_rank (sql_limit n (row_numbers rows)) id0)%Q.
Proof.
  intros Hn Heq Hne. assert (Hz : reciprocal_rank (sql_limit n (row_numbers rows)) id0 = numeric_recip (RRF_K + 1)).
  { assert (Hr : rank_in (sql_limit n (row_numbers rows)) id0 = Some r0).
    { rewrite Heq. unfold rank_in. cbn. by rewrite Z.eqb_refl. }
    unfold reciprocal_rank. rewrite Hr. destruct (rank_in_range n rows id0 r0 Hr) as [_ Hf].
    by destruct (Hf id0 r0 l Heq) as [-> _]. }
  rewrite Hz. unfold reciprocal_rank. destruct (rank_in _ id) as [r|] eqn:Hr; [|by apply recip_pos].
  destruct (rank_in_range n rows id r Hr) as [Hb Hf]. destruct (Hf id0 r0 l Heq) as [_ Htwo]. specialize (Htwo Hne).
  apply recip_antitone; unfold RRF_K; lia.
Qed.

(** Agreement wins.  A chunk that both rankings put first is the first hit,
    whatever else they contain. *)
Theorem agreed_best_first s q v f limit id r r' kw vec :
  schema_ok s -> 1 <= limit <= 100000 -> finite_vector v = true -> length v = CHUNK_DIM ->
  kw_arm s q v f limit = (id, r) :: kw -> vec_arm s q v f limit = (id, r') :: vec ->
  exists c e rest, hybrid_search q v f limit s = (Ok (hit_from_row s c e :: rest), s) /\
    c ∈ db_chunks s /\ cr_id c = id.
Proof.
  intros Hs Hl Hv Hlen Hk Hvec. destruct (arms_NoDup s q v f limit Hs) as [Hnk Hnv].
  rewrite hybrid_search_eq by (done || lia).
  set (fused := fuse (kw_arm s q v f limit) (vec_arm s q v f limit)).
  assert (Hid : id ∈ map fst (kw_arm s q v f limit ++ vec_arm s q v f limit)) by (rewrite Hk; left).
  destruct (sort_by score_then_id fused) as [|[id0 e0] L] eqn:HL.
  { assert (Hin : (id, (arm_score (kw_arm s q v f limit) id + arm_score (vec_arm s q v f limit) id)%Q) ∈ sort_by score_then_id fused)
      by (rewrite sort_by_elem; by apply fuse_elem). rewrite HL in Hin. by apply elem_of_nil in Hin. }
  destruct (sort_by_head_min _ score_then_id_total score_then_id_trans _ _ _ HL) as [Hin0 Hmin].
  apply fuse_elem in Hin0 as [Hin0 He0].
  assert (Hfirst : id0 = id).
  { destruct (decide (id0 = id)) as [|Hne]; [done|]. exfalso.
    specialize (Hmin (id, _) (proj2 (fuse_elem _ _ _ _) (conj Hid eq_refl))). apply score_then_id_spec in Hmin. cbn in Hmin.
    assert (Hlt : (e0 < arm_score (kw_arm s q v f limit) id + arm_score (vec_arm s q v f limit) id)%Q).
    { rewrite He0, !arm_score_rank by done.
      assert (Hn : candidate_n limit <= 400000) by (rewrite candidate_n_small; lia).
      pose proof (first_beats _ _ id r kw id0 Hn Hk Hne) as B1. pose proof (first_beats _ _ id r' vec id0 Hn Hvec Hne) as B2.
      by apply Qplus_lt_le_compat; [|apply Qlt_le_weak]. }
    destruct Hmin as [?|[? _]]; lra. }
  subst id0. destruct (arms_sound s q v f limit id Hid) as (c & Hc & Hcid & _).
  unfold sql_limit at 1. destruct (Z.to_nat limit) as [|n] eqn:En; [lia|]. cbn [take omap list_omap fst snd].
  rewrite <- Hcid, (chunk_by_id_of s c (chunks_ids s Hs) Hc). cbn. eexists c, _, _. by split.
Qed.
End hybrid.

(** The two plain searches: every hit satisfies the filters and the query. *)
Section plain.
Context `{PgVector} `{FullText} `{HalfVecLaws}.

Lemma sql_limit_elem {A} n (l : list A) x : x ∈ sql_limit n l -> x ∈ l.
Proof. intros Hx. eapply elem_of_submseteq; [exact Hx|apply submseteq_take]. Qed.

Lemma sql_limit_count {A} n (l : list A) : 0 <= n -> count (sql_limit n l) <= n.
Proof. intros Hn. unfold count, sql_limit. rewrite length_take. lia. Qed.

Lemma keyword_search_sound s q f limit :
  0 <= limit ->
  exists rows, keyword_search q f limit s = (Ok (map (fun c => hit_from_row s c (ts_rank_cd (cr_text c) q)) rows), s) /\
    count rows <= limit /\
    forall c, c ∈ rows -> c ∈ db_chunks s /\ tsv_matches (cr_text c) q = true /\ matches s f c = true.
Proof.
  intros Hl. unfold keyword_search. rewrite (proj2 (Z.ltb_ge limit 0)) by lia. eexists. split; [reflexivity|].
  split; [by apply sql_limit_count|]. intros c Hc%sql_limit_elem. rewrite sort_by_elem in Hc.
  apply (selected_spec s (fun c => tsv_matches (cr_text c) q) [BindText q; BindInt limit]) in Hc. tauto.
Qed.

Lemma semantic_search_sound s v f limit :
  0 <= limit -> finite_vector v = true -> length v = CHUNK_DIM ->
  exists rows, semantic_search v f limit s =
      (Ok (map (fun c => hit_from_row s c (similarity (halfvec_distance (cr_embedding c) v))) rows), s) /\
    count rows <= limit /\ forall c, c ∈ rows -> c ∈ db_chunks s /\ matches s f c = true.
Proof.
  intros Hl Hv Hlen. unfold semantic_search. rewrite (proj2 (Z.ltb_ge limit 0)) by lia. cbn zeta.
  rewrite bind_query. unfold check_vector. rewrite Hv, (bool_decide_eq_true_2 _ Hlen). cbn [negb]. rewrite andb_false_r.
  eexists. split; [reflexivity|]. split; [by apply sql_limit_count|]. intros c Hc%sql_limit_elem.
  rewrite sort_by_elem in Hc. apply (fun Hin => elem_of_submseteq _ _ _ Hin (hnsw_scan_sub v _)) in Hc.
  apply (selected_spec s (fun _ => true) [BindVector v; BindInt limit]) in Hc. tauto.
Qed.
End plain.

(** *** Witnesses *)

Definition every_word : FullText := {| tsv_matches _ _ := true; ts_rank_cd _ _ := S754_finite false 1 0 |}.
Definition exact_scan : HalfVec := {| halfvec_distance _ _ := S754_zero false; hnsw_scan _ rows := rows |}.
Definition exact_numeric : Numeric := {|
  numeric_recip n := if 0 <? n then (1 / inject_Z n)%Q else 0%Q;
  numeric_to_f32 _ := S754_finite false 1 0;
|}.
Definition constant_distance : PgVector :=
  {| cosine_distance _ _ := S754_zero false; similarity _ := S754_finite false 1 0 |}.

Lemma exact_scan_laws : @HalfVecLaws exact_scan.
Proof. by intros q rows. Qed.

Lemma exact_numeric_laws : @NumericLaws exact_numeric.
Proof.
  constructor; cbn.
  - intros n Hn. rewrite (proj2 (Z.ltb_lt 0 n)) by done. apply Qlt_shift_div_l; [unfold Qlt; cbn; lia|]. lra.
  - intros a b Hab _. rewrite !(proj2 (Z.ltb_lt 0 _)) by lia.
    assert (Ha : (0 < inject_Z a)%Q) by (unfold Qlt; cbn; lia).
    assert (Hb : (inject_Z a < inject_Z b)%Q) by (unfold Qlt; cbn; lia).
    apply Qlt_shift_div_l; [done|]. 
    assert (Hr : (1 / inject_Z b * inject_Z a == inject_Z a / inject_Z b)%Q) by (field; lra). rewrite Hr.
    apply Qlt_shift_div_r; lra.
Qed.

Definition zero_vector : list f32 := repeat (S754_zero false) CHUNK_DIM.
Definition chunked_db : Db :=
  set_next_chunk 3 (set_chunks [mkChunkRow 1 1 (Some 0) (Some 900) (Some 0) "hello" zero_vector;
    mkChunkRow 2 1 (Some 900) None None "bye" zero_vector] sample_db).

Lemma chunked_schema : schema_ok chunked_db.
Proof.
  destruct sample_schema. constructor; try assumption.
  - apply (bool_decide_unpack _). vm_compute. exact I.
  - repeat constructor.
  - repeat constructor; by exists sample_recording.
Qed.

#[local] Existing Instances every_word exact_scan exact_numeric constant_distance exact_scan_laws exact_numeric_laws.

Lemma hybrid_search_spec_witness :
  exists rows, hybrid_search "hello" zero_vector SearchFilters.default 1 chunked_db =
    (Ok (map (fun r => hit_from_row chunked_db (fst r) (numeric_to_f32 (snd r))) rows), chunked_db) /\ count rows <= 1.
Proof.
  destruct (hybrid_search_spec chunked_db "hello" zero_vector SearchFilters.default 1 chunked_schema)
    as (rows & Heq & Hn & _).
  - lia.
  - vm_compute. reflexivity.
  - vm_compute. reflexivity.
  - exists rows. split; [exact Heq|exact Hn].
Defined.

Lemma agreed_best_first_witness :
  exists c e rest, hybrid_search "hello" zero_vector SearchFilters.default 20 chunked_db =
    (Ok (hit_from_row chunked_db c e :: rest), chunked_db) /\ cr_id c = 1.
Proof.
  destruct (agreed_best_first chunked_db "hello" zero_vector SearchFilters.default 20 1 1 1 [(2, 2)] [(2, 2)] chunked_schema)
    as (c & e & rest & Heq & _ & Hid).
  - lia.
  - vm_compute. reflexivity.
  - vm_compute. reflexivity.
  - vm_compute. reflexivity.
  - vm_compute. reflexivity.
  - exists c, e, rest. split; [exact Heq|exact Hid].
Defined.
