(* ===== verification/Ask.v ===== *)
(** * Search and ask: [crates/scribe-api/src/handlers/search.rs]

    [GET /search] embeds the query and runs the hybrid search; [POST /ask]
    retrieves excerpts for a question and its conversation, shows them to the
    language model and answers with citations. *)

From Stdlib Require Import Ascii String SpecFloat.
From S2P Require Import Prelude RustStr Types Llm Db Store Search SearchProps.

#[local] Arguments String.append !_ _ /.

Definition DEFAULT_TOP_K : Z := 8.
Definition MAX_TOP_K : Z := 50.
Definition DEFAULT_SEARCH_LIMIT : Z := 20.
Definition MAX_HISTORY_TURNS : nat := 12.
Definition MAX_HISTORY_CHARS : Z := 1200.
Definition RECENT_USER_TURNS : nat := 2.

(** [x.clamp(lo, hi)] *)
Definition clamp (lo hi x : Z) : Z := Z.max lo (Z.min hi x).

Record SearchQuery := mkSearchQuery {
  sq_q : string; sq_from : option Instant; sq_to : option Instant;
  sq_speaker : option Uuid; sq_recording : option Uuid; sq_limit : option Z;
}.
Record AskFilters := mkAskFilters {
  af_from : option Instant; af_to : option Instant; af_speaker : option Uuid; af_recording : option Uuid;
}.
Record AskTurn := mkAskTurn { turn_role : string; turn_content : string }.
Record AskBody := mkAskBody {
  ask_question : string; ask_history : list AskTurn; ask_filters : option AskFilters; ask_top_k : option Z;
}.
Record Citation := mkCitation {
  cit_recording_id : Uuid; cit_recording_title : option string; cit_start_ms : option Z;
  cit_end_ms : option Z; cit_speaker : option string; cit_snippet : string;
}.
Record Answer := mkAnswer { answer : string; citations : list Citation }.

Definition hit_to_citation (h : SearchHit) : Citation :=
  mkCitation (hit_recording_id h) (hit_recording_title h) (hit_start_ms h) (hit_end_ms h) (hit_speaker h) (hit_text h).

(** ** The retrieval query *)

Definition is_assistant (t : AskTurn) : bool := eq_ignore_ascii_case (turn_role t) "assistant".

(** What the user said lately, latest first. *)
Definition recent_turns (history : list AskTurn) : list string :=
  take RECENT_USER_TURNS (reverse (bfilter (fun c => negb (is_empty c))
    (map (fun t => trim (turn_content t)) (bfilter (fun t => negb (is_assistant t)) history)))).

Definition retrieval_query (question : string) (history : list AskTurn) : string :=
  match recent_turns history with
  | [] => question
  | recent => str_concat (map (fun turn => turn +:+ " ") (reverse recent)) +:+ question
  end.

(** ** The prompt *)

Definition ellipsis : string := bytes [226; 128; 166]%N.
Definition em_dash : string := bytes [226; 128; 148]%N.

Definition truncate_chars (s : string) (max : Z) : string :=
  if char_count s <=? max then s else take_chars s max +:+ ellipsis.

(** [{:02}] of a number that is not negative. *)
Definition pad02 (n : Z) : string := zeros (2 - String.length (pretty n)) +:+ pretty n.

Definition format_timestamp (start_ms : option Z) : string :=
  match start_ms with
  | Some ms =>
      if 0 <=? ms then
        let total_secs := Z.quot ms 1000 in
        ", " +:+ pad02 (Z.quot total_secs 60) +:+ ":" +:+ pad02 (Z.rem total_secs 60)
      else ""
  | None => ""
  end.

Definition SYSTEM : string := str_concat [
  "You are the user's assistant for their own meeting recordings. You are having a conversation, not filling in a form."; newline; newline;
  "Excerpts retrieved from the user's transcripts are provided with each question. Treat them as the record of what was actually said, and prefer them over your own assumptions about the user's work."; newline; newline;
  "How to answer:"; newline;
  "- Answer the question that was asked, in a natural conversational voice. Follow-ups refer to the conversation so far."; newline;
  "- Reason over the excerpts: compare, count, calculate, draw conclusions, and offer your read of what they mean. You do not need permission to do arithmetic or analysis on numbers that appear in a transcript."; newline;
  "- Cite an excerpt as [1], [2] when you rely on something specific from it. Do not cite for chit-chat, arithmetic, or your own reasoning. Never invent a citation number that was not provided."; newline;
  "- If the excerpts do not cover the question, say so in your own words, say what you DID find that is close, and suggest what the user could ask instead. Never answer with a bare stock sentence."; newline;
  "- If the question is not about the recordings at all (a greeting, a question about this conversation, a general request), just answer it normally. Do not mention the search."; newline;
  "- Each excerpt names who was speaking where the recording knows. Use those names when the question is about who said or agreed to something, and say when an excerpt has no name attached."; newline;
  "- Do not fabricate quotes, speakers, decisions, numbers, or dates. If you are unsure whether something was said, say that plainly."].

(** The replayed turns: the loop over [&history[start..]]. *)
Fixpoint replay (turns : list AskTurn) : list ChatMessage :=
  match turns with
  | [] => []
  | turn :: turns' =>
      let content := truncate_chars (trim (turn_content turn)) MAX_HISTORY_CHARS in
      if is_empty content then replay turns'
      else (if is_assistant turn then ChatMessage.assistant content else ChatMessage.user content) :: replay turns'
  end.

Definition excerpt (i : nat) (hit : SearchHit) : string :=
  let title := default "Untitled recording" (hit_recording_title hit) in
  let who := match hit_speaker hit with Some s => " " +:+ em_dash +:+ " " +:+ s | None => "" end in
  "[" +:+ pretty (S i) +:+ "] (" +:+ title +:+ format_timestamp (hit_start_ms hit) +:+ who +:+ ")" +:+ newline +:+
    trim (hit_text hit) +:+ newline +:+ newline.

Definition no_excerpts : string :=
  "[Search over the recordings returned no matching excerpts for this message.]" +:+ newline +:+ newline.
Definition excerpts_header : string := "Excerpts from my recordings:" +:+ newline +:+ newline.

Definition user_message (question : string) (hits : list SearchHit) : string :=
  match hits with
  | [] => no_excerpts +:+ question
  | _ => excerpts_header +:+ str_concat (imap excerpt hits) +:+ newline +:+ question
  end.

Definition build_prompt (question : string) (history : list AskTurn) (hits : list SearchHit) : list ChatMessage :=
  let start := (length history - MAX_HISTORY_TURNS)%nat in
  ChatMessage.system SYSTEM :: replay (drop start history) ++ [ChatMessage.user (user_message question hits)].

(** ** The handlers *)

Section handlers.
Context `{PgVector} `{FullText} `{HalfVec} `{Numeric} `{Embedder} `{LanguageModel}.

Definition embed_query (text : string) : DbM (list f32) :=
  match embed_one text with Ok v => mret v | Err e => fail_with e end.

Definition search (q : SearchQuery) : DbM (list SearchHit) :=
  let limit := clamp 1 200 (default DEFAULT_SEARCH_LIMIT (sq_limit q)) in
  let filters := mkFilters (sq_from q) (sq_to q) (sq_speaker q) (sq_recording q) in
  embedding ← embed_query (sq_q q);
  hybrid_search (sq_q q) embedding filters limit.

Definition ask_filters_of (f : option AskFilters) : SearchFilters :=
  match f with
  | Some f => mkFilters (af_from f) (af_to f) (af_speaker f) (af_recording f)
  | None => SearchFilters.default
  end.

Definition unavailable (e : Error) : string :=
  "(Could not generate an answer " +:+ em_dash +:+ " the language model is unavailable: " +:+ Error.to_string e +:+
  ". See the cited excerpts below.)".

Definition ask (summarize_model : string) (body : AskBody) : DbM Answer :=
  let top_k := clamp 1 MAX_TOP_K (default DEFAULT_TOP_K (ask_top_k body)) in
  let filters := ask_filters_of (ask_filters body) in
  let retrieval := retrieval_query (ask_question body) (ask_history body) in
  embedding ← embed_query retrieval;
  hits ← hybrid_search retrieval embedding filters top_k;
  let messages := build_prompt (ask_question body) (ask_history body) hits in
  mret (mkAnswer
    (match chat summarize_model messages with Ok text => trim text | Err e => unavailable e end)
    (map hit_to_citation hits)).
End handlers.

(** ** Properties *)

Lemma replay_length turns : (length (replay turns) <= length turns)%nat.
Proof. induction turns as [|t ts IH]; cbn; [done|]. destruct (is_empty _); cbn; lia. Qed.

Lemma truncate_chars_bound s max : 0 <= max -> char_count (truncate_chars s max) <= max + 1.
Proof.
  intros Hm. unfold truncate_chars. destruct (Z.leb_spec (char_count s) max); [lia|].
  pose proof (char_count_app_le (take_chars s max) ellipsis) as Happ. rewrite take_chars_count in Happ by done.
  change (char_count ellipsis) with 1 in Happ. lia.
Qed.

Lemma replay_bound turns m : m ∈ replay turns ->
  content m <> "" /\ char_count (content m) <= MAX_HISTORY_CHARS + 1 /\ (role m = "assistant" \/ role m = "user").
Proof.
  induction turns as [|t ts IH]; cbn; [by intros ?%elem_of_nil|].
  destruct (is_empty _) eqn:E; [done|]. intros [->|Hm]%elem_of_cons; [|by apply IH].
  apply String.eqb_neq in E.
  assert (Hb := truncate_chars_bound (trim (turn_content t)) MAX_HISTORY_CHARS ltac:(done)).
  destruct (is_assistant t); cbn; auto.
Qed.

(** The prompt is bounded and well formed.  It is the system instruction,
    at most twelve earlier turns, none empty and none longer than 1,201
    characters, and one last user message that ends with the question; excerpt
    [n] of that message is the [n]-th hit, the one the [n]-th citation cites. *)
Theorem build_prompt_spec question history hits :
  exists turns user, build_prompt question history hits = ChatMessage.system SYSTEM :: turns ++ [ChatMessage.user user] /\
    (length turns <= 12)%nat /\
    (forall m, m ∈ turns -> content m <> "" /\ char_count (content m) <= 1201 /\ (role m = "assistant" \/ role m = "user")) /\
    (exists before, user = before +:+ question) /\
    forall i h, hits !! i = Some h -> exists l r, user = l +:+ excerpt i h +:+ r /\
      map hit_to_citation hits !! i = Some (hit_to_citation h).
Proof.
  eexists _, _. split; [reflexivity|]. split; [|split; [|split]].
  - etrans; [apply replay_length|]. rewrite length_drop. unfold MAX_HISTORY_TURNS. lia.
  - intros m Hm. exact (replay_bound _ m Hm).
  - unfold user_message. destruct hits as [|h hits]; [by exists no_excerpts|].
    exists (excerpts_header +:+ str_concat (imap excerpt (h :: hits)) +:+ newline).
    generalize (imap excerpt (h :: hits)) excerpts_header newline. intros l a b. by rewrite !append_assoc.
  - intros i h Hi. unfold user_message.
    assert (Himap : imap excerpt hits !! i = Some (excerpt i h)) by (by rewrite list_lookup_imap, Hi).
    apply list_elem_of_split_length in Himap as (l1 & l2 & Heq & _).
    destruct hits as [|h0 hits]; [done|].
    exists (excerpts_header +:+ str_concat l1), (str_concat l2 +:+ newline +:+ question). split.
    + rewrite Heq, str_concat_app. change (str_concat (excerpt i h :: l2)) with (excerpt i h +:+ str_concat l2).
      generalize (str_concat l1) (str_concat l2) (excerpt i h) excerpts_header newline. intros a b c d e.
      by rewrite !append_assoc.
    + change (map hit_to_citation (h0 :: hits)) with (hit_to_citation <$> (h0 :: hits)). by rewrite list_lookup_fmap, Hi.
Qed.

(** What a retrieval query is made of: the question, after what the user said
    in the last turns, in order. *)
Lemma retrieval_query_parts question history :
  exists recent older,
    bfilter (fun c => negb (is_empty c)) (map (fun t => trim (turn_content t)) (bfilter (fun t => negb (is_assistant t)) history))
      = older ++ recent /\
    (length recent <= 2)%nat /\ (older <> [] -> length recent = 2%nat) /\
    retrieval_query question history = str_concat (map (fun turn => turn +:+ " ") recent) +:+ question.
Proof.
  set (said := bfilter _ _). exists (reverse (take 2 (reverse said))), (reverse (drop 2 (reverse said))).
  split; [by rewrite <- reverse_app, take_drop, reverse_involutive|].
  split; [rewrite length_reverse, length_take; lia|]. split.
  - intros Hne. rewrite length_reverse, length_take.
    destruct (decide (2 <= length (reverse said))%nat); [lia|]. rewrite drop_ge in Hne by lia. done.
  - unfold retrieval_query, recent_turns. fold said. unfold RECENT_USER_TURNS.
    destruct (take 2 (reverse said)) as [|x l]; [done|]. done.
Qed.

(** What an excerpt shows of a hit: its number, and the text without the space
    around it. *)
Lemma excerpt_shows i h : exists m r, excerpt i h = "[" +:+ pretty (S i) +:+ "]" +:+ m +:+ trim (hit_text h) +:+ r.
Proof.
  unfold excerpt. set (title := default _ _). set (who := match hit_speaker h with Some _ => _ | None => _ end).
  exists (" (" +:+ title +:+ format_timestamp (hit_start_ms h) +:+ who +:+ ")" +:+ newline), (newline +:+ newline).
  generalize title who newline (format_timestamp (hit_start_ms h)) (trim (hit_text h)) (pretty (S i)). intros a b c d e f.
  change (f +:+ "] (" +:+ ?x) with (f +:+ "]" +:+ (" (" +:+ x)). by rewrite !append_assoc.
Qed.

(** A citation of a hit points to where it was found. *)
Definition cites (c : Citation) (h : SearchHit) : Prop :=
  cit_recording_id c = hit_recording_id h /\ cit_recording_title c = hit_recording_title h /\
  cit_start_ms c = hit_start_ms h /\ cit_end_ms c = hit_end_ms h /\ cit_speaker c = hit_speaker h /\
  cit_snippet c = hit_text h.

(** A prompt for a question over some hits: the instruction, earlier turns, and
    a user message with every hit under its number and the question at its end. *)
Definition prompts_for (question : string) (hits : list SearchHit) (messages : list ChatMessage) : Prop :=
  exists turns user, messages = ChatMessage.system SYSTEM :: turns ++ [ChatMessage.user user] /\
    (length turns <= 12)%nat /\
    (forall m, m ∈ turns -> content m <> "" /\ char_count (content m) <= 1201 /\ (role m = "assistant" \/ role m = "user")) /\
    (exists before, user = before +:+ question) /\
    (forall i h, hits !! i = Some h ->
       exists l m r, user = l +:+ "[" +:+ pretty (S i) +:+ "]" +:+ m +:+ trim (hit_text h) +:+ r) /\
    (hits = [] -> exists r, user =
       "[Search over the recordings returned no matching excerpts for this message.]" +:+ r).

Lemma build_prompt_prompts question history hits : prompts_for question hits (build_prompt question history hits).
Proof.
  destruct (build_prompt_spec question history hits) as (turns & user & Heq & Hlen & Hturns & Hend & Hin).
  exists turns, user. split; [done|]. split; [done|]. split; [done|]. split; [done|]. split.
  - intros i h Hi. destruct (Hin i h Hi) as (l & r & -> & _). destruct (excerpt_shows i h) as (m & r' & ->).
    exists l, m, (r' +:+ r). generalize (pretty (S i)) (trim (hit_text h)). intros a b. by rewrite !append_assoc.
  - intros ->. unfold build_prompt in Heq. injection Heq as Heq. apply app_inj_tail in Heq as [_ Hu]. injection Hu as <-.
    by eexists.
Qed.

Section promises.
Context `{PgVector} `{FullText} `{HalfVec} `{Numeric} `{Embedder} `{LanguageModel}.

(** Searching only reads, and never answers with more than was asked for. *)
Lemma hybrid_search_reads q v f limit s :
  snd (hybrid_search q v f limit s) = s /\
  forall hits, fst (hybrid_search q v f limit s) = Ok hits -> count hits <= Z.max limit 0.
Proof.
  unfold hybrid_search. cbn zeta. destruct (_ || _); [done|]. rewrite bind_query. unfold check_vector.
  destruct (negb _); [done|]. destruct (_ && _); [done|]. rewrite bind_mret. cbn [query exec fst snd]. split; [done|].
  intros hits [= <-]. unfold count, sql_limit. set (l := sort_by _ _).
  assert (Hlen : forall m, (length (omap (fun f => (fun c => hit_from_row s c (numeric_to_f32 (snd f))) <$> chunk_by_id s (fst f)) m)
    <= length m)%nat) by (intros m; induction m as [|x m IH]; cbn; [done|]; destruct (chunk_by_id _ _); cbn; lia).
  specialize (Hlen (take (Z.to_nat limit) l)). rewrite length_take in Hlen. lia.
Qed.

(** C33: An answer always comes with its sources.  Asking fails exactly when the
    retrieval query, which ends with the question, cannot be embedded or
    searched for, with that error; whatever the language model does, it does not
    fail.  The citations are the hits in their order, at most fifty, each with
    the recording, the title, the times, the speaker and the text of its hit.
    The model was shown the instruction, at most twelve earlier turns, and one
    message with every hit's text under its citation's number (or the word that
    nothing was found) and the question at its end; the answer is what it said,
    or else names the error that kept it from answering.  Nothing is written. *)
Theorem ask_spec model body s :
  let retrieval := retrieval_query (ask_question body) (ask_history body) in
  let filters := ask_filters_of (ask_filters body) in
  let k := clamp 1 50 (default 8 (ask_top_k body)) in
  (exists before, retrieval = before +:+ ask_question body) /\
  snd (ask model body s) = s /\
  match fst (ask model body s) with
  | Err e => embed_one retrieval = Err e \/
      exists v, embed_one retrieval = Ok v /\ fst (hybrid_search retrieval v filters k s) = Err e
  | Ok a => exists v hits messages,
      embed_one retrieval = Ok v /\ fst (hybrid_search retrieval v filters k s) = Ok hits /\
      Forall2 cites (citations a) hits /\ count (citations a) <= 50 /\
      prompts_for (ask_question body) hits messages /\
      match chat model messages with
      | Ok text => answer a = trim text
      | Err e => exists r, answer a = "(Could not generate an answer " +:+ em_dash +:+
          " the language model is unavailable: " +:+ Error.to_string e +:+ r
      end
  end.
Proof.
  cbn zeta. split.
  { destruct (retrieval_query_parts (ask_question body) (ask_history body)) as (recent & _ & _ & _ & _ & ->). by eexists. }
  unfold ask, embed_query, DEFAULT_TOP_K, MAX_TOP_K. set (r := retrieval_query _ _). set (k := clamp _ _ _).
  assert (Hk : 1 <= k <= 50) by (unfold k, clamp; lia).
  destruct (embed_one r) as [v|e]; [|split; [done|by left]]. rewrite bind_mret.
  destruct (hybrid_search_reads r v (ask_filters_of (ask_filters body)) k s) as [Hst Hn].
  unfold mbind, M_bind. destruct (hybrid_search r v _ k s) as [[hits|e] s'] eqn:Eh; cbn [fst snd] in *; subst s';
    (split; [done|]); [|right; exists v; by rewrite Eh].
  exists v, hits, (build_prompt (ask_question body) (ask_history body) hits). split; [done|]. split; [by rewrite Eh|].
  cbn [citations answer]. split; [by apply Forall2_fmap_l, Forall_Forall2_diag, Forall_true|].
  specialize (Hn hits eq_refl). split; [unfold count in *; rewrite length_map; lia|]. split; [apply build_prompt_prompts|].
  destruct (chat _ _); [done|]. by eexists.
Qed.

(** The plain search: between one and two hundred hits are asked for, and no
    more come back. *)
Lemma search_bounded q s :
  snd (search q s) = s /\ forall hits, fst (search q s) = Ok hits -> count hits <= 200.
Proof.
  unfold search, embed_query. set (k := clamp _ _ _). assert (Hk : 1 <= k <= 200) by (unfold k, clamp; lia).
  destruct (embed_one _) as [v|e]; [|done]. rewrite bind_mret.
  destruct (hybrid_search_reads (sq_q q) v (mkFilters (sq_from q) (sq_to q) (sq_speaker q) (sq_recording q)) k s) as [Hst Hn].
  split; [done|]. intros hits Hh. specialize (Hn hits Hh). lia.
Qed.
End promises.
