(* ===== verification/Cluster.v ===== *)
(** * Whose voice is it: the clustering of [crates/scribe-asr/src/real/diarize.rs]

    [cluster_fragments] and what it calls.  Every fragment of a recording is
    given a recording-wide speaker: agglomerative clustering with average
    linkage over the cosine similarities of their embeddings, run to the end;
    a cut of the merge sequence chosen from its own numbers or from a stated
    count of people; slight clusters folded into the voices they resemble; and
    a refinement.  The prints of the diagnostics are left out.  An iteration
    over a [HashMap] is one in the order of the keys; the source sorts what it
    takes from one, with ties broken on the key, so that the hash order does not
    show as long as no similarity is NaN. *)

From Stdlib Require Import SpecFloat Bool String.
From S2P Require Import Prelude RustStr Types F32 Identity Wav Speech.

Definition env_i64 `{EnvVar} (name : string) (default_ : Z) : Z := default default_ (v ← env_var name; parse_i64 v).
Definition env_usize `{EnvVar} (name : string) (default_ : Z) : Z := default default_ (v ← env_var name; parse_u64 v).

(** 0.73, 0.8 and 0.2 as binary32, 0.01 as binary64, and the largest binary32. *)
Definition COHESION_RATIO : f32 := S754_finite false 12247368 (-24).
Definition RELATIVE_DROP_DEFAULT : f32 := S754_finite false 13421773 (-24).
Definition PEOPLE_DROP_DEFAULT : f32 := S754_finite false 13421773 (-26).
Definition MIN_SPEAKER_SHARE : spec_float := S754_finite false 5764607523034235 (-59).
Definition F32_MAX : f32 := S754_finite false 16777215 104.
Definition F32_MIN : f32 := S754_finite true 16777215 104.
Definition one : f32 := of_Z 1.

Definition MAX_COHESION_STEPS : nat := 4.
Definition MIN_CLUSTERS_TO_JUDGE : nat := 3.
Definition MIN_SPEAKER_SPEECH_MS_DEFAULT : Z := 3000.
Definition MAX_INFERRED_SPEAKERS : nat := 12.

Inductive Linkage := Average | Single | Complete.

Section hooks.
Context `{EnvVar} `{EnvF32}.
Definition min_speaker_speech_ms : Z := env_i64 "SCRIBE_MIN_SPEAKER_MS" MIN_SPEAKER_SPEECH_MS_DEFAULT.
Definition cohesion_ratio : f32 := default COHESION_RATIO (env_f32 "SCRIBE_COHESION_RATIO").
Definition relative_drop : f32 := default RELATIVE_DROP_DEFAULT (env_f32 "SCRIBE_RELATIVE_DROP").
Definition people_drop : f32 := default PEOPLE_DROP_DEFAULT (env_f32 "SCRIBE_PEOPLE_DROP").
Definition linkage : Linkage :=
  match env_var "SCRIBE_LINKAGE" with
  | Some v => if String.eqb v "single" then Single else if String.eqb v "complete" then Complete else Average
  | None => Average
  end.
End hooks.

(** [f32::min] and [f32::max]: the number, when one is NaN. *)
Definition fmin (a b : f32) : f32 := if is_nan a then b else if is_nan b then a else if fltb b a then b else a.
Definition fmax (a b : f32) : f32 := if is_nan a then b else if is_nan b then a else if fltb a b then b else a.

Definition cosine (a b : list f32) : f32 := Identity.cosine a b.
Definition median (values : list f32) : option f32 := Identity.median values.

(** ** Fragments *)

Record Fragment := mkFragment {
  fr_turns : list SpeakerTurn; fr_embedding : option (list f32); fr_speech_ms : Z;
}.

(** [f.embedding.as_ref().filter(|e| !e.is_empty())] *)
Definition usable (f : Fragment) : option (list f32) :=
  match fr_embedding f with Some (x :: v) => Some (x :: v) | _ => None end.

Definition speech_of (f : Fragment) : Z := Z.max (fr_speech_ms f) 0.

(** [(ms.max(1) as f32) / 1000.0] *)
Definition weight_of (f : Fragment) : f32 := fdiv (of_Z (Z.max (fr_speech_ms f) 1)) (of_Z 1000).

(** Enough speech to be somebody: the floor, and a share of all there is. *)
Definition substantial `{EnvVar} (total ms : Z) : bool :=
  (min_speaker_speech_ms <=? ms) &&
  ((total <=? 0) || SFleb MIN_SPEAKER_SHARE (SFdiv 53 1024 (f64_of_Z ms) (f64_of_Z total))).

(** ** The merge sequence *)

(** A merge: how many clusters there were, the similarity, and the pair. *)
Notation Merge := (nat * f32 * (nat * nat))%type (only parsing).
Definition merge_count (m : Merge) : nat := fst (fst m).
Definition merge_sim (m : Merge) : f32 := snd (fst m).
Definition merge_pair (m : Merge) : nat * nat := snd m.

Record Merging := mkMerging {
  mg_sim : list f32;  (** row after row *)
  mg_alive : list bool;
  mg_size : list f32;
  mg_speech : list Z;
  mg_live : nat;
  mg_history : list Merge;
  mg_people : list (nat * f32);
  mg_substantial : list nat;
}.

Definition is_alive (alive : list bool) (i : nat) : bool := default false (alive !! i).
Definition at_sim (n : nat) (sim : list f32) (i j : nat) : f32 := default fzero (sim !! (i * n + j)%nat).

(** The pairs the two loops visit, in their order. *)
Definition pairs (n : nat) : list (nat * nat) := flat_map (fun i => map (pair i) (seq (S i) (n - S i))) (seq 0 n).

Definition best_pair (n : nat) (alive : list bool) (sim : list f32) : option (nat * nat * f32) :=
  foldl (fun best '(i, j) =>
    if is_alive alive i && is_alive alive j then
      let s := at_sim n sim i j in
      match best with
      | Some (_, b) => if fltb b s then Some (i, j, s) else best
      | None => Some (i, j, s)
      end
    else best) None (pairs n).

Definition count_true (l : list bool) : nat := length (bfilter id l).

Section cluster.
Context `{EnvVar} `{EnvF32}.

Definition count_substantial (total : Z) (alive : list bool) (speech : list Z) : nat :=
  count_true (zip_with (fun a ms => a && substantial total ms) alive speech).

(** The similarity of the merged cluster to cluster [k]. *)
Definition merged_sim (n : nat) (sim : list f32) (wi wj : f32) (i j k : nat) : f32 :=
  match linkage with
  | Single => fmax (at_sim n sim i k) (at_sim n sim j k)
  | Complete => fmin (at_sim n sim i k) (at_sim n sim j k)
  | Average => fdiv (fadd (fmul (at_sim n sim i k) wi) (fmul (at_sim n sim j k) wj)) (fadd wi wj)
  end.

Definition update_sims (n : nat) (alive : list bool) (wi wj : f32) (i j : nat) (sim : list f32) : list f32 :=
  foldl (fun sim k =>
    if negb (is_alive alive k) || (k =? i)%nat || (k =? j)%nat then sim
    else
      let merged := merged_sim n sim wi wj i j k in
      <[(k * n + i)%nat := merged]> (<[(i * n + k)%nat := merged]> sim)) sim (seq 0 n).

(** One turn of [while live > 1]; [None] is the [break]. *)
Definition merge_step (n : nat) (total : Z) (st : Merging) : option Merging :=
  match best_pair n (mg_alive st) (mg_sim st) with
  | None => None
  | Some (i, j, s) =>
      let speech_at k := default 0 (mg_speech st !! k) in
      let size_at k := default fzero (mg_size st !! k) in
      let people :=
        if substantial total (speech_at i) && substantial total (speech_at j)
        then mg_people st ++ [(length (mg_history st), s)] else mg_people st in
      let sim := update_sims n (mg_alive st) (size_at i) (size_at j) i j (mg_sim st) in
      let speech := <[i := speech_at i + speech_at j]> (mg_speech st) in
      let alive := <[j := false]> (mg_alive st) in
      Some (mkMerging sim alive (<[i := fadd (size_at i) (size_at j)]> (mg_size st)) speech
        (pred (mg_live st)) (mg_history st ++ [(mg_live st, s, (i, j))]) people
        (mg_substantial st ++ [count_substantial total alive speech]))
  end.

Fixpoint merge_all (fuel n : nat) (total : Z) (st : Merging) : Merging :=
  match fuel with
  | O => st
  | S fuel =>
      if (1 <? mg_live st)%nat then
        match merge_step n total st with Some st' => merge_all fuel n total st' | None => st end
      else st
  end.

(** The pairwise similarities, zero on the diagonal. *)
Definition similarity_matrix (embs : list (list f32)) : list f32 :=
  flat_map (fun ia => imap (fun b eb =>
      if (fst ia <? b)%nat then cosine (snd ia) eb
      else if (b <? fst ia)%nat then cosine eb (snd ia) else fzero) embs)
    (imap pair embs).

Definition merge_start (embs : list (list f32)) (speech : list Z) : Merging :=
  let n := length embs in
  let alive := repeat true n in
  mkMerging (similarity_matrix embs) alive (repeat one n) speech n [] []
    [count_substantial (zsum speech) alive speech].

(** The whole sequence; [n] turns are enough. *)
Definition merge_sequence (embs : list (list f32)) (speech : list Z) : Merging :=
  merge_all (length embs) (length embs) (zsum speech) (merge_start embs speech).

(** ** Where to cut it *)

Fixpoint choose_cut_from (m : nat) (accepted : list f32) (history : list Merge) : nat :=
  match history with
  | [] => m
  | h :: history' =>
      if (merge_count h <=? MAX_INFERRED_SPEAKERS)%nat &&
         fltb (merge_sim h) (fmul relative_drop (default one (median accepted)))
      then m
      else choose_cut_from (S m) (accepted ++ [merge_sim h]) history'
  end.

Definition choose_cut (history : list Merge) : nat := choose_cut_from 0 [] history.

(** [a - b >= drop] *)
Definition falls (a b : f32) : bool := fleb people_drop (fsub a b).

Fixpoint first_cliff (people : list (nat * f32)) : option nat :=
  match people with
  | a :: (b :: c :: _) as people' =>
      if falls (snd a) (snd c) then
        Some (if fleb (fsub (snd b) (snd c)) (fsub (snd a) (snd b)) then fst b else fst c)
      else first_cliff people'
  | _ => None
  end.

Definition choose_people_cut (people : list (nat * f32)) : option nat :=
  match people with
  | [] | [_] => None
  | [a; b] => if falls (snd a) (snd b) then Some (fst b) else None
  | _ => first_cliff people
  end.

Definition discovered_cut (history : list Merge) (people : list (nat * f32)) : nat :=
  let merged := choose_cut history in
  let either := match choose_people_cut people with Some p => Nat.min p merged | None => merged end in
  match env_var "SCRIBE_COUNT_RULE" with
  | Some v =>
      if String.eqb v "merges" then merged
      else if String.eqb v "people" then default merged (choose_people_cut people) else either
  | None => either
  end.

(** The last [k] at which so many clusters were people. *)
Definition stated_cut (target : nat) (counts : list nat) : option nat :=
  find_last (fun k => bool_decide (counts !! k = Some target)) (seq 0 (length counts)).

(** ** The partition a cut leaves *)

Definition replay_step (st : list (list nat) * list bool) (m : Merge) : list (list nat) * list bool :=
  let '(members, alive) := st in
  let '(i, j) := merge_pair m in
  let absorbed := default [] (members !! j) in
  let members := <[j := []]> members in
  (<[i := default [] (members !! i) ++ absorbed]> members, <[j := false]> alive).

Definition replay (n : nat) (history : list Merge) (cut : nat) (embedded : list nat) : list (list nat) :=
  let '(members, alive) := foldl replay_step (map (fun f => [f]) (take n embedded), repeat true n) (take cut history) in
  map fst (bfilter snd (zip members alive)).

(** The least similar pair of a cluster. *)
Definition cluster_worst_pair (fragments : list Fragment) (members : list nat) : option f32 :=
  let embs := omap (fun f => fr ← fragments !! f; usable fr) members in
  if (length embs <? 2)%nat then None
  else Some (foldl (fun worst '(a, b) => fmin worst (cosine (default [] (embs !! a)) (default [] (embs !! b))))
    F32_MAX (pairs (length embs))).

(** The step back over merges that look like two people. *)
Fixpoint step_back (steps n : nat) (fragments : list Fragment) (history : list Merge) (embedded : list nat)
    (cut : nat) : nat :=
  match steps with
  | O => cut
  | S steps =>
      if (cut =? 0)%nat then cut
      else
        let worsts := omap (cluster_worst_pair fragments) (replay n history cut embedded) in
        if (length worsts <? MIN_CLUSTERS_TO_JUDGE)%nat then cut
        else
          match median worsts with
          | None => cut
          | Some mid =>
              let loosest := foldl fmin F32_MAX worsts in
              if fltb fzero mid && fltb (fdiv loosest mid) cohesion_ratio
              then step_back steps n fragments history embedded (pred cut) else cut
          end
  end.
End cluster.

(** ** Speakers from the partition *)

(** [for (idx, members) in clusters.iter().enumerate()]: -1 is no speaker. *)
Definition label_clusters (len : nat) (clusters : list (list nat)) : list Z :=
  foldl (fun assignment ic => foldl (fun a f => <[f := Z.of_nat (fst ic)]> a) assignment (snd ic))
    (repeat (-1) len) (imap pair clusters).

(** The middle of a fragment, in [i64]. *)
Definition mid_of (f : Fragment) : Z :=
  match fr_turns f with
  | [] => 0
  | turns => Z.quot (zsum (map (fun t => Z.quot (st_start_ms t + st_end_ms t) 2) turns)) (Z.of_nat (length turns))
  end.

(** [min_by_key]: the first of the least. *)
Definition min_by_key {A} (key : A -> Z) (l : list A) : option A :=
  foldl (fun best x => match best with Some y => if key x <? key y then Some x else best | None => Some x end) None l.

Definition nearest_assigned (fragments : list Fragment) (assignment : list Z) (target : nat) : option Z :=
  let want := default 0 (mid_of <$> fragments !! target) in
  fst <$> min_by_key (fun x => Z.abs (mid_of (snd x) - want))
    (bfilter (fun x => 0 <=? fst x) (zip assignment fragments)).

(** Fragments without an embedding, one after the other. *)
Definition assign_rest (fragments : list Fragment) (assignment : list Z) : list Z :=
  foldl (fun a i => if 0 <=? default (-1) (a !! i) then a
    else <[i := default 0 (nearest_assigned fragments a i)]> a) assignment (seq 0 (length fragments)).

(** ** Voices *)

Definition add_weighted (sum emb : list f32) (weight : f32) : list f32 :=
  zip_with (fun a b => fadd a (fmul b weight)) sum emb ++ drop (length emb) sum.

Definition zeros_like (emb : list f32) : list f32 := map (fun _ => fzero) emb.

(** A sum begun afresh when the sizes differ; its weight goes on. *)
Definition accumulate (acc : gmap Z (list f32 * f32)) (key : Z) (emb : list f32) (weight : f32)
    : gmap Z (list f32 * f32) :=
  let '(sum, total) := default (zeros_like emb, fzero) (acc !! key) in
  let sum := if bool_decide (length sum = length emb) then sum else zeros_like emb in
  <[key := (add_weighted sum emb weight, fadd total weight)]> acc.

(** The same, but a vector of another size is passed over. *)
Definition accumulate_same (acc : gmap Z (list f32 * f32)) (key : Z) (emb : list f32) (weight : f32)
    : gmap Z (list f32 * f32) :=
  let '(sum, total) := default (zeros_like emb, fzero) (acc !! key) in
  if bool_decide (length sum = length emb)
  then <[key := (add_weighted sum emb weight, fadd total weight)]> acc
  else <[key := (sum, total)]> acc.

Definition normalize_vector (v : list f32) : list f32 :=
  let norm := fsqrt (fsum (map (fun x => fmul x x) v)) in
  if fltb EPSILON norm then map (fun x => fdiv x norm) v else v.

(** [centroids]' entries, in the order of their keys. *)
Definition by_key {A} (m : gmap Z A) : list (Z * A) := sort_by (fun a b => fst a <=? fst b) (map_to_list m).

(** [seen.sort_unstable(); seen.dedup()], and each label's place in it. *)
Definition labels_of (assignment : list Z) : list Z := sort_by Z.leb (dedup_first [] assignment).

Definition place_of (seen : list Z) (a : Z) : Z :=
  match list_find (fun x => x = a) seen with Some (i, _) => Z.of_nat i | None => a end.

Definition renumber (assignment : list Z) : list Z := map (place_of (labels_of assignment)) assignment.

Section folding.
Context `{EnvVar}.

Definition speech_by_label (fragments : list Fragment) (assignment : list Z) : gmap Z Z :=
  foldl (fun m x => <[snd x := default 0 (m !! snd x) + speech_of (fst x)]> m) ∅ (zip fragments assignment).

Definition surviving_labels (speech : gmap Z Z) : list Z :=
  let total := zsum (map snd (map_to_list speech)) in
  map fst (bfilter (fun x => substantial total (snd x)) (by_key speech)).

Definition surviving_centroids (fragments : list Fragment) (assignment : list Z) (surviving : list Z)
    : list (Z * list f32) :=
  let sums := foldl (fun acc x =>
      match fr_embedding (fst x) with
      | Some emb => if bool_decide (snd x ∈ surviving) then accumulate acc (snd x) emb (weight_of (fst x)) else acc
      | None => acc
      end) ∅ (zip fragments assignment) in
  map (fun '(c, (sum, weight)) =>
    (c, normalize_vector (if fltb fzero weight then map (fun x => fdiv x weight) sum else sum))) (by_key sums).

(** The comparator of [ranked.sort_by]. *)
Definition rank_le (a b : Z * f32) : bool :=
  match cmp_or_equal (snd b) (snd a) with Eq => fst a <=? fst b | Gt => false | Lt => true end.

Definition closest_voice (centroids : list (Z * list f32)) (emb : list f32) : option Z :=
  fst <$> head (sort_by rank_le (map (fun c => (fst c, cosine (snd c) emb)) centroids)).

Definition fold_slight_speakers (fragments : list Fragment) (assignment : list Z) : list Z :=
  let speech := speech_by_label fragments assignment in
  let surviving := surviving_labels speech in
  if bool_decide (surviving = []) || bool_decide (length surviving = size speech) then assignment
  else
    let centroids := surviving_centroids fragments assignment surviving in
    let least := default 0 (head surviving) in
    renumber (zip_with (fun f a =>
      if bool_decide (a ∈ surviving) then a
      else default least (emb ← fr_embedding f; closest_voice centroids emb)) fragments assignment).
End folding.

(** ** Refinement *)

Definition voices_of (fragments : list Fragment) (assignment : list Z) : list (Z * list f32) :=
  map (fun '(c, (sum, _)) => (c, normalize_vector sum))
    (by_key (foldl (fun acc x =>
      match usable (fst x) with
      | Some emb => accumulate_same acc (snd x) emb (weight_of (fst x))
      | None => acc
      end) ∅ (zip fragments assignment))).

Definition closer_voice (voices : list (Z * list f32)) (f : Fragment) (a : Z) : Z :=
  match usable f with
  | None => a
  | Some emb =>
      fst (foldl (fun best c =>
        if bool_decide (length (snd c) = length emb) then
          let sim := cosine (snd c) emb in if fltb (snd best) sim then (fst c, sim) else best
        else best) (a, F32_MIN) voices)
  end.

(** The passes; [true] when the function has returned in the middle. *)
Fixpoint refine_passes (passes : nat) (fragments : list Fragment) (assignment : list Z) : list Z * bool :=
  match passes with
  | O => (assignment, false)
  | S passes =>
      let voices := voices_of fragments assignment in
      if (length voices <? 2)%nat then (assignment, true)
      else
        let moved := zip_with (closer_voice voices) fragments assignment in
        if bool_decide (moved = assignment) then (assignment, false)
        else refine_passes passes fragments moved
  end.

Definition refine_assignment (fragments : list Fragment) (assignment : list Z) (passes : nat) : list Z :=
  let '(assignment, returned) := refine_passes passes fragments assignment in
  if returned then assignment else renumber assignment.

(** ** The whole *)

Definition embedded_indices (fragments : list Fragment) : list nat :=
  map fst (bfilter (fun x => bool_decide (is_Some (usable (snd x)))) (imap pair fragments)).

Section whole.
Context `{EnvVar} `{EnvF32}.

Definition target_count (expected : option Z) (n : nat) : option nat :=
  match expected with
  | Some v => if 1 <=? v then Some (Nat.min (Z.to_nat v) n) else None
  | None => None
  end.

(** Where the sequence is cut, the step back included. *)
Definition final_cut (fragments : list Fragment) (expected : option Z) (embedded : list nat) (mg : Merging) : nat :=
  let n := length embedded in
  let discovered := discovered_cut (mg_history mg) (mg_people mg) in
  match target_count expected n with
  | None => step_back MAX_COHESION_STEPS n fragments (mg_history mg) embedded discovered
  | Some t => default discovered (stated_cut t (mg_substantial mg))
  end.

Definition cluster_fragments (fragments : list Fragment) (expected : option Z) : list Z :=
  let embedded := embedded_indices fragments in
  if bool_decide (embedded = []) then repeat 0 (length fragments)
  else
    let embs := omap (fun f => fr ← fragments !! f; usable fr) embedded in
    let speech := map (fun f => default 0 (speech_of <$> fragments !! f)) embedded in
    let mg := merge_sequence embs speech in
    let clusters := replay (length embedded) (mg_history mg) (final_cut fragments expected embedded mg) embedded in
    let assignment := assign_rest fragments (label_clusters (length fragments) clusters) in
    let assignment := fold_slight_speakers fragments assignment in
    refine_assignment fragments assignment (Z.to_nat (env_usize "SCRIBE_REFINE" 1)).
End whole.
