(* ===== verification/ClusterProps.v ===== *)
(** * What the clustering answers

    The merge sequence always runs to one cluster; a cut of it is a partition of
    the embedded fragments; the speakers of the answer are numbered from zero
    without gaps; and a stated count that the audio supports is honoured. *)

From Stdlib Require Import SpecFloat Bool String.
From S2P Require Import Prelude RustStr Types F32 Identity Wav Speech Cluster.

#[local] Arguments count_true : simpl never.

(** ** Counting the clusters that are left *)

Lemma is_alive_lookup alive i : is_alive alive i = true <-> alive !! i = Some true.
Proof. unfold is_alive. destruct (alive !! i) as [[]|]; cbn; naive_solver. Qed.

Lemma count_true_cons b l : count_true (b :: l) = ((if b then 1 else 0) + count_true l)%nat.
Proof. unfold count_true, bfilter. cbn [List.filter]. by destruct b. Qed.

Lemma count_true_repeat n : count_true (repeat true n) = n.
Proof. induction n as [|n IH]; [done|]. change (repeat true (S n)) with (true :: repeat true n).
  rewrite count_true_cons, IH. lia. Qed.

Lemma count_true_kill alive j : alive !! j = Some true -> count_true alive = S (count_true (<[j := false]> alive)).
Proof.
  revert j. induction alive as [|b alive IH]; intros [|j] Hj; try done; cbn in Hj.
  - injection Hj as ->. change (<[0%nat := false]> (true :: alive)) with (false :: alive). by rewrite !count_true_cons.
  - change (<[S j := false]> (b :: alive)) with (b :: <[j := false]> alive).
    rewrite !count_true_cons, (IH j Hj). destruct b; lia.
Qed.

(** Two clusters are left when the count says so. *)
Lemma two_alive alive : (1 < count_true alive)%nat ->
  exists i j, (i < j)%nat /\ alive !! i = Some true /\ alive !! j = Some true.
Proof.
  assert (Hone : forall l, (0 < count_true l)%nat -> exists j, l !! j = Some true).
  { induction l as [|b l IH]; [unfold count_true; cbn; lia|]. rewrite count_true_cons. intros Hc.
    destruct b; [by exists 0%nat|]. destruct IH as [j Hj]; [lia|]. by exists (S j). }
  induction alive as [|b l IH]; [unfold count_true; cbn; lia|]. rewrite count_true_cons. intros Hc. destruct b.
  - destruct (Hone l) as [j Hj]; [lia|]. exists 0%nat, (S j). split; [lia|]. done.
  - destruct IH as (i & j & Hij & Hi & Hj); [lia|]. exists (S i), (S j). split; [lia|]. done.
Qed.

Lemma pairs_elem n i j : (i, j) ∈ pairs n <-> (i < j < n)%nat.
Proof.
  unfold pairs. rewrite elem_of_flat_map. split.
  - intros (k & Hk & Hin). apply list_elem_of_fmap in Hin as (x & [= -> ->] & Hx). rewrite elem_of_seq in Hk, Hx. lia.
  - intros Hij. exists i. rewrite elem_of_seq. split; [lia|]. apply list_elem_of_fmap. exists j.
    rewrite elem_of_seq. split; [done|lia].
Qed.

(** The pair that is merged next is one of the living pairs. *)
Lemma best_pair_living n alive sim i j s :
  best_pair n alive sim = Some (i, j, s) -> (i < j < n)%nat /\ alive !! i = Some true /\ alive !! j = Some true.
Proof.
  unfold best_pair. set (step := fun best '(i, j) => _).
  assert (Hinv : forall l best, (forall x, x ∈ l -> x ∈ pairs n) ->
    (forall p t, best = Some (p, t) -> p ∈ pairs n /\ is_alive alive p.1 = true /\ is_alive alive p.2 = true) ->
    forall p t, foldl step best l = Some (p, t) -> p ∈ pairs n /\ is_alive alive p.1 = true /\ is_alive alive p.2 = true).
  { induction l as [|[a b] l IH]; intros best Hl Hb; [done|]. cbn [foldl]. apply IH; [intros; apply Hl; by right|].
    intros p t. unfold step. destruct (is_alive alive a) eqn:Ea; [|apply Hb].
    destruct (is_alive alive b) eqn:Eb; [|apply Hb]. cbn.
    assert (Hab : (a, b) ∈ pairs n) by (apply Hl; left).
    destruct best as [[q u]|]; [destruct (fltb _ _)|]; try apply Hb; by intros [= <- _]. }
  intros Hbest. destruct (Hinv (pairs n) None (fun _ H => H) ltac:(done) (i, j) s Hbest) as (Hin & Hi & Hj).
  apply pairs_elem in Hin. by rewrite !is_alive_lookup in *.
Qed.

Lemma best_pair_exists n alive sim :
  length alive = n -> (1 < count_true alive)%nat -> is_Some (best_pair n alive sim).
Proof.
  intros Hlen Hc. destruct (two_alive alive Hc) as (i & j & Hij & Hi & Hj).
  unfold best_pair. set (step := fun best '(i, j) => _).
  assert (Hkeep : forall l b, is_Some b -> is_Some (foldl step b l)).
  { induction l as [|[a c] l IH]; intros b [[p t] ->]; [by eexists|]. cbn. apply IH. unfold step.
    destruct (_ && _); [|by eexists]. destruct (fltb _ _); by eexists. }
  assert (Hin : (i, j) ∈ pairs n) by (apply pairs_elem; apply lookup_lt_Some in Hj; lia).
  apply list_elem_of_split in Hin as (l1 & l2 & ->). rewrite foldl_app. cbn [foldl]. apply Hkeep.
  generalize (foldl step None l1). intros acc. unfold step.
  rewrite !(proj2 (is_alive_lookup _ _)) by done. cbn. destruct acc as [[p t]|]; [destruct (fltb _ _)|]; by eexists.
Qed.

(** ** A valid sequence of merges *)

Definition kill (alive : list bool) (m : Merge) : list bool := <[snd (merge_pair m) := false]> alive.
Definition absorb (speech : list Z) (m : Merge) : list Z :=
  let '(i, j) := merge_pair m in <[i := default 0 (speech !! i) + default 0 (speech !! j)]> speech.

(** Each merge joins two clusters that are left, and knows how many there are. *)
Fixpoint valid_merges (alive : list bool) (history : list Merge) : Prop :=
  match history with
  | [] => True
  | m :: history' =>
      (fst (merge_pair m) < snd (merge_pair m))%nat /\ alive !! fst (merge_pair m) = Some true /\
      alive !! snd (merge_pair m) = Some true /\ merge_count m = count_true alive /\
      valid_merges (kill alive m) history'
  end.

Lemma valid_merges_app alive h1 h2 :
  valid_merges alive (h1 ++ h2) <-> valid_merges alive h1 /\ valid_merges (foldl kill alive h1) h2.
Proof.
  revert alive. induction h1 as [|m h1 IH]; intros alive; cbn; [tauto|]. rewrite IH. tauto.
Qed.

Lemma valid_merges_take alive h k : valid_merges alive h -> valid_merges alive (take k h).
Proof. rewrite <- (take_drop k h) at 1. rewrite valid_merges_app. tauto. Qed.

Lemma foldl_kill_length alive h : length (foldl kill alive h) = length alive.
Proof. revert alive. induction h as [|m h IH]; intros alive; cbn; [done|]. rewrite IH. apply length_insert. Qed.

Lemma foldl_absorb_length speech h : length (foldl absorb speech h) = length speech.
Proof.
  revert speech. induction h as [|m h IH]; intros speech; cbn; [done|]. rewrite IH. unfold absorb.
  destruct (merge_pair m). apply length_insert.
Qed.

Lemma valid_count alive h :
  valid_merges alive h -> (count_true (foldl kill alive h) + length h = count_true alive)%nat.
Proof.
  revert alive. induction h as [|m h IH]; intros alive Hv; cbn; [lia|]. cbn in Hv.
  destruct Hv as (_ & _ & Hj & _ & Hv). specialize (IH _ Hv). rewrite (count_true_kill alive (snd (merge_pair m))) by done.
  change (<[snd (merge_pair m) := false]> alive) with (kill alive m). lia.
Qed.

Section sequence.
Context `{EnvVar} `{EnvF32}.

(** What the merging state is, in terms of its history. *)
Record merging_ok (n : nat) (total : Z) (speech : list Z) (st : Merging) : Prop := {
  ok_valid : valid_merges (repeat true n) (mg_history st);
  ok_alive : mg_alive st = foldl kill (repeat true n) (mg_history st);
  ok_live : mg_live st = count_true (mg_alive st);
  ok_speech : mg_speech st = foldl absorb speech (mg_history st);
  ok_counts : mg_substantial st = map (fun k => count_substantial total
    (foldl kill (repeat true n) (take k (mg_history st))) (foldl absorb speech (take k (mg_history st))))
    (seq 0 (S (length (mg_history st))));
}.

Lemma merge_start_ok embs speech :
  merging_ok (length embs) (zsum speech) speech (merge_start embs speech).
Proof. constructor; cbn; try done. by rewrite count_true_repeat. Qed.

Lemma merge_step_ok n total speech st st' :
  merging_ok n total speech st -> merge_step n total st = Some st' -> merging_ok n total speech st'.
Proof.
  intros [Hv Ha Hl Hs Hc]. unfold merge_step.
  destruct (best_pair n (mg_alive st) (mg_sim st)) as [[[i j] s]|] eqn:E; [|done].
  apply best_pair_living in E as (Hij & Hi & Hj). intros [= <-]. constructor; cbn [mg_history mg_alive mg_live mg_speech mg_substantial].
  - apply valid_merges_app. split; [done|]. cbn. rewrite <- Ha. repeat split; try done; lia.
  - by rewrite foldl_app, Ha.
  - rewrite Hl, (count_true_kill _ j) by done. done.
  - by rewrite foldl_app, Hs.
  - rewrite length_app. cbn [length]. replace (S (length (mg_history st) + 1)) with (S (length (mg_history st)) + 1)%nat by lia.
    rewrite seq_app, map_app, Hc. f_equal.
    + apply map_ext_in. intros k Hk%in_seq.
      by rewrite !take_app_le by lia.
    + cbn [seq map]. rewrite take_ge by (rewrite length_app; cbn; lia). rewrite !foldl_app. cbn. by rewrite <- Ha, <- Hs.
Qed.

Lemma merge_all_ok fuel n total speech st :
  merging_ok n total speech st -> merging_ok n total speech (merge_all fuel n total st).
Proof.
  revert st. induction fuel as [|fuel IH]; intros st Hst; cbn [merge_all]; [done|]. destruct (Nat.ltb _ _); [|done].
  destruct (merge_step n total st) as [st'|] eqn:E; [|done]. apply IH. by eapply merge_step_ok.
Qed.

Lemma merge_all_live fuel n total speech st :
  merging_ok n total speech st -> (mg_live st <= S fuel)%nat -> (mg_live (merge_all fuel n total st) <= 1)%nat.
Proof.
  revert st. induction fuel as [|fuel IH]; intros st Hst Hf; cbn [merge_all]; [lia|].
  destruct (Nat.ltb_spec 1 (mg_live st)) as [Hgt|]; [|lia].
  destruct (merge_step n total st) as [st'|] eqn:E.
  - apply IH; [by eapply merge_step_ok|]. unfold merge_step in E. destruct (best_pair _ _ _) as [[[i j] s]|]; [|done].
    injection E as <-. cbn. lia.
  - exfalso. unfold merge_step in E. destruct (best_pair_exists n (mg_alive st) (mg_sim st)) as [[[i j] s] Hb].
    + rewrite (ok_alive _ _ _ _ Hst), foldl_kill_length. apply repeat_length.
    + by rewrite <- (ok_live _ _ _ _ Hst).
    + by rewrite Hb in E.
Qed.

Lemma merge_all_live_pos fuel n total st : (1 <= mg_live st)%nat -> (1 <= mg_live (merge_all fuel n total st))%nat.
Proof.
  revert st. induction fuel as [|fuel IH]; intros st Hst; cbn [merge_all]; [done|].
  destruct (Nat.ltb_spec 1 (mg_live st)); [|done]. destruct (merge_step n total st) as [st'|] eqn:E; [|done].
  apply IH. unfold merge_step in E. destruct (best_pair _ _ _) as [[[i j] s]|]; [|done]. injection E as <-. cbn. lia.
Qed.

Lemma merge_all_fuel fuel n total st :
  (mg_live st <= S fuel)%nat -> forall fuel', (fuel <= fuel')%nat -> merge_all fuel' n total st = merge_all fuel n total st.
Proof.
  revert st. induction fuel as [|fuel IH]; intros st Hl [|fuel'] Hf; cbn [merge_all]; try done; try lia.
  - destruct (Nat.ltb_spec 1 (mg_live st)); [lia|done].
  - destruct (Nat.ltb_spec 1 (mg_live st)); [|done]. destruct (merge_step n total st) as [st'|] eqn:E; [|done].
    apply IH; [|lia]. unfold merge_step in E. destruct (best_pair _ _ _) as [[[i j] s]|]; [|done]. injection E as <-. cbn. lia.
Qed.

Lemma merge_sequence_ok embs speech :
  merging_ok (length embs) (zsum speech) speech (merge_sequence embs speech).
Proof. apply merge_all_ok, merge_start_ok. Qed.

Lemma merge_sequence_live embs speech : embs <> [] ->
  mg_live (merge_sequence embs speech) = 1%nat /\
  (length (mg_history (merge_sequence embs speech)) = length embs - 1)%nat.
Proof.
  intros Hne. assert (Hn : (0 < length embs)%nat) by (destruct embs; cbn; [done|lia]).
  pose proof (merge_sequence_ok embs speech) as Hok.
  assert (Hlive : (mg_live (merge_sequence embs speech) <= 1)%nat)
    by (eapply merge_all_live; [apply merge_start_ok|cbn; lia]).
  assert (Hpos : (1 <= mg_live (merge_sequence embs speech))%nat) by (apply merge_all_live_pos; cbn; lia).
  pose proof (valid_count _ _ (ok_valid _ _ _ _ Hok)) as Hc. rewrite <- (ok_alive _ _ _ _ Hok), <- (ok_live _ _ _ _ Hok) in Hc.
  rewrite count_true_repeat in Hc. lia.
Qed.

(** C35: The merging ends.  Whatever the similarities are, NaN included, the
    loop never breaks off early: after exactly [n - 1] merges one cluster of
    the [n] is left, each merge has joined two clusters that were left, and
    the number of people-sized clusters is known after each of them; more
    turns of the loop would change nothing. *)
Theorem merge_sequence_ends embs speech :
  embs <> [] ->
  let n := length embs in
  let mg := merge_sequence embs speech in
  mg_live mg = 1%nat /\ length (mg_history mg) = (n - 1)%nat /\ valid_merges (repeat true n) (mg_history mg) /\
  length (mg_substantial mg) = n /\
  forall fuel, (n <= fuel)%nat -> merge_all fuel n (zsum speech) (merge_start embs speech) = mg.
Proof.
  intros Hne n mg. destruct (merge_sequence_live embs speech Hne) as [Hl Hh].
  pose proof (merge_sequence_ok embs speech) as Hok. split; [done|]. split; [done|]. split; [apply (ok_valid _ _ _ _ Hok)|].
  split.
  - unfold mg. rewrite (ok_counts _ _ _ _ Hok), length_map, length_seq, Hh. unfold n. destruct embs; cbn; [done|lia].
  - intros fuel Hf. apply merge_all_fuel; [cbn; lia|done].
Qed.
End sequence.

(** ** The partition of a cut *)

Lemma concat_replace {A} (l : list (list A)) i x y :
  l !! i = Some x -> concat (<[i := y]> l) ++ x ≡ₚ concat l ++ y.
Proof.
  intros Hi. rewrite <- (take_drop_middle l i x Hi) at 2. rewrite insert_take_drop by (by eapply lookup_lt_Some).
  rewrite !concat_app. cbn. solve_Permutation.
Qed.

Lemma zsum_perm (l1 l2 : list Z) : l1 ≡ₚ l2 -> zsum l1 = zsum l2.
Proof. unfold zsum. induction 1; cbn in *; lia. Qed.

(** Members, who is alive and speech, cluster by cluster: a living cluster has
    members and all their speech, one that was absorbed has none. *)
Record partition_ok (speech_at : nat -> Z) (embedded : list nat)
    (members : list (list nat)) (alive : list bool) (speech : list Z) : Prop := {
  po_alive : length alive = length members;
  po_speech : length speech = length members;
  po_perm : concat members ≡ₚ embedded;
  po_each : forall i m a s, members !! i = Some m -> alive !! i = Some a -> speech !! i = Some s ->
    if a : bool then m <> [] /\ s = zsum (map speech_at m) else m = [];
}.

Lemma partition_start speech_at embedded :
  partition_ok speech_at embedded (map (fun f => [f]) embedded) (repeat true (length embedded)) (map speech_at embedded).
Proof.
  constructor.
  - by rewrite repeat_length, length_map.
  - by rewrite !length_map.
  - induction embedded as [|f l IH]; cbn; [done|]. by rewrite IH.
  - intros i m a s Hm Ha Hs. change (map (fun f => [f]) embedded) with ((fun f => [f]) <$> embedded) in Hm.
    change (map speech_at embedded) with (speech_at <$> embedded) in Hs.
    apply list_lookup_fmap_Some in Hm as (f & -> & Hf). rewrite list_lookup_fmap, Hf in Hs. injection Hs as <-.
    assert (a = true) as ->.
    { apply list_elem_of_lookup_2 in Ha. apply list_elem_of_In, repeat_spec in Ha. done. }
    split; [done|]. cbn. lia.
Qed.

Lemma partition_step speech_at embedded members alive speech m :
  (fst (merge_pair m) < snd (merge_pair m))%nat -> alive !! fst (merge_pair m) = Some true ->
  alive !! snd (merge_pair m) = Some true -> partition_ok speech_at embedded members alive speech ->
  partition_ok speech_at embedded (fst (replay_step (members, alive) m)) (kill alive m) (absorb speech m) /\
  snd (replay_step (members, alive) m) = kill alive m.
Proof.
  unfold replay_step, kill, absorb. destruct (merge_pair m) as [i j]. cbn [fst snd]. intros Hij Hi Hj [H1 H2 Hp He].
  split; [|done].
  assert (Hlen : (j < length members)%nat) by (apply lookup_lt_Some in Hj; lia).
  destruct (lookup_lt_is_Some_2 members i) as [mi Hmi]; [lia|]. destruct (lookup_lt_is_Some_2 members j) as [mj Hmj]; [lia|].
  destruct (lookup_lt_is_Some_2 speech i) as [si Hsi]; [lia|]. destruct (lookup_lt_is_Some_2 speech j) as [sj Hsj]; [lia|].
  rewrite Hmj, Hsi, Hsj, list_lookup_insert_ne, Hmi by lia. cbn [default].
  destruct (He i mi true si Hmi Hi Hsi) as [Hni Hsumi]. destruct (He j mj true sj Hmj Hj Hsj) as [_ Hsumj].
  constructor; rewrite ?length_insert; try done.
  - assert (Hi' : <[j := []]> members !! i = Some mi) by (by rewrite list_lookup_insert_ne by lia).
    pose proof (concat_replace _ i mi (mi ++ mj) Hi') as E1. pose proof (concat_replace _ j mj [] Hmj) as E2.
    apply (Permutation_app_inv_r mi). rewrite E1, (Permutation_app_comm mi mj), app_assoc, E2, app_nil_r. by rewrite Hp.
  - intros k m0 a s. destruct (decide (k = i)) as [->|Hki].
    { rewrite list_lookup_insert_eq by (rewrite length_insert; lia). intros [= <-]. rewrite list_lookup_insert_ne by lia.
      rewrite Hi. intros [= <-]. rewrite list_lookup_insert_eq by lia. intros [= <-]. split.
      - by destruct mi.
      - rewrite map_app, zsum_app. lia. }
    rewrite list_lookup_insert_ne by done. rewrite (list_lookup_insert_ne speech) by done. destruct (decide (k = j)) as [->|Hkj].
    { rewrite list_lookup_insert_eq by lia. intros [= <-]. rewrite list_lookup_insert_eq by lia. by intros [= <-]. }
    rewrite !list_lookup_insert_ne by done. apply He.
Qed.

Lemma partition_run speech_at embedded members alive speech h :
  valid_merges alive h -> partition_ok speech_at embedded members alive speech ->
  partition_ok speech_at embedded (fst (foldl replay_step (members, alive) h)) (foldl kill alive h) (foldl absorb speech h) /\
  snd (foldl replay_step (members, alive) h) = foldl kill alive h.
Proof.
  revert members alive speech. induction h as [|m h IH]; intros members alive speech Hv Hp; [done|]. cbn in Hv.
  destruct Hv as (Hij & Hi & Hj & _ & Hv). cbn [foldl].
  destruct (partition_step speech_at embedded members alive speech m Hij Hi Hj Hp) as [Hp' Ha].
  destruct (replay_step (members, alive) m) as [members' alive']. cbn [fst snd] in *. subst alive'. by apply IH.
Qed.

(** The living clusters of such a partition. *)
Lemma living_spec speech_at embedded members alive speech :
  partition_ok speech_at embedded members alive speech ->
  let clusters := map fst (bfilter snd (zip members alive)) in
  concat clusters ≡ₚ embedded /\ Forall (fun c => c <> []) clusters /\ length clusters = count_true alive /\
  forall p, count_true (zip_with (fun a ms => a && p ms) alive speech)
    = length (bfilter (fun c => p (zsum (map speech_at c))) clusters).
Proof.
  intros [H1 H2 Hp He]. cbn zeta. rewrite <- Hp. clear Hp.
  revert alive speech H1 H2 He. induction members as [|m members IH]; intros [|a alive] [|s speech] H1 H2 He; try done.
  injection H1 as H1. injection H2 as H2. pose proof (He 0%nat m a s eq_refl eq_refl eq_refl) as H0.
  destruct (IH alive speech H1 H2 (fun i => He (S i))) as (IH1 & IH2 & IH3 & IH4).
  unfold bfilter in *. cbn [zip zip_with List.filter map concat snd fst]. destruct a.
  - destruct H0 as [Hne Hs]. cbn [map concat length fst]. rewrite count_true_cons. split; [by rewrite IH1|]. split; [by constructor|].
    split; [by rewrite <- IH3|]. intros p. rewrite count_true_cons, IH4, Hs. cbn [andb List.filter]. by destruct (p _).
  - subst m. rewrite count_true_cons. cbn [app]. split; [done|]. split; [done|]. split; [done|].
    intros p. by rewrite count_true_cons, IH4.
Qed.

Section cut.
Context `{EnvVar} `{EnvF32}.

(** Any cut of the sequence is a partition of the fragments into that many
    fewer clusters, and [mg_substantial] counts the people among them. *)
Lemma replay_spec (speech_at : nat -> Z) embs embedded cut :
  length embs = length embedded -> embedded <> [] -> (cut < length embedded)%nat ->
  let mg := merge_sequence embs (map speech_at embedded) in
  let total := zsum (map speech_at embedded) in
  let clusters := replay (length embedded) (mg_history mg) cut embedded in
  concat clusters ≡ₚ embedded /\ Forall (fun c => c <> []) clusters /\
  length clusters = (length embedded - cut)%nat /\
  mg_substantial mg !! cut = Some (length (bfilter (fun c => substantial total (zsum (map speech_at c))) clusters)).
Proof.
  intros Hlen Hne Hcut mg total. set (n := length embedded). pose proof (merge_sequence_ok embs (map speech_at embedded)) as Hok.
  assert (Hembs : embs <> []) by (destruct embs, embedded; done).
  destruct (merge_sequence_live embs (map speech_at embedded) Hembs) as [_ Hh]. fold mg in Hok, Hh. fold total in Hok.
  rewrite Hlen in Hok, Hh. fold n in Hok, Hh, Hcut.
  pose proof (valid_merges_take _ _ cut (ok_valid _ _ _ _ Hok)) as Hv.
  destruct (partition_run speech_at embedded _ _ _ (take cut (mg_history mg)) Hv (partition_start speech_at embedded)) as [Hp Ha].
  cbn zeta. unfold replay. rewrite (take_ge embedded) by done.
  destruct (foldl replay_step _ _) as [members alive]. cbn [fst snd] in Hp, Ha. subst alive.
  destruct (living_spec _ _ _ _ _ Hp) as (H1 & H2 & H3 & H4). split; [done|]. split; [done|]. split.
  - rewrite H3. pose proof (valid_count _ _ Hv) as Hc. rewrite count_true_repeat, length_take in Hc. fold n. lia.
  - rewrite (ok_counts _ _ _ _ Hok). change (map ?f (seq 0 ?k)) with (f <$> seq 0 k).
    rewrite list_lookup_fmap, lookup_seq_lt by lia. cbn [fmap option_fmap option_map]. f_equal. apply H4.
Qed.

(** ** Cuts are in range *)

Lemma choose_cut_from_range m accepted history :
  (m <= choose_cut_from m accepted history <= m + length history)%nat.
Proof.
  revert m accepted. induction history as [|h history IH]; intros m accepted; cbn; [lia|].
  destruct (_ && _); [lia|]. specialize (IH (S m) (accepted ++ [merge_sim h])). lia.
Qed.

Lemma step_back_le steps n fragments history embedded cut :
  (step_back steps n fragments history embedded cut <= cut)%nat.
Proof.
  revert cut. induction steps as [|steps IH]; intros cut; cbn [step_back]; [done|].
  destruct (Nat.eqb _ _); [done|]. cbv zeta. destruct (Nat.ltb _ _); [done|]. destruct (median _); [|done].
  destruct (_ && _); [|done]. specialize (IH (pred cut)). lia.
Qed.

Lemma first_cliff_index people k : first_cliff people = Some k -> k ∈ map fst people.
Proof.
  induction people as [|a people IH]; [done|]. destruct people as [|b [|c people]]; [done|done|].
  cbn [first_cliff]. destruct (falls _ _).
  - intros [= <-]. cbn. destruct (fleb _ _); set_solver.
  - intros Hk. cbn [map]. right. by apply IH.
Qed.

Lemma choose_people_cut_index people k : choose_people_cut people = Some k -> k ∈ map fst people.
Proof.
  destruct people as [|a [|b [|c people]]]; cbn [choose_people_cut]; try done.
  - destruct (falls _ _); [|done]. intros [= <-]. set_solver.
  - apply first_cliff_index.
Qed.

Lemma merge_all_people fuel n total st :
  Forall (fun x => (fst x < length (mg_history st))%nat) (mg_people st) ->
  Forall (fun x => (fst x < length (mg_history (merge_all fuel n total st)))%nat) (mg_people (merge_all fuel n total st)).
Proof.
  revert st. induction fuel as [|fuel IH]; intros st Hst; cbn [merge_all]; [done|].
  destruct (Nat.ltb _ _); [|done]. destruct (merge_step n total st) as [st'|] eqn:E; [|done]. apply IH.
  unfold merge_step in E. destruct (best_pair _ _ _) as [[[i j] s]|]; [|done]. injection E as <-. cbn.
  rewrite length_app. cbn. destruct (_ && _).
  - apply Forall_app. split; [eapply Forall_impl; [exact Hst|cbn; lia]|]. repeat constructor. cbn. lia.
  - eapply Forall_impl; [exact Hst|cbn; lia].
Qed.

Lemma discovered_cut_range embs speech :
  (discovered_cut (mg_history (merge_sequence embs speech)) (mg_people (merge_sequence embs speech))
    <= length (mg_history (merge_sequence embs speech)))%nat.
Proof.
  set (mg := merge_sequence embs speech). pose proof (choose_cut_from_range 0 [] (mg_history mg)) as Hc.
  assert (Hp : forall k, choose_people_cut (mg_people mg) = Some k -> (k <= length (mg_history mg))%nat).
  { intros k Hk%choose_people_cut_index. apply list_elem_of_fmap in Hk as (x & -> & Hx).
    assert (Hall := merge_all_people (length embs) (length embs) (zsum speech) (merge_start embs speech) (Forall_nil_2 _)).
    rewrite Forall_forall in Hall. apply Hall in Hx. unfold mg, merge_sequence. lia. }
  unfold discovered_cut, choose_cut. cbv zeta.
  destruct (choose_people_cut (mg_people mg)) as [p|]; [specialize (Hp p eq_refl)|];
    destruct (env_var _) as [v|]; unfold default; repeat case_match; simplify_eq; cbn [id]; lia.
Qed.

Lemma final_cut_range fragments expected embedded embs speech :
  length embs = length embedded -> embedded <> [] ->
  (final_cut fragments expected embedded (merge_sequence embs speech) < length embedded)%nat.
Proof.
  intros Hlen Hne. assert (Hembs : embs <> []) by (destruct embs, embedded; done).
  destruct (merge_sequence_live embs speech Hembs) as [_ Hh]. pose proof (discovered_cut_range embs speech) as Hd.
  assert (Hpos : (0 < length embedded)%nat) by (destruct embedded; cbn; [done|lia]).
  unfold final_cut. destruct (target_count _ _) as [t|].
  - destruct (stated_cut t _) as [k|] eqn:E; cbn [default]; [|lia].
    apply find_last_Some in E as [Hk _]. rewrite elem_of_seq in Hk.
    pose proof (merge_sequence_ok embs speech) as Hok. rewrite (ok_counts _ _ _ _ Hok), length_map, length_seq, Hh in Hk. cbn [id]. lia.
  - pose proof (step_back_le MAX_COHESION_STEPS (length embedded) fragments (mg_history (merge_sequence embs speech)) embedded
      (discovered_cut (mg_history (merge_sequence embs speech)) (mg_people (merge_sequence embs speech)))). lia.
Qed.
End cut.

(** ** Labels *)

(** The labels are the numbers from zero to one less than [k]. *)
Definition contiguous (l : list Z) (k : nat) : Prop := forall x, x ∈ l <-> 0 <= x < Z.of_nat k.

Lemma insert_all_lookup {A} (v : A) c a f :
  foldl (fun a f => <[f := v]> a) a c !! f = if decide (f ∈ c /\ (f < length a)%nat) then Some v else a !! f.
Proof.
  revert a. induction c as [|x c IH]; intros a; cbn.
  - case_decide as Hd; [|done]. destruct Hd as [Hd _]. by apply elem_of_nil in Hd.
  - rewrite IH, length_insert. destruct (decide (f = x)) as [->|Hfx].
    + destruct (decide (x < length a)%nat) as [Hl|Hl].
      * rewrite (decide_True (P := x ∈ x :: c /\ _)) by (split; [left|done]).
        destruct (decide (x ∈ c /\ _)); [done|]. by apply list_lookup_insert_eq.
      * rewrite !decide_False by tauto. rewrite list_insert_ge by lia. done.
    + rewrite list_lookup_insert_ne by done. destruct (decide (f ∈ c /\ (f < length a)%nat)) as [[H1 H2]|Hn].
      * rewrite decide_True by (split; [by right|done]). done.
      * rewrite decide_False; [done|]. intros [[->|H1]%elem_of_cons H2]; [done|]. by apply Hn.
Qed.

Lemma insert_all_length {A} (v : A) c a : length (foldl (fun a f => <[f := v]> a) a c) = length a.
Proof. revert a. induction c as [|x c IH]; intros a; cbn; [done|]. by rewrite IH, length_insert. Qed.

Lemma label_clusters_snoc len clusters c :
  label_clusters len (clusters ++ [c]) =
  foldl (fun a f => <[f := Z.of_nat (length clusters)]> a) (label_clusters len clusters) c.
Proof.
  unfold label_clusters. rewrite imap_app, foldl_app. cbn. by rewrite Nat.add_0_r.
Qed.

Lemma label_clusters_spec len clusters :
  NoDup (concat clusters) -> (forall f, f ∈ concat clusters -> (f < len)%nat) ->
  length (label_clusters len clusters) = len /\
  (forall idx c f, clusters !! idx = Some c -> f ∈ c -> label_clusters len clusters !! f = Some (Z.of_nat idx)) /\
  (forall f, (f < len)%nat -> f ∉ concat clusters -> label_clusters len clusters !! f = Some (-1)).
Proof.
  induction clusters as [|c clusters IH] using rev_ind; intros Hnd Hlt.
  - split; [apply repeat_length|]. split; [done|]. intros f Hf _. unfold label_clusters. cbn.
    destruct (lookup_lt_is_Some_2 (repeat (-1) len) f) as [v Hv]; [by rewrite repeat_length|].
    rewrite Hv. apply list_elem_of_lookup_2, list_elem_of_In, repeat_spec in Hv. by subst.
  - rewrite concat_app in *. cbn in *. rewrite app_nil_r in *. apply NoDup_app in Hnd as (Hnd & Hdis & Hc).
    destruct IH as (Hlen & Hin & Hout); [done|intros f Hf; apply Hlt, elem_of_app; by left|].
    rewrite label_clusters_snoc. split; [by rewrite insert_all_length|]. split.
    + intros idx c' f Hidx Hf. rewrite insert_all_lookup, Hlen. apply lookup_snoc_Some in Hidx as [[Hl Hidx]|[-> ->]].
      * rewrite decide_False; [by apply (Hin idx c')|]. intros [Hfc _]. apply (Hdis f); [|done].
        apply list_elem_of_In, in_concat. exists c'. rewrite <- !list_elem_of_In. split; [by eapply list_elem_of_lookup_2|done].
      * rewrite decide_True; [done|]. split; [done|]. apply Hlt, elem_of_app. by right.
    + intros f Hf Hn. rewrite elem_of_app in Hn. rewrite insert_all_lookup, decide_False by tauto. apply Hout; tauto.
Qed.

(** *** The fragments without an embedding *)

Lemma min_by_key_in {A} (key : A -> Z) l x : min_by_key key l = Some x -> x ∈ l.
Proof.
  unfold min_by_key. set (step := fun best x => _).
  assert (Hg : forall l best, (forall y, best = Some y -> y ∈ l \/ best = Some y) ->
    foldl step best l = Some x -> x ∈ l \/ best = Some x).
  { clear l. induction l as [|y l IH]; intros best _ Hf; [by right|]. cbn [foldl] in Hf.
    apply IH in Hf as [Hf|Hf]; [left; by right| |by right]. unfold step in Hf.
    destruct best as [z|]; [destruct (_ <? _)|]; try (injection Hf as ->; left; by left). by right. }
  intros Hf. apply Hg in Hf as [?|?]; [done|done|by right].
Qed.

Lemma min_by_key_some {A} (key : A -> Z) l : l <> [] -> is_Some (min_by_key key l).
Proof.
  destruct l as [|x l]; [done|]. intros _. unfold min_by_key. cbn [foldl].
  assert (Hg : forall l b, is_Some b -> is_Some (foldl (fun best x =>
    match best with Some y => if key x <? key y then Some x else best | None => Some x end) b l)).
  { clear. induction l as [|y l IH]; intros b [z ->]; [by eexists|]. cbn [foldl]. apply IH. destruct (_ <? _); by eexists. }
  apply Hg. by eexists.
Qed.

Lemma nearest_assigned_spec fragments a i v :
  length a = length fragments -> v ∈ a -> 0 <= v ->
  exists u, nearest_assigned fragments a i = Some u /\ u ∈ a /\ 0 <= u.
Proof.
  intros Hlen Hv Hpos. unfold nearest_assigned. set (l := bfilter _ _).
  apply list_elem_of_lookup in Hv as [j Hj]. destruct (lookup_lt_is_Some_2 fragments j) as [f Hf].
  { rewrite <- Hlen. by eapply lookup_lt_Some. }
  assert (Hin : (v, f) ∈ l).
  { unfold l. apply elem_of_bfilter. split; [|by apply Z.leb_le]. apply list_elem_of_lookup. exists j.
    rewrite lookup_zip_with, Hj. cbn. by rewrite Hf. }
  destruct (min_by_key_some (fun x => Z.abs (mid_of (snd x) - default 0 (mid_of <$> fragments !! i))) l) as [[u g] Hu].
  { intros Hl. rewrite Hl in Hin. by apply elem_of_nil in Hin. }
  rewrite Hu. exists u. split; [done|]. apply min_by_key_in in Hu. unfold l in Hu.
  apply elem_of_bfilter in Hu as [Hu Hp]. split; [|by apply Z.leb_le]. by eapply elem_of_zip_l.
Qed.

(** What a partly filled assignment keeps of the first one. *)
Record filled_from (fragments : list Fragment) (a b : list Z) : Prop := {
  ff_length : length b = length fragments;
  ff_labels : forall x, x ∈ b -> 0 <= x -> x ∈ a;
  ff_keeps : forall i x, a !! i = Some x -> 0 <= x -> b !! i = Some x;
}.

Definition labelled (b : list Z) (i : nat) : Prop := exists x, b !! i = Some x /\ 0 <= x.

Lemma assign_rest_spec fragments a v :
  length a = length fragments -> v ∈ a -> 0 <= v ->
  let r := assign_rest fragments a in
  length r = length fragments /\ (forall x, x ∈ r <-> x ∈ a /\ 0 <= x) /\
  (forall i x, a !! i = Some x -> 0 <= x -> r !! i = Some x).
Proof.
  intros Hlen Hv Hpos r. unfold r, assign_rest. set (step := fun a i => _).
  assert (Hstep : forall b i, filled_from fragments a b -> (i < length fragments)%nat ->
    filled_from fragments a (step b i) /\ labelled (step b i) i /\ forall k, labelled b k -> labelled (step b i) k).
  { intros b i [Hb Hl Hk] Hi. unfold step. destruct (lookup_lt_is_Some_2 b i) as [y Hy]; [by rewrite Hb|].
    rewrite Hy. cbn [default id]. destruct (Z.leb_spec 0 y) as [Hy0|Hy0].
    { split; [done|]. split; [by exists y|done]. }
    assert (Hvb : v ∈ b). { apply list_elem_of_lookup in Hv as [k Hvk]. eapply list_elem_of_lookup_2. by apply Hk. }
    destruct (nearest_assigned_spec fragments b i v Hb Hvb Hpos) as (u & Hu & Hub & Hu0). rewrite Hu. cbn [default id].
    split; [split|split].
    - by rewrite length_insert.
    - intros x Hx Hx0. apply list_elem_of_lookup in Hx as [k Hk']. apply list_lookup_insert_Some in Hk'.
      destruct Hk' as [(_ & <- & _)|[_ Hk']]; [by apply Hl|]. apply Hl; [by eapply list_elem_of_lookup_2|done].
    - intros k x Hax Hx0. destruct (decide (k = i)) as [->|Hne]; [|rewrite list_lookup_insert_ne by done; by apply Hk].
      rewrite (Hk i x Hax Hx0) in Hy. injection Hy as ->. lia.
    - exists u. split; [|done]. apply list_lookup_insert_eq. by rewrite Hb.
    - intros k (x & Hx & Hx0). destruct (decide (k = i)) as [->|Hne].
      + exists u. split; [|done]. apply list_lookup_insert_eq. by rewrite Hb.
      + exists x. by rewrite list_lookup_insert_ne. }
  assert (Hall : forall l b, filled_from fragments a b -> (forall i, i ∈ l -> (i < length fragments)%nat) ->
    filled_from fragments a (foldl step b l) /\ forall k, k ∈ l \/ labelled b k -> labelled (foldl step b l) k).
  { induction l as [|i l IH]; intros b Hb Hl; cbn [foldl].
    - split; [done|]. intros k [Hk|Hk]; [by apply elem_of_nil in Hk|done].
    - destruct (Hstep b i Hb) as (Hb' & Hi & Hkeep); [apply Hl; left|].
      destruct (IH (step b i) Hb') as [Hff Hlab]; [intros k Hk; apply Hl; by right|]. split; [done|].
      intros k [[->|Hk]%elem_of_cons|Hk]; apply Hlab; auto. }
  destruct (Hall (seq 0 (length fragments)) a) as [[H1 H2 H3] Hlab].
  { split; [done|done|done]. }
  { intros i Hi%elem_of_seq. lia. }
  split; [done|]. split; [|done]. intros x. split.
  - intros Hx. apply list_elem_of_lookup in Hx as [i Hi].
    destruct (Hlab i) as (y & Hy & Hy0). { left. apply elem_of_seq. apply lookup_lt_Some in Hi. rewrite H1 in Hi. lia. }
    rewrite Hi in Hy. injection Hy as ->. split; [|done]. apply H2; [|done]. by eapply list_elem_of_lookup_2.
  - intros [Hx Hx0]. apply list_elem_of_lookup in Hx as [i Hi]. eapply list_elem_of_lookup_2. by apply H3.
Qed.

(** *** Renumbering *)

Lemma labels_of_elem a x : x ∈ labels_of a <-> x ∈ a.
Proof.
  unfold labels_of. rewrite sort_by_elem, elem_of_dedup_first. split; [by intros [? _]|].
  intros Hx. split; [done|]. by intros ?%elem_of_nil.
Qed.

Lemma labels_of_NoDup a : NoDup (labels_of a).
Proof. unfold labels_of. rewrite sort_by_perm. apply NoDup_dedup_first. Qed.

Lemma place_of_lookup seen i x : NoDup seen -> seen !! i = Some x -> place_of seen x = Z.of_nat i.
Proof.
  intros Hnd Hi. unfold place_of. destruct (list_find (fun y => y = x) seen) as [[j y]|] eqn:E.
  - apply list_find_Some in E as (Hj & -> & _). f_equal. by eapply NoDup_lookup.
  - apply list_find_None in E. rewrite Forall_lookup in E. by specialize (E i x Hi).
Qed.

Lemma renumber_contiguous a : contiguous (renumber a) (length (labels_of a)).
Proof.
  intros x. unfold renumber. rewrite list_elem_of_fmap. split.
  - intros (y & -> & Hy). apply labels_of_elem, list_elem_of_lookup in Hy as [i Hi].
    rewrite (place_of_lookup _ i) by (done || apply labels_of_NoDup). apply lookup_lt_Some in Hi. lia.
  - intros Hx. destruct (lookup_lt_is_Some_2 (labels_of a) (Z.to_nat x)) as [y Hy]; [lia|]. exists y. split.
    + rewrite (place_of_lookup _ (Z.to_nat x)) by (done || apply labels_of_NoDup). lia.
    + apply labels_of_elem. by eapply list_elem_of_lookup_2.
Qed.

Lemma contiguous_labels a k : contiguous a k -> length (labels_of a) = k.
Proof.
  intros Hc. assert (Hp : labels_of a ≡ₚ map Z.of_nat (seq 0 k)).
  { apply NoDup_Permutation; [apply labels_of_NoDup|apply NoDup_fmap_2; [|apply NoDup_seq]; intros ?? ?; lia|].
    intros x. rewrite labels_of_elem, (Hc x), list_elem_of_fmap. split.
    - intros Hx. exists (Z.to_nat x). rewrite elem_of_seq. lia.
    - intros (y & -> & Hy%elem_of_seq). lia. }
  rewrite Hp, length_map. apply length_seq.
Qed.

Lemma labels_subset a b : (forall x, x ∈ a -> x ∈ b) -> (length (labels_of a) <= length (labels_of b))%nat.
Proof.
  intros Hs. apply submseteq_length, NoDup_submseteq; [apply labels_of_NoDup|].
  intros x. rewrite !labels_of_elem. apply Hs.
Qed.

(** *** Refinement moves fragments among the speakers there are *)

Lemma by_key_keys {A} (m : gmap Z A) k v : (k, v) ∈ by_key m <-> m !! k = Some v.
Proof. unfold by_key. rewrite sort_by_elem. apply elem_of_map_to_list. Qed.

Lemma accumulate_same_keys acc key emb w k :
  is_Some (accumulate_same acc key emb w !! k) -> k = key \/ is_Some (acc !! k).
Proof.
  unfold accumulate_same. destruct (default _ _) as [sum total]. intros Hk. destruct (decide (k = key)); [by left|right].
  by case_bool_decide; rewrite lookup_insert_ne in Hk by done.
Qed.

Lemma voices_of_labels fragments a c v : (c, v) ∈ voices_of fragments a -> c ∈ a.
Proof.
  unfold voices_of. intros Hc. apply list_elem_of_fmap in Hc as ([k [sum w]] & [= -> ->] & Hk).
  apply by_key_keys in Hk. revert Hk. set (f := fun acc x => _).
  assert (Hg : forall l acc, (forall x, x ∈ l -> snd x ∈ a) -> (forall k, is_Some (acc !! k) -> k ∈ a) ->
    forall k, is_Some (foldl f acc l !! k) -> k ∈ a).
  { induction l as [|x l IH]; intros acc Hl Hacc; [done|]. cbn [foldl]. apply IH; [intros y Hy; apply Hl; by right|].
    intros k0 Hk0. unfold f in Hk0. destruct (usable (fst x)); [|by apply Hacc].
    apply accumulate_same_keys in Hk0 as [->|Hk0]; [apply Hl; left|by apply Hacc]. }
  intros Hk. apply (Hg (zip fragments a) ∅); [|by intros k0 [? ?%lookup_empty_Some]|by eexists].
  intros [x y] Hx. by eapply elem_of_zip_r.
Qed.

Lemma closer_voice_label voices f a : closer_voice voices f a = a \/ closer_voice voices f a ∈ map fst voices.
Proof.
  unfold closer_voice. destruct (usable f) as [emb|]; [|by left]. set (step := fun best c => _).
  assert (Hg : forall l best, (forall c, c ∈ l -> c ∈ voices) -> (fst best = a \/ fst best ∈ map fst voices) ->
    fst (foldl step best l) = a \/ fst (foldl step best l) ∈ map fst voices).
  { induction l as [|c l IH]; intros best Hl Hb; [done|]. cbn [foldl]. apply IH; [intros x Hx; apply Hl; by right|].
    unfold step. case_bool_decide; [|done]. cbv zeta. destruct (fltb _ _); [|done]. right. cbn.
    apply list_elem_of_fmap. exists c. split; [done|]. apply Hl. left. }
  apply Hg; [done|by left].
Qed.

Lemma moved_labels fragments a x :
  x ∈ zip_with (closer_voice (voices_of fragments a)) fragments a -> x ∈ a.
Proof.
  intros Hx. apply list_elem_of_lookup in Hx as [i Hi]. apply lookup_zip_with_Some in Hi as (f & y & -> & _ & Hy).
  destruct (closer_voice_label (voices_of fragments a) f y) as [->|Hc]; [by eapply list_elem_of_lookup_2|].
  apply list_elem_of_fmap in Hc as ([c v] & -> & Hc). by eapply voices_of_labels.
Qed.

Lemma refine_passes_labels passes fragments a :
  length a = length fragments ->
  length (fst (refine_passes passes fragments a)) = length fragments /\
  (forall x, x ∈ fst (refine_passes passes fragments a) -> x ∈ a) /\
  (snd (refine_passes passes fragments a) = true -> (passes <= 1)%nat -> fst (refine_passes passes fragments a) = a).
Proof.
  revert a. induction passes as [|passes IH]; intros a Hlen; cbn [refine_passes]; [done|]. cbv zeta.
  destruct (Nat.ltb _ _); [done|]. case_bool_decide; [done|].
  set (moved := zip_with _ _ _). assert (Hm : length moved = length fragments).
  { unfold moved. rewrite length_zip_with. lia. }
  destruct (IH moved Hm) as (H1 & H2 & H3). split; [done|]. split.
  - intros x Hx. eapply moved_labels, H2, Hx.
  - intros Hr Hp. destruct passes as [|passes]; [by cbn in Hr|lia].
Qed.

Lemma refine_contiguous fragments a passes k :
  length a = length fragments -> contiguous a k -> (passes <= 1)%nat ->
  let r := refine_assignment fragments a passes in
  length r = length fragments /\ exists k', contiguous r k' /\ (k' <= k)%nat.
Proof.
  intros Hlen Hc Hp. cbv zeta. unfold refine_assignment. destruct (refine_passes_labels passes fragments a Hlen) as (H1 & H2 & H3).
  destruct (refine_passes passes fragments a) as [b returned]. cbn [fst snd] in *. destruct returned.
  - rewrite (H3 eq_refl Hp) in *. split; [done|]. by exists k.
  - split; [unfold renumber; by rewrite length_map|]. exists (length (labels_of b)). split; [apply renumber_contiguous|].
    rewrite <- (contiguous_labels a k Hc). by apply labels_subset.
Qed.

(** *** Folding *)

Section fold.
Context `{EnvVar}.

Lemma bfilter_one {A} (p : A -> bool) x : bfilter p [x] = if p x then [x] else [].
Proof. done. Qed.

Lemma speech_by_label_snoc l (m : gmap Z Z) (x : Fragment * Z) :
  foldl (fun m x => <[snd x := default 0 (m !! snd x) + speech_of (fst x)]> m) m (l ++ [x]) =
  let m' := foldl (fun m x => <[snd x := default 0 (m !! snd x) + speech_of (fst x)]> m) m l in
  <[snd x := default 0 (m' !! snd x) + speech_of (fst x)]> m'.
Proof. by rewrite foldl_app. Qed.

(** The speech recorded for a label is the sum over the fragments that have it. *)
Lemma speech_by_label_lookup fragments a c :
  speech_by_label fragments a !! c =
  if decide (c ∈ map snd (zip fragments a))
  then Some (zsum (map (fun x => speech_of (fst x)) (bfilter (fun x => bool_decide (snd x = c)) (zip fragments a))))
  else None.
Proof.
  unfold speech_by_label. induction (zip fragments a) as [|x l IH] using rev_ind.
  - cbn. case_decide as Hd; [by apply elem_of_nil in Hd|done].
  - rewrite speech_by_label_snoc. cbv zeta. rewrite bfilter_app, !map_app, zsum_app.
    set (m := foldl _ _ _) in *. destruct (decide (snd x = c)) as [<-|Hne].
    + rewrite lookup_insert_eq, IH. rewrite (decide_True (P := snd x ∈ _ ++ _)) by (apply elem_of_app; right; left).
      f_equal. rewrite bfilter_one, bool_decide_eq_true_2 by done.
      cbn [map zsum foldr]. rewrite Z.add_0_r. f_equal. destruct (decide (snd x ∈ map snd l)) as [|Hn]; cbn [default id]; [done|].
      symmetry. assert (Hnil : bfilter (fun y => bool_decide (snd y = snd x)) l = []).
      { apply bfilter_nil_iff. intros y Hy. apply bool_decide_eq_false. intros Heq. apply Hn. rewrite <- Heq.
        apply list_elem_of_fmap. by exists y. }
      by rewrite Hnil.
    + rewrite lookup_insert_ne, IH by done. rewrite bfilter_one, (bool_decide_eq_false_2 (snd x = c)) by done. cbn [map zsum foldr]. rewrite Z.add_0_r.
      destruct (decide (c ∈ map snd l)) as [Hin|Hn].
      * rewrite decide_True by (apply elem_of_app; by left). done.
      * rewrite decide_False; [done|]. intros [?|[->|Hx%elem_of_nil]%elem_of_cons]%elem_of_app; done.
Qed.

Lemma zip_snd_elem (fragments : list Fragment) (a : list Z) c : length a = length fragments -> c ∈ map snd (zip fragments a) <-> c ∈ a.
Proof.
  intros Hlen. change (map snd (zip fragments a)) with (snd <$> zip fragments a). by rewrite snd_zip by lia.
Qed.

Lemma speech_keys fragments a c : length a = length fragments -> is_Some (speech_by_label fragments a !! c) <-> c ∈ a.
Proof.
  intros Hlen. rewrite speech_by_label_lookup, <- (zip_snd_elem fragments a c Hlen).
  case_decide; split; try done; try (by eexists); by intros [? ?].
Qed.

Lemma surviving_spec speech c :
  c ∈ surviving_labels speech <-> exists ms, speech !! c = Some ms /\ substantial (zsum (map snd (map_to_list speech))) ms = true.
Proof.
  unfold surviving_labels. rewrite list_elem_of_fmap. split.
  - intros ([k ms] & -> & Hin). apply elem_of_bfilter in Hin as [Hin Hs]. apply by_key_keys in Hin. by exists ms.
  - intros (ms & Hc & Hs). exists (c, ms). split; [done|]. apply elem_of_bfilter. split; [by apply by_key_keys|done].
Qed.

Lemma surviving_NoDup speech : NoDup (surviving_labels speech).
Proof.
  unfold surviving_labels, by_key. assert (Hsub : bfilter (fun x => substantial (zsum (map snd (map_to_list speech))) (snd x))
    (sort_by (fun a b => fst a <=? fst b) (map_to_list speech)) `sublist_of` sort_by (fun a b => fst a <=? fst b) (map_to_list speech)).
  { unfold bfilter. generalize (sort_by (fun a b : Z * Z => fst a <=? fst b) (map_to_list speech)). intros l.
    induction l as [|x l IH]; cbn; [done|]. destruct (substantial _ _); by constructor. }
  eapply sublist_NoDup; [|apply (fmap_sublist fst), Hsub].
  change (fst <$> sort_by (fun a b : Z * Z => fst a <=? fst b) (map_to_list speech)) with
    (map fst (sort_by (fun a b : Z * Z => fst a <=? fst b) (map_to_list speech))).
  rewrite sort_by_perm. apply NoDup_fst_map_to_list.
Qed.

Lemma accumulate_keys acc key emb w k : is_Some (accumulate acc key emb w !! k) <-> k = key \/ is_Some (acc !! k).
Proof.
  unfold accumulate. destruct (default _ _) as [sum total]. destruct (decide (k = key)) as [->|Hne].
  - rewrite lookup_insert_eq. split; [by left|by eexists].
  - rewrite lookup_insert_ne by done. naive_solver.
Qed.

(** The voices to fold into are those of surviving labels with an embedding. *)
Lemma centroid_labels fragments a surviving c v :
  (c, v) ∈ surviving_centroids fragments a surviving -> c ∈ surviving.
Proof.
  unfold surviving_centroids. intros Hc. apply list_elem_of_fmap in Hc as ([k [sum w]] & [= -> ->] & Hk).
  apply by_key_keys in Hk. revert Hk. set (f := fun acc x => _).
  assert (Hg : forall l acc, (forall k, is_Some (acc !! k) -> k ∈ surviving) ->
    forall k, is_Some (foldl f acc l !! k) -> k ∈ surviving).
  { induction l as [|x l IH]; intros acc Hacc; [done|]. cbn [foldl]. apply IH.
    intros k0 Hk0. unfold f in Hk0. destruct (fr_embedding (fst x)); [|by apply Hacc].
    case_bool_decide; [|by apply Hacc]. apply accumulate_keys in Hk0 as [->|Hk0]; [done|by apply Hacc]. }
  intros Hk. apply (Hg (zip fragments a) ∅); [by intros k0 [? ?%lookup_empty_Some]|by eexists].
Qed.

Lemma closest_voice_in centroids emb c : closest_voice centroids emb = Some c -> c ∈ map fst centroids.
Proof.
  unfold closest_voice. set (l := sort_by _ _). destruct l as [|x l'] eqn:E; [done|]. intros [= <-].
  assert (Hx : x ∈ l) by (rewrite E; left). unfold l in Hx. rewrite sort_by_elem in Hx.
  apply list_elem_of_fmap in Hx as (y & -> & Hy). apply list_elem_of_fmap. by exists y.
Qed.

(** What folding does before it renumbers: the fragments of people stay, every
    other goes to one of them. *)
Definition folded (fragments : list Fragment) (a surviving : list Z) : list Z :=
  zip_with (fun f x => if bool_decide (x ∈ surviving) then x
    else default (default 0 (head surviving)) (emb ← fr_embedding f;
      closest_voice (surviving_centroids fragments a surviving) emb)) fragments a.

Lemma folded_labels fragments a surviving x :
  length a = length fragments -> surviving <> [] -> (forall c, c ∈ surviving -> c ∈ a) ->
  x ∈ folded fragments a surviving <-> x ∈ surviving.
Proof.
  intros Hlen Hne Hsub. split.
  - intros Hx. apply list_elem_of_lookup in Hx as [i Hi]. apply lookup_zip_with_Some in Hi as (f & y & -> & _ & Hy).
    case_bool_decide; [done|]. assert (Hhd : default 0 (head surviving) ∈ surviving) by (destruct surviving; [done|left]).
    destruct (fr_embedding f) as [emb|]; [|done]. cbn [mbind option_bind].
    destruct (closest_voice _ emb) as [c|] eqn:E; [|done]. cbn [default id].
    apply closest_voice_in, list_elem_of_fmap in E as ([k v] & -> & Hk). by eapply centroid_labels.
  - intros Hx. destruct (list_elem_of_lookup_1 a x (Hsub x Hx)) as [i Hi].
    destruct (lookup_lt_is_Some_2 fragments i) as [f Hf]; [rewrite <- Hlen; by eapply lookup_lt_Some|].
    apply list_elem_of_lookup. exists i. unfold folded. rewrite lookup_zip_with, Hf. cbn. rewrite Hi. cbn.
    by rewrite bool_decide_eq_true_2.
Qed.

Lemma fold_eq fragments a :
  length a = length fragments ->
  let speech := speech_by_label fragments a in
  let surviving := surviving_labels speech in
  (forall c, c ∈ surviving -> c ∈ a) /\
  fold_slight_speakers fragments a =
    if bool_decide (surviving = []) || bool_decide (length surviving = size speech) then a
    else renumber (folded fragments a surviving).
Proof.
  intros Hlen. cbv zeta. split; [|done]. intros c Hc. apply surviving_spec in Hc as (ms & Hc & _).
  apply (speech_keys fragments a c Hlen). by eexists.
Qed.

Lemma fold_contiguous fragments a k :
  length a = length fragments -> contiguous a k ->
  let r := fold_slight_speakers fragments a in
  length r = length fragments /\ exists k', contiguous r k' /\ (k' <= k)%nat.
Proof.
  intros Hlen Hc. destruct (fold_eq fragments a Hlen) as [Hsub Heq]. cbv zeta. rewrite Heq.
  destruct (_ || _) eqn:E; [split; [done|by exists k]|]. apply orb_false_iff in E as [E _]. apply bool_decide_eq_false in E.
  split; [unfold renumber, folded; rewrite length_map, length_zip_with; lia|].
  eexists. split; [apply renumber_contiguous|]. rewrite <- (contiguous_labels a k Hc). apply labels_subset.
  intros x Hx. apply Hsub. by apply folded_labels in Hx.
Qed.
End fold.

(** ** The whole *)

Lemma embedded_spec (fragments : list Fragment) i :
  i ∈ embedded_indices fragments <-> exists f, fragments !! i = Some f /\ is_Some (usable f).
Proof.
  unfold embedded_indices. rewrite list_elem_of_fmap. split.
  - intros ([k f] & -> & Hin). apply elem_of_bfilter in Hin as [Hin Hu]. bool_to_prop.
    apply elem_of_lookup_imap in Hin as (j & g & [= -> ->] & Hg). by exists g.
  - intros (f & Hf & Hu). exists (i, f). split; [done|]. apply elem_of_bfilter. split; [|by apply bool_decide_eq_true_2].
    apply elem_of_lookup_imap. by exists i, f.
Qed.

Lemma embedded_NoDup fragments : NoDup (embedded_indices fragments).
Proof.
  unfold embedded_indices. assert (Hsub : bfilter (fun x => bool_decide (is_Some (usable (snd x)))) (imap pair fragments)
    `sublist_of` imap pair fragments).
  { unfold bfilter. generalize (imap pair fragments). intros l. induction l as [|x l IH]; cbn; [done|].
    destruct (bool_decide _); by constructor. }
  eapply sublist_NoDup; [|apply (fmap_sublist fst), Hsub].
  replace (fst <$> imap pair fragments) with (seq 0 (length fragments)); [apply NoDup_seq|].
  apply list_eq. intros i. rewrite list_lookup_fmap, list_lookup_imap.
  destruct (fragments !! i) as [f|] eqn:E; cbn.
  - apply lookup_lt_Some in E. rewrite lookup_seq_lt by done. done.
  - apply lookup_ge_None in E. by rewrite lookup_seq_ge.
Qed.

Lemma omap_usable_length (fragments : list Fragment) (embedded : list nat) :
  (forall i, i ∈ embedded -> exists f, fragments !! i = Some f /\ is_Some (usable f)) ->
  length (omap (fun f => fr ← fragments !! f; usable fr) embedded) = length embedded.
Proof.
  induction embedded as [|i l IH]; intros Hall; [done|]. destruct (Hall i) as (f & Hf & [e He]); [left|].
  cbn. rewrite Hf. cbn. rewrite He. cbn. f_equal. apply IH. intros k Hk. apply Hall. by right.
Qed.

Section whole.
Context `{EnvVar} `{EnvF32}.

(** How much a fragment speaks, by its index. *)
Definition speech_at (fragments : list Fragment) (i : nat) : Z := default 0 (speech_of <$> fragments !! i).

(** The merge sequence of a recording, and the clusters its cut leaves. *)
Definition sequence_of (fragments : list Fragment) : Merging :=
  merge_sequence (omap (fun f => fr ← fragments !! f; usable fr) (embedded_indices fragments))
    (map (speech_at fragments) (embedded_indices fragments)).
Definition clusters_of (fragments : list Fragment) (expected : option Z) : list (list nat) :=
  replay (length (embedded_indices fragments)) (mg_history (sequence_of fragments))
    (final_cut fragments expected (embedded_indices fragments) (sequence_of fragments)) (embedded_indices fragments).

Lemma clusters_of_spec fragments expected :
  embedded_indices fragments <> [] ->
  let clusters := clusters_of fragments expected in
  concat clusters ≡ₚ embedded_indices fragments /\ Forall (fun c => c <> []) clusters /\ clusters <> [] /\
  mg_substantial (sequence_of fragments) !! final_cut fragments expected (embedded_indices fragments) (sequence_of fragments) =
    Some (length (bfilter (fun c => substantial (zsum (map (speech_at fragments) (embedded_indices fragments)))
      (zsum (map (speech_at fragments) c))) clusters)).
Proof.
  intros Hne. assert (Hlen := omap_usable_length fragments (embedded_indices fragments)
    (fun i Hi => proj1 (embedded_spec fragments i) Hi)).
  pose proof (final_cut_range fragments expected (embedded_indices fragments) _
    (map (speech_at fragments) (embedded_indices fragments)) Hlen Hne) as Hcut.
  destruct (replay_spec (speech_at fragments) _ (embedded_indices fragments) _ Hlen Hne Hcut) as (H1 & H2 & H3 & H4).
  cbv zeta. unfold clusters_of, sequence_of. split; [done|]. split; [done|]. split; [|done].
  intros Hnil. rewrite Hnil in H3. cbn in H3. lia.
Qed.

(** Labels straight after the cut, and after the fragments without embedding. *)
Lemma first_labels fragments expected :
  embedded_indices fragments <> [] ->
  let clusters := clusters_of fragments expected in
  let a := assign_rest fragments (label_clusters (length fragments) clusters) in
  length a = length fragments /\ contiguous a (length clusters) /\
  forall idx c f, clusters !! idx = Some c -> f ∈ c -> a !! f = Some (Z.of_nat idx).
Proof.
  intros Hne. destruct (clusters_of_spec fragments expected Hne) as (Hp & Hf & Hcl & _).
  set (clusters := clusters_of fragments expected) in *. cbv zeta.
  assert (Hnd : NoDup (concat clusters)) by (rewrite Hp; apply embedded_NoDup).
  assert (Hlt : forall f, f ∈ concat clusters -> (f < length fragments)%nat).
  { intros f. rewrite Hp. intros (g & Hg & _)%embedded_spec. by eapply lookup_lt_Some. }
  destruct (label_clusters_spec (length fragments) clusters Hnd Hlt) as (Hlen & Hin & Hout).
  assert (Hsome : forall idx, (idx < length clusters)%nat -> exists f, label_clusters (length fragments) clusters !! f = Some (Z.of_nat idx)).
  { intros idx Hidx. destruct (lookup_lt_is_Some_2 clusters idx Hidx) as [c Hc]. rewrite Forall_lookup in Hf.
    specialize (Hf idx c Hc). destruct c as [|f c]; [done|]. exists f. eapply Hin; [exact Hc|left]. }
  assert (Hzero : 0 ∈ label_clusters (length fragments) clusters).
  { destruct (Hsome 0%nat) as [f Hf0]; [destruct clusters; cbn; [done|lia]|]. by eapply list_elem_of_lookup_2. }
  destruct (assign_rest_spec fragments _ 0 Hlen Hzero) as (Ha & Hx & Hk); [lia|]. split; [done|]. split.
  - intros x. rewrite Hx. split.
    + intros [Hxin Hx0]. apply list_elem_of_lookup in Hxin as [f Hfx]. pose proof (lookup_lt_Some _ _ _ Hfx) as Hflt.
      rewrite Hlen in Hflt. destruct (decide (f ∈ concat clusters)) as [Hc|Hc].
      * apply list_elem_of_In, in_concat in Hc as (c & Hc & Hfc). rewrite <- !list_elem_of_In in *.
        apply list_elem_of_lookup in Hc as [idx Hidx]. rewrite (Hin idx c f Hidx Hfc) in Hfx. injection Hfx as <-.
        apply lookup_lt_Some in Hidx. lia.
      * rewrite (Hout f Hflt Hc) in Hfx. injection Hfx as <-. lia.
    + intros Hr. split; [|lia]. destruct (Hsome (Z.to_nat x)) as [f Hfx]; [lia|].
      rewrite Z2Nat.id in Hfx by lia. by eapply list_elem_of_lookup_2.
  - intros idx c f Hc Hfc. apply Hk; [by eapply Hin|lia].
Qed.

Lemma cluster_fragments_eq fragments expected :
  embedded_indices fragments <> [] ->
  cluster_fragments fragments expected =
  refine_assignment fragments (fold_slight_speakers fragments (assign_rest fragments
    (label_clusters (length fragments) (clusters_of fragments expected)))) (Z.to_nat (env_usize "SCRIBE_REFINE" 1)).
Proof. intros Hne. unfold cluster_fragments. by rewrite bool_decide_eq_false_2. Qed.

(** A speaker index is a count.  Every fragment of a recording gets a
    speaker, the ones that could not be embedded too, and the speakers that
    appear are exactly the numbers from zero to one less than how many there
    are, so the largest one tells the count.  This holds whatever the
    embeddings are, with at most one pass of refinement, the default. *)
Theorem cluster_fragments_labels fragments expected :
  fragments <> [] -> env_usize "SCRIBE_REFINE" 1 <= 1 ->
  length (cluster_fragments fragments expected) = length fragments /\
  exists k, (0 < k)%nat /\ contiguous (cluster_fragments fragments expected) k.
Proof.
  intros Hne Hr.
  assert (Hwrap : forall a k, length a = length fragments -> contiguous a k -> exists k, (0 < k)%nat /\ contiguous a k).
  { intros a k Hlen Hc. exists k. split; [|done]. destruct k; [|lia]. exfalso.
    destruct a as [|x a]; [by destruct fragments|]. assert (Hx : x ∈ x :: a) by left. apply Hc in Hx. lia. }
  destruct (decide (embedded_indices fragments = [])) as [He|He].
  - unfold cluster_fragments. rewrite bool_decide_eq_true_2 by done. split; [apply repeat_length|].
    exists 1%nat. split; [lia|]. intros x. rewrite list_elem_of_In. split.
    + intros Hx%repeat_spec. lia.
    + intros Hx. assert (x = 0) as -> by lia. destruct fragments; [done|]. by left.
  - rewrite cluster_fragments_eq by done. destruct (first_labels fragments expected He) as (Hlen & Hc & _).
    destruct (fold_contiguous fragments _ _ Hlen Hc) as (Hlen2 & k2 & Hc2 & _).
    destruct (refine_contiguous fragments _ (Z.to_nat (env_usize "SCRIBE_REFINE" 1)) k2 Hlen2 Hc2) as (Hlen3 & k3 & Hc3 & _); [lia|].
    split; [done|]. by eapply Hwrap.
Qed.
End whole.

(** ** A stated count *)

Lemma zsum_values_delete (m : gmap Z Z) k x :
  m !! k = Some x -> zsum (map snd (map_to_list m)) = x + zsum (map snd (map_to_list (delete k m))).
Proof.
  intros Hk. rewrite (zsum_perm _ (map snd ((k, x) :: map_to_list (delete k m)))); [done|].
  apply fmap_Permutation. symmetry. by apply map_to_list_delete.
Qed.

Lemma zsum_insert (m : gmap Z Z) k v :
  zsum (map snd (map_to_list (<[k := default 0 (m !! k) + v]> m))) = zsum (map snd (map_to_list m)) + v.
Proof.
  rewrite (zsum_values_delete (<[k := _]> m) k _ (lookup_insert_eq _ _ _)), delete_insert_eq.
  destruct (m !! k) as [x|] eqn:E; cbn [default id].
  - rewrite (zsum_values_delete m k x E). lia.
  - rewrite delete_id by done. lia.
Qed.

Lemma speech_total (fragments : list Fragment) (a : list Z) :
  length a = length fragments ->
  zsum (map snd (map_to_list (speech_by_label fragments a))) = zsum (map speech_of fragments).
Proof.
  intros Hlen. assert (Hz : map speech_of fragments = map (fun x => speech_of (fst x)) (zip fragments a)).
  { rewrite <- (map_map fst speech_of). f_equal. change (map fst ?l) with (fst <$> l). by rewrite fst_zip by lia. }
  rewrite Hz. clear. unfold speech_by_label. induction (zip fragments a) as [|x l IH] using rev_ind; [done|].
  rewrite speech_by_label_snoc. cbv zeta. rewrite zsum_insert, IH, map_app, zsum_app. cbn. lia.
Qed.

Lemma bfilter_map {A B} (f : A -> B) p l : bfilter p (map f l) = map f (bfilter (fun x => p (f x)) l).
Proof. unfold bfilter. induction l as [|x l IH]; cbn; [done|]. destruct (p (f x)); cbn; by rewrite IH. Qed.

Lemma speech_at_all fragments : map (speech_at fragments) (seq 0 (length fragments)) = map speech_of fragments.
Proof.
  apply list_eq. intros i. change (map ?f ?l) with (f <$> l). rewrite !list_lookup_fmap.
  destruct (fragments !! i) as [f|] eqn:E; cbn.
  - pose proof (lookup_lt_Some _ _ _ E). rewrite lookup_seq_lt by done. cbn. unfold speech_at. by rewrite E.
  - apply lookup_ge_None in E. by rewrite lookup_seq_ge.
Qed.

Lemma speech_of_label (fragments : list Fragment) (a : list Z) c :
  length a = length fragments ->
  zsum (map (fun x => speech_of (fst x)) (bfilter (fun x => bool_decide (snd x = c)) (zip fragments a))) =
  zsum (map (speech_at fragments) (bfilter (fun i => bool_decide (a !! i = Some c)) (seq 0 (length fragments)))).
Proof.
  revert a. induction fragments as [|f fragments IH]; intros [|y a] Hlen; try done. injection Hlen as Hlen.
  cbn [length seq zip zip_with]. rewrite <- seq_shift. unfold bfilter at 1 2. cbn [List.filter snd].
  fold (bfilter (fun x : Fragment * Z => bool_decide (snd x = c)) (zip fragments a)).
  fold (bfilter (fun i => bool_decide ((y :: a) !! i = Some c)) (map S (seq 0 (length fragments)))).
  rewrite bfilter_map. cbn [lookup list_lookup].
  assert (Hs : forall l, map (speech_at (f :: fragments)) (map S l) = map (speech_at fragments) l)
    by (intros l; rewrite map_map; by apply map_ext).
  specialize (IH a Hlen). destruct (decide (y = c)) as [->|Hne].
  - rewrite !bool_decide_eq_true_2 by done. rewrite !map_cons, Hs. unfold zsum in *. cbn [foldr fst]. by rewrite IH.
  - rewrite !bool_decide_eq_false_2 by congruence. rewrite Hs. exact IH.
Qed.

Lemma bfilter_count {A} (p : A -> bool) (l : list A) :
  length (bfilter p l) = length (bfilter (fun i => match l !! i with Some x => p x | None => false end) (seq 0 (length l))).
Proof.
  induction l as [|x l IH]; [done|]. cbn [length seq]. rewrite <- seq_shift. unfold bfilter at 1 2. cbn [List.filter lookup list_lookup].
  fold (bfilter p l). fold (bfilter (fun i => match (x :: l) !! i with Some x => p x | None => false end) (map S (seq 0 (length l)))).
  rewrite bfilter_map. cbn [lookup list_lookup]. destruct (p x); cbn [length]; by rewrite length_map, IH.
Qed.

Lemma bfilter_NoDup {A} (p : A -> bool) l : NoDup l -> NoDup (bfilter p l).
Proof. intros Hnd. apply NoDup_ListNoDup, List.NoDup_filter. by apply NoDup_ListNoDup. Qed.

Lemma NoDup_concat_each {A} (l : list (list A)) c : NoDup (concat l) -> c ∈ l -> NoDup c.
Proof.
  intros Hnd Hc. apply list_elem_of_split in Hc as (l1 & l2 & ->). rewrite concat_app in Hnd. cbn in Hnd.
  apply NoDup_app in Hnd as (_ & _ & Hnd). by apply NoDup_app in Hnd as [? _].
Qed.

Section stated.
Context `{EnvVar} `{EnvF32}.

(** When everything was embedded, what the labels hold is what the clusters
    hold, and the people among them are the same. *)
Lemma people_survive fragments expected :
  fragments <> [] -> Forall (fun f => is_Some (usable f)) fragments ->
  let clusters := clusters_of fragments expected in
  let a := assign_rest fragments (label_clusters (length fragments) clusters) in
  let speech := speech_by_label fragments a in
  embedded_indices fragments <> [] /\ size speech = length clusters /\
  length (surviving_labels speech) = length (bfilter (fun c => substantial
    (zsum (map (speech_at fragments) (embedded_indices fragments))) (zsum (map (speech_at fragments) c))) clusters).
Proof.
  intros Hne Hall. assert (Hemb : forall i, i ∈ embedded_indices fragments <-> (i < length fragments)%nat).
  { intros i. rewrite embedded_spec. split; [intros (f & Hf & _); by eapply lookup_lt_Some|].
    intros Hi. destruct (lookup_lt_is_Some_2 fragments i Hi) as [f Hf]. exists f. split; [done|].
    rewrite Forall_lookup in Hall. by eapply Hall. }
  assert (He : embedded_indices fragments <> []).
  { intros Hnil. assert (Hin : 0%nat ∈ embedded_indices fragments) by (apply Hemb; destruct fragments; cbn; [done|lia]).
    rewrite Hnil in Hin. by apply elem_of_nil in Hin. }
  assert (Hperm : embedded_indices fragments ≡ₚ seq 0 (length fragments)).
  { apply NoDup_Permutation; [apply embedded_NoDup|apply NoDup_seq|]. intros i. rewrite Hemb, elem_of_seq. lia. }
  destruct (clusters_of_spec fragments expected He) as (Hcp & _). destruct (first_labels fragments expected He) as (Hlen & Hcon & Hin).
  cbv zeta. set (clusters := clusters_of fragments expected) in *. set (a := assign_rest _ _) in *.
  set (speech := speech_by_label fragments a). split; [done|].
  assert (Hnd : NoDup (concat clusters)) by (rewrite Hcp; apply embedded_NoDup).
  assert (Hmem : forall idx c i, clusters !! idx = Some c -> a !! i = Some (Z.of_nat idx) <-> i ∈ c).
  { intros idx c i Hc. split; [|by apply Hin]. intros Hi.
    assert (Hic : i ∈ concat clusters) by (rewrite Hcp; apply Hemb; rewrite <- Hlen; by eapply lookup_lt_Some).
    apply list_elem_of_In, in_concat in Hic as (c' & Hc' & Hic'). rewrite <- !list_elem_of_In in *.
    apply list_elem_of_lookup in Hc' as [idx' Hidx']. pose proof (Hin idx' c' i Hidx' Hic') as Hi'. rewrite Hi in Hi'.
    injection Hi' as Hi'. apply Nat2Z.inj in Hi' as <-. rewrite Hc in Hidx'. by injection Hidx' as <-. }
  assert (Hspeech : forall idx c, clusters !! idx = Some c -> speech !! Z.of_nat idx = Some (zsum (map (speech_at fragments) c))).
  { intros idx c Hc. unfold speech. rewrite speech_by_label_lookup, decide_True.
    - f_equal. rewrite speech_of_label by done. apply zsum_perm, fmap_Permutation, NoDup_Permutation.
      + apply bfilter_NoDup, NoDup_seq.
      + eapply (NoDup_concat_each clusters); [done|by eapply list_elem_of_lookup_2].
      + intros i. rewrite elem_of_bfilter, bool_decide_eq_true, (Hmem idx c i Hc), elem_of_seq. split; [by intros [_ ?]|].
        intros Hi. split; [|done]. assert (Hilt := proj2 (Hmem idx c i Hc) Hi). apply lookup_lt_Some in Hilt. lia.
    - apply zip_snd_elem; [done|]. apply Hcon. apply lookup_lt_Some in Hc. lia. }
  assert (Hkeys : forall c, is_Some (speech !! c) <-> 0 <= c < Z.of_nat (length clusters)).
  { intros c. unfold speech. rewrite speech_keys by done. apply Hcon. }
  split.
  - rewrite <- (contiguous_labels a _ Hcon), <- length_map_to_list, <- (length_map fst). apply Permutation_length, NoDup_Permutation.
    + apply NoDup_fst_map_to_list.
    + apply labels_of_NoDup.
    + intros c. rewrite labels_of_elem, <- (speech_keys fragments a c Hlen), list_elem_of_fmap. split.
      * intros ([k v] & -> & Hk%elem_of_map_to_list). by eexists.
      * intros [v Hv]. exists (c, v). split; [done|]. by apply elem_of_map_to_list.
  - assert (Htotal : zsum (map snd (map_to_list speech)) = zsum (map (speech_at fragments) (embedded_indices fragments))).
    { unfold speech. rewrite speech_total, <- speech_at_all by done. apply zsum_perm. by rewrite Hperm. }
    rewrite bfilter_count. rewrite <- (length_map Z.of_nat). apply Permutation_length, NoDup_Permutation.
    + apply surviving_NoDup.
    + apply NoDup_fmap_2; [intros ?? ?; lia|]. apply bfilter_NoDup, NoDup_seq.
    + intros c. rewrite surviving_spec, Htotal, list_elem_of_fmap. split.
      * intros (ms & Hc & Hsub). destruct (proj1 (Hkeys c) (mk_is_Some _ _ Hc)) as [Hc0 Hcl]. exists (Z.to_nat c).
        split; [lia|]. destruct (lookup_lt_is_Some_2 clusters (Z.to_nat c)) as [m Hm]; [lia|]. apply elem_of_bfilter.
        rewrite elem_of_seq, Hm. split; [lia|]. pose proof (Hspeech _ _ Hm) as Hs. rewrite Z2Nat.id, Hc in Hs by lia.
        by injection Hs as <-.
      * intros (idx & -> & Hidx). apply elem_of_bfilter in Hidx as [Hidx Hsub]. destruct (clusters !! idx) as [m|] eqn:E; [|done].
        exists (zsum (map (speech_at fragments) m)). split; [by apply Hspeech|done].
Qed.
End stated.

Section honoured.
Context `{EnvVar} `{EnvF32}.

(** Folding leaves one speaker for each cluster that was a person. *)
Lemma fold_people fragments expected :
  fragments <> [] -> Forall (fun f => is_Some (usable f)) fragments ->
  let clusters := clusters_of fragments expected in
  let a := assign_rest fragments (label_clusters (length fragments) clusters) in
  let people := length (bfilter (fun c => substantial
    (zsum (map (speech_at fragments) (embedded_indices fragments))) (zsum (map (speech_at fragments) c))) clusters) in
  (0 < people)%nat ->
  length (fold_slight_speakers fragments a) = length fragments /\ contiguous (fold_slight_speakers fragments a) people.
Proof.
  intros Hne Hall clusters a people Hpos. destruct (people_survive fragments expected Hne Hall) as (He & Hsize & Hsurv).
  destruct (first_labels fragments expected He) as (Hlen & Hcon & _). fold clusters in Hsize, Hsurv, Hlen, Hcon.
  fold a in Hsize, Hsurv, Hlen, Hcon. fold people in Hsurv.
  destruct (fold_eq fragments a Hlen) as [Hsub Heq]. rewrite Heq. clear Heq. set (surviving := surviving_labels _) in *.
  assert (Hsn : surviving <> []) by (intros Hnil; rewrite Hnil in Hsurv; cbn in Hsurv; lia).
  rewrite (bool_decide_eq_false_2 (surviving = [])) by done. cbn [orb]. case_bool_decide as Hall'.
  - split; [done|]. by rewrite <- Hsurv, Hall', Hsize.
  - split; [unfold renumber, folded; rewrite length_map, length_zip_with; lia|].
    assert (Hp : length (labels_of (folded fragments a surviving)) = people).
    { rewrite <- Hsurv. apply Permutation_length, NoDup_Permutation; [apply labels_of_NoDup|apply surviving_NoDup|].
      intros c. rewrite labels_of_elem. by apply folded_labels. }
    rewrite <- Hp. apply renumber_contiguous.
Qed.

(** C14: A stated count is a count of people, and it is honoured.  When every
    fragment has an embedding and at some point of the merge sequence exactly
    [t] clusters held a person's worth of speech, asking for [t] participants
    gives [t] speakers, numbered from zero, whatever else the sequence looks
    like; one pass of refinement may merge some of them but never adds one. *)
Theorem stated_count_honoured fragments t :
  fragments <> [] -> Forall (fun f => is_Some (usable f)) fragments ->
  1 <= t <= Z.of_nat (length fragments) -> env_usize "SCRIBE_REFINE" 1 <= 1 ->
  Z.to_nat t ∈ mg_substantial (sequence_of fragments) ->
  exists k, contiguous (cluster_fragments fragments (Some t)) k /\ Z.of_nat k <= t /\
    (env_usize "SCRIBE_REFINE" 1 = 0 -> Z.of_nat k = t).
Proof.
  intros Hne Hall Ht Hr Hin.
  destruct (people_survive fragments (Some t) Hne Hall) as (He & _ & _).
  destruct (clusters_of_spec fragments (Some t) He) as (_ & _ & _ & Hcount).
  assert (Hlen_e : length (embedded_indices fragments) = length fragments).
  { rewrite <- (length_seq (length fragments) 0). apply Permutation_length, NoDup_Permutation;
      [apply embedded_NoDup|apply NoDup_seq|]. intros i. rewrite embedded_spec, elem_of_seq. split.
    - intros (f & Hf & _). apply lookup_lt_Some in Hf. lia.
    - intros Hi. destruct (lookup_lt_is_Some_2 fragments i) as [f Hf]; [lia|]. exists f. split; [done|].
      rewrite Forall_lookup in Hall. by eapply Hall. }
  assert (Hcut : mg_substantial (sequence_of fragments) !!
    final_cut fragments (Some t) (embedded_indices fragments) (sequence_of fragments) = Some (Z.to_nat t)).
  { unfold final_cut, target_count. rewrite (proj2 (Z.leb_le 1 t)) by lia. rewrite Hlen_e, Nat.min_l by lia.
    destruct (stated_cut (Z.to_nat t) (mg_substantial (sequence_of fragments))) as [k|] eqn:E; cbn [default id].
    - apply find_last_Some in E as [_ E]. by apply bool_decide_eq_true in E.
    - exfalso. apply list_elem_of_lookup in Hin as [k Hk]. unfold stated_cut in E. rewrite find_last_None in E.
      assert (Hks : k ∈ seq 0 (length (mg_substantial (sequence_of fragments)))).
      { apply elem_of_seq. apply lookup_lt_Some in Hk. lia. }
      specialize (E k Hks). by rewrite bool_decide_eq_true_2 in E. }
  rewrite Hcut in Hcount. injection Hcount as Hpeople.
  destruct (fold_people fragments (Some t) Hne Hall) as [Hlen Hcon]; [lia|]. rewrite <- Hpeople in Hcon.
  rewrite cluster_fragments_eq by done. set (a := fold_slight_speakers _ _) in *.
  destruct (refine_contiguous fragments a (Z.to_nat (env_usize "SCRIBE_REFINE" 1)) (Z.to_nat t) Hlen Hcon) as (_ & k & Hk & Hle); [lia|].
  exists k. split; [done|]. split; [lia|]. intros Hz. rewrite Hz in Hk. cbn in Hk. unfold refine_assignment in Hk. cbn in Hk.
  pose proof (contiguous_labels _ _ (renumber_contiguous a)) as Hl. rewrite (contiguous_labels _ _ Hk) in Hl.
  rewrite (contiguous_labels a _ Hcon) in Hl. lia.
Qed.
End honoured.

(** ** Two people, four stretches of speech *)

Definition no_env : EnvVar := fun _ => None.
Definition no_f32 : EnvF32 := fun _ => None.

Definition sample_fragment (id start_ms end_ms : Z) (embedding : list f32) : Fragment :=
  mkFragment [mkSpeakerTurn id start_ms end_ms] (Some embedding) (end_ms - start_ms).

Definition sample_fragments : list Fragment :=
  [sample_fragment 0 0 4000 [one; fzero]; sample_fragment 1 4000 9000 [fzero; one];
   sample_fragment 2 9000 13000 [one; fdiv one (of_Z 4)]; sample_fragment 3 13000 19000 [fdiv one (of_Z 8); one]].

#[local] Existing Instances no_env no_f32.

Lemma merge_sequence_ends_witness :
  mg_live (merge_sequence [[one; fzero]; [fzero; one]; [one; one]] [4000; 3000; 200]) = 1%nat /\
  map merge_pair (mg_history (merge_sequence [[one; fzero]; [fzero; one]; [one; one]] [4000; 3000; 200])) =
    [(0, 2); (0, 1)]%nat.
Proof.
  split; [|vm_compute; reflexivity].
  refine (proj1 (merge_sequence_ends [[one; fzero]; [fzero; one]; [one; one]] [4000; 3000; 200] _)). discriminate.
Defined.

Lemma cluster_fragments_labels_witness :
  cluster_fragments sample_fragments None = [0; 1; 0; 1] /\
  length (cluster_fragments sample_fragments None) = length sample_fragments /\
  exists k, (0 < k)%nat /\ contiguous (cluster_fragments sample_fragments None) k.
Proof.
  split; [vm_compute; reflexivity|].
  refine (cluster_fragments_labels sample_fragments None _ _); [discriminate|]. vm_compute. discriminate.
Defined.

Lemma stated_count_honoured_witness :
  cluster_fragments sample_fragments (Some 2) = [0; 1; 0; 1] /\
  mg_substantial (sequence_of sample_fragments) = [4; 3; 2; 1]%nat /\
  exists k, contiguous (cluster_fragments sample_fragments (Some 2)) k /\ Z.of_nat k <= 2 /\
    (env_usize "SCRIBE_REFINE" 1 = 0 -> Z.of_nat k = 2).
Proof.
  split; [vm_compute; reflexivity|]. split; [vm_compute; reflexivity|].
  refine (stated_count_honoured sample_fragments 2 _ _ _ _ _).
  - discriminate.
  - repeat constructor; eexists; reflexivity.
  - vm_compute. split; discriminate.
  - vm_compute. discriminate.
  - vm_compute. right. right. left.
Defined.

(** ** The bound on inferred speakers is not one *)

Definition one_hot (n i : nat) : list f32 := map (fun k => if (k =? i)%nat then one else fzero) (seq 0 n).

(** Fourteen voices, two of which speak twice. *)
Definition crowd : list Fragment :=
  imap (fun k v => sample_fragment (Z.of_nat k) (Z.of_nat k * 4000) (Z.of_nat k * 4000 + 4000) (one_hot 14 v))
    (seq 0 14 ++ [0; 1]%nat).

(** With no stated count, more than [MAX_INFERRED_SPEAKERS] speakers are
    inferred when the merges between people show a cliff above that number. *)
Example inferred_over_the_bound : Z.of_nat (length (labels_of (cluster_fragments crowd None))) = 14.
Proof. vm_compute. reflexivity. Qed.
