(* ===== verification/Models.v ===== *)
(** * Model files: [crates/scribe-asr/src/models.rs]

    Which speech models are installed under a worker's [models_dir], decided by
    the files that are there.  The file system is a parameter. *)

From Stdlib Require Import String.
From S2P Require Import Prelude RustStr Types.

(** What the search looks at: [Path::exists], [Path::is_dir], and the names
    [read_dir] lists, those it cannot read left out. *)
Class FileTree := {
  path_exists : string -> bool;
  is_dir : string -> bool;
  read_dir : string -> option (list string);
}.

Inductive AsrModelPaths :=
| Transducer (encoder decoder joiner tokens : string)
| Whisper (encoder decoder tokens : string).

Record DiarizationModelPaths := mkDiarizationPaths { dp_segmentation : string; dp_embedding : string }.

Definition layout_name (p : AsrModelPaths) : string :=
  match p with Transducer _ _ _ _ => "transducer" | Whisper _ _ _ => "whisper" end.

Section discovery.
Context `{FileTree}.

Definition first_existing (candidates : list string) : option string := find_first path_exists candidates.

(** Encoder, decoder and joiner. *)
Definition transducer_paths (dir tokens : string) : option AsrModelPaths :=
  encoder ← first_existing [storage.path_join dir "encoder.onnx"; storage.path_join dir "encoder.int8.onnx"];
  decoder ← first_existing [storage.path_join dir "decoder.onnx"; storage.path_join dir "decoder.int8.onnx"];
  joiner ← first_existing [storage.path_join dir "joiner.onnx"; storage.path_join dir "joiner.int8.onnx"];
  Some (Transducer encoder decoder joiner tokens).

(** Encoder and decoder, and no joiner. *)
Definition whisper_paths (dir tokens : string) : option AsrModelPaths :=
  encoder ← first_existing [storage.path_join dir "encoder.onnx"; storage.path_join dir "whisper-encoder.onnx"];
  decoder ← first_existing [storage.path_join dir "decoder.onnx"; storage.path_join dir "whisper-decoder.onnx"];
  Some (Whisper encoder decoder tokens).

Definition layout_in (dir : string) : option AsrModelPaths :=
  let tokens := storage.path_join dir "tokens.txt" in
  if path_exists tokens then
    match transducer_paths dir tokens with Some p => Some p | None => whisper_paths dir tokens end
  else None.

(** [{base}/{model}], its case ignored when it is not there as written. *)
Definition model_subdir (base model : string) : option string :=
  let want := trim model in
  if String.eqb want "" then None
  else
    let direct := storage.path_join base want in
    if is_dir direct then Some direct
    else
      names ← read_dir base;
      storage.path_join base <$> find_first (fun n => is_dir (storage.path_join base n) && eq_ignore_ascii_case n want) names.

(** [dirs.iter().find_map(..)] *)
Fixpoint find_map {A B} (f : A -> option B) (l : list A) : option B :=
  match l with [] => None | x :: l' => match f x with Some y => Some y | None => find_map f l' end end.

Definition discover (models_dir : string) : option AsrModelPaths :=
  let base := storage.path_join models_dir "asr" in
  match layout_in base with
  | Some paths => Some paths
  | None =>
      names ← read_dir base;
      find_map layout_in (sort_by String.leb (bfilter is_dir (map (storage.path_join base) names)))
  end.

Definition discover_for (models_dir model : string) : option AsrModelPaths :=
  let base := storage.path_join models_dir "asr" in
  match (dir ← model_subdir base model; layout_in dir) with
  | Some paths => Some paths
  | None => layout_in base
  end.

Definition discover_diarization (models_dir : string) : option DiarizationModelPaths :=
  let dir := storage.path_join models_dir "diarization" in
  segmentation ← first_existing [storage.path_join dir "segmentation.onnx"; storage.path_join dir "segmentation.int8.onnx"];
  embedding ← first_existing [storage.path_join dir "embedding.onnx"; storage.path_join dir "embedding.int8.onnx"];
  Some (mkDiarizationPaths segmentation embedding).

Definition embedding_model_path (models_dir : string) : option string :=
  dp_embedding <$> discover_diarization models_dir.

Definition real_models_present (models_dir model : string) (diarization : bool) : bool :=
  bool_decide (is_Some (discover_for models_dir model)) &&
  (negb diarization || bool_decide (is_Some (discover_diarization models_dir))).
End discovery.
