(* ===== verification/Split.v ===== *)
(** * Cutting the audio: pauses, even pieces and voices

    The parts of [crates/scribe-asr/src/real/diarize.rs] that decide which
    samples an embedding is taken of: [split_turns_at_silence], which cuts a
    turn at every pause that could be a handover; [split_evenly]; and
    [compute_speaker_embeddings].  The extractor is third-party code and a
    parameter, as is [f32::powf]. *)

From Stdlib Require Import SpecFloat Bool String.
From S2P Require Import Prelude RustStr Types F32 Identity Wav Speech Cluster.

(** [f32::powf] of the platform's mathematical library. *)
Class Powf := powf : f32 -> f32 -> f32.

(** A [SpeakerEmbeddingExtractor]: its stream is created, fed a waveform at a
    sample rate and finished, and a voice computed of it. *)
Inductive Extraction := NoStream | NotReady | NoResult | Voice (embedding : list f32).
Class Extractor := extract : Z -> list f32 -> Extraction.

Definition voice_of (e : Extraction) : option (list f32) := match e with Voice v => Some v | _ => None end.

Definition MAX_EMBED_MS : Z := 30000.
Definition EMBED_BUDGET_MS : Z := 60000.
Definition MIN_SPLIT_SILENCE_MS_DEFAULT : Z := 160.
Definition SILENCE_FRAME_MS : Z := 20.
Definition MIN_PIECE_MS : Z := 400.

(** 0.15, 0.35 and 0.85 as binary32. *)
Definition SILENCE_RATIO_DEFAULT : f32 := S754_finite false 10066330 (-26).
Definition FLOOR_ALPHA : f32 := S754_finite false 11744051 (-25).
Definition SPEECH_PERCENTILE : f32 := S754_finite false 14260634 (-24).

Section hooks.
Context `{EnvVar} `{EnvF32}.
Definition min_split_silence_ms : Z := env_i64 "SCRIBE_SPLIT_SILENCE_MS" MIN_SPLIT_SILENCE_MS_DEFAULT.
Definition min_piece_ms : Z := env_i64 "SCRIBE_MIN_PIECE_MS" MIN_PIECE_MS.
Definition env_f32_or (key : string) (default_ : f32) : f32 := default default_ (env_f32 key).
Definition floor_alpha : f32 := env_f32_or "SCRIBE_FLOOR_ALPHA" FLOOR_ALPHA.
Definition silence_ratio : f32 := env_f32_or "SCRIBE_SILENCE_RATIO" SILENCE_RATIO_DEFAULT.
End hooks.

(** ** Slices *)

(** [x as usize] of an [i64]. *)
Definition as_usize (x : Z) : Z := wrap 64 x.

(** [&l[a..b]] *)
Definition between {A} (l : list A) (a b : Z) : list A := take (Z.to_nat (b - a)) (drop (Z.to_nat a) l).

(** [len.div_ceil(k)] *)
Definition div_ceil (n k : nat) : nat := if (k =? 0)%nat then 0%nat else ((n + (k - 1)) / k)%nat.

(** [l.chunks(k)]: the last chunk may be shorter. *)
Definition chunks {A} (k : nat) (l : list A) : list (list A) :=
  map (fun i => take k (drop (i * k) l)) (seq 0 (div_ceil (length l) k)).

(** [x as usize] of an [f32]: towards zero, clamped, and zero for NaN. *)
Definition f32_as_usize (x : f32) : Z :=
  match x with
  | S754_finite false m e => Z.min (Z.shiftl (Zpos m) e) u64_max
  | S754_infinity false => u64_max
  | _ => 0
  end.

(** The samples of a turn; the end is the start's when the turn is reversed. *)
Definition turn_start (sr : Z) (t : SpeakerTurn) : Z := as_usize (Z.quot (Z.max (st_start_ms t) 0 * sr) 1000).
Definition turn_end (sr len : Z) (t : SpeakerTurn) : Z :=
  Z.min (as_usize (Z.quot (Z.max (st_end_ms t) (st_start_ms t) * sr) 1000)) len.

(** ** Pauses *)

Definition silence_frame (sr : Z) : nat := Z.to_nat (Z.max (Z.quot (SILENCE_FRAME_MS * sr) 1000) 1).

Definition frame_energy (c : list f32) : f32 := fsqrt (fdiv (fsum (map (fun x => fmul x x) c)) (of_Z (Z.of_nat (length c)))).

(** The middle of a run of quiet frames that ends at [i], when it is long enough. *)
Definition end_run (min_run : nat) (run_start : option nat) (i : nat) : list nat :=
  match run_start with
  | Some from => if (min_run <=? i - from)%nat then [(from + (i - from) / 2)%nat] else []
  | None => []
  end.

(** [for i in 0..=energies.len()]: the frames where the long pauses are cut. *)
Fixpoint pause_frames (min_run i : nat) (quiet : list bool) (run_start : option nat) : list nat :=
  match quiet with
  | [] => end_run min_run run_start i
  | true :: quiet' => pause_frames min_run (S i) quiet' (Some (default i run_start))
  | false :: quiet' => end_run min_run run_start i ++ pause_frames min_run (S i) quiet' None
  end.

(** No cut closer than [min_piece] to the one before. *)
Fixpoint keep_cuts (min_piece last : Z) (cuts : list Z) : list Z :=
  match cuts with
  | [] => []
  | cut :: cuts' => if min_piece <=? cut - last then cut :: keep_cuts min_piece cut cuts' else keep_cuts min_piece last cuts'
  end.

(** [while kept.last().is_some_and(..) { kept.pop(); }], on the reversed list. *)
Fixpoint pop_cuts (min_piece end_ms : Z) (rev_kept : list Z) : list Z :=
  match rev_kept with
  | c :: rest => if end_ms - c <? min_piece then pop_cuts min_piece end_ms rest else rev_kept
  | [] => []
  end.

Fixpoint pieces_from (piece_start end_ms : Z) (cuts : list Z) : list (Z * Z) :=
  match cuts with
  | [] => [(piece_start, end_ms)]
  | cut :: cuts' =>
      if piece_start <? cut then (piece_start, cut) :: pieces_from cut end_ms cuts'
      else pieces_from piece_start end_ms cuts'
  end.

Section split.
Context `{EnvVar} `{EnvF32} `{Powf}.

(** Below it a frame is quiet: the mean-relative threshold, or the one above
    the turn's own noise floor when that is higher.  The index is below the
    number of frames. *)
Definition quiet_threshold (energies : list f32) : f32 :=
  let mean := fdiv (fsum energies) (of_Z (Z.of_nat (length energies))) in
  let sorted := sort_by fle energies in
  let floor := default fzero (sorted !! 0%nat) in
  let speech := default fzero
    (sorted !! Z.to_nat (f32_as_usize (fmul (of_Z (Z.of_nat (length sorted - 1))) SPEECH_PERCENTILE))) in
  let adaptive :=
    if fltb fzero floor && fltb floor speech then fmul floor (powf (fdiv speech floor) floor_alpha) else fzero in
  fmax (fmul mean silence_ratio) adaptive.

Definition min_run : nat := Z.to_nat (Z.max (Z.quot min_split_silence_ms SILENCE_FRAME_MS) 1).

(** The cuts a turn's audio offers, in milliseconds. *)
Definition pause_cuts (start_ms : Z) (energies : list f32) : list Z :=
  map (fun mid => start_ms + Z.of_nat mid * SILENCE_FRAME_MS)
    (pause_frames min_run 0 (map (fun e => fleb e (quiet_threshold energies)) energies) None).

(** The pieces of a turn, before empty ones are dropped. *)
Definition turn_pieces (samples : list f32) (sr : Z) (t : SpeakerTurn) : list (Z * Z) :=
  let start := turn_start sr t in
  let end_ := turn_end sr (Z.of_nat (length samples)) t in
  if (end_ <=? start) || (end_ - start <? Z.of_nat (silence_frame sr) * 2) then [(st_start_ms t, st_end_ms t)]
  else
    let energies := map frame_energy (chunks (silence_frame sr) (between samples start end_)) in
    let kept := keep_cuts min_piece_ms (st_start_ms t) (pause_cuts (st_start_ms t) energies) in
    let kept := reverse (pop_cuts min_piece_ms (st_end_ms t) (reverse kept)) in
    pieces_from (st_start_ms t) (st_end_ms t) kept.

(** [emit]: no empty piece, and each its own number. *)
Definition split_turns_at_silence (turns : list SpeakerTurn) (samples : list f32) (sr : Z) : list SpeakerTurn :=
  imap (fun k p => mkSpeakerTurn (Z.of_nat k) (fst p) (snd p))
    (bfilter (fun p => fst p <? snd p) (flat_map (turn_pieces samples sr) turns)).
End split.

(** ** Even pieces *)

Definition split_evenly (start end_ max_len : Z) : list (Z * Z) :=
  if (end_ <=? start) || (max_len =? 0) then [(start, end_)]
  else
    let len := end_ - start in
    let pieces := (len + (max_len - 1)) / max_len in
    map (fun i => (start + len * i / pieces, start + len * (i + 1) / pieces)) (seqZ 0 pieces).

(** ** Voices *)

(** Past the budget, the middle of the piece. *)
Definition within_budget (sr : Z) (range : Z * Z) : Z * Z :=
  let '(start, end_) := range in
  let budget := as_usize (Z.quot (EMBED_BUDGET_MS * sr) 1000) in
  if budget <? end_ - start then
    let centre := start + (end_ - start) / 2 in (centre - budget / 2, centre + budget / 2)
  else (start, end_).

(** The ranges of samples a turn is embedded from. *)
Definition embed_ranges (sr len : Z) (t : SpeakerTurn) : list (Z * Z) :=
  let start := turn_start sr t in
  let end_ := turn_end sr len t in
  if end_ <=? start then []
  else
    let '(start, end_) := within_budget sr (start, end_) in
    bfilter (fun r => fst r <? snd r) (split_evenly start end_ (as_usize (Z.quot (MAX_EMBED_MS * sr) 1000))).

(** The end of a voice: its mean, on the unit sphere; nothing without weight. *)
Definition mean_voice (acc : list f32 * f32) : option (list f32) :=
  let '(sum, weight) := acc in
  if fleb weight fzero then None else Some (normalize_vector (map (fun x => fdiv x weight) sum)).

Section voices.
Context `{Extractor}.

Definition embed_range (samples : list f32) (sr local_idx : Z) (acc : gmap Z (list f32 * f32)) (r : Z * Z)
    : gmap Z (list f32 * f32) :=
  match voice_of (extract sr (between samples (fst r) (snd r))) with
  | Some emb => accumulate acc local_idx emb (fdiv (of_Z (snd r - fst r)) (of_Z sr))
  | None => acc
  end.

Definition embed_turn (samples : list f32) (sr : Z) (acc : gmap Z (list f32 * f32)) (t : SpeakerTurn)
    : gmap Z (list f32 * f32) :=
  foldl (embed_range samples sr (st_local_idx t)) acc (embed_ranges sr (Z.of_nat (length samples)) t).

Definition compute_speaker_embeddings (samples : list f32) (sr : Z) (turns : list SpeakerTurn) : gmap Z (list f32) :=
  omap mean_voice (foldl (embed_turn samples sr) ∅ turns).
End voices.

(** ** Seconds *)

(** [x.round() as i64] of an [f64]: half away from zero, clamped, zero for NaN. *)
Definition round_as_i64 (x : spec_float) : Z :=
  match x with
  | S754_finite s m e =>
      let mag := if 0 <=? e then Zpos m * 2 ^ e else (2 * Zpos m + 2 ^ (- e)) / (2 * 2 ^ (- e)) in
      Z.max (- 2 ^ 63) (Z.min (if s then - mag else mag) i64_max)
  | S754_infinity s => if s then - 2 ^ 63 else i64_max
  | _ => 0
  end.

(** [(s as f64 * 1000.0).round() as i64]: an [f32] is itself as an [f64]. *)
Definition sec_to_ms (s : f32) : Z := round_as_i64 (SFmul 53 1024 s (f64_of_Z 1000)).
