(* ===== verification/SplitProps.v ===== *)
(** * What the cutting of the audio keeps

    The pieces of a turn tile it, are cut only in the middle of long pauses, and
    are no slivers; even pieces tile their range within the limit; and no more
    audio than the model takes reaches the extractor, whatever the turns say. *)

From Stdlib Require Import SpecFloat Bool String.
From S2P Require Import Prelude RustStr Types F32 Identity IdentityProps Wav Speech Cluster ClusterProps Split.

(** ** Pauses *)

(** A maximal run of quiet frames: from [a], before [b]. *)
Definition quiet_run (quiet : list bool) (a b : nat) : Prop :=
  (a < b)%nat /\ (forall k, (a <= k < b)%nat -> quiet !! k = Some true) /\
  (a = 0%nat \/ quiet !! (a - 1)%nat = Some false) /\ quiet !! b <> Some true.

(** What the scan knows at frame [i]. *)
Definition scan_state (all : list bool) (i : nat) (run_start : option nat) : Prop :=
  match run_start with
  | Some f => (f < i)%nat /\ (forall k, (f <= k < i)%nat -> all !! k = Some true) /\
      (f = 0%nat \/ all !! (f - 1)%nat = Some false)
  | None => i = 0%nat \/ all !! (i - 1)%nat = Some false
  end.

Lemma quiet_run_unique all a b a' b' i :
  quiet_run all a b -> quiet_run all a' b' -> (a <= i < b)%nat -> (a' <= i < b')%nat -> a = a' /\ b = b'.
Proof.
  intros (H1 & Hin & Hs & He) (H1' & Hin' & Hs' & He') Hi Hi'. split.
  - destruct (lt_eq_lt_dec a a') as [[Hl|?]|Hl]; [|done|].
    + destruct Hs' as [->|Hs']; [lia|]. rewrite Hin in Hs' by lia. done.
    + destruct Hs as [->|Hs]; [lia|]. rewrite Hin' in Hs by lia. done.
  - destruct (lt_eq_lt_dec b b') as [[Hl|?]|Hl]; [|done|].
    + exfalso. apply He, Hin'. lia.
    + exfalso. apply He', Hin. lia.
Qed.

(** When a frame is not quiet, the run before it, if any, has ended there. *)
Lemma end_run_spec min_run all i run_start m :
  (0 < min_run)%nat -> scan_state all i run_start -> all !! i <> Some true ->
  m ∈ end_run min_run run_start i <->
  exists a, quiet_run all a i /\ (min_run <= i - a)%nat /\ m = (a + (i - a) / 2)%nat.
Proof.
  intros Hmr Hst Hi. destruct run_start as [f|]; cbn [end_run scan_state] in *.
  - destruct Hst as (Hf & Hin & Hs).
    assert (Hrun : quiet_run all f i) by (split; [done|]; split; [done|]; by split).
    destruct (min_run <=? i - f)%nat eqn:E; [apply Nat.leb_le in E|apply Nat.leb_gt in E].
    + rewrite list_elem_of_singleton. split; [intros ->; by exists f|]. intros (a & Ha & _ & ->).
      destruct (quiet_run_unique all a i f i (i - 1) Ha Hrun) as [-> _]; [destruct Ha; lia|lia|done].
    + split; [by intros ?%elem_of_nil|]. intros (a & Ha & Hle & _).
      destruct (quiet_run_unique all a i f i (i - 1) Ha Hrun) as [-> _]; [destruct Ha; lia|lia|lia].
  - split; [by intros ?%elem_of_nil|]. intros (a & (Ha & Hin & _ & _) & _ & _). destruct Hst as [->|Hst]; [lia|].
    rewrite Hin in Hst by lia. done.
Qed.

Lemma pause_frames_scan min_run all i run_start m :
  (0 < min_run)%nat -> scan_state all i run_start ->
  m ∈ pause_frames min_run i (drop i all) run_start <->
  exists a b, quiet_run all a b /\ (i <= b)%nat /\ (min_run <= b - a)%nat /\ m = (a + (b - a) / 2)%nat.
Proof.
  intros Hmr. remember (drop i all) as quiet eqn:Hq. revert i run_start Hq.
  induction quiet as [|q quiet IH]; intros i rs Hq Hst; cbn [pause_frames].
  - assert (Hlen : (length all <= i)%nat).
    { pose proof (length_drop all i) as Hl. rewrite <- Hq in Hl. cbn in Hl. lia. }
    rewrite (end_run_spec min_run all) by (try done; by rewrite lookup_ge_None_2).
    split; [intros (a & Ha & Hle & ->); exists a, i; eauto|]. intros (a & b & Hr & Hib & Hle & ->).
    enough (b = i) as -> by eauto. pose proof Hr as (Hab & Hin & _). specialize (Hin (b - 1)%nat ltac:(lia)).
    apply lookup_lt_Some in Hin. lia.
  - assert (Hi : all !! i = Some q).
    { rewrite <- (Nat.add_0_r i), <- lookup_drop, <- Hq. done. }
    assert (Hq' : quiet = drop (S i) all).
    { rewrite <- Nat.add_1_r, <- drop_drop, <- Hq. done. }
    destruct q.
    + rewrite IH; [|done|].
      * split; intros (a & b & Hr & Hb & Hrest); exists a, b; (split; [done|]); (split; [|done]); [lia|].
        destruct (decide (b = i)) as [->|]; [|lia]. by destruct Hr as (_ & _ & _ & He).
      * destruct rs as [f|]; cbn [default id scan_state] in *.
        -- destruct Hst as (Hf & Hin & Hs). split; [lia|]. split; [|done]. intros k Hk.
           destruct (decide (k = i)) as [->|]; [done|]. apply Hin. lia.
        -- split; [lia|]. split; [|done]. intros k Hk. by replace k with i by lia.
    + rewrite elem_of_app, (end_run_spec min_run all), IH; [|done| |done|done|congruence].
      * split.
        -- intros [(a & Ha & Hle & ->)|(a & b & Hr & Hb & Hrest)]; [exists a, i; eauto|]. exists a, b. split; [done|]. split; [lia|done].
        -- intros (a & b & Hr & Hb & Hle & ->). destruct (decide (b = i)) as [->|]; [left; eauto|]. right.
           exists a, b. split; [done|]. split; [lia|done].
      * cbn [scan_state]. right. by replace (S i - 1)%nat with i by lia.
Qed.

(** A frame is a candidate cut exactly when it is the middle of a maximal run
    of quiet frames that is long enough. *)
Lemma pause_frames_spec min_run quiet m :
  (0 < min_run)%nat ->
  m ∈ pause_frames min_run 0 quiet None <->
  exists a b, quiet_run quiet a b /\ (min_run <= b - a)%nat /\ m = (a + (b - a) / 2)%nat.
Proof.
  intros Hmr. rewrite <- (drop_0 quiet) at 1. rewrite pause_frames_scan by (try done; by left).
  split; intros (a & b & Hr & Hrest); exists a, b; (split; [done|]); [by destruct Hrest as (_ & ?)|].
  split; [lia|done].
Qed.

(** ** No slivers *)

Fixpoint spaced (min_piece last : Z) (cuts : list Z) : Prop :=
  match cuts with
  | [] => True
  | c :: cuts' => min_piece <= c - last /\ spaced min_piece c cuts'
  end.

Lemma keep_cuts_spaced min_piece last cuts : spaced min_piece last (keep_cuts min_piece last cuts).
Proof.
  revert last. induction cuts as [|c cuts IH]; intros last; cbn; [done|].
  destruct (min_piece <=? c - last) eqn:E; [|apply IH]. bool_to_prop. by split.
Qed.

Lemma keep_cuts_elem min_piece last cuts c : c ∈ keep_cuts min_piece last cuts -> c ∈ cuts.
Proof.
  revert last. induction cuts as [|d cuts IH]; intros last; cbn; [done|].
  destruct (_ <=? _); [|intros H; right; by eapply IH]. intros [->|H]%elem_of_cons; [left|right; by eapply IH].
Qed.

Lemma spaced_prefix min_piece last l1 l2 : spaced min_piece last (l1 ++ l2) -> spaced min_piece last l1.
Proof. revert last. induction l1 as [|c l1 IH]; intros last; cbn; [done|]. intros [? ?]. split; [done|by apply IH]. Qed.

Lemma spaced_last min_piece start_ms cuts d :
  0 < min_piece -> spaced min_piece start_ms cuts -> last cuts = Some d -> start_ms < d.
Proof.
  intros Hmp. revert start_ms. induction cuts as [|x l IH]; intros s Hsp Hd; [done|].
  destruct Hsp as [Hx Hsp]. destruct l as [|y l]; [injection Hd as <-; lia|].
  rewrite last_cons_cons in Hd. specialize (IH x Hsp Hd). lia.
Qed.

Lemma pop_cuts_suffix min_piece end_ms l : exists l1, l = l1 ++ pop_cuts min_piece end_ms l.
Proof.
  induction l as [|c l [l1 IH]]; [by exists []|]. cbn. destruct (_ <? _); [|by exists []].
  exists (c :: l1). cbn. by rewrite <- IH.
Qed.

Lemma pop_cuts_head min_piece end_ms l c l' : pop_cuts min_piece end_ms l = c :: l' -> min_piece <= end_ms - c.
Proof. induction l as [|d l IH]; [done|]. cbn. destruct (_ <? _) eqn:E; [done|]. bool_to_prop. by intros [= <- <-]. Qed.

(** The cuts that are kept: spaced, and with no sliver at the end. *)
Lemma kept_spec min_piece start_ms end_ms cuts :
  let kept := reverse (pop_cuts min_piece end_ms (reverse (keep_cuts min_piece start_ms cuts))) in
  spaced min_piece start_ms kept /\ (forall c, last kept = Some c -> min_piece <= end_ms - c) /\
  (forall c, c ∈ kept -> c ∈ cuts).
Proof.
  intros kept. set (k := keep_cuts min_piece start_ms cuts) in *.
  destruct (pop_cuts_suffix min_piece end_ms (reverse k)) as [l1 Hl].
  assert (Hk : k = kept ++ reverse l1) by (unfold kept; rewrite <- reverse_app, <- Hl, reverse_involutive; done).
  split; [eapply spaced_prefix; rewrite <- Hk; apply keep_cuts_spaced|]. split.
  - intros c. unfold kept. rewrite last_reverse. intros Hh.
    destruct (pop_cuts min_piece end_ms (reverse k)) as [|d l'] eqn:E; [done|]. injection Hh as ->.
    by eapply pop_cuts_head.
  - intros c Hc. apply (keep_cuts_elem min_piece start_ms). fold k. rewrite Hk. set_solver.
Qed.

(** ** Pieces of a turn *)

(** Pieces that tile an interval, none of them empty. *)
Fixpoint tiled (a b : Z) (ps : list (Z * Z)) : Prop :=
  match ps with
  | [] => a = b
  | p :: ps' => fst p = a /\ a < snd p /\ tiled (snd p) b ps'
  end.

Lemma pieces_from_spec min_piece start_ms end_ms cuts :
  0 < min_piece -> spaced min_piece start_ms cuts ->
  (forall c, last cuts = Some c -> min_piece <= end_ms - c) -> (cuts = [] -> start_ms < end_ms) ->
  let ps := pieces_from start_ms end_ms cuts in
  tiled start_ms end_ms ps /\ map snd ps = cuts ++ [end_ms] /\
  (cuts <> [] -> Forall (fun p => min_piece <= snd p - fst p) ps).
Proof.
  intros Hmp. revert start_ms. induction cuts as [|c cuts IH]; intros s Hsp Hlast Hne; cbn.
  - split; [|by split]. by specialize (Hne eq_refl).
  - destruct Hsp as [Hc Hsp]. rewrite (proj2 (Z.ltb_lt s c)) by lia.
    destruct (IH c Hsp) as (Ht & Hm & Hl).
    { intros d Hd. apply Hlast. destruct cuts; [done|]. by rewrite last_cons_cons. }
    { intros ->. specialize (Hlast c eq_refl). lia. }
    cbn [tiled map fst snd]. split; [split; [done|]; split; [lia|done]|]. split; [by rewrite Hm|].
    intros _. constructor; [done|]. destruct cuts as [|d cuts]; [|by apply Hl].
    specialize (Hlast c eq_refl). cbn. repeat constructor. cbn. lia.
Qed.

Section pieces.
Context `{EnvVar} `{EnvF32} `{Powf}.

(** The frames of a turn's audio. *)
Definition turn_energies (samples : list f32) (sr : Z) (t : SpeakerTurn) : list f32 :=
  map frame_energy (chunks (silence_frame sr) (between samples (turn_start sr t) (turn_end sr (Z.of_nat (length samples)) t))).

(** [c] is in the middle of a pause of the turn: of a longest run of frames
    none of which is louder than the threshold, long enough to be a handover. *)
Definition pause_at (samples : list f32) (sr : Z) (t : SpeakerTurn) (c : Z) : Prop :=
  exists a b, quiet_run (map (fun e => fleb e (quiet_threshold (turn_energies samples sr t))) (turn_energies samples sr t)) a b /\
    Z.max (Z.quot min_split_silence_ms SILENCE_FRAME_MS) 1 <= Z.of_nat (b - a) /\
    c = st_start_ms t + Z.of_nat (a + (b - a) / 2) * SILENCE_FRAME_MS.

(** The pieces a turn is to be cut into. *)
Definition cut_of (samples : list f32) (sr : Z) (t : SpeakerTurn) (ps : list (Z * Z)) : Prop :=
  if st_start_ms t <? st_end_ms t then
    tiled (st_start_ms t) (st_end_ms t) ps /\
    (forall p, p ∈ ps -> snd p = st_end_ms t \/ pause_at samples sr t (snd p)) /\
    ((1 < length ps)%nat -> Forall (fun p => min_piece_ms <= snd p - fst p) ps)
  else ps = [].

Lemma pause_cuts_spec samples sr t c :
  c ∈ pause_cuts (st_start_ms t) (turn_energies samples sr t) -> pause_at samples sr t c.
Proof.
  unfold pause_cuts, pause_at. intros (m & -> & Hm)%list_elem_of_fmap.
  apply pause_frames_spec in Hm as (a & b & Hr & Hle & ->); [|unfold min_run; lia].
  exists a, b. split; [done|]. split; [unfold min_run in Hle; lia|done].
Qed.

Lemma tiled_nonempty a b ps : tiled a b ps -> Forall (fun p => fst p < snd p) ps.
Proof. revert a. induction ps as [|p ps IH]; intros a; [done|]. intros (<- & ? & Ht). constructor; [done|by eapply IH]. Qed.

Lemma turn_pieces_spec samples sr t :
  0 < min_piece_ms -> cut_of samples sr t (bfilter (fun p => fst p <? snd p) (turn_pieces samples sr t)).
Proof.
  intros Hmp. unfold cut_of, turn_pieces. fold (turn_energies samples sr t).
  set (s := st_start_ms t). set (e := st_end_ms t).
  destruct ((turn_end _ _ _ <=? _) || _).
  - unfold bfilter. cbn [List.filter fst snd]. destruct (s <? e) eqn:E; [|done].
    bool_to_prop. split; [by repeat split|]. split; [|cbn; lia]. intros p ->%list_elem_of_singleton. by left.
  - destruct (kept_spec min_piece_ms s e (pause_cuts s (turn_energies samples sr t))) as (Hsp & Hlast & Hin).
    set (kept := reverse _) in *. destruct (s <? e) eqn:E; bool_to_prop.
    + destruct (pieces_from_spec min_piece_ms s e kept Hmp Hsp Hlast) as (Ht & Hm & Hl); [done|].
      rewrite bfilter_all; [|intros p Hp; apply Z.ltb_lt; pose proof (tiled_nonempty _ _ _ Ht) as Hall;
        rewrite Forall_forall in Hall; by apply Hall].
      split; [done|]. split.
      * intros p Hp. assert (Hs : snd p ∈ kept ++ [e]) by (rewrite <- Hm; apply list_elem_of_fmap; eauto).
        apply elem_of_app in Hs as [Hs|Hs%list_elem_of_singleton]; [right|by left].
        apply pause_cuts_spec. by apply Hin.
      * intros Hlen. apply Hl. intros Hk. rewrite Hk in Hlen. cbn in Hlen. lia.
    + assert (Hnil : kept = []).
      { destruct (last kept) as [d|] eqn:Ed; [|by apply last_None in Ed]. specialize (Hlast d eq_refl).
        pose proof (spaced_last _ _ _ _ Hmp Hsp Ed). lia. }
      rewrite Hnil. unfold bfilter. cbn. by rewrite (proj2 (Z.ltb_ge s e)) by lia.
Qed.

(** One turn's pieces, whatever their numbers. *)
Lemma split_turns_one t samples sr :
  0 < min_piece_ms -> exists ps, cut_of samples sr t ps /\
    map (fun t => (st_start_ms t, st_end_ms t)) (split_turns_at_silence [t] samples sr) = ps.
Proof.
  intros Hmp. exists (bfilter (fun p => fst p <? snd p) (turn_pieces samples sr t)). split; [by apply turn_pieces_spec|].
  unfold split_turns_at_silence. cbn [flat_map]. rewrite app_nil_r.
  rewrite (map_imap _ _ (fun p => p)) by (by intros ? []). by rewrite map_id.
Qed.

(** Over-segmentation is repairable, so the cutting loses nothing.  The
    pieces of all turns are numbered from zero in order; those of one turn tile
    it from its start to its end without overlap; two pieces meet only in the
    middle of a pause, a longest run of frames at or below the threshold that
    lasts at least the split silence; no piece of a turn that was cut is
    shorter than the least piece; and a turn of no length gives none. *)
Theorem split_turns_spec turns samples sr :
  0 < min_piece_ms ->
  exists groups, Forall2 (cut_of samples sr) turns groups /\
    map (fun t => (st_start_ms t, st_end_ms t)) (split_turns_at_silence turns samples sr) = concat groups /\
    map st_local_idx (split_turns_at_silence turns samples sr) =
      seqZ 0 (Z.of_nat (length (split_turns_at_silence turns samples sr))).
Proof.
  intros Hmp. exists (map (fun t => bfilter (fun p => fst p <? snd p) (turn_pieces samples sr t)) turns).
  unfold split_turns_at_silence. set (ps := bfilter _ (flat_map _ _)). split; [|split].
  - apply Forall2_fmap_r, Forall_Forall2_diag, Forall_true. intros t. by apply turn_pieces_spec.
  - rewrite (map_imap _ _ (fun p => p)) by (by intros ? []). rewrite map_id. unfold ps.
    clear ps. induction turns as [|t turns IH]; [done|]. cbn [flat_map map concat]. by rewrite bfilter_app, IH.
  - rewrite length_imap. assert (Hgen : forall l k, map st_local_idx (imap (fun j p => mkSpeakerTurn (Z.of_nat (k + j)) (fst p) (snd p)) l)
      = seqZ (Z.of_nat k) (Z.of_nat (length l))).
    { intros l. induction l as [|p l IH]; intros k; [done|]. rewrite imap_cons. cbn [map length].
      rewrite Nat2Z.inj_succ, seqZ_cons by lia. cbn [st_local_idx]. f_equal; [lia|].
      rewrite Z.pred_succ, <- Nat2Z.inj_succ, <- IH. f_equal. apply imap_ext. intros j q _. cbn. do 2 f_equal. lia. }
    exact (Hgen ps 0%nat).
Qed.
End pieces.

(** *** Witness: a pause of 200 ms between two stretches of 900 ms *)

Definition no_powf : Powf := fun _ _ => fzero.
Definition two_stretches : list f32 := repeat one 90 ++ repeat fzero 20 ++ repeat one 90.
#[local] Existing Instances IdentityProps.no_overrides ClusterProps.no_env no_powf.

Lemma split_turns_spec_witness :
  split_turns_at_silence [mkSpeakerTurn 7 0 2000; mkSpeakerTurn 7 300 300] two_stretches 100 =
    [mkSpeakerTurn 0 0 1000; mkSpeakerTurn 1 1000 2000] /\
  exists groups, Forall2 (cut_of two_stretches 100) [mkSpeakerTurn 7 0 2000; mkSpeakerTurn 7 300 300] groups /\
    map (fun t => (st_start_ms t, st_end_ms t))
      (split_turns_at_silence [mkSpeakerTurn 7 0 2000; mkSpeakerTurn 7 300 300] two_stretches 100) = concat groups.
Proof.
  split; [vm_compute; reflexivity|].
  destruct (split_turns_spec [mkSpeakerTurn 7 0 2000; mkSpeakerTurn 7 300 300] two_stretches 100) as (groups & Hg & Hm & _).
  - vm_compute. reflexivity.
  - exists groups. split; [exact Hg|exact Hm].
Defined.

(** ** Even pieces *)

Lemma div_sum a b n : 0 < n -> a / n + b / n <= (a + b) / n <= a / n + b / n + 1.
Proof.
  intros Hn. pose proof (Z.div_mod a n) as Ha. pose proof (Z.div_mod b n) as Hb.
  pose proof (Z.mod_pos_bound a n Hn). pose proof (Z.mod_pos_bound b n Hn).
  split; [apply Z.div_le_lower_bound; nia|]. enough ((a + b) / n < a / n + b / n + 2) by lia.
  apply Z.div_lt_upper_bound; nia.
Qed.

Lemma even_tiled start len n :
  0 < n <= len ->
  tiled start (start + len) (map (fun i => (start + len * i / n, start + len * (i + 1) / n)) (seqZ 0 n)).
Proof.
  intros Hn. assert (Hstep : forall i, len * i / n < len * (i + 1) / n).
  { intros i. replace (len * (i + 1)) with (len * i + len) by lia. pose proof (div_sum (len * i) len n).
    assert (1 <= len / n) by (apply Z.div_le_lower_bound; lia). lia. }
  assert (Hgen : forall k m, 0 <= m -> m + Z.of_nat k = n -> tiled (start + len * m / n) (start + len)
    (map (fun i => (start + len * i / n, start + len * (i + 1) / n)) (seqZ m (Z.of_nat k)))).
  { induction k as [|k IH]; intros m Hm Hk.
    - cbn. replace m with n by lia. by rewrite Z.div_mul by lia.
    - rewrite seqZ_cons by lia. cbn [map tiled fst snd]. split; [done|]. split; [specialize (Hstep m); lia|].
      replace (Z.pred (Z.of_nat (S k))) with (Z.of_nat k) by lia. rewrite <- Z.add_1_r. apply IH; lia. }
  specialize (Hgen (Z.to_nat n) 0). rewrite Z2Nat.id in Hgen by lia. rewrite Z.mul_0_r, Z.div_0_l, Z.add_0_r in Hgen by lia.
  apply Hgen; lia.
Qed.

(** No slice reaches the model's length limit, and none is wasted.  The
    even pieces of a range follow one another from its start to its end, there
    are as few as the limit allows, none is longer than the limit, and any two
    differ in length by at most one sample. *)
Theorem split_evenly_spec start end_ max_len :
  start < end_ -> 0 < max_len ->
  let ps := split_evenly start end_ max_len in
  tiled start end_ ps /\ Forall (fun p => snd p - fst p <= max_len) ps /\
  (Z.of_nat (length ps) - 1) * max_len < end_ - start <= Z.of_nat (length ps) * max_len /\
  (forall p q, p ∈ ps -> q ∈ ps -> Z.abs ((snd p - fst p) - (snd q - fst q)) <= 1).
Proof.
  intros Hlt Hmax. unfold split_evenly.
  rewrite (proj2 (Z.leb_gt end_ start)), (proj2 (Z.eqb_neq max_len 0)) by lia. cbn [orb].
  set (len := end_ - start). set (n := (len + (max_len - 1)) / max_len). cbn zeta.
  assert (Hn : 0 < n /\ (n - 1) * max_len < len <= n * max_len) by (unfold n, len; divlia).
  assert (Hlen : Z.of_nat (length (map (fun i => (start + len * i / n, start + len * (i + 1) / n)) (seqZ 0 n))) = n).
  { rewrite length_map, length_seqZ. lia. }
  assert (Hnl : n <= len) by nia.
  assert (Hstep : forall i, len / n <= len * (i + 1) / n - len * i / n <= len / n + 1).
  { intros i. replace (len * (i + 1)) with (len * i + len) by lia. pose proof (div_sum (len * i) len n). lia. }
  assert (Hpos : 1 <= len / n) by (apply Z.div_le_lower_bound; lia).
  assert (Hup : forall i, len * (i + 1) / n - len * i / n <= max_len).
  { intros i. specialize (Hstep i). destruct (Z.eq_dec len (n * max_len)) as [He|].
    - rewrite He. replace (n * max_len * (i + 1)) with (max_len * (i + 1) * n) by lia.
      replace (n * max_len * i) with (max_len * i * n) by lia. rewrite !Z.div_mul by lia. lia.
    - assert (len / n < max_len); [apply Z.div_lt_upper_bound; lia|lia]. }
  split; [|split; [|split]].
  - replace end_ with (start + len) by (unfold len; lia). apply even_tiled. lia.
  - apply Forall_map, Forall_forall. intros i _. cbn. specialize (Hup i). lia.
  - rewrite Hlen. lia.
  - intros p q (i & -> & _)%list_elem_of_fmap (j & -> & _)%list_elem_of_fmap. cbn.
    pose proof (Hstep i). pose proof (Hstep j). lia.
Qed.

Lemma split_evenly_spec_witness :
  split_evenly 10 80 30 = [(10, 33); (33, 56); (56, 80)] /\ tiled 10 80 (split_evenly 10 80 30).
Proof. split; [reflexivity|]. destruct (split_evenly_spec 10 80 30) as [Ht _]; [lia|lia|exact Ht]. Defined.

(** ** What reaches the extractor *)

Lemma tiled_bounds a b ps : tiled a b ps ->
  a <= b /\ Forall (fun p => a <= fst p < snd p /\ snd p <= b) ps /\ zsum (map (fun p => snd p - fst p) ps) = b - a.
Proof.
  revert a. induction ps as [|p ps IH]; intros a; cbn; [intros ->; split; [lia|]; split; [done|lia]|].
  intros (<- & Hlt & Ht). destruct (IH _ Ht) as (Hle & Hall & Hsum). unfold zsum in *. split; [lia|]. split; [|lia].
  constructor; [lia|]. eapply Forall_impl; [exact Hall|]. cbn. lia.
Qed.

Lemma seconds_as_usize k sr : 0 <= k <= 60 -> 0 < sr < 2 ^ 32 -> as_usize (Z.quot (k * 1000 * sr) 1000) = k * sr.
Proof.
  intros Hk Hsr. replace (k * 1000 * sr) with (k * sr * 1000) by lia. rewrite Z.quot_mul by lia.
  apply wrap_small. unfold in_u. nia.
Qed.

Lemma as_usize_nonneg z : 0 <= as_usize z.
Proof. unfold as_usize, wrap. apply Z.mod_pos_bound. done. Qed.

Lemma embed_ranges_spec sr len t :
  0 < sr < 2 ^ 32 -> 0 <= len ->
  Forall (fun r => 0 <= fst r < snd r /\ snd r <= len /\ snd r - fst r <= 30 * sr) (embed_ranges sr len t) /\
  zsum (map (fun r => snd r - fst r) (embed_ranges sr len t)) <= 60 * sr.
Proof.
  intros Hsr Hlen. unfold embed_ranges.
  pose proof (as_usize_nonneg (Z.quot (Z.max (st_start_ms t) 0 * sr) 1000)) as Hs0. fold (turn_start sr t) in Hs0.
  assert (He0 : turn_end sr len t <= len) by (unfold turn_end; lia).
  destruct (turn_end sr len t <=? turn_start sr t) eqn:E; [split; [done|cbn; lia]|]. bool_to_prop.
  unfold within_budget. change EMBED_BUDGET_MS with (60 * 1000). change MAX_EMBED_MS with (30 * 1000).
  rewrite !seconds_as_usize by lia. set (a := turn_start sr t) in *. set (b := turn_end sr len t) in *. clearbody a b.
  destruct (60 * sr <? b - a) eqn:Eb; bool_to_prop; cbn zeta.
  - set (c := a + (b - a) / 2). assert (Hc : a + 30 * sr <= c /\ c + 30 * sr <= b) by (unfold c; divlia).
    replace (60 * sr / 2) with (30 * sr) by (replace (60 * sr) with (30 * sr * 2) by lia; by rewrite Z.div_mul).
    destruct (split_evenly_spec (c - 30 * sr) (c + 30 * sr) (30 * sr)) as (Ht & Hmax & _); [lia..|].
    rewrite bfilter_all by (intros p Hp; apply Z.ltb_lt; pose proof (tiled_nonempty _ _ _ Ht) as Hall;
      rewrite Forall_forall in Hall; by apply Hall).
    destruct (tiled_bounds _ _ _ Ht) as (_ & Hall & ->). split; [|lia].
    rewrite Forall_forall in *. intros p Hp. specialize (Hall p Hp). specialize (Hmax p Hp). cbn in *. lia.
  - destruct (split_evenly_spec a b (30 * sr)) as (Ht & Hmax & _); [lia..|].
    rewrite bfilter_all by (intros p Hp; apply Z.ltb_lt; pose proof (tiled_nonempty _ _ _ Ht) as Hall;
      rewrite Forall_forall in Hall; by apply Hall).
    destruct (tiled_bounds _ _ _ Ht) as (_ & Hall & ->). split; [|lia].
    rewrite Forall_forall in *. intros p Hp. specialize (Hall p Hp). specialize (Hmax p Hp). cbn in *. lia.
Qed.

Lemma between_length {A} (l : list A) a b : 0 <= a <= b -> b <= Z.of_nat (length l) -> Z.of_nat (length (between l a b)) = b - a.
Proof. intros Ha Hb. unfold between. rewrite length_take, length_drop. lia. Qed.

Lemma foldl_ext_elem {A B} (f g : A -> B -> A) l a :
  (forall a x, x ∈ l -> f a x = g a x) -> foldl f a l = foldl g a l.
Proof.
  revert a. induction l as [|x l IH]; intros a Hfg; [done|]. cbn. rewrite Hfg by left.
  apply IH. intros; apply Hfg; by right.
Qed.

Lemma compute_speaker_embeddings_ext (ex1 ex2 : Extractor) samples sr turns :
  0 < sr < 2 ^ 32 ->
  (forall l, Z.of_nat (length l) <= 30 * sr -> @extract ex1 sr l = @extract ex2 sr l) ->
  @compute_speaker_embeddings ex1 samples sr turns = @compute_speaker_embeddings ex2 samples sr turns.
Proof.
  intros Hsr Hex. unfold compute_speaker_embeddings. f_equal. apply foldl_ext_elem. intros acc t _. unfold embed_turn.
  destruct (embed_ranges_spec sr (Z.of_nat (length samples)) t Hsr) as [Hall _]; [lia|].
  rewrite Forall_forall in Hall. apply foldl_ext_elem. intros acc' r Hr. unfold embed_range. rewrite Hex; [done|].
  specialize (Hall r Hr). rewrite between_length; lia.
Qed.

Lemma compute_speaker_embeddings_keys (ex : Extractor) samples sr turns k v :
  compute_speaker_embeddings samples sr turns !! k = Some v -> k ∈ map st_local_idx turns.
Proof.
  intros Hk. unfold compute_speaker_embeddings in Hk. rewrite lookup_omap in Hk.
  assert (Hin : is_Some (foldl (embed_turn samples sr) ∅ turns !! k)).
  { destruct (foldl (embed_turn samples sr) ∅ turns !! k); [eauto|done]. }
  clear v Hk. induction turns as [|t turns IH] using rev_ind; [by destruct Hin|].
  rewrite foldl_snoc in Hin. rewrite map_app, elem_of_app. cbn.
  destruct (decide (k = st_local_idx t)) as [->|Hne]; [right; by left|]. left. apply IH. clear IH.
  unfold embed_turn at 1 in Hin. revert Hin. generalize (foldl (embed_turn samples sr) ∅ turns) as acc.
  induction (embed_ranges sr (Z.of_nat (length samples)) t) as [|r rs IH] using rev_ind; intros acc; [done|].
  rewrite foldl_snoc. unfold embed_range at 1. destruct (voice_of _); [|apply IH].
  rewrite accumulate_keys. intros [?|?]; [done|by apply IH].
Qed.

(** The extractor is never handed what would abort the process.  Every
    slice an embedding is computed of lies in the samples and is at most thirty
    seconds long, and a turn hands over at most sixty seconds, whatever its
    times are; so two extractors that agree on slices of at most thirty seconds
    give the same voices, however they behave on longer ones.  A voice belongs
    to one of the turns. *)
Theorem embeddings_bounded (ex1 ex2 : Extractor) samples sr turns :
  0 < sr < 2 ^ 32 ->
  (forall l, Z.of_nat (length l) <= 30 * sr -> @extract ex1 sr l = @extract ex2 sr l) ->
  @compute_speaker_embeddings ex1 samples sr turns = @compute_speaker_embeddings ex2 samples sr turns /\
  Forall (fun t => zsum (map (fun r => snd r - fst r) (embed_ranges sr (Z.of_nat (length samples)) t)) <= 60 * sr) turns /\
  (forall k v, @compute_speaker_embeddings ex1 samples sr turns !! k = Some v -> k ∈ map st_local_idx turns).
Proof.
  intros Hsr Hex. split; [|split].
  - by apply compute_speaker_embeddings_ext.
  - apply Forall_true. intros t. apply embed_ranges_spec; [done|lia].
  - intros k v. apply compute_speaker_embeddings_keys.
Qed.

(** *** Witness: an extractor that fails on long slices is as good as any *)

Definition loud_only : Extractor := fun _ l => match l with x :: _ => Voice [x] | [] => NotReady end.
Definition bounded_only : Extractor := fun sr l => if Z.of_nat (length l) <=? 30 * sr then loud_only sr l else NoResult.

Lemma embeddings_bounded_witness :
  @compute_speaker_embeddings bounded_only (repeat one 200) 2 [mkSpeakerTurn 3 0 90000] = {[3 := [one]]} /\
  @compute_speaker_embeddings bounded_only (repeat one 200) 2 [mkSpeakerTurn 3 0 90000] =
    @compute_speaker_embeddings loud_only (repeat one 200) 2 [mkSpeakerTurn 3 0 90000].
Proof.
  split; [vm_compute; reflexivity|].
  refine (proj1 (embeddings_bounded bounded_only loud_only (repeat one 200) 2 [mkSpeakerTurn 3 0 90000] _ _)); [done|].
  intros l Hl. unfold extract, bounded_only. by rewrite (proj2 (Z.leb_le _ _) Hl).
Defined.
