(* ===== verification/Diarize.v ===== *)
(** * Who spoke when: [SherpaDiarizer] of [crates/scribe-asr/src/real/diarize.rs]

    The recording is diarized a window at a time, each window's turns are cut at
    pauses and embedded, and the pieces of all windows are clustered at once.
    The sherpa-onnx models are parameters, as are the files of the experiment
    hook that caches the first pass.  A division by zero is a panic: [None]. *)

From Stdlib Require Import SpecFloat Bool String.
From S2P Require Import Prelude RustStr Types F32 Identity Wav Speech Cluster Split Models.

(** 0.8, 0.3, 0.1 and 0.5 as binary32. *)
Definition CLUSTER_THRESHOLD : f32 := S754_finite false 13421773 (-24).
Definition MIN_DURATION_ON : f32 := S754_finite false 10066330 (-25).
Definition SEG_WINDOW_SHIFT : f32 := S754_finite false 13421773 (-27).
Definition MIN_DURATION_OFF : f32 := S754_finite false 8388608 (-24).
Definition DIARIZE_WINDOW_MS : Z := 10 * 60 * 1000.

(** ** The engine *)

(** A path and its [Display]; [to_str] is [None] where it is not UTF-8. *)
Class Paths := { to_str : string -> option string; display : string -> string }.

Record ExtractorConfig := mkExtractorConfig { ec_model : string; ec_num_threads : Z; ec_provider : string }.

Record DiarizationConfig := mkDiarizationConfig {
  dc_segmentation : string; dc_window_shift_ratio : f32; dc_embedding : string;
  dc_num_threads : Z; dc_provider : string;
  dc_num_clusters : Z; dc_threshold : f32; dc_compute_confidence : bool;
  dc_min_duration_on : f32; dc_min_duration_off : f32;
}.

(** A segment of a result, in seconds; [process] gives them by start time. *)
Record Segment := mkSegment { sg_start : f32; sg_end : f32; sg_speaker : Z }.

Class Process := process : list f32 -> option (list Segment).

(** The constructors of sherpa-onnx, which fail with a null pointer. *)
Class Sherpa := {
  create_diarization : DiarizationConfig -> option Process;
  create_extractor : ExtractorConfig -> option Extractor;
}.

Definition provider_for (device : string) : string :=
  let d := to_ascii_lowercase (trim device) in
  if String.eqb d "cuda" || String.eqb d "gpu" then "cuda"
  else if String.eqb d "coreml" then "coreml" else "cpu".

Definition path_str `{Paths} (p : string) : result Error string :=
  match to_str p with Some s => Ok s | None => Err (Model ("non-UTF-8 model path: " +:+ display p)) end.

Record SherpaDiarizer := mkSherpaDiarizer { sd_paths : DiarizationModelPaths; sd_device : string; sd_num_threads : Z }.

Section build.
Context `{EnvF32} `{Paths} `{Sherpa}.

Definition build_extractor (paths : DiarizationModelPaths) (device : string) (num_threads : Z) : result Error Extractor :=
  match path_str (dp_embedding paths) with
  | Err e => Err e
  | Ok model =>
      match create_extractor (mkExtractorConfig model num_threads (provider_for device)) with
      | Some ex => Ok ex
      | None => Err (Model "failed to create SpeakerEmbeddingExtractor")
      end
  end.

Definition load (paths : DiarizationModelPaths) (device : string) (num_threads : Z) : result Error SherpaDiarizer :=
  match build_extractor paths device num_threads with
  | Err e => Err e
  | Ok _ => Ok (mkSherpaDiarizer paths device num_threads)
  end.

Definition build_diarizer (d : SherpaDiarizer) : result Error Process :=
  match path_str (dp_segmentation (sd_paths d)), path_str (dp_embedding (sd_paths d)) with
  | Err e, _ | Ok _, Err e => Err e
  | Ok segmentation, Ok embedding =>
      let config := mkDiarizationConfig segmentation (env_f32_or "SCRIBE_SEG_SHIFT" SEG_WINDOW_SHIFT) embedding
        (sd_num_threads d) (provider_for (sd_device d))
        (-1) (env_f32_or "SCRIBE_CLUSTER_THRESHOLD" CLUSTER_THRESHOLD) false
        (env_f32_or "SCRIBE_MIN_DURATION_ON" MIN_DURATION_ON) (env_f32_or "SCRIBE_MIN_DURATION_OFF" MIN_DURATION_OFF) in
      match create_diarization config with
      | Some p => Ok p
      | None => Err (Model "failed to create OfflineSpeakerDiarization")
      end
  end.
End build.

(** ** The cache of fragments *)

Record CachedFragment := mkCached {
  cf_turns : list (Z * Z * Z); cf_embedding : option (list f32); cf_speech_ms : Z;
}.

Definition to_cached (f : Fragment) : CachedFragment :=
  mkCached (map (fun t => (st_local_idx t, st_start_ms t, st_end_ms t)) (fr_turns f)) (fr_embedding f) (fr_speech_ms f).
Definition from_cached (c : CachedFragment) : Fragment :=
  mkFragment (map (fun '(local_idx, start_ms, end_ms) => mkSpeakerTurn local_idx start_ms end_ms) (cf_turns c))
    (cf_embedding c) (cf_speech_ms c).

(** The file system and [serde_json] for it. *)
Class FragmentFiles := {
  ff_exists : string -> bool;
  read_to_string : string -> result Error string;
  write_file : string -> string -> result Error unit;
  to_json : list CachedFragment -> result string string;
  from_json : string -> result string (list CachedFragment);
}.

Definition save_fragments `{FragmentFiles} (path : string) (fragments : list Fragment) : result Error unit :=
  match to_json (map to_cached fragments) with
  | Err e => Err (Internal ("fragments: " +:+ e))
  | Ok json => write_file path json
  end.

Definition load_fragments `{FragmentFiles} (path : string) : result Error (list Fragment) :=
  match read_to_string path with
  | Err e => Err e
  | Ok json =>
      match from_json json with
      | Err e => Err (Internal ("fragments: " +:+ e))
      | Ok cached => Ok (map from_cached cached)
      end
  end.

(** ** Windows *)

Definition window_size `{EnvVar} (sr len : Z) : Z :=
  let w := as_usize (Z.quot (env_i64 "SCRIBE_DIARIZE_WINDOW_MS" DIARIZE_WINDOW_MS * sr) 1000) in
  if w =? 0 then Z.max len 1 else w.

(** [while start < audio.samples.len()]; a window has a sample at least. *)
Fixpoint windows_from (fuel : nat) (window len start : Z) : list (Z * Z) :=
  match fuel with
  | O => []
  | S fuel =>
      if start <? len then
        let end_ := Z.min (start + window) len in (start, end_) :: windows_from fuel window len end_
      else []
  end.

Definition windows (window len : Z) : list (Z * Z) := windows_from (Z.to_nat len) window len 0.

Definition local_turn (seg : Segment) : SpeakerTurn :=
  mkSpeakerTurn (sg_speaker seg) (sec_to_ms (sg_start seg)) (sec_to_ms (sg_end seg)).

Section windowed.
Context `{EnvVar} `{EnvF32} `{Powf} `{FragmentFiles}.

(** The fragments of a window: [offset_ms] divides by the sample rate. *)
Definition window_fragments (pr : Process) (ex : Extractor) (samples : list f32) (sr : Z) (w : Z * Z)
    : option (list Fragment) :=
  if sr =? 0 then None
  else
    let offset_ms := Z.quot (fst w * 1000) sr in
    let slice := between samples (fst w) (snd w) in
    match process slice with
    | None => Some []
    | Some segments =>
        let local_turns := map local_turn segments in
        if bool_decide (local_turns = []) then Some []
        else
          let pieces := split_turns_at_silence local_turns slice sr in
          let piece_embs := compute_speaker_embeddings slice sr pieces in
          Some (map (fun piece => mkFragment
              [mkSpeakerTurn (st_local_idx piece) (st_start_ms piece + offset_ms) (st_end_ms piece + offset_ms)]
              (piece_embs !! st_local_idx piece) (Z.max (st_end_ms piece - st_start_ms piece) 0)) pieces)
    end.

(** Pass 1, a window after the other. *)
Definition fresh_fragments (pr : Process) (ex : Extractor) (samples : list f32) (sr : Z) : option (list Fragment) :=
  let len := Z.of_nat (length samples) in
  fragments ← mapM (window_fragments pr ex samples sr) (windows (window_size sr len) len); Some (concat fragments).

(** With the hook set and its file there, pass 1 is read from it. *)
Definition first_pass (pr : Process) (ex : Extractor) (samples : list f32) (sr : Z) : option (result Error (list Fragment)) :=
  match env_var "SCRIBE_DIARIZE_FRAGMENTS" with
  | Some p =>
      if ff_exists p then Some (load_fragments p)
      else
        fragments ← fresh_fragments pr ex samples sr;
        Some (match save_fragments p fragments with Ok _ => Ok fragments | Err e => Err e end)
  | None => fragments ← fresh_fragments pr ex samples sr; Some (Ok fragments)
  end.

(** Pass 3: the turns of a cluster, and its voice. *)
Definition emitted_turns (fragments : list Fragment) (assignment : list Z) : list SpeakerTurn :=
  flat_map (fun x => map (fun t => mkSpeakerTurn (snd x) (st_start_ms t) (st_end_ms t)) (fr_turns (fst x)))
    (zip fragments assignment).

Definition by_time (a b : SpeakerTurn) : bool :=
  (st_start_ms a <? st_start_ms b) || ((st_start_ms a =? st_start_ms b) && (st_end_ms a <=? st_end_ms b)).

Definition cluster_voices (fragments : list Fragment) (assignment : list Z) : gmap Z (list f32) :=
  omap mean_voice (foldl (fun acc x =>
    match fr_embedding (fst x) with
    | Some emb => accumulate acc (snd x) emb (weight_of (fst x))
    | None => acc
    end) ∅ (zip fragments assignment)).

(** [assignment.iter().copied().max().map(|m| m as usize + 1).unwrap_or(0)] *)
Definition count_speakers (assignment : list Z) : Z :=
  match assignment with [] => 0 | a :: rest => as_usize (foldl Z.max a rest) + 1 end.

Definition settle (fragments : list Fragment) (expected : option Z) : Diarization :=
  if bool_decide (fragments = []) then mkDiarizationResult [] ∅ 0
  else
    let assignment := cluster_fragments fragments expected in
    mkDiarizationResult (sort_by by_time (emitted_turns fragments assignment))
      (cluster_voices fragments assignment) (count_speakers assignment).

Context `{Paths} `{Sherpa}.

Definition diarize_windowed (d : SherpaDiarizer) (audio : WavData) (expected : option Z) : option (result Error Diarization) :=
  match build_diarizer d with
  | Err e => Some (Err e)
  | Ok pr =>
      match build_extractor (sd_paths d) (sd_device d) (sd_num_threads d) with
      | Err e => Some (Err e)
      | Ok ex =>
          r ← first_pass pr ex (samples audio) (sample_rate audio);
          Some (match r with Err e => Err e | Ok fragments => Ok (settle fragments expected) end)
      end
  end.

(** ** One voice *)

Definition single_speaker (d : SherpaDiarizer) (audio : WavData) : result Error Diarization :=
  let whole := mkSpeakerTurn 0 0 (duration_ms audio) in
  let turns := map (fun t => mkSpeakerTurn 0 (st_start_ms t) (st_end_ms t))
    (split_turns_at_silence [whole] (samples audio) (sample_rate audio)) in
  let turns := match turns with [] => [whole] | _ => turns end in
  match build_extractor (sd_paths d) (sd_device d) (sd_num_threads d) with
  | Err e => Err e
  | Ok ex => Ok (mkDiarizationResult turns (compute_speaker_embeddings (samples audio) (sample_rate audio) turns) 1)
  end.

Definition diarize (d : SherpaDiarizer) (file : option (list N)) (expected_speakers : option Z)
    : option (result Error Diarization) :=
  match read_wav file with
  | Err e => Some (Err e)
  | Ok audio =>
      if bool_decide (expected_speakers = Some 1) then Some (single_speaker d audio)
      else diarize_windowed d audio expected_speakers
  end.
End windowed.
