(* ===== verification/DiarizeProps.v ===== *)
(** * What a diarization promises

    However the recording is windowed and whatever the models answer, the result
    is well formed and holds every piece of speech; the models never see more
    audio than they bear; and a recording stated to hold one voice never reaches
    the segmentation model. *)

From Stdlib Require Import SpecFloat Bool String.
From S2P Require Import Prelude RustStr Types F32 Identity IdentityProps Wav Speech Cluster ClusterProps.
From S2P Require Import Split SplitProps Models Diarize.

(** ** Windows *)

Lemma windows_from_spec fuel window len start :
  0 < window -> start <= len -> len - start <= Z.of_nat fuel ->
  tiled start len (windows_from fuel window len start) /\
  Forall (fun w => snd w - fst w <= window) (windows_from fuel window len start).
Proof.
  intros Hw. revert start. induction fuel as [|fuel IH]; intros start Hs Hf; cbn [windows_from].
  - split; [cbn; lia|done].
  - destruct (start <? len) eqn:E; bool_to_prop; [|split; [cbn; lia|done]].
    destruct (IH (Z.min (start + window) len)) as [Ht Hall]; [lia|lia|]. cbn [tiled fst snd].
    split; [split; [done|]; split; [lia|done]|]. constructor; [cbn; lia|done].
Qed.

Lemma windows_spec window len : 0 < window -> 0 <= len ->
  tiled 0 len (windows window len) /\ Forall (fun w => snd w - fst w <= window) (windows window len).
Proof. intros Hw Hl. apply windows_from_spec; lia. Qed.

Lemma window_size_pos `{EnvVar} sr len : 0 < window_size sr len.
Proof.
  unfold window_size. pose proof (as_usize_nonneg (Z.quot (env_i64 "SCRIBE_DIARIZE_WINDOW_MS" DIARIZE_WINDOW_MS * sr) 1000)).
  destruct (_ =? 0) eqn:E; bool_to_prop; lia.
Qed.

Section props.
Context `{EnvVar} `{EnvF32} `{Powf} `{FragmentFiles}.

(** ** Fragments *)

(** A fragment of the first pass: one turn of some length. *)
Definition one_turn (f : Fragment) : Prop :=
  exists t, fr_turns f = [t] /\ st_start_ms t < st_end_ms t.

Lemma split_turns_positive turns samples sr t :
  t ∈ split_turns_at_silence turns samples sr -> st_start_ms t < st_end_ms t.
Proof.
  unfold split_turns_at_silence. intros (k & p & -> & Hp)%elem_of_lookup_imap. apply list_elem_of_lookup_2 in Hp.
  apply elem_of_bfilter in Hp as [_ Hlt]. cbn. by bool_to_prop.
Qed.

Lemma window_fragments_one_turn pr ex samples sr w fs :
  window_fragments pr ex samples sr w = Some fs -> Forall one_turn fs.
Proof.
  unfold window_fragments. destruct (sr =? 0); [done|]. destruct (process _) as [segs|]; [|by intros [= <-]].
  case_bool_decide; [by intros [= <-]|]. intros [= <-]. apply Forall_map, Forall_forall. intros p Hp. eexists. split; [done|].
  apply split_turns_positive in Hp. cbn. lia.
Qed.

(** Start and end of a turn. *)
Definition times (t : SpeakerTurn) : Z * Z := (st_start_ms t, st_end_ms t).

(** What the segmentation model hears in a window, each stretch cut at its
    pauses into pieces that tile it, in the recording's time. *)
Definition window_pieces (pr : Process) (samples : list f32) (sr : Z) (w : Z * Z) (ps : list (Z * Z)) : Prop :=
  let slice := between samples (fst w) (snd w) in
  let offset := Z.quot (fst w * 1000) sr in
  exists groups, Forall2 (cut_of slice sr) (map local_turn (default [] (process slice))) groups /\
    ps = map (fun p => (fst p + offset, snd p + offset)) (concat groups).

Lemma window_fragments_pieces pr ex samples sr w fs :
  0 < min_piece_ms -> window_fragments pr ex samples sr w = Some fs ->
  window_pieces pr samples sr w (map times (flat_map fr_turns fs)).
Proof.
  intros Hmp. unfold window_fragments, window_pieces. destruct (sr =? 0); [done|]. set (slice := between _ _ _).
  destruct (process slice) as [segs|]; cbn [default]; [|intros [= <-]; by exists []].
  case_bool_decide as Hl; [apply map_eq_nil in Hl as ->; intros [= <-]; by exists []|]. intros [= <-].
  destruct (split_turns_spec (map local_turn segs) slice sr Hmp) as (groups & Hcut & Heq & _).
  exists groups. split; [exact Hcut|]. rewrite <- Heq, flat_map_concat_map, !map_map. cbn [fr_turns].
  generalize (split_turns_at_silence (map local_turn segs) slice sr). intros l. induction l as [|p l IH]; [done|]. cbn. by f_equal.
Qed.

Lemma fresh_fragments_one_turn pr ex samples sr fs :
  fresh_fragments pr ex samples sr = Some fs -> Forall one_turn fs.
Proof.
  unfold fresh_fragments. destruct (mapM _ _) as [l|] eqn:E; [|done]. intros [= <-]. apply mapM_Some in E.
  induction E as [|w fs ws l Hw _ IH]; [done|]. cbn. apply Forall_app. split; [|done]. by eapply window_fragments_one_turn.
Qed.

(** ** The turns of the answer *)

Lemma by_time_total a b : by_time a b = true \/ by_time b a = true.
Proof. unfold by_time. rewrite !orb_true_iff, !andb_true_iff, !Z.ltb_lt, !Z.leb_le, !Z.eqb_eq. lia. Qed.

Lemma by_time_trans a b c : by_time a b = true -> by_time b c = true -> by_time a c = true.
Proof. unfold by_time. rewrite !orb_true_iff, !andb_true_iff, !Z.ltb_lt, !Z.leb_le, !Z.eqb_eq. lia. Qed.

Lemma emitted_turns_one fragments a : length a = length fragments -> Forall one_turn fragments ->
  map st_local_idx (emitted_turns fragments a) = a /\
  map (fun t => (st_start_ms t, st_end_ms t)) (emitted_turns fragments a) =
    map (fun t => (st_start_ms t, st_end_ms t)) (flat_map fr_turns fragments) /\
  Forall (fun t => st_start_ms t < st_end_ms t) (emitted_turns fragments a).
Proof.
  intros Hlen Hall. revert a Hlen. induction Hall as [|f fs (t & Ht & Hlt) _ IH]; intros [|x a] Hlen; try done.
  injection Hlen as Hlen. destruct (IH a Hlen) as (Hi & Hm & Hp). unfold emitted_turns in *. cbn [zip zip_with flat_map fst snd].
  cbn [zip] in *. rewrite Ht. cbn. split; [by rewrite Hi|]. split; [by rewrite Hm|]. by constructor.
Qed.

Lemma foldl_max_spec (l : list Z) a : a ∈ a :: l /\ foldl Z.max a l ∈ a :: l /\ forall x, x ∈ a :: l -> x <= foldl Z.max a l.
Proof.
  split; [by left|]. revert a. induction l as [|y l IH]; intros a; cbn.
  - split; [by left|]. intros x ->%list_elem_of_singleton. lia.
  - destruct (IH (Z.max a y)) as [Hin Hle]. split.
    + apply elem_of_cons in Hin as [Hin|Hin]; [|right; by right]. rewrite Hin.
      destruct (Z.max_spec a y) as [[_ ->]|[_ ->]]; [right; by left|by left].
    + intros x [->|[->|Hx]%elem_of_cons]%elem_of_cons; [etransitivity; [|apply Hle; by left]; lia..|apply Hle; by right].
Qed.

Lemma count_speakers_contiguous a k : contiguous a k -> (0 < k)%nat -> Z.of_nat k <= 2 ^ 31 -> count_speakers a = Z.of_nat k.
Proof.
  intros Hc Hk Hb. destruct a as [|x a].
  - exfalso. assert (Hz : 0 ∈ @nil Z) by (apply Hc; lia). by apply elem_of_nil in Hz.
  - cbn [count_speakers]. destruct (foldl_max_spec a x) as (_ & Hin & Hmax). set (m := foldl Z.max x a) in *.
    apply Hc in Hin. assert (Hlast : Z.of_nat k - 1 <= m) by (apply Hmax, Hc; lia).
    unfold as_usize. rewrite wrap_small by (unfold in_u; lia). lia.
Qed.

Lemma cluster_voices_keys fragments a k v : cluster_voices fragments a !! k = Some v -> k ∈ a.
Proof.
  unfold cluster_voices. rewrite lookup_omap. intros Hk.
  assert (Hin : exists x, x ∈ zip fragments a /\ snd x = k); [|destruct Hin as ([f x] & Hx & <-); cbn; eapply elem_of_zip_r; exact Hx].
  revert Hk. set (step := fun acc (x : Fragment * Z) => _). intros Hk.
  assert (Hs : is_Some (foldl step ∅ (zip fragments a) !! k)).
  { destruct (foldl step ∅ (zip fragments a) !! k); [eauto|done]. }
  clear Hk v. induction (zip fragments a) as [|x l IH] using rev_ind; [by destruct Hs|].
  rewrite foldl_snoc in Hs. unfold step at 1 in Hs. destruct (fr_embedding (fst x)).
  - apply accumulate_keys in Hs as [->|Hs]; [exists x; split; [set_solver|done]|].
    destruct (IH Hs) as (y & Hy & <-). exists y. split; [set_solver|done].
  - destruct (IH Hs) as (y & Hy & <-). exists y. split; [set_solver|done].
Qed.

Lemma contiguous_le_length a k : contiguous a k -> (k <= length a)%nat.
Proof.
  intros Hc. assert (Hs : seqZ 0 (Z.of_nat k) ⊆+ a).
  { apply NoDup_submseteq; [apply NoDup_seqZ|]. intros x Hx%elem_of_seqZ. apply Hc. lia. }
  apply submseteq_length in Hs. rewrite length_seqZ in Hs. lia.
Qed.

(** ** The whole *)

Context `{Paths} `{Sherpa}.

Lemma diarize_windowed_ok d audio expected r :
  diarize_windowed d audio expected = Some (Ok r) ->
  exists pr ex fragments, build_diarizer d = Ok pr /\ build_extractor (sd_paths d) (sd_device d) (sd_num_threads d) = Ok ex /\
    first_pass pr ex (samples audio) (sample_rate audio) = Some (Ok fragments) /\ r = settle fragments expected.
Proof.
  unfold diarize_windowed. destruct (build_diarizer d) as [pr|e]; [|done]. destruct (build_extractor _ _ _) as [ex|e]; [|done].
  destruct (first_pass pr ex _ _) as [[fs|e]|] eqn:E; [|done|done]. intros [= <-]. by exists pr, ex, fs.
Qed.

Lemma fresh_fragments_pieces pr ex samples sr fs :
  0 < min_piece_ms -> fresh_fragments pr ex samples sr = Some fs ->
  exists pieces, Forall2 (window_pieces pr samples sr) (windows (window_size sr (Z.of_nat (length samples))) (Z.of_nat (length samples))) pieces /\
    map times (flat_map fr_turns fs) = concat pieces.
Proof.
  intros Hmp. unfold fresh_fragments. generalize (windows (window_size sr (Z.of_nat (length samples))) (Z.of_nat (length samples))). intros ws.
  destruct (mapM _ ws) as [fss|] eqn:E; [|done]. intros [= <-]. apply mapM_Some in E.
  exists (map (fun fs => map times (flat_map fr_turns fs)) fss). split.
  - apply Forall2_fmap_r. eapply Forall2_impl; [exact E|]. intros w fs Hw. by apply (window_fragments_pieces _ ex).
  - clear E. induction fss as [|fs fss IH]; [done|]. cbn [map concat]. by rewrite flat_map_app, map_app, IH.
Qed.

(** C13: A diarization is well formed and loses no speech.  Without the cache
    hook and with at most one pass of refinement, the turns of an answer are
    each of some length and sorted by start and end; their speakers are exactly
    the numbers from zero to one less than the speaker count, however windows
    and clusters fell out; and a voice is a speaker's.  The windows tile the
    recording's samples from the first to the last, none longer than the window
    size; whatever the segmentation model hears in a window is cut at pauses
    into pieces that tile it; and the turns are exactly the pieces of all
    windows, in the recording's time. *)
Theorem diarize_windowed_spec d audio expected r :
  env_usize "SCRIBE_REFINE" 1 <= 1 -> env_var "SCRIBE_DIARIZE_FRAGMENTS" = None -> 0 < min_piece_ms ->
  Z.of_nat (length (dz_turns r)) <= 2 ^ 31 ->
  diarize_windowed d audio expected = Some (Ok r) ->
  StronglySorted (fun a b => by_time a b = true) (dz_turns r) /\
    Forall (fun t => st_start_ms t < st_end_ms t) (dz_turns r) /\
    (forall k, k ∈ map st_local_idx (dz_turns r) <-> 0 <= k < dz_num_speakers r) /\
    (forall k v, dz_embeddings r !! k = Some v -> 0 <= k < dz_num_speakers r) /\
    exists pr ws pieces, build_diarizer d = Ok pr /\
    tiled 0 (Z.of_nat (length (samples audio))) ws /\
    Forall (fun w => snd w - fst w <= window_size (sample_rate audio) (Z.of_nat (length (samples audio)))) ws /\
    Forall2 (window_pieces pr (samples audio) (sample_rate audio)) ws pieces /\
    map times (dz_turns r) ≡ₚ concat pieces.
Proof.
  intros Href Hcache Hmp Hlen (pr & ex & fs & Hpr & _ & Hfp & ->)%diarize_windowed_ok.
  unfold first_pass in Hfp. rewrite Hcache in Hfp. destruct (fresh_fragments _ _ _ _) as [fs'|] eqn:Efs; [|done].
  injection Hfp as ->. pose proof (fresh_fragments_one_turn _ _ _ _ _ Efs) as Hone.
  destruct (fresh_fragments_pieces _ _ _ _ _ Hmp Efs) as (pieces & Hpieces & Hall).
  destruct (windows_spec (window_size (sample_rate audio) (Z.of_nat (length (samples audio)))) (Z.of_nat (length (samples audio))))
    as [Htiled Hmax]; [apply window_size_pos|lia|].
  enough (StronglySorted (fun a b => by_time a b = true) (dz_turns (settle fs expected)) /\
    Forall (fun t => st_start_ms t < st_end_ms t) (dz_turns (settle fs expected)) /\
    (forall k, k ∈ map st_local_idx (dz_turns (settle fs expected)) <-> 0 <= k < dz_num_speakers (settle fs expected)) /\
    (forall k v, dz_embeddings (settle fs expected) !! k = Some v -> 0 <= k < dz_num_speakers (settle fs expected)) /\
    map times (dz_turns (settle fs expected)) ≡ₚ map times (flat_map fr_turns fs)) as (? & ? & ? & ? & Hperm).
  { do 4 (split; [done|]). exists pr. do 2 eexists. split; [done|]. split; [exact Htiled|]. split; [exact Hmax|].
    split; [exact Hpieces|]. by rewrite Hperm, Hall. }
  clear Htiled Hmax Hpieces Hall. revert Hlen. unfold settle. case_bool_decide as Hnil.
  - cbn. intros _. split; [constructor|]. split; [done|]. split; [intros k; split; [by intros ?%elem_of_nil|lia]|].
    split; [by intros ? ? ?%lookup_empty_Some|]. by rewrite Hnil.
  - destruct (cluster_fragments_labels fs expected Hnil Href) as (Hl & k & Hk & Hc). set (a := cluster_fragments _ _) in *.
    destruct (emitted_turns_one fs a Hl Hone) as (Hidx & Hm & Hpos). cbn [dz_turns dz_num_speakers dz_embeddings].
    rewrite sort_by_length, <- (length_map st_local_idx), Hidx. intros Hlen.
    pose proof (contiguous_le_length _ _ Hc). rewrite (count_speakers_contiguous a k Hc Hk) by lia.
    split; [apply sort_by_sorted; [apply by_time_total|apply by_time_trans]|].
    split; [by rewrite sort_by_perm|]. split; [intros x; rewrite sort_by_perm, Hidx; apply Hc|].
    split; [intros x v Hv; apply Hc; by eapply cluster_voices_keys|].
    unfold times. by rewrite sort_by_perm, Hm.
Qed.
End props.

(** ** What the models are handed *)

Section bounded.
Context `{EnvVar} `{EnvF32} `{Powf} `{FragmentFiles} `{Paths}.

Lemma window_fragments_ext pr1 pr2 (ex1 ex2 : Extractor) samples sr w :
  0 < sr < 2 ^ 32 -> 0 <= fst w < snd w /\ snd w <= Z.of_nat (length samples) -> snd w - fst w <= 600 * sr ->
  (forall l, Z.of_nat (length l) <= 600 * sr -> @process pr1 l = @process pr2 l) ->
  (forall l, Z.of_nat (length l) <= 30 * sr -> @extract ex1 sr l = @extract ex2 sr l) ->
  window_fragments pr1 ex1 samples sr w = window_fragments pr2 ex2 samples sr w.
Proof.
  intros Hsr [Hw Hle] Hlen Hpr Hex. unfold window_fragments. rewrite (proj2 (Z.eqb_neq sr 0)) by lia.
  rewrite (Hpr (between _ _ _)) by (rewrite between_length; lia). destruct (process _) as [segs|]; [|done].
  case_bool_decide; [done|]. f_equal. apply map_ext. intros piece. do 2 f_equal.
  by apply compute_speaker_embeddings_ext.
Qed.

Lemma first_pass_ext pr1 pr2 (ex1 ex2 : Extractor) samples sr :
  0 < sr < 2 ^ 32 -> env_var "SCRIBE_DIARIZE_WINDOW_MS" = None ->
  (forall l, Z.of_nat (length l) <= 600 * sr -> @process pr1 l = @process pr2 l) ->
  (forall l, Z.of_nat (length l) <= 30 * sr -> @extract ex1 sr l = @extract ex2 sr l) ->
  first_pass pr1 ex1 samples sr = first_pass pr2 ex2 samples sr.
Proof.
  intros Hsr Henv Hpr Hex. set (len := Z.of_nat (length samples)).
  assert (Hsize : window_size sr len = 600 * sr).
  { unfold window_size, env_i64. rewrite Henv. cbn [mbind option_bind default].
    change DIARIZE_WINDOW_MS with (600 * 1000). replace (600 * 1000 * sr) with (600 * sr * 1000) by lia.
    rewrite Z.quot_mul by lia. unfold as_usize. rewrite wrap_small by (unfold in_u; lia).
    by rewrite (proj2 (Z.eqb_neq _ 0)) by lia. }
  assert (Hfresh : fresh_fragments pr1 ex1 samples sr = fresh_fragments pr2 ex2 samples sr).
  { unfold fresh_fragments. fold len. rewrite Hsize. f_equal.
    destruct (windows_spec (600 * sr) len) as [Ht Hmax]; [lia..|].
    destruct (tiled_bounds _ _ _ Ht) as (_ & Hin & _).
    pose proof (proj2 (Forall_and _ _) (conj Hmax Hin)) as Hall. clear Ht Hmax Hin.
    induction Hall as [|w ws [Hle Hw] _ IH]; [done|]. cbn. rewrite IH.
    by rewrite (window_fragments_ext pr1 pr2 ex1 ex2) by (try done; lia). }
  unfold first_pass. by rewrite Hfresh.
Qed.

(** Two engines that cannot be told apart by short enough audio. *)
Definition agree_on_windows (sr : Z) (s1 s2 : Sherpa) : Prop := forall c,
  option_Forall2 (fun p1 p2 => forall l, Z.of_nat (length l) <= 600 * sr -> @process p1 l = @process p2 l)
    (@create_diarization s1 c) (@create_diarization s2 c).
Definition agree_on_slices (sr : Z) (s1 s2 : Sherpa) : Prop := forall c,
  option_Forall2 (fun e1 e2 => forall l, Z.of_nat (length l) <= 30 * sr -> @extract e1 sr l = @extract e2 sr l)
    (@create_extractor s1 c) (@create_extractor s2 c).

Lemma build_extractor_agree sr s1 s2 paths device threads :
  agree_on_slices sr s1 s2 ->
  match @build_extractor _ s1 paths device threads, @build_extractor _ s2 paths device threads with
  | Ok e1, Ok e2 => forall l, Z.of_nat (length l) <= 30 * sr -> @extract e1 sr l = @extract e2 sr l
  | Err e1, Err e2 => e1 = e2
  | _, _ => False
  end.
Proof.
  intros Hs. unfold build_extractor. destruct (path_str _) as [m|e]; [|done].
  by destruct (Hs (mkExtractorConfig m threads (provider_for device))).
Qed.

Lemma build_diarizer_agree sr s1 s2 d :
  agree_on_windows sr s1 s2 ->
  match @build_diarizer _ _ s1 d, @build_diarizer _ _ s2 d with
  | Ok p1, Ok p2 => forall l, Z.of_nat (length l) <= 600 * sr -> @process p1 l = @process p2 l
  | Err e1, Err e2 => e1 = e2
  | _, _ => False
  end.
Proof.
  intros Hs. unfold build_diarizer. destruct (path_str (dp_segmentation _)) as [m|e]; [|done].
  destruct (path_str (dp_embedding _)) as [m'|e]; [|done].
  by match goal with |- context [@create_diarization s1 ?c] => destruct (Hs c) end.
Qed.

(** The models are never handed what would abort the process.  An answer
    depends on the segmentation model only through windows of at most ten
    minutes, and not at all when one speaker was stated, and on the extractor
    only through slices of at most thirty seconds: two engines that agree on
    those give the same answer, however they behave on longer audio. *)
Theorem engine_calls_bounded s1 s2 d file expected audio :
  read_wav file = Ok audio -> 0 < sample_rate audio < 2 ^ 32 ->
  env_var "SCRIBE_DIARIZE_WINDOW_MS" = None ->
  agree_on_slices (sample_rate audio) s1 s2 ->
  expected = Some 1 \/ agree_on_windows (sample_rate audio) s1 s2 ->
  @diarize _ _ _ _ _ s1 d file expected = @diarize _ _ _ _ _ s2 d file expected.
Proof.
  intros Hread Hsr Henv Hslices Hwin. unfold diarize. rewrite Hread.
  pose proof (build_extractor_agree _ s1 s2 (sd_paths d) (sd_device d) (sd_num_threads d) Hslices) as Hex.
  case_bool_decide as Hone.
  - unfold single_speaker. destruct (@build_extractor _ s1 _ _ _) as [e1|e1], (@build_extractor _ s2 _ _ _) as [e2|e2];
      try done; [|by rewrite Hex]. do 2 f_equal. f_equal. by apply compute_speaker_embeddings_ext.
  - destruct Hwin as [|Hwin]; [done|]. unfold diarize_windowed.
    pose proof (build_diarizer_agree _ s1 s2 d Hwin) as Hdz.
    destruct (@build_diarizer _ _ s1 d) as [p1|e], (@build_diarizer _ _ s2 d) as [p2|e']; try done; [|by rewrite Hdz].
    destruct (@build_extractor _ s1 _ _ _) as [e1|e1], (@build_extractor _ s2 _ _ _) as [e2|e2]; try done; [|by rewrite Hex].
    by rewrite (first_pass_ext p1 p2 e1 e2).
Qed.
End bounded.

(** ** One voice *)

Section single.
Context `{EnvVar} `{EnvF32} `{Powf} `{FragmentFiles} `{Paths} `{Sherpa}.

(** Somebody dictating is one speaker.  When one speaker was stated, an
    answer has one, numbered zero; its turns tile the recording from its start
    to its end, cut at pauses only, and are there even when nothing was said;
    and it has at most one voice. *)
Theorem single_speaker_spec d file audio r :
  0 < min_piece_ms -> read_wav file = Ok audio -> 0 <= duration_ms audio ->
  diarize d file (Some 1) = Some (Ok r) ->
  dz_num_speakers r = 1 /\ dz_turns r <> [] /\ Forall (fun t => st_local_idx t = 0) (dz_turns r) /\
  (if 0 <? duration_ms audio
   then cut_of (samples audio) (sample_rate audio) (mkSpeakerTurn 0 0 (duration_ms audio))
     (map (fun t => (st_start_ms t, st_end_ms t)) (dz_turns r))
   else dz_turns r = [mkSpeakerTurn 0 0 0]) /\
  (forall k v, dz_embeddings r !! k = Some v -> k = 0).
Proof.
  intros Hmp Hread Hdur. unfold diarize. rewrite Hread, bool_decide_eq_true_2 by done. intros Hr.
  set (whole := mkSpeakerTurn 0 0 (duration_ms audio)) in *.
  destruct (split_turns_one whole (samples audio) (sample_rate audio) Hmp) as (ps & Hcut & Hmap).
  unfold single_speaker in Hr. destruct (build_extractor _ _ _) as [ex|]; [|done]. injection Hr as <-.
  fold whole. set (split := split_turns_at_silence _ _ _) in *.
  set (zeroed := map (fun t => mkSpeakerTurn 0 (st_start_ms t) (st_end_ms t)) split).
  assert (Hz : map (fun t => (st_start_ms t, st_end_ms t)) zeroed = ps) by (unfold zeroed; rewrite map_map; by apply Hmap).
  assert (Hidx : Forall (fun t => st_local_idx t = 0) zeroed) by (unfold zeroed; apply Forall_map, Forall_true; done).
  cbn [dz_num_speakers dz_turns dz_embeddings]. set (turns := match zeroed with [] => [whole] | _ => zeroed end).
  assert (Hturns : turns <> [] /\ Forall (fun t => st_local_idx t = 0) turns).
  { unfold turns. destruct zeroed; [|done]. split; [done|]. by repeat constructor. }
  destruct Hturns as [Hne Hall]. split; [done|]. split; [done|]. split; [done|]. split.
  - unfold cut_of in Hcut. cbn [st_start_ms st_end_ms whole] in Hcut.
    destruct (0 <? duration_ms audio) eqn:E.
    + destruct zeroed as [|z zs] eqn:Ez; [|unfold turns; rewrite Hz; unfold cut_of, whole; cbn [st_start_ms st_end_ms]; by rewrite E].
      exfalso. cbn in Hz. rewrite <- Hz in Hcut. destruct Hcut as [Ht _]. cbn in Ht. bool_to_prop. lia.
    + rewrite Hcut in Hz. destruct zeroed; [|done]. unfold turns, whole. bool_to_prop. do 2 f_equal. lia.
  - intros k v Hk%compute_speaker_embeddings_keys. apply list_elem_of_fmap in Hk as (t & -> & Ht).
    rewrite Forall_forall in Hall. by apply Hall.
Qed.
End single.

(** ** Witnesses: an engine that hears two segments in every window *)

#[local] Existing Instances no_overrides no_env no_powf.

Definition no_cache : FragmentFiles := {|
  ff_exists := fun _ => false;
  read_to_string := fun _ => Err (Io "no file"); write_file := fun _ _ => Ok tt;
  to_json := fun _ => Err "no json"; from_json := fun _ => Err "no json";
|}.
Definition utf8_paths : Paths := {| to_str := Some; display := id |}.
Definition two_segments : Process := fun _ => Some [mkSegment fzero one 0; mkSegment one (of_Z 2) 1].
Definition loudness : Extractor := fun _ l => Voice [one; fsum l].
Definition sample_engine : Sherpa := {| create_diarization := fun _ => Some two_segments; create_extractor := fun _ => Some loudness |}.
(** The same, but it gives up on long audio. *)
Definition fragile_engine : Sherpa := {|
  create_diarization := fun _ => Some (fun l => if Z.of_nat (length l) <=? 6000 then two_segments l else None);
  create_extractor := fun _ => Some (fun sr l => if Z.of_nat (length l) <=? 300 then loudness sr l else NoResult);
|}.
#[local] Existing Instances no_cache utf8_paths sample_engine.

Definition sample_diarizer : SherpaDiarizer := mkSherpaDiarizer (mkDiarizationPaths "seg.onnx" "emb.onnx") " CUDA" 4.

(** Two seconds at 10 Hz, loud in the first. *)
Definition sample_file : list N := write_pcm16_mono 10 (repeat 16384 10 ++ repeat 0 10).
Definition sample_audio : WavData :=
  mkWav 10 1 (map (fun s => scaled s 32768) (repeat 16384 10 ++ repeat 0 10)).

Lemma sample_file_reads : read_wav (Some sample_file) = Ok sample_audio.
Proof. vm_compute. reflexivity. Qed.

Definition sample_answer : Diarization :=
  match diarize_windowed sample_diarizer sample_audio None with Some (Ok r) => r | _ => mkDiarizationResult [] ∅ 0 end.

Lemma sample_answer_eq : diarize_windowed sample_diarizer sample_audio None = Some (Ok sample_answer).
Proof. vm_compute. reflexivity. Qed.

Lemma diarize_windowed_spec_witness :
  dz_turns sample_answer = [mkSpeakerTurn 0 0 1000; mkSpeakerTurn 1 1000 2000] /\ dz_num_speakers sample_answer = 2 /\
  Forall (fun t => st_start_ms t < st_end_ms t) (dz_turns sample_answer).
Proof.
  split; [vm_compute; reflexivity|]. split; [vm_compute; reflexivity|].
  refine (proj1 (proj2 (diarize_windowed_spec sample_diarizer sample_audio None sample_answer _ _ _ _ sample_answer_eq))).
  - vm_compute. discriminate.
  - reflexivity.
  - vm_compute. reflexivity.
  - vm_compute. discriminate.
Defined.

Lemma engine_calls_bounded_witness :
  @diarize _ _ _ _ _ fragile_engine sample_diarizer (Some sample_file) None =
  @diarize _ _ _ _ _ sample_engine sample_diarizer (Some sample_file) None.
Proof.
  refine (engine_calls_bounded fragile_engine sample_engine sample_diarizer (Some sample_file) None sample_audio
    sample_file_reads _ _ _ _).
  - cbn. lia.
  - reflexivity.
  - intros c. constructor. intros l Hl. unfold extract. rewrite (proj2 (Z.leb_le _ _)); [done|]. exact Hl.
  - right. intros c. constructor. intros l Hl. unfold process. rewrite (proj2 (Z.leb_le _ _)); [done|]. exact Hl.
Defined.

Definition sample_single : Diarization :=
  match diarize sample_diarizer (Some sample_file) (Some 1) with Some (Ok r) => r | _ => mkDiarizationResult [] ∅ 0 end.

Lemma single_speaker_spec_witness :
  dz_turns sample_single = [mkSpeakerTurn 0 0 2000] /\ dz_num_speakers sample_single = 1.
Proof.
  split; [vm_compute; reflexivity|].
  refine (proj1 (single_speaker_spec sample_diarizer (Some sample_file) sample_audio sample_single _ sample_file_reads _ _)).
  - vm_compute. reflexivity.
  - vm_compute. discriminate.
  - vm_compute. reflexivity.
Defined.

(** ** A file that says it has no sample rate *)

(** The window falls back to the whole recording, but its offset is still
    divided by the rate: the call panics. *)
Example zero_rate_panics : diarize sample_diarizer (Some (write_pcm16_mono 0 [1; 2])) None = None.
Proof. vm_compute. reflexivity. Qed.

(** ** The cache gives back what was kept *)

Lemma from_to_cached f : from_cached (to_cached f) = f.
Proof.
  destruct f as [turns emb ms]. unfold to_cached, from_cached. cbn. f_equal. rewrite map_map.
  rewrite <- (map_id turns) at 2. apply map_ext. by intros [].
Qed.

Lemma load_saved_fragments `{FragmentFiles} path fragments json :
  from_json json = Ok (map to_cached fragments) ->
  read_to_string path = Ok json -> load_fragments path = Ok fragments.
Proof.
  intros Hj Hr. unfold load_fragments. rewrite Hr, Hj. f_equal. rewrite map_map.
  rewrite <- (map_id fragments) at 2. apply map_ext. intros. apply from_to_cached.
Qed.
