(* ===== verification/Asr.v ===== *)
(** * Speech to words: [SherpaTranscriber] of [crates/scribe-asr/src/real/asr.rs]

    A long recording is decoded a window at a time, each window's end placed in
    a pause; a decode that stops short is taken up from where it stopped; gaps
    without words are decoded again; and sherpa's tokens become timed words.
    The recognizer is third-party code and a parameter. *)

From Stdlib Require Import SpecFloat Bool String.
From S2P Require Import Prelude RustStr Types F32 Identity Wav Speech Cluster Split Models Diarize.

Definition WHISPER_WINDOW_MS : Z := 28000.
Definition TRANSDUCER_WINDOW_MS : Z := 30000.
Definition MIN_COVERAGE : spec_float := S754_finite false 6755399441055744 (-53).
Definition MIN_RECOVER_MS : Z := 4000.
Definition MAX_RECOVERY_PASSES : nat := 6.
Definition GAP_RECOVERY_MS : Z := 1500.
Definition CUT_SEARCH_FRACTION : Z := 4.
Definition CUT_FRAME : Z := 320.

(** ** The recognizer *)

(** What a stream gives after decoding. *)
Record RecognizerResult := mkRecognized {
  rr_text : string; rr_tokens : list string;
  rr_timestamps : option (list f32); rr_durations : option (list f32);
}.

(** An [OfflineRecognizer]: a waveform at a sample rate, decoded. *)
Class Recognizer := recognize : Z -> list f32 -> option RecognizerResult.

(** ** Where a window ends *)

(** [while at + CUT_FRAME <= nominal_end] *)
Fixpoint quietest (fuel : nat) (samples : list f32) (at_ nominal_end best : Z) (best_energy : f32) : Z :=
  match fuel with
  | O => best
  | S fuel =>
      if at_ + CUT_FRAME <=? nominal_end then
        let energy := fsum (map (fun x => fmul x x) (between samples at_ (at_ + CUT_FRAME))) in
        if fltb energy best_energy
        then quietest fuel samples (at_ + CUT_FRAME) nominal_end (at_ + CUT_FRAME / 2) energy
        else quietest fuel samples (at_ + CUT_FRAME) nominal_end best best_energy
      else best
  end.

(** A frame at least is passed by a turn of the loop, so the band's length is
    fuel enough. *)
Definition choose_window_end (samples : list f32) (start nominal_end : Z) : Z :=
  if Z.of_nat (length samples) <=? nominal_end then Z.of_nat (length samples)
  else
    let span := nominal_end - start in
    let band := span / CUT_SEARCH_FRACTION in
    if band <? CUT_FRAME * 2 then nominal_end
    else quietest (Z.to_nat band) samples (nominal_end - band) nominal_end nominal_end F32_MAX.

Definition samples_to_ms (samples sample_rate : Z) : Z :=
  if sample_rate =? 0 then 0 else Z.quot (samples * 1000) sample_rate.

Definition ms_to_samples (ms sample_rate : Z) : Z :=
  if ms <=? 0 then 0 else as_usize (Z.quot (ms * sample_rate) 1000).

Definition needs_recovery (cursor next total sample_rate : Z) : bool :=
  if (next <=? cursor) || (total <=? next) then false
  else if samples_to_ms (total - next) sample_rate <? MIN_RECOVER_MS then false
  else SFltb (SFdiv 53 1024 (f64_of_Z (next - cursor)) (f64_of_Z (total - cursor))) MIN_COVERAGE.

(** ** Tokens to words *)

(** The mark U+2581 that starts a word. *)
Definition word_mark : string := bytes [226; 150; 129]%N.

Definition starts_with (s : string) (p : string) : bool := bool_decide (is_Some (strip_prefix p s)).

Definition trim_start : string -> string := trim_start_matches is_whitespace.

Definition starts_word (tok : string) : bool := starts_with tok word_mark || starts_with tok " ".
Definition clean_token (tok : string) : string := trim_start (trim_start_matches (String.eqb word_mark) tok).

Definition certain (text : string) (start_ms end_ms : Z) : AsrWord := mkAsrWord text start_ms end_ms (of_Z 1).

(** The loop's variables: the words, and the word under construction. *)
Record Building := mkBuilding { bd_words : list AsrWord; bd_text : string; bd_start : option Z; bd_end : Z }.

Definition flush (b : Building) : Building :=
  let piece := trim (bd_text b) in
  let start := default 0 (bd_start b) in
  let words := if is_empty piece then bd_words b
    else bd_words b ++ [certain piece start (Z.max (bd_end b) start)] in
  mkBuilding words "" None (bd_end b).

(** A token: its text, when it starts and how long it lasts. *)
Definition add_token (b : Building) (tok : string) (start_ms dur_ms : Z) : Building :=
  let end_ms := start_ms + dur_ms in
  let b := if starts_word tok && bool_decide (is_Some (bd_start b)) then flush b else b in
  mkBuilding (bd_words b) (bd_text b +:+ clean_token tok) (Some (default start_ms (bd_start b))) (Z.max end_ms (bd_end b)).

Definition add_tokens (tokens : list string) (ts : list f32) (durations : option (list f32)) : Building :=
  flush (foldl (fun b x => add_token b (fst (snd x)) (sec_to_ms (snd (snd x)))
      (default 0 (d ← durations; sec_to_ms <$> (d !! fst x))))
    (mkBuilding [] "" None 0) (imap pair (zip tokens ts))).

Definition spread_evenly (text : string) (clip_ms : Z) : list AsrWord :=
  let parts := split_whitespace text in
  let n := Z.of_nat (length parts) in
  let step := if 0 <? n then Z.max clip_ms 0 / n else 0 in
  imap (fun i w =>
    let s := step * Z.of_nat i in
    certain w s (if Z.of_nat i =? n - 1 then Z.max clip_ms s else s + step)) parts.

(** A single blob, spread over its own span. *)
Definition spread_blob (text : string) (words : list AsrWord) : list AsrWord :=
  let span_start := default 0 (aw_start_ms <$> head words) in
  let span_end := Z.max (default 0 (aw_end_ms <$> head words)) span_start in
  let parts := split_whitespace text in
  let step := Z.max (span_end - span_start) 0 / Z.max (Z.of_nat (length parts)) 1 in
  imap (fun i w => let s := span_start + step * Z.of_nat i in certain w s (s + step)) parts.

Definition build_words (text : string) (tokens : list string) (timestamps durations : option (list f32)) (clip_ms : Z)
    : list AsrWord :=
  match timestamps with
  | None => spread_evenly text clip_ms
  | Some ts =>
      if bool_decide (tokens = []) || negb (length tokens =? length ts)%nat then spread_evenly text clip_ms
      else
        let words := bd_words (add_tokens tokens ts durations) in
        if (length words <=? 1)%nat && (1 <? length (split_whitespace text))%nat then spread_blob text words
        else words
  end.

(** ** Decoding *)

Definition shift_word (offset_ms : Z) (w : AsrWord) : AsrWord :=
  mkAsrWord (aw_text w) (aw_start_ms w + offset_ms) (aw_end_ms w + offset_ms) (aw_conf w).

(** [if !piece.is_empty() { if !text.is_empty() { text.push(' ') }; text.push_str(piece) }] *)
Definition push_text (text part : string) : string :=
  let piece := trim part in
  if is_empty piece then text else if is_empty text then piece else text +:+ " " +:+ piece.

Definition append_transcript (t part : Transcript) : Transcript :=
  mkTranscript (push_text (tr_text t) (tr_text part)) (tr_words t ++ tr_words part).

Definition empty_transcript : Transcript := mkTranscript "" [].

Section decoding.
Context `{Recognizer}.

Definition decode_clip (sample_rate : Z) (samples : list f32) (offset_ms : Z) : result Error Transcript :=
  match recognize sample_rate samples with
  | None => Err (Model "OfflineRecognizer produced no result")
  | Some r =>
      let clip_ms := if 0 <? sample_rate then Z.quot (Z.of_nat (length samples) * 1000) sample_rate else 0 in
      let words := build_words (rr_text r) (rr_tokens r) (rr_timestamps r) (rr_durations r) clip_ms in
      Ok (mkTranscript (rr_text r) (if offset_ms =? 0 then words else map (shift_word offset_ms) words))
  end.

(** [for _ in 0..=MAX_RECOVERY_PASSES] *)
Fixpoint decode_passes (passes : nat) (sample_rate : Z) (samples : list f32) (offset_ms : Z) (acc : Transcript) (cursor : Z)
    : result Error Transcript :=
  match passes with
  | O => Ok acc
  | S passes =>
      match decode_clip sample_rate (drop (Z.to_nat cursor) samples) (offset_ms + samples_to_ms cursor sample_rate) with
      | Err e => Err e
      | Ok part =>
          let acc := append_transcript acc part in
          match last (tr_words part) with
          | None => Ok acc
          | Some w =>
              let next := ms_to_samples (aw_end_ms w - offset_ms) sample_rate in
              if needs_recovery cursor next (Z.of_nat (length samples)) sample_rate
              then decode_passes passes sample_rate samples offset_ms acc next
              else Ok acc
          end
      end
  end.

Definition decode_span (sample_rate : Z) (samples : list f32) (offset_ms : Z) : result Error Transcript :=
  decode_passes (S MAX_RECOVERY_PASSES) sample_rate samples offset_ms empty_transcript 0.

(** [while start < audio.samples.len()]; a window has a sample at least. *)
Fixpoint decode_windows (fuel : nat) (sr : Z) (samples : list f32) (window start : Z) (acc : Transcript)
    : result Error Transcript :=
  match fuel with
  | O => Ok acc
  | S fuel =>
      let len := Z.of_nat (length samples) in
      if start <? len then
        let end_ := choose_window_end samples start (Z.min (start + window) len) in
        match decode_span sr (between samples start end_) (Z.quot (start * 1000) sr) with
        | Err e => Err e
        | Ok part => decode_windows fuel sr samples window end_ (append_transcript acc part)
        end
      else Ok acc
  end.

(** ** Gaps *)

(** The stretches without a word: where one began, what was said until then. *)
Definition gap_before (gap_ms : Z) (st : list (Z * Z) * Z) (w : AsrWord) : list (Z * Z) * Z :=
  let '(bounds, prev_end) := st in
  (if gap_ms <=? aw_start_ms w - prev_end then bounds ++ [(prev_end, aw_start_ms w)] else bounds,
   Z.max prev_end (aw_end_ms w)).

Definition gaps (gap_ms total_ms : Z) (words : list AsrWord) : list (Z * Z) :=
  let '(bounds, prev_end) := foldl (gap_before gap_ms) ([], 0) words in
  if gap_ms <=? total_ms - prev_end then bounds ++ [(prev_end, total_ms)] else bounds.

Fixpoint decode_gaps (sr : Z) (samples : list f32) (bounds : list (Z * Z)) : result Error (list AsrWord) :=
  match bounds with
  | [] => Ok []
  | (from_ms, to_ms) :: bounds' =>
      let len := Z.of_nat (length samples) in
      let a := Z.min (ms_to_samples from_ms sr) len in
      let b := Z.min (ms_to_samples to_ms sr) len in
      if b <=? a then decode_gaps sr samples bounds'
      else
        match decode_span sr (between samples a b) from_ms with
        | Err e => Err e
        | Ok part =>
            match decode_gaps sr samples bounds' with
            | Err e => Err e
            | Ok rest => Ok (tr_words part ++ rest)
            end
        end
  end.

Definition word_le (a b : AsrWord) : bool :=
  (aw_start_ms a <? aw_start_ms b) || ((aw_start_ms a =? aw_start_ms b) && (aw_end_ms a <=? aw_end_ms b)).

Context `{EnvVar}.

Definition recover_gaps (sr : Z) (samples : list f32) (first : Transcript) : result Error Transcript :=
  let gap_ms := env_i64 "SCRIBE_ASR_GAP_MS" GAP_RECOVERY_MS in
  if gap_ms <=? 0 then Ok first
  else
    let bounds := gaps gap_ms (samples_to_ms (Z.of_nat (length samples)) sr) (tr_words first) in
    match decode_gaps sr samples bounds with
    | Err e => Err e
    | Ok recovered =>
        let words := tr_words first ++ recovered in
        let words := if bool_decide (recovered = []) then words else sort_by word_le words in
        Ok (mkTranscript (join " " (map aw_text words)) words)
    end.

Definition clip_window (max_clip_ms sr : Z) : Z :=
  as_usize (Z.quot (env_i64 "SCRIBE_ASR_WINDOW_MS" max_clip_ms * sr) 1000).

(** A single pass when the recording fits the window, windows otherwise. *)
Definition first_transcript (max_clip_ms sr : Z) (samples : list f32) : result Error Transcript :=
  let window := clip_window max_clip_ms sr in
  if (window =? 0) || (Z.of_nat (length samples) <=? window) then decode_span sr samples 0
  else decode_windows (length samples) sr samples window 0 empty_transcript.

(** [max_clip_ms] is the window of the model's layout. *)
Definition transcribe_audio (max_clip_ms : Z) (audio : WavData) : result Error Transcript :=
  match first_transcript max_clip_ms (sample_rate audio) (samples audio) with
  | Err e => Err e
  | Ok t => recover_gaps (sample_rate audio) (samples audio) t
  end.

Definition transcribe (max_clip_ms : Z) (file : option (list N)) : result Error Transcript :=
  match read_wav file with Err e => Err e | Ok audio => transcribe_audio max_clip_ms audio end.
End decoding.

(** ** Building the recognizer *)

Record RecognizerConfig := mkRecognizerConfig {
  rc_models : AsrModelPaths; rc_num_threads : Z; rc_provider : string;
  rc_decoding_method : option string; rc_max_active_paths : Z;
  rc_hotwords : option (string * f32); rc_bpe_vocab : option string;
}.

(** [OfflineRecognizer::create], and the active paths of its default config. *)
Class CreateRecognizer := {
  create_recognizer : RecognizerConfig -> option Recognizer;
  default_max_active_paths : Z;
}.

Record SherpaTranscriber := mkSherpaTranscriber { sx_recognizer : Recognizer; sx_max_clip_ms : Z }.

Section load.
Context `{EnvVar} `{Paths} `{CreateRecognizer}.

(** Each path's text, the tokens first. *)
Definition model_paths (p : AsrModelPaths) : result Error (AsrModelPaths * Z) :=
  match p with
  | Transducer encoder decoder joiner tokens =>
      match path_str tokens, path_str encoder, path_str decoder, path_str joiner with
      | Ok tokens, Ok encoder, Ok decoder, Ok joiner => Ok (Transducer encoder decoder joiner tokens, TRANSDUCER_WINDOW_MS)
      | Err e, _, _, _ | _, Err e, _, _ | _, _, Err e, _ | _, _, _, Err e => Err e
      end
  | Whisper encoder decoder tokens =>
      match path_str tokens, path_str encoder, path_str decoder with
      | Ok tokens, Ok encoder, Ok decoder => Ok (Whisper encoder decoder tokens, WHISPER_WINDOW_MS)
      | Err e, _, _ | _, Err e, _ | _, _, Err e => Err e
      end
  end.

(** [v.parse::<i32>()] *)
Definition parse_i32 (s : string) : option Z :=
  v ← parse_i64 s; if (- 2 ^ 31 <=? v) && (v <? 2 ^ 31) then Some v else None.

(** Decoding method, active paths, hotwords and vocabulary. *)
Definition decoding_options (hotwords_file : option string) (hotwords_score : f32) (bpe_vocab : option string)
    : result Error (option string * Z * option (string * f32) * option string) :=
  let '(method, paths) :=
    match env_var "SCRIBE_ASR_DECODING" with
    | Some method => (Some method, default 4 (v ← env_var "SCRIBE_ASR_BEAM"; parse_i32 v))
    | None => (None, default_max_active_paths)
    end in
  match (hw ← hotwords_file; if String.eqb hw "" then None else Some hw) with
  | None => Ok (method, paths, None, None)
  | Some hw =>
      let paths := if paths <=? 0 then 4 else paths in
      let score := if fltb fzero hotwords_score then hotwords_score else of_Z 2 in
      let options vocab := (Some "modified_beam_search", paths, Some (hw, score), vocab) in
      match bpe_vocab with
      | None => Ok (options None)
      | Some vocab => match path_str vocab with Ok v => Ok (options (Some v)) | Err e => Err e end
      end
  end.

Definition load_transcriber (paths : AsrModelPaths) (device : string) (num_threads : Z)
    (hotwords_file : option string) (hotwords_score : f32) (bpe_vocab : option string) : result Error SherpaTranscriber :=
  match model_paths paths with
  | Err e => Err e
  | Ok (models, max_clip_ms) =>
      match decoding_options hotwords_file hotwords_score bpe_vocab with
      | Err e => Err e
      | Ok (method, active, hotwords, vocab) =>
          match create_recognizer (mkRecognizerConfig models num_threads (provider_for device) method active hotwords vocab) with
          | None => Err (Model "failed to create OfflineRecognizer")
          | Some r => Ok (mkSherpaTranscriber r max_clip_ms)
          end
      end
  end.
End load.
