(* ===== verification/AsrProps.v ===== *)
(** * What the transcriber promises

    The windows tile the recording and fit the model, a decode that stops short
    is resumed a bounded number of times, no character of what was recognized is
    lost, every word is timed, and gap recovery only adds. *)

From Stdlib Require Import SpecFloat Bool String.
From S2P Require Import Prelude RustStr Types F32 Identity IdentityProps Wav Speech Cluster ClusterProps.
From S2P Require Import Split SplitProps Models Diarize DiarizeProps Asr.

(** ** Windows *)

Lemma quietest_bounds fuel samples at_ nominal_end best energy :
  quietest fuel samples at_ nominal_end best energy = best \/
  at_ < quietest fuel samples at_ nominal_end best energy < nominal_end.
Proof.
  revert at_ best energy. induction fuel as [|fuel IH]; intros at_ best energy; cbn [quietest]; [by left|].
  unfold CUT_FRAME in *. change (320 / 2) with 160. destruct (at_ + 320 <=? nominal_end) eqn:E; [|by left]. bool_to_prop. cbn zeta.
  destruct (fltb _ energy).
  - match goal with |- context [quietest fuel ?a ?b ?c ?d ?e] => destruct (IH b d e) as [->|?] end; right; lia.
  - match goal with |- context [quietest fuel ?a ?b ?c ?d ?e] => destruct (IH b d e) as [->|?] end; [by left|right; lia].
Qed.

Lemma choose_window_end_bounds samples start nominal_end :
  start < nominal_end <= Z.of_nat (length samples) ->
  start < choose_window_end samples start nominal_end <= nominal_end.
Proof.
  intros Hn. unfold choose_window_end. destruct (_ <=? nominal_end) eqn:E; bool_to_prop; [lia|].
  unfold CUT_SEARCH_FRACTION. set (band := (nominal_end - start) / 4). assert (Hb : band <= nominal_end - start) by (unfold band; divlia).
  destruct (band <? _) eqn:Eb; [lia|]. bool_to_prop. unfold CUT_FRAME in Eb.
  destruct (quietest_bounds (Z.to_nat band) samples (nominal_end - band) nominal_end nominal_end F32_MAX) as [->|?]; lia.
Qed.

(** The windows the loop goes through. *)
Fixpoint cut_windows (fuel : nat) (samples : list f32) (window start : Z) : list (Z * Z) :=
  match fuel with
  | O => []
  | S fuel =>
      let len := Z.of_nat (length samples) in
      if start <? len then
        let end_ := choose_window_end samples start (Z.min (start + window) len) in
        (start, end_) :: cut_windows fuel samples window end_
      else []
  end.

Lemma cut_windows_spec fuel samples window start :
  0 < window -> start <= Z.of_nat (length samples) -> Z.of_nat (length samples) - start <= Z.of_nat fuel ->
  tiled start (Z.of_nat (length samples)) (cut_windows fuel samples window start) /\
  Forall (fun w => snd w - fst w <= window) (cut_windows fuel samples window start).
Proof.
  intros Hw. revert start. induction fuel as [|fuel IH]; intros start Hs Hf; cbn [cut_windows].
  - split; [cbn; lia|done].
  - destruct (start <? _) eqn:E; bool_to_prop; [|split; [cbn; lia|done]]. cbn zeta.
    pose proof (choose_window_end_bounds samples start (Z.min (start + window) (Z.of_nat (length samples)))) as Hb.
    set (end_ := choose_window_end _ _ _) in *. destruct (IH end_) as [Ht Hall]; [lia..|]. cbn [tiled fst snd].
    split; [split; [done|]; split; [lia|done]|]. constructor; [cbn; lia|done].
Qed.

(** Decoding one window after another. *)
Fixpoint decode_all `{Recognizer} (sr : Z) (samples : list f32) (ws : list (Z * Z)) (acc : Transcript) : result Error Transcript :=
  match ws with
  | [] => Ok acc
  | w :: ws' =>
      match decode_span sr (between samples (fst w) (snd w)) (Z.quot (fst w * 1000) sr) with
      | Err e => Err e
      | Ok part => decode_all sr samples ws' (append_transcript acc part)
      end
  end.

Lemma decode_windows_all `{Recognizer} fuel sr samples window start acc :
  decode_windows fuel sr samples window start acc = decode_all sr samples (cut_windows fuel samples window start) acc.
Proof.
  revert start acc. induction fuel as [|fuel IH]; intros start acc; [done|]. cbn [decode_windows cut_windows].
  destruct (start <? _); [|done]. cbn [decode_all fst snd]. destruct (decode_span _ _ _); [apply IH|done].
Qed.

(** ** What the recognizer is handed *)

Section bounded.
Context (r1 r2 : Recognizer) (sr bound : Z).
Context (Hagree : forall l, Z.of_nat (length l) <= bound -> @recognize r1 sr l = @recognize r2 sr l).

Lemma decode_span_agree samples offset_ms :
  Z.of_nat (length samples) <= bound -> @decode_span r1 sr samples offset_ms = @decode_span r2 sr samples offset_ms.
Proof using Hagree.
  intros Hlen. unfold decode_span. generalize 0 as cursor, empty_transcript as acc. generalize (S MAX_RECOVERY_PASSES) as passes.
  induction passes as [|passes IH]; intros cursor acc; [done|]. cbn [decode_passes].
  unfold decode_clip. rewrite Hagree by (rewrite length_drop; lia).
  destruct (@recognize r2 sr _) as [r|]; [|done]. cbn zeta. destruct (last _); [|done].
  destruct (needs_recovery _ _ _ _); [apply IH|done].
Qed.
End bounded.

Section transcribe.
Context `{EnvVar}.

(** C15: The first pass reads all of a recording and never a clip longer than
    the model bears.  When the recording does not fit the window, its windows
    follow one another from the first sample to the last, none is empty or longer than
    the window, and the transcript is their transcripts, in order; so two
    recognizers that agree on clips that fit the window give the same first
    pass, whatever they do with longer ones. *)
Theorem first_transcript_spec (r1 r2 : Recognizer) max_clip_ms sr samples :
  let window := clip_window max_clip_ms sr in
  0 < window ->
  (forall l, Z.of_nat (length l) <= window -> @recognize r1 sr l = @recognize r2 sr l) ->
  @first_transcript r1 _ max_clip_ms sr samples = @first_transcript r2 _ max_clip_ms sr samples /\
  (window < Z.of_nat (length samples) ->
   exists ws, tiled 0 (Z.of_nat (length samples)) ws /\ Forall (fun w => snd w - fst w <= window) ws /\
     @first_transcript r1 _ max_clip_ms sr samples = @decode_all r1 sr samples ws empty_transcript).
Proof.
  intros window Hw Hagree. unfold first_transcript. fold window. rewrite (proj2 (Z.eqb_neq window 0)) by lia. cbn [orb].
  set (ws := cut_windows (length samples) samples window 0).
  destruct (cut_windows_spec (length samples) samples window 0 Hw) as [Ht Hall]; [lia..|]. fold ws in Ht, Hall.
  destruct (_ <=? window) eqn:E; bool_to_prop.
  - split; [by apply (decode_span_agree r1 r2 sr window)|lia].
  - split; [|intros _; exists ws; split; [done|]; split; [done|apply decode_windows_all]].
    rewrite !decode_windows_all. fold ws. destruct (tiled_bounds _ _ _ Ht) as (_ & Hin & _).
    pose proof (proj2 (Forall_and _ _) (conj Hall Hin)) as Hboth. clear Ht Hall Hin. generalize empty_transcript as acc.
    induction Hboth as [|w ws' [Hle Hw'] _ IH]; intros acc; [done|]. cbn [decode_all].
    rewrite (decode_span_agree r1 r2 sr window) by (try done; rewrite between_length; lia).
    destruct (@decode_span r2 _ _ _); [apply IH|done].
Qed.
End transcribe.

(** ** No character is lost *)

(** The characters of a text that are not white space. *)
Definition squash (s : string) : list string := bfilter (fun c => negb (is_whitespace c)) (chars s).

Lemma chars_app a b : starts_cont b = false -> chars (a +:+ b) = chars a ++ chars b.
Proof.
  intros Hb. induction a as [|x a IH]; [done|].
  change (String x a +:+ b) with (String x (a +:+ b)). cbn [chars]. rewrite IH.
  destruct (chars a) as [|e es] eqn:Ea; cbn [app].
  - destruct (chars b) as [|f fs] eqn:Eb; [done|]. rewrite (chars_head b f fs Eb), Hb. done.
  - by destruct (starts_cont e).
Qed.

Lemma bfilter_none {A} (p : A -> bool) l : Forall (fun x => p x = false) l -> bfilter p l = [].
Proof. intros Hl. apply bfilter_nil_iff. by apply Forall_forall. Qed.

Lemma bfilter_drop_while p l : bfilter (fun c => negb (p c)) (RustStr.drop_while p l) = bfilter (fun c => negb (p c)) l.
Proof.
  destruct (drop_while_suffix p l) as (l1 & Hl & Hp). rewrite Hl at 2. rewrite bfilter_app.
  rewrite (bfilter_none _ l1); [done|]. eapply Forall_impl; [exact Hp|]. cbn. by intros c ->.
Qed.

Lemma squash_trim s : squash (trim s) = squash s.
Proof.
  unfold squash, trim. rewrite chars_trim_matches. set (l := RustStr.drop_while _ _).
  destruct (drop_while_end_prefix is_whitespace l) as (l2 & Hl & Hp).
  rewrite <- (bfilter_drop_while is_whitespace (chars s)). fold l. rewrite Hl at 2. rewrite bfilter_app.
  rewrite (bfilter_none _ l2); [by rewrite app_nil_r|]. eapply Forall_impl; [exact Hp|]. cbn. by intros c ->.
Qed.

Lemma squash_app a b : starts_cont b = false -> squash (a +:+ b) = squash a ++ squash b.
Proof. intros Hb. unfold squash. by rewrite chars_app, bfilter_app. Qed.

(** Encodings, none of which starts in the middle of a character. *)
Definition whole_chars (cs : list string) : Prop := Forall (fun c => char_ok c = true /\ starts_cont c = false) cs.

Lemma chars_whole s : starts_cont s = false -> whole_chars (chars s).
Proof.
  intros Hs. destruct (chars_chars_ok s) as [Hok Htl]. destruct (chars s) as [|c cs] eqn:E; [constructor|].
  apply Forall_cons in Hok as [Hc Hcs]. constructor; [split; [done|by rewrite (chars_head s c cs E)]|].
  apply Forall_forall. intros d Hd. rewrite Forall_forall in Hcs, Htl. split; [by apply Hcs|by apply Htl].
Qed.

Lemma whole_chars_concat cs : whole_chars cs -> chars (str_concat cs) = cs /\ starts_cont (str_concat cs) = false.
Proof.
  intros Hw. assert (Hc : chars (str_concat cs) = cs).
  { apply chars_concat. split; [eapply Forall_impl; [exact Hw|]; by intros ? []|].
    destruct Hw as [|c cs _ Hcs]; [constructor|]. eapply Forall_impl; [exact Hcs|]. by intros ? []. }
  split; [done|]. destruct Hw as [|c cs [_ Hs] _]; [done|]. by rewrite <- (chars_head _ _ _ Hc).
Qed.

Lemma whole_one c : char_ok c = true -> chars c = [c].
Proof. intros Hc. rewrite <- (append_nil_r c) at 1. by apply (chars_char_app c ""). Qed.

Lemma trim_start_matches_whole p s : starts_cont s = false -> starts_cont (trim_start_matches p s) = false.
Proof.
  intros Hs%chars_whole. unfold trim_start_matches. destruct (drop_while_suffix p (chars s)) as (l1 & Hl & _).
  apply whole_chars_concat. unfold whole_chars in *. rewrite Hl in Hs. by apply Forall_app in Hs as [_ ?].
Qed.

Lemma split_ws_spec cur cs : whole_chars cs ->
  flat_map squash (split_ws cur cs) = squash cur ++ bfilter (fun c => negb (is_whitespace c)) cs /\
  Forall (fun w => w <> "") (split_ws cur cs).
Proof.
  intros Hw. revert cur. induction Hw as [|c cs [Hc Hs] _ IH]; intros cur; cbn [split_ws].
  - unfold is_empty. destruct (String.eqb_spec cur "") as [->|]; [done|]. cbn. split; [done|by repeat constructor].
  - unfold bfilter at 1. cbn [List.filter]. fold (bfilter (fun c => negb (is_whitespace c)) cs).
    destruct (is_whitespace c) eqn:E; cbn [negb].
    + destruct (IH "") as [Hf Hall]. unfold is_empty. destruct (String.eqb_spec cur "") as [->|]; [done|].
      cbn [flat_map]. rewrite Hf. split; [done|by constructor].
    + destruct (IH (cur +:+ c)) as [Hf Hall]. rewrite Hf, squash_app by done. split; [|done].
      unfold squash at 2. rewrite (whole_one c Hc). unfold bfilter. cbn [List.filter]. rewrite E. cbn [negb]. by rewrite <- app_assoc.
Qed.

Lemma split_whitespace_spec s : starts_cont s = false ->
  flat_map squash (split_whitespace s) = squash s /\ Forall (fun w => w <> "") (split_whitespace s).
Proof. intros Hs. by destruct (split_ws_spec "" (chars s) (chars_whole s Hs)). Qed.

Definition built_text (b : Building) : list string := flat_map squash (map aw_text (bd_words b)) ++ squash (bd_text b).

Lemma flush_text b : built_text (flush b) = built_text b.
Proof.
  unfold built_text, flush. cbn [bd_words bd_text]. rewrite <- (squash_trim (bd_text b)), app_nil_r.
  unfold is_empty. destruct (String.eqb_spec (trim (bd_text b)) "") as [->|]; [by rewrite app_nil_r|].
  rewrite map_app, flat_map_app. cbn. by rewrite app_nil_r.
Qed.

Lemma add_token_text b tok start_ms dur_ms : starts_cont tok = false ->
  built_text (add_token b tok start_ms dur_ms) = built_text b ++ squash (clean_token tok).
Proof.
  intros Hs. assert (Hc : starts_cont (clean_token tok) = false) by by apply trim_start_matches_whole, trim_start_matches_whole.
  unfold add_token. set (b' := if _ : bool then flush b else b).
  assert (Hb' : built_text b' = built_text b) by (unfold b'; destruct (_ && _); [apply flush_text|done]).
  rewrite <- Hb'. unfold built_text at 1. cbn [bd_words bd_text]. rewrite squash_app by done. by rewrite app_assoc.
Qed.

Lemma add_tokens_text tokens ts durations : length tokens = length ts ->
  Forall (fun t => starts_cont t = false) tokens ->
  flat_map squash (map aw_text (bd_words (add_tokens tokens ts durations))) = flat_map (fun t => squash (clean_token t)) tokens.
Proof.
  intros Hlen Hall. unfold add_tokens. set (step := fun b x => _).
  assert (Hgen : forall l b, Forall (fun x => starts_cont (fst (snd x)) = false) l ->
    built_text (foldl step b l) = built_text b ++ flat_map (fun x => squash (clean_token (fst (snd x)))) l).
  { induction l as [|x l IH]; intros b Hl; [by rewrite app_nil_r|]. apply Forall_cons in Hl as [Hx Hl]. cbn [foldl flat_map].
    rewrite IH by done. unfold step at 1. rewrite add_token_text by done. by rewrite app_assoc. }
  set (l := imap pair (zip tokens ts)). specialize (Hgen l (mkBuilding [] "" None 0)).
  assert (Hl : forall (f : string -> list string), flat_map (fun x => f (fst (snd x))) l = flat_map f tokens).
  { intros f. unfold l. rewrite !flat_map_concat_map, (map_imap _ _ (fun p => f (fst p))) by done.
    f_equal. rewrite <- (fst_zip tokens ts) at 2 by lia. by rewrite map_map. }
  rewrite (Hl (fun t => squash (clean_token t))) in Hgen. change (built_text (mkBuilding [] "" None 0)) with (@nil string) in Hgen. cbn [app] in Hgen.
  rewrite <- Hgen; [|unfold l; apply Forall_forall; intros x (k & p & -> & Hp)%elem_of_lookup_imap; cbn].
  - rewrite <- flush_text. unfold built_text. cbn [bd_text flush]. by rewrite app_nil_r.
  - apply list_elem_of_lookup_2 in Hp. destruct p as [t ?]. apply elem_of_zip_l in Hp. rewrite Forall_forall in Hall. by apply Hall.
Qed.

(** ** Every word is timed *)

(** A word with a text, ending no earlier than it starts, not before [lo]. *)
Definition word_ok (lo : Z) (w : AsrWord) : Prop := aw_text w <> "" /\ lo <= aw_start_ms w <= aw_end_ms w.

Lemma imap_Forall {A B} (f : nat -> A -> B) (P : A -> Prop) (Q : B -> Prop) l :
  Forall P l -> (forall i x, P x -> Q (f i x)) -> Forall Q (imap f l).
Proof.
  intros Hl Hf. apply Forall_forall. intros y (i & x & -> & Hx)%elem_of_lookup_imap. apply Hf.
  rewrite Forall_forall in Hl. apply Hl. by eapply list_elem_of_lookup_2.
Qed.

Lemma spread_evenly_ok text clip_ms : starts_cont text = false -> Forall (word_ok 0) (spread_evenly text clip_ms).
Proof.
  intros [_ Hne]%split_whitespace_spec. unfold spread_evenly. cbn zeta. set (step := if _ : bool then _ else 0).
  assert (Hstep : 0 <= step) by (unfold step; destruct (_ <? _) eqn:E; [bool_to_prop; apply Z.div_pos; lia|lia]).
  eapply imap_Forall; [exact Hne|]. intros i w Hw. split; [done|]. cbn. destruct (_ =? _); nia.
Qed.

Lemma spread_blob_ok lo text words : starts_cont text = false -> lo <= 0 -> Forall (word_ok lo) words ->
  Forall (word_ok lo) (spread_blob text words).
Proof.
  intros [_ Hne]%split_whitespace_spec Hlo Hw. unfold spread_blob. cbn zeta.
  set (s := default 0 (aw_start_ms <$> head words)). set (step := Z.div _ _).
  assert (Hs : lo <= s) by (unfold s; destruct Hw as [|w ws [_ Hw] _]; cbn; lia).
  assert (Hstep : 0 <= step) by (unfold step; apply Z.div_pos; lia).
  eapply imap_Forall; [exact Hne|]. intros i w Hw'. split; [done|]. cbn. nia.
Qed.

Lemma add_tokens_ok lo tokens ts durations : lo <= 0 ->
  Forall (fun t => lo <= sec_to_ms t) ts -> Forall (word_ok lo) (bd_words (add_tokens tokens ts durations)).
Proof.
  intros Hlo Hts. unfold add_tokens. set (step := fun b x => _).
  set (inv := fun b => Forall (word_ok lo) (bd_words b) /\ (forall s, bd_start b = Some s -> lo <= s)).
  assert (Hflush : forall b, inv b -> inv (flush b)).
  { intros b [Hw Hs]. split; [|done]. unfold flush. cbn [bd_words]. unfold is_empty.
    destruct (String.eqb_spec (trim (bd_text b)) ""); [done|]. apply Forall_app. split; [done|]. repeat constructor; [done| |cbn; lia].
    cbn. destruct (bd_start b) as [s|]; [by apply Hs|done]. }
  assert (Hgen : forall l b, inv b -> Forall (fun x => lo <= sec_to_ms (snd (snd x))) l -> inv (foldl step b l)).
  { induction l as [|x l IH]; intros b Hb Hl; [done|]. apply Forall_cons in Hl as [Hx Hl]. cbn [foldl]. apply IH; [|done].
    unfold step, add_token. set (b' := if _ : bool then flush b else b).
    assert (Hb' : inv b') by (unfold b'; destruct (_ && _); [by apply Hflush|done]).
    destruct Hb' as [Hw Hs]. split; [done|]. cbn [bd_start]. intros s [= <-]. destruct (bd_start b') as [s|]; [by apply Hs|done]. }
  apply Hflush, Hgen; [by split|]. apply Forall_forall. intros x (k & p & -> & Hp)%elem_of_lookup_imap. cbn.
  apply list_elem_of_lookup_2 in Hp. destruct p as [t y]. apply elem_of_zip_r in Hp. rewrite Forall_forall in Hts. by apply Hts.
Qed.

Lemma build_words_timed lo text tokens timestamps durations clip_ms :
  starts_cont text = false -> lo <= 0 -> Forall (fun t => lo <= sec_to_ms t) (default [] timestamps) ->
  Forall (word_ok lo) (build_words text tokens timestamps durations clip_ms).
Proof.
  intros Htext Hlo Hts.
  assert (Hweak : Forall (word_ok lo) (spread_evenly text clip_ms)).
  { eapply Forall_impl; [by apply spread_evenly_ok|]. unfold word_ok. intros w [? ?]. split; [done|lia]. }
  unfold build_words. destruct timestamps as [ts|]; [|done]. destruct (_ || _); [done|]. cbn zeta.
  pose proof (add_tokens_ok lo tokens ts durations Hlo Hts) as Hok. destruct (_ && _); [by apply spread_blob_ok|done].
Qed.

(** Nothing the recognizer heard is lost in making words of it.  The words'
    texts, white space aside, are the tokens' without the marks that start
    words, in order; where there are no usable timings, or the tokens make a
    single blob of a text with several words, they are the words of the text.
    Every word has a text and ends no earlier than it starts, and none starts
    before the clip unless a token does. *)
Theorem build_words_spec lo text tokens timestamps durations clip_ms :
  starts_cont text = false -> Forall (fun t => starts_cont t = false) tokens -> lo <= 0 ->
  Forall (fun t => lo <= sec_to_ms t) (default [] timestamps) ->
  let words := build_words text tokens timestamps durations clip_ms in
  Forall (word_ok lo) words /\
  (flat_map squash (map aw_text words) = squash text \/
   exists ts, timestamps = Some ts /\ length tokens = length ts /\
     flat_map squash (map aw_text words) = flat_map (fun t => squash (clean_token t)) tokens).
Proof.
  intros Htext Htok Hlo Hts words. split; [by apply build_words_timed|]. destruct (split_whitespace_spec text Htext) as [Hsq _].
  assert (Hspread : flat_map squash (map aw_text (spread_evenly text clip_ms)) = squash text).
  { unfold spread_evenly. cbn zeta. rewrite (map_imap _ _ id) by done. by rewrite map_id. }
  unfold words, build_words. destruct timestamps as [ts|]; [|by left]. destruct (_ || _) eqn:E; [by left|].
  apply orb_false_iff in E as [_ E]. apply negb_false_iff, Nat.eqb_eq in E. cbn zeta. destruct (_ && _).
  - left. unfold spread_blob. cbn zeta. rewrite (map_imap _ _ id) by done. by rewrite map_id.
  - right. exists ts. split; [done|]. split; [done|]. by apply add_tokens_text.
Qed.

(** ** Gaps *)

(** When the last word of a prefix ends. *)
Definition said_until (ws : list AsrWord) : Z := foldl (fun m w => Z.max m (aw_end_ms w)) 0 ws.

Lemma said_until_spec ws : 0 <= said_until ws /\ Forall (fun w => aw_end_ms w <= said_until ws) ws /\
  forall a, 0 <= a -> Forall (fun w => aw_end_ms w <= a) ws -> said_until ws <= a.
Proof.
  unfold said_until. induction ws as [|w ws (H0 & Hall & Hle)] using rev_ind; [by split|]. rewrite foldl_snoc.
  split; [lia|]. split.
  - apply Forall_app. split; [|repeat constructor; lia]. eapply Forall_impl; [exact Hall|]. cbn. lia.
  - intros a Ha [Hws Hw]%Forall_app. apply Forall_cons in Hw as [Hw _]. apply Z.max_lub; [by apply Hle|done].
Qed.

Lemma gap_fold_spec gap_ms ws :
  snd (foldl (gap_before gap_ms) ([], 0) ws) = said_until ws /\
  forall g, g ∈ fst (foldl (gap_before gap_ms) ([], 0) ws) <->
    exists ws1 w ws2, ws = ws1 ++ w :: ws2 /\ gap_ms <= aw_start_ms w - said_until ws1 /\ g = (said_until ws1, aw_start_ms w).
Proof.
  induction ws as [|w ws [Hp Hin]] using rev_ind.
  - split; [done|]. intros g. split; [by intros ?%elem_of_nil|]. intros ([] & w & ws2 & Hw & _); done.
  - rewrite foldl_snoc. destruct (foldl _ _ ws) as [bounds prev]. cbn [fst snd] in *. subst prev. cbn [gap_before fst snd].
    split; [unfold said_until; by rewrite foldl_snoc|]. intros g.
    assert (Hsplit : (exists ws1 v ws2, ws ++ [w] = ws1 ++ v :: ws2 /\ gap_ms <= aw_start_ms v - said_until ws1 /\
        g = (said_until ws1, aw_start_ms v)) <->
      g ∈ bounds \/ (gap_ms <= aw_start_ms w - said_until ws /\ g = (said_until ws, aw_start_ms w))).
    { rewrite Hin. split.
      - intros (ws1 & v & ws2 & Heq & Hg & ->). destruct ws2 as [|u ws2 _] using rev_ind.
        + apply app_inj_tail in Heq as [-> ->]. by right.
        + left. rewrite app_comm_cons, app_assoc in Heq. apply app_inj_tail in Heq as [-> ->]. by exists ws1, v, ws2.
      - intros [(ws1 & v & ws2 & -> & Hg & ->)|[Hg ->]].
        + exists ws1, v, (ws2 ++ [w]). by rewrite <- app_assoc.
        + by exists ws, w, []. }
    rewrite Hsplit. destruct (gap_ms <=? _) eqn:E; bool_to_prop.
    + rewrite elem_of_app, list_elem_of_singleton. split; [intros [?| ->]; [by left|by right]|intros [?|[_ ->]]; [by left|by right]].
    + split; [by left|]. intros [|[? _]]; [done|lia].
Qed.

(** A stretch of the recording in which nobody says a word of [ws]. *)
Definition silent (ws : list AsrWord) (a b : Z) : Prop := Forall (fun w => aw_end_ms w <= a \/ b <= aw_start_ms w) ws.

Lemma gaps_spec gap_ms total_ms ws :
  0 < gap_ms -> StronglySorted (fun v w => aw_start_ms v <= aw_start_ms w) ws ->
  (forall g, g ∈ gaps gap_ms total_ms ws -> 0 <= fst g /\ gap_ms <= snd g - fst g /\ silent ws (fst g) (snd g)) /\
  (forall a b, 0 <= a -> b <= total_ms -> gap_ms <= b - a -> silent ws a b ->
    exists g, g ∈ gaps gap_ms total_ms ws /\ fst g <= a /\ b <= snd g).
Proof.
  intros Hgap Hsort. destruct (gap_fold_spec gap_ms ws) as [Hp Hin]. unfold gaps.
  destruct (foldl _ _ ws) as [bounds prev]. cbn [fst snd] in *. subst prev.
  assert (Hmem : forall g, g ∈ (if gap_ms <=? total_ms - said_until ws then bounds ++ [(said_until ws, total_ms)] else bounds) <->
    g ∈ bounds \/ (gap_ms <= total_ms - said_until ws /\ g = (said_until ws, total_ms))).
  { intros g. destruct (_ <=? _) eqn:E; bool_to_prop;
      [rewrite elem_of_app, list_elem_of_singleton; split; [intros [?| ->]; [by left|by right]|intros [?|[_ ->]]; [by left|by right]]|].
    split; [by left|]. intros [|[? _]]; [done|lia]. }
  split.
  - intros g. rewrite Hmem, Hin. intros [(ws1 & w & ws2 & -> & Hg & ->)|[Hg ->]]; cbn [fst snd].
    + destruct (said_until_spec ws1) as (H0 & Hall & _). split; [done|]. split; [done|].
      apply Forall_app. split; [eapply Forall_impl; [exact Hall|]; by left|].
      apply StronglySorted_app_1_r in Hsort. apply StronglySorted_inv in Hsort as [_ Hsort]. constructor; [right; lia|].
      eapply Forall_impl; [exact Hsort|]. cbn. by right.
    + destruct (said_until_spec ws) as (H0 & Hall & _). split; [done|]. split; [done|].
      eapply Forall_impl; [exact Hall|]. by left.
  - intros a b Ha Hb Hab Hsil. setoid_rewrite Hmem. setoid_rewrite Hin.
    destruct (decide (Forall (fun w => aw_end_ms w <= a) ws)) as [Hall|Hnot].
    + exists (said_until ws, total_ms). destruct (said_until_spec ws) as (_ & _ & Hle). specialize (Hle a Ha Hall).
      split; [right; split; [lia|done]|]. cbn. lia.
    + assert (Hfirst : exists ws1 w ws2, ws = ws1 ++ w :: ws2 /\ Forall (fun w => aw_end_ms w <= a) ws1 /\ b <= aw_start_ms w).
      { clear -Hsil Hnot. induction Hsil as [|w ws Hw Hsil IH]; [by destruct Hnot|].
        destruct (decide (aw_end_ms w <= a)) as [Hle|Hgt].
        - destruct IH as (ws1 & v & ws2 & -> & Hall & Hv); [intros H; apply Hnot; by constructor|].
          exists (w :: ws1), v, ws2. split; [done|]. split; [by constructor|done].
        - exists [], w, ws. split; [done|]. split; [done|]. by destruct Hw. }
      destruct Hfirst as (ws1 & w & ws2 & -> & Hall & Hw). destruct (said_until_spec ws1) as (_ & _ & Hle).
      specialize (Hle a Ha Hall). exists (said_until ws1, aw_start_ms w). cbn. split; [left|lia].
      exists ws1, w, ws2. split; [done|]. split; [lia|done].
Qed.

(** ** Recovery *)

Lemma word_le_total a b : word_le a b = true \/ word_le b a = true.
Proof. unfold word_le. rewrite !orb_true_iff, !andb_true_iff, !Z.ltb_lt, !Z.leb_le, !Z.eqb_eq. lia. Qed.

Lemma word_le_trans a b c : word_le a b = true -> word_le b c = true -> word_le a c = true.
Proof. unfold word_le. rewrite !orb_true_iff, !andb_true_iff, !Z.ltb_lt, !Z.leb_le, !Z.eqb_eq. lia. Qed.

Section recovery.
Context `{Recognizer} `{EnvVar}.

(** Gap recovery only adds.  The words it answers are those it was given
    and what the gaps gave; they are as they were when the gaps gave nothing,
    and sorted by start and end otherwise, and the text is theirs.  When the words given
    are in order, a stretch is decoded again only if it is at least the gap long
    and nobody says a word in it, and every such stretch of the recording is
    inside one that is. *)
Theorem recover_gaps_spec sr samples first t :
  let gap_ms := env_i64 "SCRIBE_ASR_GAP_MS" GAP_RECOVERY_MS in
  let total_ms := samples_to_ms (Z.of_nat (length samples)) sr in
  0 < gap_ms -> StronglySorted (fun v w => aw_start_ms v <= aw_start_ms w) (tr_words first) ->
  recover_gaps sr samples first = Ok t ->
  exists bounds extra, decode_gaps sr samples bounds = Ok extra /\ tr_words t ≡ₚ tr_words first ++ extra /\
    (if bool_decide (extra = []) then tr_words t = tr_words first
     else StronglySorted (fun a b => word_le a b = true) (tr_words t)) /\
    tr_text t = join " " (map aw_text (tr_words t)) /\
    (forall g, g ∈ bounds -> 0 <= fst g /\ gap_ms <= snd g - fst g /\ silent (tr_words first) (fst g) (snd g)) /\
    (forall a b, 0 <= a -> b <= total_ms -> gap_ms <= b - a -> silent (tr_words first) a b ->
      exists g, g ∈ bounds /\ fst g <= a /\ b <= snd g).
Proof.
  intros gap_ms total_ms Hgap Hsort. unfold recover_gaps. fold gap_ms. rewrite (proj2 (Z.leb_gt _ _)) by lia.
  fold total_ms. set (bounds := gaps _ _ _). destruct (decode_gaps sr samples bounds) as [extra|e] eqn:E; [|done].
  intros [= <-]. exists bounds, extra. cbn [tr_words tr_text]. destruct (gaps_spec gap_ms total_ms (tr_words first) Hgap Hsort) as [Hs Hc].
  split; [done|]. split; [case_bool_decide; [done|apply sort_by_perm]|]. split.
  - case_bool_decide as Hx; [by rewrite Hx, app_nil_r|]. apply sort_by_sorted; [apply word_le_total|apply word_le_trans].
  - split; [done|]. by split.
Qed.

(** ** The transcript *)

Lemma shift_word_ok offset_ms lo w : word_ok lo w -> word_ok (lo + offset_ms) (shift_word offset_ms w).
Proof. unfold word_ok, shift_word. cbn. intros [? ?]. split; [done|lia]. Qed.

(** What sherpa documents of a result: UTF-8 texts, times from the clip's start. *)
Definition documented (r : Recognizer) : Prop := forall sr l x, @recognize r sr l = Some x ->
  starts_cont (rr_text x) = false /\ Forall (fun t => 0 <= sec_to_ms t) (default [] (rr_timestamps x)).

Context (Hdoc : documented _).

Lemma decode_clip_ok sr samples offset_ms t :
  0 <= offset_ms -> decode_clip sr samples offset_ms = Ok t -> Forall (word_ok 0) (tr_words t).
Proof using Hdoc.
  intros Ho. unfold decode_clip. destruct (recognize sr samples) as [x|] eqn:E; [|done]. intros [= <-]. cbn [tr_words].
  destruct (Hdoc _ _ _ E) as [Ht Hts]. cbn zeta. set (clip_ms := if _ : bool then _ else 0).
  pose proof (build_words_timed 0 (rr_text x) (rr_tokens x) (rr_timestamps x) (rr_durations x) clip_ms Ht ltac:(lia) Hts) as Hw.
  destruct (offset_ms =? 0); [done|]. apply Forall_map. eapply Forall_impl; [exact Hw|].
  intros w Hok%(shift_word_ok offset_ms). unfold word_ok in *. cbn in *. split; [by apply Hok|lia].
Qed.

Lemma samples_to_ms_nonneg n sr : 0 <= n -> 0 <= sr -> 0 <= samples_to_ms n sr.
Proof. intros Hn Hs. unfold samples_to_ms. destruct (sr =? 0) eqn:E; [done|]. bool_to_prop. apply Z.quot_pos; lia. Qed.

Lemma ms_to_samples_nonneg ms sr : 0 <= ms_to_samples ms sr.
Proof. unfold ms_to_samples. destruct (_ <=? _); [done|]. apply as_usize_nonneg. Qed.

Lemma decode_passes_ok passes sr samples offset_ms acc cursor t :
  0 <= offset_ms -> 0 <= sr -> 0 <= cursor -> Forall (word_ok 0) (tr_words acc) ->
  decode_passes passes sr samples offset_ms acc cursor = Ok t -> Forall (word_ok 0) (tr_words t).
Proof using Hdoc.
  intros Ho Hsr. revert acc cursor. induction passes as [|passes IH]; intros acc cursor Hc Ha; cbn [decode_passes]; [by intros [= <-]|].
  destruct (decode_clip _ _ _) as [part|e] eqn:E; [|done]. cbn zeta.
  apply decode_clip_ok in E; [|pose proof (samples_to_ms_nonneg cursor sr); lia].
  assert (Ha' : Forall (word_ok 0) (tr_words (append_transcript acc part))) by (by apply Forall_app).
  destruct (last _) as [w|]; [|by intros [= <-]]. destruct (needs_recovery _ _ _ _); [|by intros [= <-]].
  apply IH; [apply ms_to_samples_nonneg|done].
Qed.

Lemma decode_span_ok sr samples offset_ms t :
  0 <= offset_ms -> 0 <= sr -> decode_span sr samples offset_ms = Ok t -> Forall (word_ok 0) (tr_words t).
Proof using Hdoc. intros Ho Hsr. apply decode_passes_ok; [done|done|lia|constructor]. Qed.

Lemma decode_all_ok sr samples ws acc t :
  0 <= sr -> Forall (fun w => 0 <= fst w) ws -> Forall (word_ok 0) (tr_words acc) ->
  decode_all sr samples ws acc = Ok t -> Forall (word_ok 0) (tr_words t).
Proof using Hdoc.
  intros Hsr Hws. revert acc. induction Hws as [|w ws Hw _ IH]; intros acc Ha; cbn [decode_all]; [by intros [= <-]|].
  destruct (decode_span _ _ _) as [part|e] eqn:E; [|done]. apply IH. apply Forall_app. split; [done|].
  eapply decode_span_ok; [|exact Hsr|exact E]. destruct (Z.eq_dec sr 0) as [->|]; [|apply Z.quot_pos; lia].
  by destruct (fst w * 1000).
Qed.

Lemma decode_gaps_ok sr samples bounds extra :
  0 <= sr -> Forall (fun g => 0 <= fst g) bounds -> decode_gaps sr samples bounds = Ok extra -> Forall (word_ok 0) extra.
Proof using Hdoc.
  intros Hsr Hb. revert extra. induction Hb as [|[a b] bounds Ha _ IH]; intros extra; cbn [decode_gaps]; [by intros [= <-]|].
  cbn zeta. destruct (_ <=? _); [apply IH|]. destruct (decode_span _ _ _) as [part|e] eqn:E; [|done].
  destruct (decode_gaps _ _ _) as [rest|e]; [|done]. intros [= <-]. apply Forall_app. split; [|by apply IH].
  eapply decode_span_ok; [exact Ha|exact Hsr|exact E].
Qed.

(** C34: Every word of a transcript can be placed.  Whatever the windows, the
    passes and the gaps, a word has a text, starts no earlier than the
    recording and ends no earlier than it starts, given that the recognizer's
    times count from the start of the clip it is handed. *)
Theorem transcribe_words_timed max_clip_ms file t :
  transcribe max_clip_ms file = Ok t -> (forall audio, read_wav file = Ok audio -> 0 <= sample_rate audio) ->
  Forall (fun w => aw_text w <> "" /\ 0 <= aw_start_ms w <= aw_end_ms w) (tr_words t).
Proof using Hdoc.
  unfold transcribe. destruct (read_wav file) as [audio|e]; [|done]. intros Ht Hsr. specialize (Hsr audio eq_refl).
  change (Forall (word_ok 0) (tr_words t)). unfold transcribe_audio in Ht.
  destruct (first_transcript _ _ _) as [first|e] eqn:E; [|done].
  assert (Hfirst : Forall (word_ok 0) (tr_words first)).
  { unfold first_transcript in E. destruct (_ || _) eqn:Ew; [eapply decode_span_ok; [|exact Hsr|exact E]; lia|].
    rewrite decode_windows_all in E. eapply decode_all_ok; [exact Hsr| | |exact E]; [|by constructor].
    apply orb_false_iff in Ew as [Ew _]. bool_to_prop. set (window := clip_window _ _) in *.
    assert (Hw : 0 < window) by (unfold window, clip_window in *; pose proof (as_usize_nonneg (Z.quot (env_i64 "SCRIBE_ASR_WINDOW_MS" max_clip_ms * sample_rate audio) 1000)); lia).
    destruct (cut_windows_spec (length (samples audio)) (samples audio) window 0 Hw) as [Hti _]; [lia..|].
    apply tiled_bounds in Hti as (_ & Hin & _). eapply Forall_impl; [exact Hin|]. cbn. lia. }
  unfold recover_gaps in Ht. destruct (_ <=? 0) eqn:Eg; [by injection Ht as <-|]. bool_to_prop.
  destruct (decode_gaps _ _ _) as [extra|e] eqn:Ex; [|done]. injection Ht as <-. cbn [tr_words].
  assert (Hextra : Forall (word_ok 0) extra).
  { eapply decode_gaps_ok; [exact Hsr| |exact Ex]. apply Forall_forall. intros g. unfold gaps.
    destruct (gap_fold_spec (env_i64 "SCRIBE_ASR_GAP_MS" GAP_RECOVERY_MS) (tr_words first)) as [Hp Hin].
    destruct (foldl _ _ (tr_words first)) as [bounds prev]. cbn [fst snd] in *. subst prev.
    assert (Hb : forall g, g ∈ bounds -> 0 <= fst g).
    { intros h (ws1 & w & ws2 & _ & _ & ->)%Hin. cbn. apply said_until_spec. }
    destruct (_ <=? _); [|apply Hb]. intros [Hg| ->%list_elem_of_singleton]%elem_of_app; [by apply Hb|]. cbn. apply said_until_spec. }
  case_bool_decide; [by apply Forall_app|]. rewrite sort_by_perm. by apply Forall_app.
Qed.
End recovery.

(** ** Witnesses *)

#[local] Existing Instances no_env.

(** It hears a word in a clip whose first sample is loud, at its start, and
    gives nothing when the clip is longer than 300 samples. *)
Definition hears_one : Recognizer := fun _ l =>
  Some (match l with
        | x :: _ => if fltb fzero x then mkRecognized "hi there" [word_mark +:+ "hi"; word_mark +:+ "the"; "re"]
            (Some [fzero; one; of_Z 2]) (Some [one; one; one]) else mkRecognized "" [] None None
        | [] => mkRecognized "" [] None None
        end).
Definition hears_short : Recognizer := fun sr l => if Z.of_nat (length l) <=? 300 then hears_one sr l else None.

Lemma sample_times : Forall (fun t => 0 <= sec_to_ms t) [fzero; one; of_Z 2].
Proof. repeat (apply Forall_cons; split; [vm_compute; discriminate|]). by apply Forall_nil. Qed.

(** Thirty-five seconds of sound at 10 Hz. *)
Definition sound : list f32 := repeat one 350.

Lemma first_transcript_spec_witness :
  @first_transcript hears_short _ TRANSDUCER_WINDOW_MS 10 sound = @first_transcript hears_one _ TRANSDUCER_WINDOW_MS 10 sound.
Proof.
  refine (proj1 (first_transcript_spec hears_short hears_one TRANSDUCER_WINDOW_MS 10 sound _ _)).
  - vm_compute. reflexivity.
  - intros l Hl. unfold recognize, hears_short. rewrite (proj2 (Z.leb_le _ _)); [done|exact Hl].
Defined.

Lemma build_words_spec_witness :
  build_words "hi there" [word_mark +:+ "hi"; word_mark +:+ "the"; "re"] (Some [fzero; one; of_Z 2]) None 3000 =
    [certain "hi" 0 0; certain "there" 1000 2000] /\
  Forall (word_ok 0) (build_words "hi there" [word_mark +:+ "hi"; word_mark +:+ "the"; "re"] (Some [fzero; one; of_Z 2]) None 3000).
Proof.
  split; [vm_compute; reflexivity|].
  refine (proj1 (build_words_spec 0 "hi there" [word_mark +:+ "hi"; word_mark +:+ "the"; "re"]
    (Some [fzero; one; of_Z 2]) None 3000 _ _ _ _)).
  - reflexivity.
  - repeat constructor.
  - discriminate.
  - apply sample_times.
Defined.

Definition sound_transcript : Transcript :=
  match @first_transcript hears_one _ TRANSDUCER_WINDOW_MS 10 sound with Ok t => t | Err _ => empty_transcript end.
Definition sound_recovered : Transcript :=
  match @recover_gaps hears_one _ 10 sound sound_transcript with Ok t => t | Err _ => empty_transcript end.

Lemma recover_gaps_spec_witness :
  length (tr_words sound_transcript) = 16%nat /\ length (tr_words sound_recovered) = 22%nat /\
  exists extra, tr_words sound_recovered ≡ₚ tr_words sound_transcript ++ extra.
Proof.
  split; [vm_compute; reflexivity|]. split; [vm_compute; reflexivity|].
  destruct (@recover_gaps_spec hears_one _ 10 sound sound_transcript sound_recovered) as (bounds & extra & _ & Hp & _).
  - vm_compute. reflexivity.
  - apply (bool_decide_unpack (StronglySorted (fun v w => aw_start_ms v <= aw_start_ms w) (tr_words sound_transcript))).
    vm_compute. exact I.
  - vm_compute. reflexivity.
  - exists extra. exact Hp.
Defined.

Lemma hears_one_documented : documented hears_one.
Proof.
  intros sr l x Hx. unfold recognize, hears_one in Hx. destruct l as [|y l]; [injection Hx as <-; by split|].
  destruct (fltb _ _); injection Hx as <-; [|by split]. split; [done|]. apply sample_times.
Qed.

Lemma transcribe_words_timed_witness :
  exists t, @transcribe hears_one _ TRANSDUCER_WINDOW_MS (Some (write_pcm16_mono 10 [1; 2; 3])) = Ok t /\
    map aw_text (tr_words t) = ["hi"; "there"] /\
    Forall (fun w => aw_text w <> "" /\ 0 <= aw_start_ms w <= aw_end_ms w) (tr_words t).
Proof.
  destruct (@transcribe hears_one _ TRANSDUCER_WINDOW_MS (Some (write_pcm16_mono 10 [1; 2; 3]))) as [t|e] eqn:E.
  - exists t. split; [reflexivity|]. split; [vm_compute in E; injection E as <-; reflexivity|].
    refine (@transcribe_words_timed hears_one _ hears_one_documented TRANSDUCER_WINDOW_MS _ t E _).
    intros audio Ha. vm_compute in Ha. injection Ha as <-. discriminate.
  - exfalso. vm_compute in E. discriminate.
Defined.

(** ** Gaps are not windowed *)

(** The windows keep every clip within what the model bears, but a gap is
    decoded whole: of a silent minute the first pass is fine, and its recovery
    hands the recognizer the whole minute, twice the window. *)
Example gap_exceeds_window :
  @first_transcript hears_short _ TRANSDUCER_WINDOW_MS 10 (repeat fzero 600) = Ok empty_transcript /\
  @transcribe_audio hears_short _ TRANSDUCER_WINDOW_MS (mkWav 10 1 (repeat fzero 600)) =
    Err (Model "OfflineRecognizer produced no result").
Proof. split; vm_compute; reflexivity. Qed.
