(* ===== verification/Config.v ===== *)
(** * Configuration: [crates/scribe-core/src/config.rs]

    The sections every subcommand shares, their defaults, the thread count of
    the speech models, the stages a worker takes, and the paths that are made
    absolute once at load.  Reading TOML and the environment into a [Config] is
    figment's, and a parameter. *)

From Stdlib Require Import SpecFloat Bool Ascii String.
From S2P Require Import Prelude RustStr Types F32 Llm.

Module Config.

Inductive RestartMode := SelfExec | Supervisor.

Record DatabaseConfig := mkDatabase { url : string; max_connections : Z }.
Record StorageConfig := mkStorage { blobs : string; signing_secret : string; signed_url_ttl_secs : Z }.
Record ApiConfig := mkApi {
  bind : string; tus_upstream : option string; max_segment_bytes : Z; public_base_url : string; advertise_lan : bool;
}.
Record AuthConfig := mkAuth {
  device_keys : option string; require_device_token : bool; trust_tailscale_identity : bool; tailnet_users : list string;
}.
Record AsrConfig := mkAsr {
  model : string; diarization : bool; device : string; remove_fillers : bool; filler_words : list string;
  hotwords_file : option string; hotwords_score : f32; bpe_vocab : option string; num_threads : Z;
}.
Record WorkerConfig := mkWorker {
  stages : list string; concurrency : Z; models_dir : string; heartbeat_secs : Z; poll_secs : Z; max_attempts : Z;
}.
Record LlmConfig := mkLlm {
  provider : LlmProvider; base_url : string; api_key : option string; summarize_model : string;
  summary_template : string; embed_model : string; embed_dim : Z; correct_transcript : bool; max_prompt_chars : Z;
}.
Record UpdateConfig := mkUpdate {
  enabled : bool; token : option string; public_key : option string; restart : RestartMode; staging_dir : string;
  binary_path : option string; allow_downgrade : bool; allow_target_mismatch : bool; restart_delay_ms : Z;
}.
Record Config := mkConfig {
  database : DatabaseConfig; storage : StorageConfig; api : ApiConfig; auth : AuthConfig; asr : AsrConfig;
  worker : WorkerConfig; llm : LlmConfig; update : UpdateConfig;
}.

(** ** Defaults *)

Definition default_filler_words : list string :=
  ["uh"; "uhh"; "um"; "umm"; "uhm"; "er"; "err"; "erm"; "ah"; "ahh"; "hmm"; "hm"; "mm"; "mmm"; "mhm"; "eh"; "uhhuh"].

Definition default_database : DatabaseConfig := mkDatabase "postgres://scribe@localhost/scribe" 10.
Definition default_storage : StorageConfig := mkStorage "/var/lib/scribe/blobs" "change-me-in-production" 600.
Definition default_api : ApiConfig := mkApi "127.0.0.1:8443" None (16 * 1024 * 1024) "http://127.0.0.1:8443" false.
Definition default_auth : AuthConfig := mkAuth None false false [].
Definition default_asr : AsrConfig :=
  mkAsr "parakeet-tdt-0.6b-v3" true "cpu" true default_filler_words None (of_Z 2) None 0.
Definition default_worker : WorkerConfig := mkWorker ["all"] 1 "/var/lib/scribe/models" 15 5 5.
Definition default_llm : LlmConfig :=
  mkLlm Ollama "http://127.0.0.1:11434" None "gemma3:27b" "general" "nomic-embed-text" 768 true 18000.
Definition default_update : UpdateConfig :=
  mkUpdate false None None SelfExec "/var/lib/scribe/updates" None false false 750.
Definition default_config : Config :=
  mkConfig default_database default_storage default_api default_auth default_asr default_worker default_llm default_update.

(** ** Threads *)

Definition MAX_AUTO_ASR_THREADS : Z := 16.
Definition THREAD_HEADROOM_DIVISOR : Z := 8.

Definition auto_threads (cores : Z) : Z :=
  if cores <=? 2 then Z.max cores 1
  else Z.max 1 (Z.min (cores - (cores / THREAD_HEADROOM_DIVISOR + 1)) MAX_AUTO_ASR_THREADS).

(** [x as i32] *)
Definition as_i32 (x : Z) : Z := let v := wrap 32 x in if 2 ^ 31 <=? v then v - 2 ^ 32 else v.

(** [available_parallelism], which can fail. *)
Definition resolved_num_threads (cfg : AsrConfig) (available_parallelism : option Z) : Z :=
  if 0 <? num_threads cfg then as_i32 (num_threads cfg) else auto_threads (default 2 available_parallelism).

(** ** Stages *)

Definition effective_stages (cfg : Config) : list JobKind :=
  if existsb (fun s => eq_ignore_ascii_case s "all") (stages (worker cfg)) then JobKind.ALL
  else omap (fun s => match JobKind.from_str s with Ok k => Some k | Err _ => None end) (stages (worker cfg)).

(** ** Paths *)

Fixpoint split_slash (cur : string) (s : string) : list string :=
  match s with
  | EmptyString => [cur]
  | String a s' => if Ascii.eqb a "/"%char then cur :: split_slash "" s' else split_slash (cur +:+ String a "") s'
  end.

(** [path.components()], the root and a leading [.] aside. *)
Definition components (p : string) : list string :=
  bfilter (fun c => negb (is_empty c) && negb (String.eqb c ".")) (split_slash "" p).

Definition is_absolute (p : string) : bool := match p with String "/"%char _ => true | _ => false end.
Definition ends_with_slash (p : string) : bool := negb (String.eqb (trim_end_matches (String.eqb "/") p) p).

(** [std::path::absolute] on Unix: the file system is not asked, only the
    current directory, which may be gone. *)
Definition absolute (cwd : option string) (p : string) : option string :=
  if is_empty p then None
  else
    base ← (if is_absolute p
            then Some (if bool_decide (is_Some (strip_prefix "//" p)) && negb (bool_decide (is_Some (strip_prefix "///" p)))
                       then "//" else "/")
            else cwd);
    let joined := foldl storage.path_join base (components p) in
    Some (if ends_with_slash p then storage.path_join joined "" else joined).

Definition abs (cwd : option string) (p : string) : string := default p (absolute cwd p).

Definition normalize_paths (cwd : option string) (cfg : Config) : Config :=
  mkConfig (database cfg)
    (mkStorage (abs cwd (blobs (storage cfg))) (signing_secret (storage cfg)) (signed_url_ttl_secs (storage cfg)))
    (api cfg) (auth cfg) (asr cfg)
    (mkWorker (stages (worker cfg)) (concurrency (worker cfg)) (abs cwd (models_dir (worker cfg)))
      (heartbeat_secs (worker cfg)) (poll_secs (worker cfg)) (max_attempts (worker cfg)))
    (llm cfg)
    (mkUpdate (enabled (update cfg)) (token (update cfg)) (public_key (update cfg)) (restart (update cfg))
      (abs cwd (staging_dir (update cfg))) (abs cwd <$> binary_path (update cfg))
      (allow_downgrade (update cfg)) (allow_target_mismatch (update cfg)) (restart_delay_ms (update cfg))).

(** ** Loading *)

(** What figment makes of the defaults, a TOML file and [SCRIBE_] variables,
    the last of which win; the current directory; and whether a file exists. *)
Class Figment := {
  extract : Config -> option string -> result string Config;
  current_dir : option string;
  config_exists : string -> bool;
  display_path : string -> string;
}.

Definition load `{Figment} (path : option string) : result Error Config :=
  let missing := match path with Some p => negb (config_exists p) | None => false end in
  if missing then Err (Types.Config ("config file does not exist: " +:+ display_path (default "" path)))
  else
    match extract default_config path with
    | Err e => Err (Types.Config ("invalid configuration: " +:+ e))
    | Ok cfg => Ok (normalize_paths current_dir cfg)
    end.

(** ** What is promised *)

(** A machine is neither starved nor oversubscribed.  With any number of
    cores the default thread count is at least one, never above the number of
    cores nor above the cap, and more cores never mean fewer threads. *)
Theorem auto_threads_spec cores :
  1 <= cores ->
  1 <= auto_threads cores <= Z.min cores MAX_AUTO_ASR_THREADS /\
  (forall fewer, 1 <= fewer <= cores -> auto_threads fewer <= auto_threads cores) /\
  (2 < cores -> auto_threads cores < cores).
Proof.
  intros Hc. unfold auto_threads, MAX_AUTO_ASR_THREADS, THREAD_HEADROOM_DIVISOR.
  split; [destruct (cores <=? 2) eqn:E; bool_to_prop; divlia|]. split.
  - intros fewer Hf. destruct (cores <=? 2) eqn:E, (fewer <=? 2) eqn:E'; bool_to_prop; divlia.
  - intros H2. rewrite (proj2 (Z.leb_gt _ _)) by lia. divlia.
Qed.

Lemma auto_threads_spec_witness : auto_threads 15 = 13 /\ 1 <= auto_threads 64 <= Z.min 64 MAX_AUTO_ASR_THREADS.
Proof. split; [reflexivity|]. destruct (auto_threads_spec 64) as [H _]; [lia|exact H]. Defined.

(** Every stage of a configuration is one of the known ones, each is taken when
    ["all"] is among them, and unknown names are passed over. *)
Lemma effective_stages_elem cfg k :
  k ∈ effective_stages cfg <->
  (exists s, s ∈ stages (worker cfg) /\ eq_ignore_ascii_case s "all" = true) \/
  (exists s, s ∈ stages (worker cfg) /\ JobKind.from_str s = Ok k).
Proof.
  unfold effective_stages. destruct (existsb _ _) eqn:E.
  - apply existsb_elem in E as (s & Hs & He). split; [intros _; left; eauto|]. intros _. apply JobKind_ALL_complete.
  - assert (Hno : ~ exists s, s ∈ stages (worker cfg) /\ eq_ignore_ascii_case s "all" = true).
    { intros (s & Hs & He). enough (existsb (fun s => eq_ignore_ascii_case s "all") (stages (worker cfg)) = true) by congruence.
      apply existsb_elem. eauto. }
    rewrite list_elem_of_omap. split; [|intros [Hall|Hs]; [done|]].
    + intros (s & Hs & Hk). right. exists s. split; [done|]. destruct (JobKind.from_str s); [by injection Hk as ->|done].
    + destruct Hs as (s & Hs & Hk). exists s. split; [done|]. by rewrite Hk.
Qed.

Example normalize_relative : abs (Some "/srv/scribe") "./blobs//today/" = "/srv/scribe/blobs/today/".
Proof. reflexivity. Qed.
Example normalize_absolute : abs (Some "/srv/scribe") "/var/lib/scribe/blobs" = "/var/lib/scribe/blobs".
Proof. reflexivity. Qed.
End Config.
