(* ===== verification/F32Exact.v ===== *)
(** * Where binary32 is exact

    Multiples of [2^g] whose factor fits 24 bits are represented as they are,
    and their sums, as long as they fit, are not rounded.  So sums of such
    numbers do not depend on their order. *)

From Stdlib Require Import SpecFloat Bool.
From S2P Require Import Prelude Types F32.

Lemma digits2_log2 m : Z.pos (digits2_pos m) = Z.log2 (Z.pos m) + 1.
Proof.
  induction m as [m IH|m IH|]; [| |done]; cbn [digits2_pos]; rewrite Pos2Z.inj_succ, IH.
  - rewrite (Pos2Z.inj_xI m), Z.log2_succ_double; lia.
  - rewrite (Pos2Z.inj_xO m), Z.log2_double; lia.
Qed.

Lemma shift_digits m n : 0 <= n -> Z.log2 (Z.pos m * 2 ^ n) = Z.log2 (Z.pos m) + n.
Proof. intros Hn. rewrite Z.log2_mul_pow2; lia. Qed.

Lemma iter_xO m d : Z.pos (Pos.iter xO m d) = Z.pos m * 2 ^ Z.pos d.
Proof.
  induction d as [|d IH] using Pos.peano_ind; [cbn; lia|].
  rewrite Pos.iter_succ, Pos2Z.inj_xO, IH, Pos2Z.inj_succ, Z.pow_succ_r by lia. lia.
Qed.

Lemma iter_pos_comm {A} (f : A -> A) (n : positive) (x : A) : f (SpecFloat.iter_pos f n x) = SpecFloat.iter_pos f n (f x).
Proof. revert x. induction n as [n IH|n IH|]; intros x; cbn [SpecFloat.iter_pos]; by rewrite ?IH. Qed.

Lemma iter_pos_succ {A} (f : A -> A) (n : positive) (x : A) : SpecFloat.iter_pos f (Pos.succ n) x = SpecFloat.iter_pos f n (f x).
Proof.
  revert x. induction n as [n IH|n IH|]; intros x; cbn [Pos.succ SpecFloat.iter_pos]; [|done|done].
  change (Pos.succ n~1) with (Pos.succ n)~0%positive. cbn [SpecFloat.iter_pos]. by rewrite !IH, iter_pos_comm.
Qed.

(** Zeros that are shifted out leave nothing behind. *)
Lemma shr_exact m p : SpecFloat.iter_pos shr_1 p (Build_shr_record (Z.pos m * 2 ^ Z.pos p) false false) = Build_shr_record (Z.pos m) false false.
Proof.
  induction p as [|p IH] using Pos.peano_ind.
  - replace (Z.pos m * 2 ^ 1) with (Z.pos m~0) by lia. done.
  - rewrite iter_pos_succ. rewrite Pos2Z.inj_succ, Z.pow_succ_r by lia.
    replace (Z.pos m * (2 * 2 ^ Z.pos p)) with (2 * (Z.pos m * 2 ^ Z.pos p)) by lia.
    destruct (Z.pos m * 2 ^ Z.pos p) as [|q|q] eqn:E; [lia| |lia]. cbn. exact IH.
Qed.

(** A normal number: 24 digits, and an exponent in range. *)
Definition normal (m : positive) (e : Z) : Prop := Z.log2 (Z.pos m) = 23 /\ -149 <= e <= 104.

Lemma fexp_normal m e : normal m e -> fexp F32_PREC F32_EMAX (Z.pos (digits2_pos m) + e) = e.
Proof. intros [Hm He]. unfold fexp, SpecFloat.emin, F32_PREC, F32_EMAX. rewrite digits2_log2. lia. Qed.

Lemma round_aux_normal s m e : normal m e -> binary_round_aux F32_PREC F32_EMAX s (Z.pos m) e loc_Exact = S754_finite s m e.
Proof.
  intros Hn. unfold binary_round_aux, shr_fexp. cbn [Zdigits2]. rewrite (fexp_normal _ _ Hn), Z.sub_diag.
  cbn [shr shr_record_of_loc loc_of_shr_record shr_m round_nearest_even Zdigits2]. rewrite (fexp_normal _ _ Hn), Z.sub_diag.
  cbn [shr shr_m]. destruct Hn as [_ He]. unfold F32_PREC, F32_EMAX. by rewrite (proj2 (Z.leb_le e _)) by lia.
Qed.

(** A number that is a normal one, written with another exponent. *)
Lemma binary_round_exact s m e m' e' :
  normal m' e' -> (e' <= e -> Z.pos m' = Z.pos m * 2 ^ (e - e')) -> (e <= e' -> Z.pos m = Z.pos m' * 2 ^ (e' - e)) ->
  binary_round F32_PREC F32_EMAX s m e = S754_finite s m' e'.
Proof.
  intros Hn Hup Hdown. unfold binary_round.
  assert (Hfexp : fexp F32_PREC F32_EMAX (Z.pos (digits2_pos m) + e) = e').
  { rewrite digits2_log2. rewrite <- (fexp_normal m' e' Hn), digits2_log2. f_equal. destruct (Z.le_ge_cases e' e) as [H|H].
    - rewrite Hup, shift_digits by lia. lia.
    - rewrite Hdown, shift_digits by lia. lia. }
  rewrite Hfexp. unfold shl_align. destruct (e' - e) as [|d|d] eqn:Hd.
  - assert (e' = e) as -> by lia. specialize (Hup ltac:(lia)). rewrite Z.sub_diag, Z.pow_0_r, Z.mul_1_r in Hup.
    injection Hup as ->. by apply round_aux_normal.
  - specialize (Hdown ltac:(lia)). rewrite ?Hd in Hdown. unfold binary_round_aux, shr_fexp. cbn [Zdigits2]. rewrite Hfexp, Hd.
    cbn [shr shr_record_of_loc]. rewrite Hdown, shr_exact. cbn [loc_of_shr_record shr_m round_nearest_even Zdigits2].
    replace (e + Z.pos d) with e' by lia. rewrite (fexp_normal _ _ Hn), Z.sub_diag. cbn [shr shr_m shr_record_of_loc].
    destruct Hn as [_ He]. unfold F32_PREC, F32_EMAX. by rewrite (proj2 (Z.leb_le e' _)) by lia.
  - specialize (Hup ltac:(lia)). replace (e - e') with (Z.pos d) in Hup by lia.
    assert (Pos.iter xO m d = m') as -> by (apply Pos2Z.inj; by rewrite iter_xO). by apply round_aux_normal.
Qed.

(** ** Multiples of [2^g] *)

(** [k * 2^g] *)
Definition fixed (g k : Z) : f32 := binary_normalize F32_PREC F32_EMAX k g false.

Definition fits (k : Z) : Prop := Z.abs k < 2 ^ 24.

Section fixed.
Context (g : Z) (Hg : -126 <= g <= 80).

Definition mant (p : positive) : positive := Z.to_pos (Z.pos p * 2 ^ (23 - Z.log2 (Z.pos p))).
Definition expo (p : positive) : Z := Z.log2 (Z.pos p) + g - 23.

Lemma log2_fits p : Z.pos p < 2 ^ 24 -> 0 <= Z.log2 (Z.pos p) <= 23.
Proof. intros H. split; [apply Z.log2_nonneg|]. apply Z.log2_lt_pow2 in H; lia. Qed.

Lemma mant_pos p : Z.pos p < 2 ^ 24 -> Z.pos (mant p) = Z.pos p * 2 ^ (23 - Z.log2 (Z.pos p)).
Proof. intros Hp. unfold mant. rewrite Z2Pos.id; [done|]. apply Z.mul_pos_pos; [lia|]. apply Z.pow_pos_nonneg; [lia|]. apply log2_fits in Hp. lia. Qed.

Lemma mant_normal p : Z.pos p < 2 ^ 24 -> normal (mant p) (expo p).
Proof.
  intros Hp. pose proof (log2_fits p Hp). split; [|unfold expo; lia]. rewrite mant_pos, shift_digits by (try done; lia). lia.
Qed.

(** Written with any exponent that is low enough. *)
Lemma round_fixed s p m e : Z.pos p < 2 ^ 24 -> e <= g -> Z.pos m = Z.pos p * 2 ^ (g - e) ->
  binary_round F32_PREC F32_EMAX s m e = S754_finite s (mant p) (expo p).
Proof.
  intros Hp He Hm. pose proof (log2_fits p Hp) as Hl. apply binary_round_exact; [by apply mant_normal| |]; intros Hle; unfold expo in *.
  - rewrite mant_pos, Hm by done. rewrite <- Z.mul_assoc, <- Z.pow_add_r by lia. do 2 f_equal. lia.
  - rewrite mant_pos, Hm by done. rewrite <- Z.mul_assoc, <- Z.pow_add_r by lia. do 2 f_equal. lia.
Qed.

Lemma fixed_finite k : fits k -> fixed g k =
  match k with 0 => S754_zero false | Zpos p => S754_finite false (mant p) (expo p) | Zneg p => S754_finite true (mant p) (expo p) end.
Proof.
  unfold fits, fixed. intros Hk. destruct k as [|p|p]; cbn [binary_normalize]; [done| |]; apply round_fixed; try lia; by rewrite Z.sub_diag, Z.mul_1_r.
Qed.

(** The mantissa on a common exponent. *)
Lemma aligned p ez : Z.pos p < 2 ^ 24 -> ez <= expo p ->
  Z.pos (fst (shl_align (mant p) (expo p) ez)) = Z.pos p * 2 ^ (g - ez).
Proof.
  intros Hp He. pose proof (log2_fits p Hp) as Hl. unfold shl_align. destruct (ez - expo p) as [|d|d] eqn:E; cbn [fst]; [|lia|].
  - rewrite mant_pos by done. do 2 f_equal. unfold expo in *. lia.
  - rewrite iter_xO, mant_pos by done. rewrite <- Z.mul_assoc, <- Z.pow_add_r by (unfold expo in *; lia). do 2 f_equal. unfold expo in *. lia.
Qed.

Lemma normalize_fixed k e : fits k -> e <= g -> binary_normalize F32_PREC F32_EMAX (k * 2 ^ (g - e)) e false = fixed g k.
Proof.
  intros Hk He. rewrite (fixed_finite k Hk). unfold fits in Hk. assert (Hpow : 0 < 2 ^ (g - e)) by (apply Z.pow_pos_nonneg; lia).
  destruct k as [|p|p]; cbn [binary_normalize]; [by rewrite Z.mul_0_l| |].
  - destruct (Z.pos p * 2 ^ (g - e)) as [|m|m] eqn:E; [lia| |lia]. cbn [binary_normalize]. by apply round_fixed; [lia|lia|].
  - destruct (Z.neg p * 2 ^ (g - e)) as [|m|m] eqn:E; [lia|lia|]. cbn [binary_normalize]. apply round_fixed; [lia|lia|].
    rewrite <- (Pos2Z.opp_neg p). lia.
Qed.

(** Sums that fit are exact. *)
Lemma fadd_fixed a b : fits a -> fits b -> fits (a + b) -> fadd (fixed g a) (fixed g b) = fixed g (a + b).
Proof.
  intros Ha Hb Hab. rewrite (fixed_finite a Ha), (fixed_finite b Hb). unfold fits in *.
  destruct a as [|p|p], b as [|q|q]; cbn [fadd SFadd Bool.eqb]; try (unfold fadd; cbn [SFadd]; rewrite fixed_finite by done; done).
  all: unfold fadd; cbn [SFadd]; set (ez := Z.min (expo p) (expo q)).
  all: rewrite !aligned by (try lia; unfold ez; lia).
  all: assert (ez <= g) by (pose proof (log2_fits p); unfold ez, expo in *; lia).
  all: cbn [cond_Zopp].
  all: match goal with |- binary_normalize _ _ ?s _ _ = fixed g ?k => replace s with (k * 2 ^ (g - ez)) by lia end.
  all: by apply normalize_fixed.
Qed.
End fixed.

(** A sum of numbers of which every part fits. *)
Lemma foldl_fixed g l k : -126 <= g <= 80 -> Z.abs k + zsum (map Z.abs l) < 2 ^ 24 ->
  foldl fadd (fixed g k) (map (fixed g) l) = fixed g (k + zsum l).
Proof.
  intros Hg. revert k. induction l as [|a l IH]; intros k Hk; cbn [foldl map]; [by rewrite Z.add_0_r|].
  change (zsum (map Z.abs (a :: l))) with (Z.abs a + zsum (map Z.abs l)) in Hk. change (zsum (a :: l)) with (a + zsum l).
  assert (0 <= zsum (map Z.abs l)) by (clear; induction l; cbn [map zsum foldr]; unfold zsum in *; lia).
  rewrite fadd_fixed by (try done; unfold fits; lia). rewrite IH by lia. f_equal. lia.
Qed.
