(* ===== verification/TextEmbed.v ===== *)
(** * Text embedders: [crates/scribe-llm/src/embed.rs], [scribe-pipeline/src/engines.rs]

    The backend a build has, the hash embedder that stands in for a model, and
    the slot that builds an embedder when it is first wanted.  The neural
    runtime and the standard library's hasher are parameters. *)

From Stdlib Require Import SpecFloat Bool Ascii String.
From S2P Require Import Prelude RustStr Types Llm F32 F32Exact Config Merge MergeProps.

#[local] Arguments String.append !_ _ /.

(** ** The neural backend *)

Inductive EmbeddingModel :=
| NomicEmbedTextV15
| AllMiniLML6V2
| BGESmallENV15
| BGEBaseENV15
| MultilingualE5Large.

(** fastembed: loading, which may download; embedding; and why the blocking
    task that embeds was lost, when it was. *)
Class FastEmbed := {
  TextEmbedding : Type;
  try_new : EmbeddingModel -> result string TextEmbedding;
  model_embed : TextEmbedding -> list string -> result string (list (list f32));
  task_lost : TextEmbedding -> list string -> option string;
}.

Module real.
Definition one_of (names : list string) (s : string) : bool := existsb (String.eqb s) names.

Definition resolve_model (id : string) : EmbeddingModel :=
  let norm := to_ascii_lowercase (trim id) in
  if one_of ["nomic-embed-text"; "nomic-embed-text-v1.5"; "nomicembedtextv15"] norm then NomicEmbedTextV15
  else if one_of ["all-minilm-l6-v2"; "allminilml6v2"] norm then AllMiniLML6V2
  else if one_of ["bge-small-en-v1.5"; "bgesmallenv15"] norm then BGESmallENV15
  else if one_of ["bge-base-en-v1.5"; "bgebaseenv15"] norm then BGEBaseENV15
  else if one_of ["multilingual-e5-large"; "multilinguale5large"] norm then MultilingualE5Large
  else if one_of ["qwen3-embedding-0.6b"] norm then NomicEmbedTextV15
  else NomicEmbedTextV15.

Section fast.
Context `{FastEmbed}.

Record FastEmbedder := mkFastEmbedder { fe_model : TextEmbedding; fe_dim : Z; fe_model_id : string }.

(** The width is that of one probe. *)
Definition new (cfg : Config.LlmConfig) : result Error FastEmbedder :=
  match try_new (resolve_model (Config.embed_model cfg)) with
  | Err e => Err (Model ("loading fastembed model failed: " +:+ e))
  | Ok model =>
      match model_embed model ["dimension probe"] with
      | Err e => Err (Model ("fastembed dimension probe failed: " +:+ e))
      | Ok [] => Err (Model "fastembed returned no probe vector")
      | Ok (v :: _) => Ok (mkFastEmbedder model (Z.of_nat (length v)) (Config.embed_model cfg))
      end
  end.

Definition embed_with (e : FastEmbedder) (texts : list string) : result Error (list (list f32)) :=
  match texts with
  | [] => Ok []
  | _ =>
      match task_lost (fe_model e) texts with
      | Some why => Err (Model ("embedding task panicked/cancelled: " +:+ why))
      | None =>
          match model_embed (fe_model e) texts with
          | Ok vs => Ok vs
          | Err why => Err (Model ("fastembed `" +:+ fe_model_id e +:+ "` embed failed: " +:+ why))
          end
      end
  end.

Definition embedder (e : FastEmbedder) : Embedder := {| embed := embed_with e; dim := fe_dim e |}.
End fast.
End real.

(** ** The hash backend *)

(** [DefaultHasher] fed with one [str]. *)
Class StrHash := default_hash : string -> Z.

Module stub.
Record HashEmbedder := mkHashEmbedder { he_dim : Z }.

Definition new (dim : Z) : HashEmbedder := mkHashEmbedder (Z.max dim 1).

Section hash.
Context `{CharAlnum} `{StrHash}.

(** What a hasher finishes with is a [u64]. *)
Definition stable_hash (s : string) : Z := wrap 64 (default_hash s).

Definition tokens (text : string) : list string :=
  bfilter (fun t => negb (is_empty t)) (split_by (fun c => negb (is_alphanumeric c)) text).

Definition bucket (dim h : Z) : Z := h mod dim.
Definition sign (h : Z) : f32 := if Z.land (Z.shiftr h 1) 1 =? 0 then of_Z 1 else of_Z (-1).
Definition weight (h : Z) : f32 := fadd (of_Z 1) (fdiv (of_Z (Z.land (Z.shiftr h 2) 7)) (of_Z 8)).

(** One turn of the loop: [v[idx] += sign * weight]. *)
Definition add_token (dim : Z) (v : list f32) (token : string) : list f32 :=
  let h := stable_hash (to_ascii_lowercase token) in
  let idx := Z.to_nat (bucket dim h) in
  match v !! idx with
  | Some x => <[idx := fadd x (fmul (sign h) (weight h))]> v
  | None => v
  end.

Definition l2_norm (v : list f32) : f32 := fsqrt (fsum (map (fun x => fmul x x) v)).

Definition l2_normalize (v : list f32) : list f32 :=
  let norm := l2_norm v in
  if fltb fzero norm then map (fun x => fdiv x norm) v else v.

Definition embed_text (e : HashEmbedder) (text : string) : list f32 :=
  let v := replicate (Z.to_nat (he_dim e)) fzero in
  let v := foldl (add_token (he_dim e)) v (tokens text) in
  let v := if bool_decide (tokens text = []) then <[0%nat := of_Z 1]> v else v in
  l2_normalize v.

Definition embedder (e : HashEmbedder) : Embedder :=
  {| embed := fun texts => Ok (map (embed_text e) texts); dim := he_dim e |}.
End hash.
End stub.

(** ** The one a build has *)

Section build.
Context `{FastEmbed} `{CharAlnum} `{StrHash}.

(** [local_embed] is the build's feature. *)
Definition backend (local_embed : bool) (cfg : Config.LlmConfig) : result Error Embedder :=
  if local_embed then
    match real.new cfg with Err e => Err e | Ok e => Ok (real.embedder e) end
  else Ok (stub.embedder (stub.new (Config.embed_dim cfg))).

Definition build_embedder (local_embed : bool) (cfg : Config.LlmConfig) : result Error Embedder :=
  match backend local_embed cfg with
  | Err e => Err e
  | Ok embedder =>
      let got := @dim embedder in
      if negb (got =? Config.embed_dim cfg) then
        Err (Types.Config ("embedding dimension mismatch: model `" +:+ Config.embed_model cfg +:+ "` produces " +:+ pretty got
          +:+ "-dim vectors but config embed_dim = " +:+ pretty (Config.embed_dim cfg)
          +:+ " (must match the chunks.embedding column width)"))
      else Ok embedder
  end.
End build.

(** ** Built when first wanted *)

Record LazyEmbedder := mkLazyEmbedder { le_cfg : Config.LlmConfig; le_cached : option Embedder }.

Definition new_lazy (cfg : Config.Config) : LazyEmbedder := mkLazyEmbedder (Config.llm cfg) None.

(** One call, under the lock; the runtime is what it is at that moment, since
    building may have to download. *)
Definition get_embedder `{FastEmbed} `{CharAlnum} `{StrHash} (local_embed : bool) : M LazyEmbedder Error Embedder := fun slot =>
  match le_cached slot with
  | Some e => (Ok e, slot)
  | None =>
      match build_embedder local_embed (le_cfg slot) with
      | Err e =>
          (Err (Model ("the text embedder is not ready (" +:+ Error.to_string e +:+ "). fastembed downloads `"
            +:+ Config.embed_model (le_cfg slot) +:+ "` from Hugging Face on first use, so this job will retry.")), slot)
      | Ok built => (Ok built, mkLazyEmbedder (le_cfg slot) (Some built))
      end
  end.

(** ** A bag of words

    The accumulated numbers are multiples of an eighth that fit binary32, so
    the sums are exact and the order of tokens does not matter. *)

Section bag.
Context `{CharAlnum} `{StrHash}.
Import stub.

(** What a token adds, in eighths. *)
Definition eighths (h : Z) : Z :=
  (if Z.land (Z.shiftr h 1) 1 =? 0 then 1 else -1) * (8 + Z.land (Z.shiftr h 2) 7).

Definition share (dim i : Z) (token : string) : Z :=
  let h := stable_hash (to_ascii_lowercase token) in if bucket dim h =? i then eighths h else 0.

Definition bucket_sum (dim : Z) (l : list string) (i : Z) : Z := zsum (map (share dim i) l).

Definition vector_of (dim : Z) (s : Z -> Z) : list f32 :=
  map (fun i => fixed (-3) (s (Z.of_nat i))) (seq 0 (Z.to_nat dim)).

Lemma land_7 x : exists r, Z.land x 7 = r /\ 0 <= r < 8.
Proof. eexists. split; [done|]. change 7 with (Z.ones 3). rewrite Z.land_ones by lia. apply Z.mod_pos_bound. lia. Qed.

Lemma step_fixed h : fmul (sign h) (weight h) = fixed (-3) (eighths h) /\ Z.abs (eighths h) <= 15.
Proof.
  unfold sign, weight, eighths. destruct (land_7 (Z.shiftr h 2)) as (r & -> & Hr).
  assert (r = 0 \/ r = 1 \/ r = 2 \/ r = 3 \/ r = 4 \/ r = 5 \/ r = 6 \/ r = 7) as Hcases by lia.
  destruct (_ =? 0); repeat (destruct Hcases as [-> | Hcases]; [split; [vm_compute; reflexivity|lia]|]); subst r;
    (split; [vm_compute; reflexivity|lia]).
Qed.

Lemma vector_of_ext dim s t : (forall i, s i = t i) -> vector_of dim s = vector_of dim t.
Proof. intros Hs. apply map_ext. intros i. by rewrite Hs. Qed.

Lemma vector_of_length dim s : length (vector_of dim s) = Z.to_nat dim.
Proof. unfold vector_of. by rewrite length_map, length_seq. Qed.

Lemma share_bound dim i t : Z.abs (share dim i t) <= 15.
Proof. unfold share. cbn zeta. destruct (_ =? i); [apply step_fixed|done]. Qed.

Lemma bucket_sum_bound dim l i : Z.abs (bucket_sum dim l i) <= 15 * Z.of_nat (length l).
Proof.
  induction l as [|t l IH]; [done|]. change (bucket_sum dim (t :: l) i) with (share dim i t + bucket_sum dim l i).
  pose proof (share_bound dim i t). cbn [length]. lia.
Qed.

(** One token more. *)
Lemma add_token_vector dim s t :
  0 < dim -> (forall i, fits (s i) /\ fits (s i + share dim i t)) ->
  add_token dim (vector_of dim s) t = vector_of dim (fun i => s i + share dim i t).
Proof.
  intros Hd Hfit. unfold add_token. cbn zeta. set (h := stable_hash (to_ascii_lowercase t)).
  assert (Hb : 0 <= bucket dim h < dim) by (apply Z.mod_pos_bound; lia).
  set (idx := Z.to_nat (bucket dim h)).
  assert (Hi : vector_of dim s !! idx = Some (fixed (-3) (s (bucket dim h)))).
  { unfold vector_of. rewrite list_lookup_fmap, lookup_seq_lt by lia. cbn. unfold idx. by rewrite Z2Nat.id by lia. }
  rewrite Hi. destruct (step_fixed h) as [-> _].
  assert (Hshare : share dim (bucket dim h) t = eighths h) by (unfold share; fold h; by rewrite Z.eqb_refl).
  rewrite fadd_fixed; [|lia|apply Hfit| |].
  2:{ unfold fits. pose proof (proj2 (step_fixed h)). lia. }
  2:{ rewrite <- Hshare. apply Hfit. }
  apply list_eq. intros j. destruct (decide (j = idx)) as [->|Hne].
  - rewrite list_lookup_insert_eq by (rewrite vector_of_length; unfold idx; lia). unfold vector_of.
    rewrite list_lookup_fmap, lookup_seq_lt by (unfold idx; lia). cbn. unfold idx. by rewrite Z2Nat.id, Hshare by lia.
  - rewrite list_lookup_insert_ne by done. unfold vector_of. rewrite !list_lookup_fmap.
    destruct (seq 0 (Z.to_nat dim) !! j) as [k|] eqn:Ek; [|done]. apply lookup_seq in Ek as [-> Hlt]. cbn.
    do 2 f_equal. unfold share. fold h. destruct (Z.eqb_spec (bucket dim h) (Z.of_nat j)) as [E|]; [|lia]. unfold idx in Hne. lia.
Qed.

Lemma accumulate_exact dim l :
  0 < dim -> 15 * Z.of_nat (length l) < 2 ^ 24 ->
  foldl (add_token dim) (replicate (Z.to_nat dim) fzero) l = vector_of dim (bucket_sum dim l).
Proof.
  intros Hd. induction l as [|t l IH] using rev_ind; intros Hl.
  - cbn [foldl]. unfold vector_of. cbn. change fzero with (fixed (-3) 0). clear. generalize 0%nat.
    induction (Z.to_nat dim) as [|n IH]; intros k; cbn; [done|]. f_equal. apply IH.
  - rewrite length_app in Hl. cbn [length] in Hl. rewrite foldl_app. cbn [foldl]. rewrite IH by lia.
    assert (Hsum : forall i, bucket_sum dim (l ++ [t]) i = bucket_sum dim l i + share dim i t).
    { intros i. unfold bucket_sum. rewrite map_app, zsum_app. cbn. lia. }
    rewrite add_token_vector; [by apply vector_of_ext; intros i; rewrite Hsum|done|].
    intros i. pose proof (bucket_sum_bound dim l i). pose proof (share_bound dim i t). unfold fits. lia.
Qed.

Lemma bucket_sum_perm dim l1 l2 i : map to_ascii_lowercase l1 ≡ₚ map to_ascii_lowercase l2 -> bucket_sum dim l1 i = bucket_sum dim l2 i.
Proof.
  intros Hp. unfold bucket_sum.
  assert (Hshare : forall l, map (share dim i) l =
    map (fun t => let h := stable_hash t in if bucket dim h =? i then eighths h else 0) (map to_ascii_lowercase l)).
  { intros l. by rewrite map_map. }
  rewrite !Hshare. assert (Hz : forall a b : list Z, a ≡ₚ b -> zsum a = zsum b).
  { intros a b Hab. unfold zsum. induction Hab; cbn [foldr]; lia. }
  apply Hz. by rewrite Hp.
Qed.

(** The embedding of a text through the exact sums. *)
Lemma embed_text_exact e text :
  0 < he_dim e -> 15 * Z.of_nat (length (tokens text)) < 2 ^ 24 -> tokens text <> [] ->
  embed_text e text = l2_normalize (vector_of (he_dim e) (bucket_sum (he_dim e) (tokens text))).
Proof.
  intros Hd Hl Ht. unfold embed_text. cbn zeta. rewrite accumulate_exact by done. by rewrite bool_decide_false.
Qed.

Lemma embed_text_length e text : 0 <= he_dim e -> Z.of_nat (length (embed_text e text)) = he_dim e.
Proof.
  intros Hd. unfold embed_text. cbn zeta.
  assert (Hfold : forall l v, length (foldl (add_token (he_dim e)) v l) = length v).
  { induction l as [|t l IH]; intros v; [done|]. cbn [foldl]. rewrite IH. unfold add_token. cbn zeta.
    destruct (v !! _); [by rewrite length_insert|done]. }
  assert (Hnorm : forall v, length (l2_normalize v) = length v).
  { intros v. unfold l2_normalize. cbn zeta. destruct (fltb _ _); [by rewrite length_map|done]. }
  rewrite Hnorm. destruct (bool_decide _); rewrite ?length_insert, Hfold, length_replicate; lia.
Qed.
End bag.

#[export] Instance hash_embedder_laws `{CharAlnum} `{StrHash} n : @EmbedderLaws (stub.embedder (stub.new n)).
Proof.
  split; intros texts vs; cbn; intros [= <-]; [by rewrite length_map|].
  apply Forall_fmap, Forall_true. intros t. apply (embed_text_length (stub.new n)). cbn. lia.
Qed.

Lemma embed_text_no_tokens `{CharAlnum} `{StrHash} e text :
  stub.tokens text = [] -> stub.embed_text e text = stub.l2_normalize (<[0%nat := of_Z 1]> (replicate (Z.to_nat (stub.he_dim e)) fzero)).
Proof. intros Ht. unfold stub.embed_text. cbn zeta. by rewrite Ht. Qed.

(** The hash embedding is a bag of words: two texts of the same tokens, their
    ASCII case and their order aside, have the same vector, bit for bit, though
    it is summed up in [f32].  That holds up to 1,118,481 tokens; before it is
    normalized the vector is the exact signed sum of the weights in each bucket. *)
Theorem bag_of_words `{CharAlnum} `{StrHash} (e : stub.HashEmbedder) (a b : string) :
  0 < stub.he_dim e -> 15 * Z.of_nat (length (stub.tokens a)) < 2 ^ 24 ->
  map to_ascii_lowercase (stub.tokens a) ≡ₚ map to_ascii_lowercase (stub.tokens b) ->
  stub.embed_text e a = stub.embed_text e b /\
  (stub.tokens a <> [] -> stub.embed_text e a =
    stub.l2_normalize (vector_of (stub.he_dim e) (bucket_sum (stub.he_dim e) (stub.tokens a)))).
Proof.
  intros Hd Hl Hp. assert (Hlen : length (stub.tokens b) = length (stub.tokens a)).
  { rewrite <- (length_map to_ascii_lowercase (stub.tokens a)), Hp. by rewrite length_map. }
  split; [|intros Ht; by apply embed_text_exact]. destruct (decide (stub.tokens a = [])) as [Ha|Ha].
  - assert (Hb : stub.tokens b = []) by (rewrite Ha in Hlen; by apply nil_length_inv).
    by rewrite !embed_text_no_tokens.
  - assert (stub.tokens b <> []) by (intros Hb; apply Ha, nil_length_inv; by rewrite <- Hlen, Hb).
    rewrite !embed_text_exact by (done || lia). f_equal. apply vector_of_ext. intros i. by apply bucket_sum_perm.
Qed.

(** ** What building answers *)

(** What a model is documented to answer: a vector for each text, all of one
    width. *)
Class FastEmbedLaws `{FastEmbed} : Prop := {
  model_length : forall m texts vs, model_embed m texts = Ok vs -> length vs = length texts;
  model_width : forall m texts vs texts' vs' v v', model_embed m texts = Ok vs -> model_embed m texts' = Ok vs' ->
    v ∈ vs -> v' ∈ vs' -> length v = length v';
}.

Lemma fast_embedder_laws `{FastEmbedLaws} cfg e : real.new cfg = Ok e -> @EmbedderLaws (real.embedder e).
Proof.
  unfold real.new. destruct (try_new _) as [m|]; [|done]. destruct (model_embed m _) as [[|v l]|] eqn:Ep; try done.
  intros [= <-]. split; intros texts vs; cbn; unfold real.embed_with; cbn [real.fe_model real.fe_model_id].
  all: destruct texts as [|t texts]; [intros [= <-]; done|]; destruct (task_lost m _); [done|].
  all: destruct (model_embed m (t :: texts)) as [us|] eqn:Eu; [|done]; intros [= <-].
  - by eapply model_length.
  - apply Forall_forall. intros u Hu. f_equal. eapply model_width; [exact Eu|exact Ep|exact Hu|by left].
Qed.

(** Whichever backend a build has, an embedder that is handed out keeps the
    trait's promises, with the width the configuration, and so the column,
    commits to; the hash backend is handed out exactly for a width of at least
    one, and a model of another width is a configuration error that names both. *)
Theorem build_embedder_spec `{FastEmbedLaws} `{CharAlnum} `{StrHash} (local_embed : bool) (cfg : Config.LlmConfig) :
  (forall e, build_embedder local_embed cfg = Ok e -> @dim e = Config.embed_dim cfg /\ @EmbedderLaws e) /\
  (is_ok (build_embedder false cfg) = true <-> 1 <= Config.embed_dim cfg) /\
  (forall e, real.new cfg = Ok e -> real.fe_dim e <> Config.embed_dim cfg ->
    exists m, build_embedder true cfg = Err (Types.Config m)) /\
  (forall err, build_embedder local_embed cfg = Err err -> local_embed = true -> 
    (exists m, err = Model m) \/ (exists e m, real.new cfg = Ok e /\ real.fe_dim e <> Config.embed_dim cfg /\ err = Types.Config m)).
Proof.
  split; [|split; [|split]].
  - intros e. unfold build_embedder. destruct (backend local_embed cfg) as [b|] eqn:Eb; [|done]. cbn zeta.
    destruct (Z.eqb_spec (@dim b) (Config.embed_dim cfg)) as [Hdim|]; cbn [negb]; [|done]. intros [= <-]. split; [done|].
    unfold backend in Eb. destruct local_embed.
    + destruct (real.new cfg) as [f|] eqn:Ef; [|done]. injection Eb as <-. by eapply fast_embedder_laws.
    + injection Eb as <-. apply _.
  - unfold build_embedder, backend. cbn. destruct (Z.eqb_spec (Z.max (Config.embed_dim cfg) 1) (Config.embed_dim cfg)); cbn; split; try done; lia.
  - intros e He Hne. unfold build_embedder, backend. rewrite He. cbn. destruct (Z.eqb_spec (real.fe_dim e) (Config.embed_dim cfg)); [done|].
    cbn. by eexists.
  - intros err. unfold build_embedder, backend. intros He ->. destruct (real.new cfg) as [e|e] eqn:En.
    + cbn in He. destruct (Z.eqb_spec (real.fe_dim e) (Config.embed_dim cfg)); [done|]. cbn in He. injection He as <-. right. by eauto.
    + injection He as <-. left. unfold real.new in En. destruct (try_new _); [|injection En as <-; eauto].
      destruct (model_embed _ _) as [[|]|]; [injection En as <-; eauto|done|injection En as <-; eauto].
Qed.

(** Calls one after another, the runtime being what it is at each. *)
Fixpoint calls `{CharAlnum} `{StrHash} (local_embed : bool) (worlds : list FastEmbed) (slot : LazyEmbedder)
    : list (result Error Embedder) * LazyEmbedder :=
  match worlds with
  | [] => ([], slot)
  | w :: ws =>
      let '(r, slot) := @get_embedder w _ _ local_embed slot in
      let '(rs, slot) := calls local_embed ws slot in (r :: rs, slot)
  end.

Lemma calls_cached `{CharAlnum} `{StrHash} local_embed worlds cfg e :
  calls local_embed worlds (mkLazyEmbedder cfg (Some e)) = (map (fun _ => Ok e) worlds, mkLazyEmbedder cfg (Some e)).
Proof. induction worlds as [|w ws IH]; [done|]. cbn. by rewrite IH. Qed.

(** The worker's embedder is built once: every call before the first at
    which building succeeds is a retryable model error that leaves nothing
    behind, and from that one on every call answers the embedder it built,
    whatever happens to the runtime; a failure is never remembered. *)
Theorem lazy_embedder_spec `{CharAlnum} `{StrHash} (local_embed : bool) (worlds : list FastEmbed) (cfg : Config.Config) :
  let builds w := @build_embedder w _ _ local_embed (Config.llm cfg) in
  let '(answers, slot) := calls local_embed worlds (new_lazy cfg) in
  exists failing rest, worlds = failing ++ rest /\
    Forall (fun w => is_ok (builds w) = false) failing /\
    Forall2 (fun w r => exists m, r = Err (Model m)) failing (take (length failing) answers) /\
    match rest with
    | [] => le_cached slot = None /\ length answers = length failing
    | w :: _ => exists e, builds w = Ok e /\ le_cached slot = Some e /\ drop (length failing) answers = map (fun _ => Ok e) rest
    end.
Proof.
  cbn zeta. unfold new_lazy. set (c := Config.llm cfg). induction worlds as [|w ws IH]; cbn [calls].
  - exists [], []. cbn. repeat split; constructor.
  - unfold get_embedder at 1. cbn [le_cached le_cfg]. destruct (build_embedder local_embed c) as [e|err] eqn:Eb.
    + rewrite calls_cached. exists [], (w :: ws). cbn. repeat split; [constructor|constructor|]. by exists e.
    + destruct (calls local_embed ws _) as [answers slot]. destruct IH as (failing & rest & Hws & Hf & Ha & Hr).
      exists (w :: failing), rest. rewrite Hws. split; [done|]. split; [constructor; [by rewrite Eb|done]|]. cbn [length take drop].
      split; [constructor; [by eexists|done]|]. destruct rest; [|done]. destruct Hr as [? Hr]. cbn. by rewrite Hr.
Qed.

(** ** The norm *)

Lemma fsum_zeros n acc : fadd acc fzero = acc -> foldl fadd acc (replicate n fzero) = acc.
Proof. intros Ha. induction n as [|n IH]; [done|]. cbn [replicate foldl]. by rewrite Ha. Qed.

(** One number among zeros. *)
Lemma fsum_single n i y : (i < n)%nat -> fadd fzero y = y -> fadd y fzero = y -> fsum (<[i := y]> (replicate n fzero)) = y.
Proof.
  intros Hi H0 H1. unfold fsum. rewrite insert_take_drop by (by rewrite length_replicate).
  rewrite foldl_app. cbn [foldl]. rewrite take_replicate, drop_replicate.
  rewrite (fsum_zeros _ fzero) by done. by rewrite H0, fsum_zeros.
Qed.

(** What a bucket holds after one token is one of sixteen numbers. *)
Definition unit_after (x u : f32) : Prop :=
  let y := fmul x x in
  fadd fzero y = y /\ fadd y fzero = y /\ fltb fzero (fsqrt y) = true /\ fdiv fzero (fsqrt y) = fzero /\ fdiv x (fsqrt y) = u.

Lemma one_token_unit h : unit_after (fixed (-3) (eighths h)) (stub.sign h).
Proof.
  unfold stub.sign, eighths. destruct (land_7 (Z.shiftr h 2)) as (r & -> & Hr).
  assert (r = 0 \/ r = 1 \/ r = 2 \/ r = 3 \/ r = 4 \/ r = 5 \/ r = 6 \/ r = 7) as Hcases by lia.
  destruct (_ =? 0); repeat (destruct Hcases as [-> | Hcases]; [vm_compute; repeat split|]); subst r; vm_compute; repeat split.
Qed.

Lemma map_insert_zeros (f : f32 -> f32) n i x : f fzero = fzero -> map f (<[i := x]> (replicate n fzero)) = <[i := f x]> (replicate n fzero).
Proof.
  intros Hf. change (f <$> <[i := x]> (replicate n fzero) = <[i := f x]> (replicate n fzero)).
  rewrite list_fmap_insert. f_equal. induction n as [|n IH]; [done|]. cbn. by rewrite Hf, IH.
Qed.

Lemma normalize_single n i x u :
  (i < n)%nat -> unit_after x u -> stub.l2_normalize (<[i := x]> (replicate n fzero)) = <[i := u]> (replicate n fzero).
Proof.
  intros Hi (H0 & H1 & Hlt & Hz & Hu). unfold stub.l2_normalize, stub.l2_norm. cbn zeta.
  rewrite (map_insert_zeros (fun a => fmul a a)), fsum_single, Hlt by done. by rewrite map_insert_zeros, Hu by done.
Qed.

(** A text of a single token, and one of none, is a unit vector along one axis. *)
Theorem one_token_axis `{CharAlnum} `{StrHash} (e : stub.HashEmbedder) (text t : string) :
  0 < stub.he_dim e ->
  let h := stub.stable_hash (to_ascii_lowercase t) in
  (stub.tokens text = [t] -> stub.embed_text e text =
    <[Z.to_nat (stub.bucket (stub.he_dim e) h) := stub.sign h]> (replicate (Z.to_nat (stub.he_dim e)) fzero)) /\
  (stub.tokens text = [] -> stub.embed_text e text = <[0%nat := of_Z 1]> (replicate (Z.to_nat (stub.he_dim e)) fzero)).
Proof.
  intros Hd h. split; intros Ht.
  - assert (Hb : 0 <= stub.bucket (stub.he_dim e) h < stub.he_dim e) by (apply Z.mod_pos_bound; lia).
    unfold stub.embed_text. cbn zeta. rewrite Ht. cbn [foldl]. rewrite bool_decide_false by done.
    unfold stub.add_token. cbn zeta. fold h. rewrite lookup_replicate_2 by lia.
    rewrite (proj1 (step_fixed h)). change fzero with (fixed (-3) 0) at 1.
    rewrite fadd_fixed; [|lia|done| |]; [rewrite Z.add_0_l; apply normalize_single; [lia|apply one_token_unit]| |];
      unfold fits; pose proof (proj2 (step_fixed h)); lia.
  - rewrite embed_text_no_tokens by done. apply normalize_single; [lia|]. vm_compute. repeat split.
Qed.

(** Tokens that cancel leave the zero vector, of which the source says that it
    is never produced: here two tokens of one bucket and weight, of opposite
    signs. *)
Theorem tokens_can_cancel `{CharAlnum} `{StrHash} (e : stub.HashEmbedder) (text a b : string) :
  0 < stub.he_dim e -> stub.tokens text = [a; b] ->
  let ha := stub.stable_hash (to_ascii_lowercase a) in let hb := stub.stable_hash (to_ascii_lowercase b) in
  stub.bucket (stub.he_dim e) ha = stub.bucket (stub.he_dim e) hb -> eighths ha = - eighths hb ->
  stub.embed_text e text = replicate (Z.to_nat (stub.he_dim e)) fzero.
Proof.
  intros Hd Ht ha hb Hb Hs. rewrite embed_text_exact by (rewrite ?Ht; done || cbn; lia). rewrite Ht.
  assert (Hz : vector_of (stub.he_dim e) (bucket_sum (stub.he_dim e) [a; b]) = replicate (Z.to_nat (stub.he_dim e)) fzero).
  { rewrite (vector_of_ext _ _ (fun _ => 0)).
    - unfold vector_of. clear. generalize 0%nat. induction (Z.to_nat (stub.he_dim e)) as [|n IH]; intros k; cbn; [done|]. by rewrite IH.
    - intros i. unfold bucket_sum, share. cbn. fold ha hb. rewrite Hb. destruct (_ =? i); lia. }
  rewrite Hz. unfold stub.l2_normalize, stub.l2_norm. cbn zeta.
  rewrite (fmap_replicate (fun x => fmul x x)). change (fmul fzero fzero) with fzero. unfold fsum. rewrite fsum_zeros by done. done.
Qed.

(** ** Concrete runtimes *)

Definition byte_sum : StrHash := fun s => foldr (fun a n => Z.of_N (byte_of a) + n) 0 (list_ascii_of_string s).

(** A model of a given width, one that cannot be loaded when it is zero. *)
Definition toy_fast (width : nat) : FastEmbed := {|
  TextEmbedding := unit;
  try_new := fun _ => match width with O => Err "offline" | _ => Ok tt end;
  model_embed := fun _ texts => Ok (map (fun _ => replicate width fzero) texts);
  task_lost := fun _ _ => None;
|}.

#[export] Instance toy_fast_laws width : @FastEmbedLaws (toy_fast width).
Proof.
  split; cbn; [by intros m texts vs [= <-]; rewrite length_map|].
  intros m texts vs texts' vs' v v' [= <-] [= <-] (? & -> & _)%list_elem_of_fmap (? & -> & _)%list_elem_of_fmap. done.
Qed.

Lemma bag_of_words_witness :
  @stub.embed_text ascii_alnum byte_sum (stub.new 8) "The cat, the hat" = @stub.embed_text ascii_alnum byte_sum (stub.new 8) "cat hat THE the" /\
  (@stub.tokens ascii_alnum "The cat, the hat" <> [] -> @stub.embed_text ascii_alnum byte_sum (stub.new 8) "The cat, the hat" =
    stub.l2_normalize (@vector_of 8 (@bucket_sum byte_sum 8 (@stub.tokens ascii_alnum "The cat, the hat")))).
Proof.
  apply (@bag_of_words ascii_alnum byte_sum (stub.new 8)); [reflexivity|reflexivity|].
  assert (Hp : ["the"; "cat"; "the"; "hat"] ≡ₚ ["cat"; "hat"; "the"; "the"])
    by (etransitivity; [apply Permutation_swap|]; apply Permutation_skip, (Permutation_app_comm ["the"; "the"] ["hat"])). exact Hp.
Defined.

Definition llm_of (dim : Z) : Config.LlmConfig :=
  Config.mkLlm Ollama "http://127.0.0.1:11434" None "gemma3:27b" "general" "nomic-embed-text" dim true 18000.

Lemma build_embedder_spec_witness :
  is_ok (@build_embedder (toy_fast 4) ascii_alnum byte_sum true (llm_of 4)) = true /\
  (is_ok (@build_embedder (toy_fast 4) ascii_alnum byte_sum false (llm_of 0)) = true <-> 1 <= 0) /\
  (exists m, @build_embedder (toy_fast 4) ascii_alnum byte_sum true (llm_of 768) = Err (Types.Config m)).
Proof.
  split; [reflexivity|]. split.
  - exact (proj1 (proj2 (@build_embedder_spec (toy_fast 4) (toy_fast_laws 4) ascii_alnum byte_sum true (llm_of 0)))).
  - refine (proj1 (proj2 (proj2 (@build_embedder_spec (toy_fast 4) (toy_fast_laws 4) ascii_alnum byte_sum true (llm_of 768)))) _ _ _);
      [reflexivity|cbn; lia].
Defined.

Lemma tokens_can_cancel_witness :
  @stub.embed_text ascii_alnum byte_sum (stub.new 1) "a c" = [fzero].
Proof.
  exact (@tokens_can_cancel ascii_alnum byte_sum (stub.new 1) "a c" "a" "c" eq_refl eq_refl eq_refl eq_refl).
Defined.

Lemma one_token_axis_witness :
  @stub.embed_text ascii_alnum byte_sum (stub.new 3) "Hello!" = [fzero; of_Z 1; fzero].
Proof. exact (proj1 (@one_token_axis ascii_alnum byte_sum (stub.new 3) "Hello!" "Hello" eq_refl) eq_refl). Defined.
