(* ===== verification/Engine.v ===== *)
(** * Loading the engines: [engine.rs] and [real/embed.rs] of [crates/scribe-asr],
    [Engines] of [crates/scribe-pipeline/src/engines.rs]

    The real models when they are installed and the build has them, the
    deterministic stub otherwise; real models that are there but do not load are
    an error. *)

From Stdlib Require Import SpecFloat Bool String.
From S2P Require Import Prelude RustStr Types Llm F32 Identity Wav Speech Cluster Split Models Diarize Asr Config TextEmbed.

(** ** Enrolment *)

(** The dimension an extractor reports. *)
Class ExtractorDim := extractor_dim : Extractor -> Z.

Record SherpaEmbedder := mkSherpaEmbedder { sm_extractor : Extractor; sm_dim : Z }.

Definition load_embedder `{Paths} `{Sherpa} `{ExtractorDim} (model_path device : string) (num_threads : Z)
    : result Error SherpaEmbedder :=
  match build_extractor (mkDiarizationPaths "" model_path) device num_threads with
  | Err e => Err e
  | Ok ex => Ok (mkSherpaEmbedder ex (Z.max (extractor_dim ex) 0))
  end.

Definition embed_speaker (e : SherpaEmbedder) (file : option (list N)) : result Error (list f32) :=
  match read_wav file with
  | Err err => Err err
  | Ok audio =>
      match @extract (sm_extractor e) (sample_rate audio) (samples audio) with
      | NoStream => Err (Model "failed to create embedding stream")
      | NotReady => Err (Model "embedding sample too short for the model")
      | NoResult => Err (Model "embedding computation returned nothing")
      | Voice v => Ok v
      end
  end.

(** ** The engine *)

Inductive Backend := Onnx | Stub.

(** Each part, or the stub in its place. *)
Record SpeechEngine := mkSpeechEngine {
  se_transcriber : option SherpaTranscriber; se_diarizer : option SherpaDiarizer;
  se_embedder : option SherpaEmbedder; se_backend : Backend;
}.

Definition load_stub : SpeechEngine := mkSpeechEngine None None None Stub.

Section load.
Context `{EnvVar} `{EnvF32} `{Paths} `{FileTree} `{Sherpa} `{CreateRecognizer} `{ExtractorDim}.

Definition load_diarizer_only (paths : DiarizationModelPaths) (device : string) (num_threads : Z) : result Error SpeechEngine :=
  match Diarize.load paths device num_threads with
  | Err e => Err e
  | Ok d => Ok (mkSpeechEngine None (Some d) None Onnx)
  end.

(** [available] is what [available_parallelism] answers. *)
Definition load_real (available : option Z) (models_dir : string) (cfg : Config.AsrConfig) : result Error SpeechEngine :=
  let num_threads := Config.resolved_num_threads cfg available in
  let device := Config.device cfg in
  match discover_for models_dir (Config.model cfg) with
  | None => Err (Model ("ASR model files for `" +:+ Config.model cfg +:+ "` not found under " +:+ display models_dir +:+ "/asr"))
  | Some asr_paths =>
      match load_transcriber asr_paths device num_threads (Config.hotwords_file cfg) (Config.hotwords_score cfg) (Config.bpe_vocab cfg) with
      | Err e => Err e
      | Ok transcriber =>
          match discover_diarization models_dir with
          | None => Err (Model "diarization model files not found in models_dir")
          | Some diar_paths =>
              match Diarize.load diar_paths device num_threads with
              | Err e => Err e
              | Ok diarizer =>
                  match load_embedder (dp_embedding diar_paths) device num_threads with
                  | Err e => Err e
                  | Ok embedder => Ok (mkSpeechEngine (Some transcriber) (Some diarizer) (Some embedder) Onnx)
                  end
              end
          end
      end
  end.

(** [onnx] is the build's feature. *)
Definition load (onnx : bool) (available : option Z) (models_dir : string) (cfg : Config.AsrConfig) : result Error SpeechEngine :=
  if onnx && real_models_present models_dir (Config.model cfg) (Config.diarization cfg)
  then load_real available models_dir cfg
  else Ok load_stub.
End load.

(** ** All three engines of a worker *)

Record Engines := mkEngines { en_speech : SpeechEngine; en_embedder : LazyEmbedder; en_ollama : ChatClient }.

Definition client_from_config (cfg : Config.LlmConfig) : ChatClient :=
  new_client (Config.provider cfg) (Config.base_url cfg) (Config.api_key cfg).

Definition load_engines `{EnvVar} `{EnvF32} `{Paths} `{FileTree} `{Sherpa} `{CreateRecognizer} `{ExtractorDim}
    (onnx : bool) (available : option Z) (cfg : Config.Config) : result Error Engines :=
  match load onnx available (Config.models_dir (Config.worker cfg)) (Config.asr cfg) with
  | Err e => Err e
  | Ok speech => Ok (mkEngines speech (new_lazy cfg) (client_from_config (Config.llm cfg)))
  end.

(** ** What is promised *)

Section promised.
Context `{EnvVar} `{EnvF32} `{Paths} `{FileTree} `{Sherpa} `{CreateRecognizer} `{ExtractorDim}.

(** What the recognizer is built with: the layout decides the window. *)
Definition fits_layout (paths : AsrModelPaths) (t : SherpaTranscriber) : Prop :=
  sx_max_clip_ms t = match paths with Transducer _ _ _ _ => TRANSDUCER_WINDOW_MS | Whisper _ _ _ => WHISPER_WINDOW_MS end.

Lemma load_transcriber_fits paths device threads hw score vocab t :
  load_transcriber paths device threads hw score vocab = Ok t -> fits_layout paths t.
Proof.
  unfold load_transcriber, fits_layout. destruct (model_paths paths) as [[models clip]|e] eqn:Em; [|done].
  destruct (decoding_options hw score vocab) as [[[[? ?] ?] ?]|e]; [|done].
  destruct (create_recognizer _) as [r|]; [|done]. intros [= <-]. cbn [sx_max_clip_ms]. revert Em. unfold model_paths.
  destruct paths; repeat (match goal with |- context [path_str ?p] => destruct (path_str p) end); by intros [= _ <-].
Qed.

(** A missing model is never an error, and a broken one always is.  Without
    the real engine in the build, or with a model file missing, loading answers
    the stub; an engine that is not the stub has all three real parts, of
    models that were found, and a window that fits the layout of the files; and
    with diarization enabled an error is a part that could not be built, never a
    file that was not found. *)
Theorem load_spec onnx available models_dir cfg :
  let present := onnx && real_models_present models_dir (Config.model cfg) (Config.diarization cfg) in
  (present = false -> load onnx available models_dir cfg = Ok load_stub) /\
  (forall e, load onnx available models_dir cfg = Ok e -> se_backend e = Onnx ->
    present = true /\ exists paths diar t d m, discover_for models_dir (Config.model cfg) = Some paths /\
      discover_diarization models_dir = Some diar /\
      e = mkSpeechEngine (Some t) (Some d) (Some m) Onnx /\ fits_layout paths t /\ sd_paths d = diar) /\
  (present = true -> Config.diarization cfg = true ->
    exists paths diar, discover_for models_dir (Config.model cfg) = Some paths /\ discover_diarization models_dir = Some diar /\
    forall err, load onnx available models_dir cfg = Err err ->
      let threads := Config.resolved_num_threads cfg available in
      load_transcriber paths (Config.device cfg) threads (Config.hotwords_file cfg) (Config.hotwords_score cfg) (Config.bpe_vocab cfg) = Err err \/
      Diarize.load diar (Config.device cfg) threads = Err err \/
      load_embedder (dp_embedding diar) (Config.device cfg) threads = Err err).
Proof.
  intros present. unfold load. fold present. split; [by intros ->|]. split.
  - intros e He Hb. destruct present eqn:Hp; [|injection He as <-; done]. split; [done|]. unfold load_real in He.
    destruct (discover_for _ _) as [paths|]; [|done]. destruct (load_transcriber _ _ _ _ _ _) as [t|] eqn:Et; [|done].
    destruct (discover_diarization _) as [diar|]; [|done]. destruct (Diarize.load _ _ _) as [d|] eqn:Ed; [|done].
    destruct (load_embedder _ _ _) as [m|]; [|done]. injection He as <-. exists paths, diar, t, d, m.
    split; [done|]. split; [done|]. split; [done|]. split; [by eapply load_transcriber_fits|].
    unfold Diarize.load in Ed. destruct (build_extractor _ _ _); [|done]. by injection Ed as <-.
  - intros Hp Hd. rewrite Hp. unfold present, real_models_present in Hp. rewrite Hd, !andb_true_iff in Hp.
    cbn [negb orb] in Hp. destruct Hp as (_ & [paths Hpaths]%bool_decide_eq_true & [diar Hdiar]%bool_decide_eq_true).
    exists paths, diar. split; [done|]. split; [done|]. intros err. unfold load_real. rewrite Hpaths, Hdiar. cbn zeta.
    destruct (load_transcriber _ _ _ _ _ _) as [t|]; [|intros [= <-]; by left]. destruct (Diarize.load _ _ _) as [d|]; [|intros [= <-]; by right; left].
    destruct (load_embedder _ _ _) as [m|]; [done|intros [= <-]; by right; right].
Qed.
End promised.

(** ** Diarization switched off *)

(** Only a transcriber is installed, and diarization is switched off. *)
Definition asr_only : FileTree := {|
  path_exists := fun p => bool_decide (p ∈ ["/m/asr/tokens.txt"; "/m/asr/encoder.onnx"; "/m/asr/decoder.onnx"; "/m/asr/joiner.onnx"]);
  is_dir := fun p => bool_decide (p = "/m/asr"); read_dir := fun _ => None;
|}.
Definition off_config : Config.AsrConfig :=
  Config.mkAsr "parakeet" false "cpu" true [] None (of_Z 2) None 4.

(** The models that are needed are all there, and still the real engine does
    not load: [load_real] asks for the diarization models regardless. *)
Example disabled_diarization_fails `{EnvVar} `{Paths} `{Sherpa} `{ExtractorDim} (r : Recognizer) :
  (forall p, is_Some (to_str p)) ->
  let recognizers := {| create_recognizer := fun _ => Some r; default_max_active_paths := 4 |} : CreateRecognizer in
  @real_models_present asr_only "/m" "parakeet" false = true /\
  @load _ _ asr_only _ recognizers _ true (Some 8) "/m" off_config =
    Err (Model "diarization model files not found in models_dir").
Proof.
  intros Hp recognizers. split; [vm_compute; reflexivity|]. unfold load.
  replace (@real_models_present asr_only "/m" (Config.model off_config) (Config.diarization off_config)) with true by (vm_compute; reflexivity).
  cbn [andb]. unfold load_real.
  replace (@discover_for asr_only "/m" (Config.model off_config)) with
    (Some (Transducer "/m/asr/encoder.onnx" "/m/asr/decoder.onnx" "/m/asr/joiner.onnx" "/m/asr/tokens.txt")) by (vm_compute; reflexivity).
  replace (@discover_diarization asr_only "/m") with (@None DiarizationModelPaths) by (vm_compute; reflexivity).
  unfold load_transcriber, model_paths, path_str.
  repeat (match goal with |- context [to_str ?p] => destruct (Hp p) as [? ->] end).
  unfold decoding_options. cbn [Config.hotwords_file off_config]. by destruct (env_var _).
Qed.
