(* ===== verification/Pipeline.v ===== *)
(** * The pipeline crate's entry points: [crates/scribe-pipeline/src/lib.rs]

    [run_stage] of [worker.rs] is here, where the stages and the engines they run
    on are at hand: the driver without a queue, ingesting a file, enrolling a
    voice, and putting derived data back on the queue. *)

From Stdlib Require Import String.
From S2P Require Import Prelude RustStr RustPath Types Llm F32 Db DbSchema Queue Store Worker Merge Embed Summarize Identity Wav Speech.
From S2P Require Import Cluster Split Models Diarize Asr Config TextEmbed Engine Stages.

#[local] Arguments String.append !_ _ /.

(** ** The configuration each part reads *)

Definition worker_settings (cfg : Config.Config) : WorkerConfig :=
  mkWorkerConfig (Config.heartbeat_secs (Config.worker cfg)) (Config.poll_secs (Config.worker cfg))
    (Config.max_attempts (Config.worker cfg)) (Config.summary_template (Config.llm cfg)) (Config.effective_stages cfg).
Definition merge_settings (cfg : Config.Config) : MergeConfig :=
  mkMergeConfig (Config.remove_fillers (Config.asr cfg)) (Config.filler_words (Config.asr cfg))
    (Config.correct_transcript (Config.llm cfg)) (Config.summarize_model (Config.llm cfg)).
Definition llm_settings (cfg : Config.Config) : Summarize.LlmConfig :=
  mkLlmConfig (Config.summarize_model (Config.llm cfg)) (Config.max_prompt_chars (Config.llm cfg)).
Definition blobs_of (cfg : Config.Config) : string := Config.blobs (Config.storage cfg).
Definition live_settings (cfg : Config.Config) : LiveConfig :=
  mkLiveConfig (blobs_of cfg) (Config.remove_fillers (Config.asr cfg)) (Config.filler_words (Config.asr cfg)) (llm_settings cfg).

(** [tokio::fs::copy]; the error as text. *)
Class CopyFile := sys_copy : Files -> string -> string -> result string Files.

(** ** The loaded engine behind the traits *)

(** The error of a blocking task that panicked; its text is tokio's. *)
Class TaskPanic := task_panic : Error.

Section engine.
Context `{EnvVar} `{EnvF32} `{Powf} `{FragmentFiles} `{Paths} `{Sherpa} `{TaskPanic}.

Definition speech_of (e : Engine.SpeechEngine) : Speech.SpeechEngine := {|
  Speech.transcribe file :=
    match se_transcriber e with
    | Some t => @Asr.transcribe (sx_recognizer t) _ (sx_max_clip_ms t) file
    | None => stub_transcribe file
    end;
  Speech.diarize file expected :=
    match se_diarizer e with
    | Some d => default (Err task_panic) (Diarize.diarize d file expected)
    | None => stub_diarize file expected
    end;
  Speech.embed_speaker file :=
    match se_embedder e with
    | Some m => Engine.embed_speaker m file
    | None => stub_embed_speaker file
    end;
|}.
End engine.

(** ** Stages *)

(** Everything a stage may change: the database and the files, and the slot of
    the lazily built embedder. *)
Record Host := mkHost { h_world : World; h_embedder : LazyEmbedder }.
Notation HostM := (M Host Error).

Definition in_world {A} (m : WorldM A) : HostM A := fun h =>
  let '(r, w) := m (h_world h) in (r, mkHost w (h_embedder h)).
Definition on_db {A} (m : DbM A) : HostM A := in_world (lift m).

(** A stage that does not panic. *)
Definition calmly (m : WorldM unit) : HostM (option unit) := in_world (_ ← m; mret (Some tt)).

Section stages.
Context `{System} `{UuidFmt} `{EnvF32} `{SerdeJson TranscriptArtifact} `{SerdeJson DiarizationArtifact}.
Context `{CharAlnum} `{CorrectionReader} `{JsonText} `{FastEmbed} `{StrHash}.
Context (local_embed : bool) (cfg : Config.Config).

Definition embedder : HostM Embedder := fun h =>
  let '(r, slot) := get_embedder local_embed (h_embedder h) in (r, mkHost (h_world h) slot).

Section engines.
Context `{Speech.SpeechEngine} `{LanguageModel}.

(** [Ok None]: the stage panicked. *)
Definition run_stage (kind : JobKind) (recording_id : Uuid) (payload : Json) : HostM (option unit) :=
  match kind with
  | Transcode => calmly (transcode_run (blobs_of cfg) recording_id)
  | Diarize => calmly (diarize_run (blobs_of cfg) recording_id)
  | Transcribe => calmly (transcribe_run (blobs_of cfg) recording_id)
  | Types.Merge => calmly (lift (Merge.run (merge_settings cfg) recording_id))
  | Embed => e ← embedder; calmly (lift (@Embed.run e recording_id))
  | Summarize =>
      calmly (lift (Summarize.run (llm_settings cfg) recording_id (summarize_template (worker_settings cfg) payload)))
  | TranscribeSegment => in_world (transcribe_segment_run (live_settings cfg) recording_id)
  end.

Definition inline_order : list JobKind := [Transcode; Diarize; Transcribe; Types.Merge; Embed; Summarize].

(** The loop of [process_recording_inline]. *)
Fixpoint run_inline (recording_id : Uuid) (order : list JobKind) : HostM (option unit) := fun h =>
  match order with
  | [] => (Ok (Some tt), h)
  | kind :: order' =>
      match run_stage kind recording_id empty_payload h with
      | (Ok (Some _), h') => run_inline recording_id order' h'
      | (Ok None, h') => (Ok None, h')
      | (Err e, h') => (_ ← on_db (ignore_err (set_recording_status recording_id RecFailed)); fail_with e) h'
      end
  end.

(** [process_recording_inline] once the engines are there. *)
Definition process_with (recording_id : Uuid) : HostM (option unit) :=
  _ ← on_db (set_recording_status recording_id Processing);
  done ← run_inline recording_id inline_order;
  match done with
  | Some _ => _ ← on_db (set_recording_status recording_id Ready); mret (Some tt)
  | None => mret None
  end.
End engines.

(** ** Entry points that load the engines *)

Context `{EnvVar} `{Powf} `{FragmentFiles} `{Paths} `{FileTree} `{Sherpa} `{CreateRecognizer} `{ExtractorDim} `{TaskPanic} `{Transport}.
Context (onnx : bool) (available : option Z).

Definition process_recording_inline (recording_id : Uuid) : WorldM (option unit) := fun w =>
  match load_engines onnx available cfg with
  | Err e => (Err e, w)
  | Ok engines =>
      let '(r, h) := @process_with (speech_of (en_speech engines)) (client_chat (en_ollama engines)) recording_id
        (mkHost w (en_embedder engines)) in
      (r, h_world h)
  end.

(** ** Ingesting a file *)

Definition copy_file `{CopyFile} (from to_ : string) : WorldM unit := fun w =>
  match sys_copy (w_files w) from to_ with
  | Ok fs => (Ok tt, mkWorld (w_db w) fs)
  | Err e => (Err (Storage ("copying ingest file to " +:+ to_ +:+ ": " +:+ e)), w)
  end.

(** [metadata(p).map(|m| m.len() as i64).ok()] *)
Definition file_size (p : string) : WorldM (option Z) := fun w =>
  (Ok ((fun bytes => Z.of_nat (length bytes)) <$> w_files w !! p), w).

(** [id] and [segment_id] are the identifiers drawn; [Ok None]: a stage panicked. *)
Definition ingest_file `{CopyFile} (id segment_id : Uuid) (file : string) (title : option string) (participants : option Z)
    (inline : bool) : WorldM (option Uuid) :=
  there ← path_exists file;
  if negb there then fail_with (BadRequest ("ingest file does not exist: " +:+ file))
  else
    let ext := default "bin" (path_extension file) in
    recording ← lift (create_recording id title None participants (Some ext) None);
    let recording_id := rec_id recording in
    let seg_path := storage.segment_path (blobs_of cfg) recording_id 1 ext in
    _ ← (match RustPath.parent seg_path with Some dir => create_dir_all dir | None => mret tt end);
    _ ← copy_file file seg_path;
    bytes ← file_size seg_path;
    _ ← lift (insert_segment segment_id recording_id 1 (storage.segment_key recording_id 1 ext) (Some 0) None bytes None);
    _ ← lift (set_recording_storage_key recording_id (storage.storage_key recording_id));
    if (inline : bool) then
      done ← process_recording_inline recording_id;
      mret ((fun _ => recording_id) <$> done)
    else
      _ ← lift (set_recording_status recording_id Processing);
      _ ← lift (Queue.enqueue recording_id Transcode empty_payload);
      mret (Some recording_id).

(** ** Enrolling a voice *)

Definition sample_args (input out : string) : list string :=
  ["-y"; "-hide_banner"; "-loglevel"; "error"; "-i"; input; "-ac"; "1"; "-ar"; "16000"; "-c:a"; "pcm_s16le"; out].

Definition transcode_sample (input out : string) : WorldM unit :=
  spawned ← run_ffmpeg (sample_args input out);
  match spawned with
  | Err e => fail_with (Pipeline "enroll" ("failed to spawn ffmpeg: " +:+ e))
  | Ok output =>
      if negb (exit_code output =? 0) then fail_with (Pipeline "enroll" ("ffmpeg failed: " +:+ trim (stderr output)))
      else mret tt
  end.

(** What [warn_if_duplicate] writes to the log. *)
Inductive Notice :=
| AlreadyEnrolled (existing : Speaker) (similarity : f32)
| NoDuplicate
| CheckSkipped (e : Error).

Definition warn_if_duplicate `{PgVector} (embedding : list f32) : DbM Notice :=
  found ← attempt (nearest_enrolled embedding DUPLICATE_VOICE_SIMILARITY);
  mret (match found with
        | Ok (Some (existing, similarity)) => AlreadyEnrolled existing similarity
        | Ok None => NoDuplicate
        | Err e => CheckSkipped e
        end).

Definition already_enrolled (name : string) (p : Speaker) : Error :=
  BadRequest ("`" +:+ name +:+ "` is already enrolled (" +:+ uuid_to_string (spk_id p) +:+
    "). Pass --replace to give them this voice sample instead, which is what you want if the first one was poor; a second entry for one voice stops them being recognised at all.").

(** [enroll] once the sample has its voice. *)
Definition enroll_voice `{PgVector} (id : Uuid) (name : string) (embedding : list f32) (replace : bool) : DbM Uuid :=
  all ← list_speakers;
  match find_first (fun p => eq_ignore_ascii_case (spk_display_name p) name) all with
  | Some p =>
      if negb replace then fail_with (already_enrolled name p)
      else _ ← set_speaker_embedding (spk_id p) embedding; mret (spk_id p)
  | None =>
      _ ← warn_if_duplicate embedding;
      p ← create_speaker id name (Some embedding);
      mret (spk_id p)
  end.

Definition enroll `{PgVector} (id : Uuid) (name audio : string) (replace : bool) : WorldM Uuid :=
  there ← path_exists audio;
  if negb there then fail_with (BadRequest ("enroll audio does not exist: " +:+ audio))
  else
    engines ← of_result (load_engines onnx available cfg);
    let wav := with_extension audio "enroll.wav" in
    _ ← transcode_sample audio wav;
    sample ← read_file wav;
    embedding ← of_result (@Speech.embed_speaker (speech_of (en_speech engines)) sample);
    _ ← remove_file wav;
    lift (enroll_voice id name embedding replace).
End stages.

(** ** Putting derived data back on the queue *)

Definition reindex_payload : Json := JObject [("reindex", JBool true)].

Definition recordings_with_merge_done : DbM (list Uuid) := query (fun s =>
  dedup_first [] (omap job_recording_id (bfilter (fun j =>
    bool_decide (job_kind j = Types.Merge) && Queue.in_state Done j) (db_jobs s)))).

(** One turn of the loop of [reindex]. *)
Definition reindex_one (embeddings summaries : bool) (rid : Uuid) : DbM unit :=
  _ ← (if embeddings then _ ← Queue.enqueue rid Embed reindex_payload; mret tt else mret tt);
  if summaries then _ ← Queue.enqueue rid Summarize reindex_payload; mret tt else mret tt.

Definition reindex (embeddings summaries : bool) : DbM unit :=
  if negb embeddings && negb summaries then mret tt
  else
    recording_ids ← recordings_with_merge_done;
    mfor recording_ids (reindex_one embeddings summaries).
