(* ===== verification/PipelineProps.v ===== *)
(** * What the entry points promise

    A recording that went through all its stages has everything its transcript
    was derived into; derived data is put back on the queue once; a voice has one
    name. *)

From Stdlib Require Import String.
From S2P Require Import Cluster Split Models Diarize Asr ApiProps ClusterProps SplitProps DiarizeProps.
From S2P Require Import Prelude RustStr RustPath Types Llm F32 Db DbSchema Queue QueueSteps Store StoreProps Worker WorkerProps.
From S2P Require Import ArtifactCodec Merge MergeProps Embed Summarize SummarizeProps Identity Wav Speech Stages StagesProps.
From S2P Require Import IdentityProps Config TextEmbed Engine Pipeline.

(** ** Stages in worlds *)

Lemma lift_inv {A} (m : DbM A) w a w' :
  lift m w = (Ok a, w') -> exists s', m (w_db w) = (Ok a, s') /\ w' = mkWorld s' (w_files w).
Proof. unfold lift. destruct (m (w_db w)) as [r s']. intros [= -> <-]. by exists s'. Qed.

Lemma of_result_inv {A} (r : result Error A) w a w' : of_result r w = (Ok a, w') -> r = Ok a /\ w' = w.
Proof. destruct r as [x|e]; [|done]. by intros [= -> ->]. Qed.

(** Statements keep the schema, file calls the database. *)
Definition keeps_schema (w w' : World) : Prop := schema_ok (w_db w) -> schema_ok (w_db w').
#[export] Instance keeps_schema_preorder : PreOrder keeps_schema.
Proof. split; [by intros w Hs|]. intros a b c Hab Hbc Ha. auto. Qed.
#[export] Instance lift_keeps_schema {A} (m : DbM A) : SchemaOp m -> Steps keeps_schema (lift m).
Proof. intros Hm w Hs. unfold lift. generalize (Hm (w_db w) Hs). by destruct (m (w_db w)). Qed.
#[export] Instance path_exists_schema p : Steps keeps_schema (path_exists p).
Proof. by intros w. Qed.
#[export] Instance read_file_schema p : Steps keeps_schema (read_file p).
Proof. by intros w. Qed.
#[export] Instance of_result_schema {A} (r : result Error A) : Steps keeps_schema (of_result r).
Proof. by destruct r; intros w. Qed.

Section files.
Context `{System}.

#[export] Instance create_dir_all_schema p : Steps keeps_schema (create_dir_all p).
Proof. by intros w. Qed.
#[export] Instance write_schema p c : Steps keeps_schema (write p c).
Proof. intros w. unfold write. destruct (sys_write _ _ _); by intros Hs. Qed.
#[export] Instance remove_file_schema p : Steps keeps_schema (remove_file p).
Proof. by intros w Hs. Qed.
#[export] Instance run_ffmpeg_schema args : Steps keeps_schema (run_ffmpeg args).
Proof. intros w. unfold run_ffmpeg. destruct (sys_ffmpeg _ _); by intros Hs. Qed.
#[export] Instance transcode_to_wav_schema inputs out : Steps keeps_schema (transcode_to_wav inputs out).
Proof.
  unfold transcode_to_wav. do 3 (apply steps_bind; [apply _|apply _|intros ?]). case_match; [|apply _]. apply steps_bind; apply _.
Qed.
#[export] Instance require_files_schema paths : Steps keeps_schema (require_files paths).
Proof. induction paths as [|p paths IH]; cbn [require_files]; [apply _|]. apply steps_bind; [apply _|apply _|]. intros []; [exact IH|apply _]. Qed.

#[export] Instance transcode_run_schema `{UuidFmt} blobs id : Steps keeps_schema (transcode_run blobs id).
Proof.
  unfold transcode_run. apply steps_bind; [apply _|apply _|]. intros segs. apply steps_bind; [apply _| |].
  { destruct (bool_decide _); apply steps_bind; apply _. }
  intros _. do 3 (apply steps_bind; [apply _|apply _|intros ?]). apply _.
Qed.
End files.

Lemma recording_updated `{UuidFmt} id f s u s' :
  (affected ← update_recording id always f; not_found_if_zero affected id) s = (Ok u, s') ->
  exists row, db_recordings s !! id = Some row /\ s' = set_recordings (<[id := f row]> (db_recordings s)) s.
Proof. rewrite update_or_not_found. destruct (db_recordings s !! id) as [row|]; [|done]. intros [= _ <-]. by exists row. Qed.

(** ** What each stage leaves *)

Section stages.
Context `{System} `{UuidFmt} `{Speech.SpeechEngine} `{EnvF32} `{SerdeJson TranscriptArtifact} `{SerdeJson DiarizationArtifact}.
Context `{CharAlnum} `{LanguageModel} `{CorrectionReader} `{JsonText}.

Lemma require_wav_inv stage wav w u w' : require_wav stage wav w = (Ok u, w') -> w' = w /\ is_Some (w_files w !! wav).
Proof.
  unfold require_wav. intros (there & w1 & [= <- <-] & Hk)%bind_inv. case_bool_decide as Hs; [|done]. by injection Hk as <-.
Qed.

(** A transcoded recording has a readable WAV, and its length. *)
Lemma transcode_ok blobs id w u w' : schema_ok (w_db w) -> transcode_run blobs id w = (Ok u, w') ->
  schema_ok (w_db w') /\ exists file audio row, w_files w' !! storage.wav_path blobs id = Some file /\
    read_wav (Some file) = Ok audio /\ db_recordings (w_db w') !! id = Some row /\
    rec_duration_ms (rr_rec row) = Some (duration_ms audio).
Proof.
  intros Hs Hrun. pose proof (transcode_run_schema blobs id w Hs) as Hs'. rewrite Hrun in Hs'. split; [exact Hs'|]. clear Hs'.
  unfold transcode_run in Hrun. do 3 (apply bind_inv in Hrun as (? & ? & _ & Hrun)).
  apply bind_inv in Hrun as (file & w1 & [= <- <-] & Hrun). apply bind_inv in Hrun as (audio & w2 & [Ha ->]%of_result_inv & Hrun).
  apply lift_inv in Hrun as (s' & (row & Hrow & ->)%recording_updated & ->). cbn [w_files w_db] in *.
  destruct (w_files x4 !! _) as [bytes|] eqn:Ef; [|done].
  exists bytes, audio, (with_duration (duration_ms audio) row). cbn [db_recordings set_recordings]. by rewrite lookup_insert_eq.
Qed.

(** Diarizing stores the speakers of what the engine heard. *)
Lemma diarize_ok blobs id w u w' : diarize_run blobs id w = (Ok u, w') ->
  w_files w' = w_files w /\ exists file row d, w_files w !! storage.wav_path blobs id = Some file /\
    db_recordings (w_db w) !! id = Some row /\ diarize (Some file) (rec_participants_expected (rr_rec row)) = Ok d /\
    store_speakers id d (w_db w) = (Ok tt, w_db w').
Proof.
  unfold diarize_run. intros Hrun. apply bind_inv in Hrun as ([] & w1 & [-> [file Hf]]%require_wav_inv & Hrun).
  apply bind_inv in Hrun as (r & w2 & Hr & Hrun). rewrite (bind_ok (read_file _) _ _ _ _ eq_refl) in Hrun.
  unfold lift, get_recording in Hr. destruct (db_recordings (w_db w) !! id) as [row|] eqn:Er; [|done]. injection Hr as <- <-.
  cbn [w_files] in Hrun. rewrite Hf in Hrun. apply bind_inv in Hrun as (d & w3 & [Hd%in_stage_Ok ->]%of_result_inv & Hrun).
  apply lift_inv in Hrun as (s' & Hst & ->). split; [done|]. exists file, row, d. destruct u. done.
Qed.

(** Transcribing hands its words to the merge stage. *)
Lemma transcribe_ok blobs id w u w' : transcribe_run blobs id w = (Ok u, w') ->
  w_files w' = w_files w /\ exists file t, w_files w !! storage.wav_path blobs id = Some file /\ transcribe (Some file) = Ok t /\
    w_db w' = set_artifacts (<[(id, KIND_TRANSCRIPT) :=
      to_value (mkTranscriptArtifact (tr_text t) (map (core_word 0) (tr_words t)))]> (db_artifacts (w_db w))) (w_db w).
Proof.
  unfold transcribe_run. intros Hrun. apply bind_inv in Hrun as ([] & w1 & [-> [file Hf]]%require_wav_inv & Hrun).
  rewrite (bind_ok (read_file _) _ _ _ _ eq_refl), Hf in Hrun.
  apply bind_inv in Hrun as (t & w3 & [Ht%in_stage_Ok ->]%of_result_inv & Hrun).
  apply lift_inv in Hrun as (s' & Hst & ->). split; [done|]. exists file, t. split; [done|]. split; [done|].
  unfold artifacts.put_transcript, artifacts.put in Hst. do 2 (destruct (negb _); [done|]). by injection Hst as _ <-.
Qed.

(** Embedding leaves the chunks of the transcript it found. *)
Definition pending_chunks (id : Uuid) (s : Db) : list PendingChunk :=
  build_chunks (map (utterance_from_row s) (sort_by utt_le (bfilter (utt_of id) (db_utterances s)))).

Lemma insert_chunks_ok id cs s n s' : insert_chunks id cs s = (Ok n, s') -> forallb chunk_row_ok cs = true.
Proof.
  assert (Hloop : forall l s0 u s1, mfor l (insert_chunk id) s0 = (Ok u, s1) -> forallb chunk_row_ok l = true).
  { induction l as [|c l IH]; intros s0 u s1; [done|]. cbn [mfor forallb]. intros ([] & s2 & Hc & Hl)%bind_inv.
    rewrite (IH _ _ _ Hl), andb_true_r. unfold insert_chunk in Hc. unfold chunk_row_ok. by destruct (halfvec_ok _). }
  unfold insert_chunks. case_bool_decide as Hn; [by destruct cs|]. unfold transaction.
  destruct (mfor cs (insert_chunk id) s) as [[u|e] s1] eqn:E; [by intros _; eapply Hloop|].
  by rewrite (bind_err _ _ _ _ _ E).
Qed.

Lemma embed_ok (e : Embedder) id s u s' : recording_exists s id = true -> @Embed.run e id s = (Ok u, s') ->
  exists vs, (pending_chunks id s <> [] -> @embed e (map pc_text (pending_chunks id s)) = Ok vs) /\
    length vs = length (pending_chunks id s) /\ chunks_of id s' = zip_with new_chunk (pending_chunks id s) vs /\
    but_chunks s' = but_chunks s.
Proof.
  intros Hex. unfold Embed.run, list_utterances_by_recording. rewrite bind_query. fold (pending_chunks id s).
  destruct (delete_chunks_spec id s) as (s1 & Hdel & Hnil & _ & Hbut & Hex1). rewrite Hex in Hex1. case_bool_decide as Hz.
  - rewrite (bind_ok _ _ _ _ _ Hdel). intros [= _ <-]. apply nil_length_inv in Hz. exists []. by rewrite Hz, Hnil.
  - destruct (@embed e _) as [vs|err] eqn:Ee; [|done]. case_bool_decide as Hl; [|done]. cbn [negb].
    rewrite (bind_ok _ _ _ _ _ Hdel). intros (n & s2 & Hins & [= _ <-])%bind_inv.
    pose proof (insert_chunks_ok _ _ _ _ _ Hins) as Hok.
    destruct (insert_chunks_spec id _ s1 Hex1 Hok) as (s3 & Hins' & Hcs & _ & Hbut2). rewrite Hins in Hins'. injection Hins' as _ ->.
    exists vs. split; [done|]. split; [done|]. split; [by rewrite Hcs, Hnil|congruence].
Qed.

(** Merging succeeds only with both artifacts. *)
Definition merged_lines (mc : MergeConfig) (t : TranscriptArtifact) (d : DiarizationArtifact) (us : list GroupedUtterance) : Prop :=
  Forall2 same_but_text (group_into_utterances (labelled mc t d)) us /\
  (mc_correct_transcript mc = false -> us = group_into_utterances (labelled mc t d)) /\
  Forall2 (spoken_by (da_turns d)) (kept_words mc t) (concat (map gu_words us)).

Lemma merge_ok mc id s u s' : recording_exists s id = true -> Merge.run mc id s = (Ok u, s') ->
  exists t da us, fst (artifacts.get_transcript id s) = Ok t /\ fst (artifacts.get_diarization id s) = Ok da /\
    merged_lines mc t da us /\
    map utt_core (bfilter (utt_of id) (db_utterances s')) = map grouped_core us /\
    set_next_utt 0 (set_utterances [] s') = set_next_utt 0 (set_utterances [] s).
Proof.
  intros Hex Hrun. pose proof (merge_eq mc id s Hex) as Hspec.
  destruct (artifacts.get_transcript id s) as [[t|e] ?]; [|congruence].
  destruct (artifacts.get_diarization id s) as [[da|e] ?]; [|congruence].
  destruct Hspec as (r & s1 & us & Heq & Hsame & Hoff & Hsp & Hcase & _ & Hbut). rewrite Heq in Hrun. injection Hrun as -> <-.
  destruct (forallb _ _); destruct Hcase as [? Hcore]; [|done]. by exists t, da, us.
Qed.
End stages.

(** ** All the stages, one after the other *)

Lemma in_world_inv {A} (m : WorldM A) h a h' :
  in_world m h = (Ok a, h') -> exists w', m (h_world h) = (Ok a, w') /\ h_world h' = w'.
Proof. unfold in_world. destruct (m (h_world h)) as [r w']. intros [= -> <-]. by exists w'. Qed.

Lemma calmly_inv m h o h' : calmly m h = (Ok o, h') -> exists u, m (h_world h) = (Ok u, h_world h').
Proof.
  intros (w' & (u & w1 & Hm & [= _ <-])%bind_inv & <-)%in_world_inv. by exists u.
Qed.

Lemma on_db_inv {A} (m : DbM A) h a h' : on_db m h = (Ok a, h') ->
  m (w_db (h_world h)) = (Ok a, w_db (h_world h')) /\ w_files (h_world h') = w_files (h_world h).
Proof. intros (w' & (s' & Hm & ->)%lift_inv & Hw)%in_world_inv. by rewrite Hw. Qed.

Lemma calmly_lift_inv (m : DbM unit) h o h' : calmly (lift m) h = (Ok o, h') ->
  exists u, m (w_db (h_world h)) = (Ok u, w_db (h_world h')) /\ w_files (h_world h') = w_files (h_world h).
Proof. intros (u & (s' & Hm & Hw)%lift_inv)%calmly_inv. exists u. by rewrite Hw. Qed.

(** A stage on the world leaves the embedder's slot alone. *)
Lemma in_world_slot {A} (m : WorldM A) h r h' : in_world m h = (r, h') -> h_embedder h' = h_embedder h.
Proof. unfold in_world. destruct (m (h_world h)). by intros [= _ <-]. Qed.

Section inline.
Context `{System} `{UuidFmt} `{EnvF32} `{SerdeJson TranscriptArtifact} `{SerdeJson DiarizationArtifact} `{!artifacts.CodecLaws}.
Context `{CharAlnum} `{CorrectionReader} `{JsonText} `{FastEmbed} `{StrHash} (local_embed : bool) (cfg : Config.Config).
Context `{Speech.SpeechEngine} `{LanguageModel}.

Lemma run_inline_cons id k ks h h' :
  run_inline local_embed cfg id (k :: ks) h = (Ok (Some tt), h') ->
  exists o h1, run_stage local_embed cfg k id empty_payload h = (Ok o, h1) /\ run_inline local_embed cfg id ks h1 = (Ok (Some tt), h').
Proof.
  cbn [run_inline]. destruct (run_stage _ _ _ _ _ h) as [[[u|]|e] h1]; [by exists (Some u), h1|done|].
  unfold mbind at 1, M_bind. by destruct (on_db _ h1) as [[|] ?].
Qed.

(** The row of a recording whatever its status and title. *)
Definition timing (row : RecordingRow) : option Z * option Z := (rec_duration_ms (rr_rec row), rec_participants_expected (rr_rec row)).

(** The sound, and the speakers and lines made of it. *)
Definition has_lines (id : Uuid) (w : World) : Prop :=
  exists file audio row t d,
    w_files w !! storage.wav_path (blobs_of cfg) id = Some file /\ read_wav (Some file) = Ok audio /\
    db_recordings (w_db w) !! id = Some row /\ rec_duration_ms (rr_rec row) = Some (duration_ms audio) /\
    transcribe (Some file) = Ok t /\ diarize (Some file) (rec_participants_expected (rr_rec row)) = Ok d /\
    (forall i, is_Some (db_recording_speakers (w_db w) !! (id, i)) <-> i ∈ map st_local_idx (dz_turns d)) /\
    exists us,
      merged_lines (merge_settings cfg) (mkTranscriptArtifact (tr_text t) (map (core_word 0) (tr_words t)))
        (mkDiarization (map turn_artifact (dz_turns d)) (dz_num_speakers d)) us /\
      map utt_core (bfilter (utt_of id) (db_utterances (w_db w))) = map grouped_core us.

(** The embedder a slot holds, or would build. *)
Definition slot_embedder (slot : LazyEmbedder) : result Error Embedder :=
  match le_cached slot with Some e => Ok e | None => build_embedder local_embed (le_cfg slot) end.

Lemma embedder_inv h e h' : embedder local_embed h = (Ok e, h') ->
  h_world h' = h_world h /\ slot_embedder (h_embedder h) = Ok e /\ le_cached (h_embedder h') = Some e.
Proof.
  unfold embedder, get_embedder, slot_embedder. destruct (le_cached (h_embedder h)) as [e0|] eqn:Ec; [by intros [= -> <-]|].
  destruct (build_embedder _ _); [|done]. by intros [= -> <-].
Qed.

(** The chunks of those lines, each with the vector [e] answered for its text. *)
Definition has_chunks (e : Embedder) (id : Uuid) (s : Db) : Prop :=
  exists vs,
    (pending_chunks id s <> [] -> @embed e (map pc_text (pending_chunks id s)) = Ok vs) /\
    length vs = length (pending_chunks id s) /\ chunks_of id s = zip_with new_chunk (pending_chunks id s) vs.

Definition has_summary (id : Uuid) (template : string) (s : Db) : Prop :=
  exists tmpl, summary_template.resolve template = Some tmpl /\ is_Some (db_summaries s !! (id, summary_template.id tmpl)).

(** What a line shows is in these tables. *)
Definition spoken (s : Db) := (db_recording_speakers s, db_utterances s, db_speakers s).

Lemma pending_chunks_same id s s' : spoken s' = spoken s -> pending_chunks id s' = pending_chunks id s.
Proof.
  unfold spoken. intros [= Hr Hu Hs]. unfold pending_chunks. rewrite Hu. f_equal. apply map_ext. intros u.
  unfold utterance_from_row, joined_name. by rewrite Hr, Hs.
Qed.

Lemma has_lines_same id w w' row row' :
  has_lines id w -> w_files w' = w_files w -> spoken (w_db w') = spoken (w_db w) ->
  db_recordings (w_db w) !! id = Some row -> db_recordings (w_db w') !! id = Some row' -> timing row' = timing row -> has_lines id w'.
Proof.
  intros (file & audio & r & t & d & Hfile & Hwav & Hrow & Hrest) Hf [= Hrs Hu _] Hr Hr' [= Hd Hp]. assert (r = row) as -> by congruence.
  exists file, audio, row', t, d. rewrite Hf, Hrs, Hu, Hd, Hp. done.
Qed.

Lemma has_chunks_same e id s s' : has_chunks e id s -> spoken s' = spoken s -> db_chunks s' = db_chunks s -> has_chunks e id s'.
Proof. intros (vs & Hc) Hl Hch. exists vs. unfold chunks_of. rewrite (pending_chunks_same id _ _ Hl), Hch. exact Hc. Qed.

(** What the first two stages parked is what merging reads. *)
Lemma parked id s (t0 : TranscriptArtifact) (d0 : DiarizationArtifact) t da m :
  db_artifacts s = <[(id, KIND_TRANSCRIPT) := to_value t0]> (<[(id, KIND_DIARIZATION) := to_value d0]> m) ->
  fst (artifacts.get_transcript id s) = Ok t -> fst (artifacts.get_diarization id s) = Ok da -> t = t0 /\ da = d0.
Proof.
  intros Ha. unfold artifacts.get_transcript, artifacts.get_diarization, artifacts.get. rewrite !bind_query, Ha, lookup_insert_eq.
  rewrite lookup_insert_ne by done. rewrite lookup_insert_eq. unfold artifacts.parse_artifact.
  rewrite artifacts.diarization_reads_back. destruct (forallb artifacts.finite_word (ta_words t0)) eqn:Ef.
  - rewrite artifacts.transcript_reads_back by done. by intros [= <-] [= <-].
  - destruct (artifacts.transcript_not_finite t0 Ef) as [m' Hm]. by rewrite Hm.
Qed.

(** The first four stages make the lines. *)
Lemma first_stages id w1 w2 w3 w4 w5 u1 u2 u3 u4 :
  schema_ok (w_db w1) -> transcode_run (blobs_of cfg) id w1 = (Ok u1, w2) -> diarize_run (blobs_of cfg) id w2 = (Ok u2, w3) ->
  transcribe_run (blobs_of cfg) id w3 = (Ok u3, w4) -> Merge.run (merge_settings cfg) id (w_db w4) = (Ok u4, w_db w5) ->
  w_files w5 = w_files w4 -> has_lines id w5 /\ is_Some (db_recordings (w_db w5) !! id).
Proof.
  intros Hs (Hs1 & file & audio & row & Hfile & Hwav & Hrow & Hdur)%(transcode_ok _ _ _ _ _ Hs)
    (Hf2 & file2 & row2 & dz & Hfile2 & Hrow2 & Hdz & Hst)%diarize_ok (Hf3 & file3 & t & Hfile3 & Htr & Hdb3)%transcribe_ok E4 Hf4.
  assert (file2 = file) as -> by congruence. assert (file3 = file) as -> by congruence. assert (row2 = row) as -> by congruence.
  assert (Hex1 : recording_exists (w_db w2) id = true) by (apply bool_decide_true; by exists row).
  destruct (store_speakers_eq id dz _ Hs1 Hex1 (proj1 (store_speakers_ok _ _ _ _ Hst)) (proj2 (store_speakers_ok _ _ _ _ Hst))) as (s2 & Hst' & Hrs2 & _ & _ & Hart2 & Hutt2 & Hbut2).
  rewrite Hst in Hst'. injection Hst' as <-. pose proof (f_equal db_recordings Hbut2) as Hrec2. cbn in Hrec2.
  assert (Hrow4 : db_recordings (w_db w4) !! id = Some row) by (rewrite Hdb3; cbn; by rewrite Hrec2).
  assert (Hex4 : recording_exists (w_db w4) id = true) by (apply bool_decide_true; by exists row).
  destruct (merge_ok _ _ _ _ _ Hex4 E4) as (t' & da & us & Ht & Hda & Hmerged & Hlines & Hbut4).
  pose proof (f_equal db_recordings Hbut4) as Hrec5. pose proof (f_equal db_recording_speakers Hbut4) as Hrs5. cbn in Hrec5, Hrs5.
  destruct (parked id (w_db w4) _ _ t' da _ ltac:(rewrite Hdb3; cbn; by rewrite Hart2) Ht Hda) as [-> ->].
  rewrite Hrec5, Hrow4. split; [|by exists row]. exists file, audio, row, t, dz. rewrite Hrec5, Hrs5, Hf4, Hf3, Hf2.
  do 6 (split; [done|]). split.
  - intros i. rewrite Hdb3. cbn. rewrite Hrs2. case_bool_decide; [done|]. split; [by intros [? ?]|done].
  - by exists us.
Qed.

(** Summarizing leaves a summary, and of the rest at most another title. *)
Lemma summary_ok lcfg id template s u s' row : db_recordings s !! id = Some row -> Summarize.run lcfg id template s = (Ok u, s') ->
  has_summary id template s' /\ spoken s' = spoken s /\ db_chunks s' = db_chunks s /\
  exists row', db_recordings s' !! id = Some row' /\ timing row' = timing row.
Proof.
  intros Hrow. destruct (summarize_run_spec lcfg id template s) as (tmpl & parsed & Htmpl & _ & Heq). cbn zeta in Heq. rewrite Hrow in Heq.
  rewrite Heq. intros [= _ <-]. destruct (ps_title parsed) as [title|]; [destruct (title_replaceable row)|];
    (split; [exists tmpl; cbn; rewrite lookup_insert_eq; by eauto|]); (split; [done|]); (split; [done|]); cbn; rewrite ?lookup_insert_eq; by eauto.
Qed.

(** The last two make the rest of them. *)
Lemma last_stages id w1 w2 w3 (e : Embedder) u1 u2 template :
  has_lines id w1 -> is_Some (db_recordings (w_db w1) !! id) ->
  @Embed.run e id (w_db w1) = (Ok u1, w_db w2) -> w_files w2 = w_files w1 ->
  Summarize.run (llm_settings cfg) id template (w_db w2) = (Ok u2, w_db w3) -> w_files w3 = w_files w2 ->
  has_lines id w3 /\ has_chunks e id (w_db w3) /\ has_summary id template (w_db w3) /\ is_Some (db_recordings (w_db w3) !! id).
Proof.
  intros Hl [row Hrow] E1 Hf2 E2 Hf3.
  assert (Hex : recording_exists (w_db w1) id = true) by (apply bool_decide_true; by exists row).
  destruct (embed_ok e id _ _ _ Hex E1) as (vs & Hemb & Hlen & Hch & Hbut).
  assert (Hrow2 : db_recordings (w_db w2) !! id = Some row) by (pose proof (f_equal db_recordings Hbut) as Hx; cbn in Hx; by rewrite Hx).
  assert (Hsp2 : spoken (w_db w2) = spoken (w_db w1)) by exact (f_equal spoken Hbut).
  destruct (summary_ok _ _ _ _ _ _ _ Hrow2 E2) as (Hsum & Hsp3 & Hch3 & row3 & Hrow3 & Htime).
  split; [|split; [|split; [done|by exists row3]]].
  - eapply (has_lines_same id w1); [done|congruence|congruence|done|done|done].
  - eapply has_chunks_same; [|exact Hsp3|exact Hch3]. exists vs. by rewrite (pending_chunks_same id _ _ Hsp2).
Qed.

(** C3: A recording that went through is all there.  When the stages run one after
    the other and none fails or panics, the recording is [ready], its sound is
    the transcoded file and as long as the row says; its lines hold the words
    the recognizer heard in that file, in order and unchanged but for the
    speaker, all of them or all but the configured fillers, each with the
    speaker whose turns cover it longest, grouped as the merge stage groups
    them (the model may only reword a line); every speaker row is one of those
    turns'; its chunks are those of these lines, each with the vector answered
    by the embedder that the slot held or built from its configuration; and
    there is a summary for the configured template. *)
Theorem inline_delivers (id : Uuid) (h h' : Host) :
  schema_ok (w_db (h_world h)) -> process_with local_embed cfg id h = (Ok (Some tt), h') ->
  has_lines id (h_world h') /\
  (exists e, slot_embedder (h_embedder h) = Ok e /\ le_cached (h_embedder h') = Some e /\ has_chunks e id (w_db (h_world h'))) /\
  has_summary id (summarize_template (worker_settings cfg) empty_payload) (w_db (h_world h')) /\
  exists row, db_recordings (w_db (h_world h')) !! id = Some row /\ rec_status (rr_rec row) = Ready.
Proof.
  intros Hs Hrun. unfold process_with in Hrun. apply bind_inv in Hrun as (u0 & h0 & E0' & Hrun).
  pose proof (in_world_slot _ _ _ _ E0') as S0. apply on_db_inv in E0' as [E0 _].
  pose proof (set_recording_status_schema id Processing _ Hs) as Hs0. rewrite E0 in Hs0. cbn in Hs0.
  apply bind_inv in Hrun as ([[]|] & h6 & Hrun & Hend); [|done].
  apply bind_inv in Hend as (u7 & h7 & E7 & [= <-]).
  pose proof (in_world_slot _ _ _ _ E7) as S7. apply on_db_inv in E7 as [(row & Hrow & Hdb7)%recording_updated Hf7].
  assert (exists e, slot_embedder (h_embedder h0) = Ok e /\ le_cached (h_embedder h6) = Some e /\
    has_lines id (h_world h6) /\ has_chunks e id (w_db (h_world h6)) /\
    has_summary id (summarize_template (worker_settings cfg) empty_payload) (w_db (h_world h6)))
    as (e & Hslot & Hcached & Hl & Hc & tmpl & Htmpl & Hsum).
  { unfold inline_order in Hrun.
    apply run_inline_cons in Hrun as (? & h1 & E1 & Hrun). apply run_inline_cons in Hrun as (? & h2 & E2 & Hrun).
    apply run_inline_cons in Hrun as (? & h3 & E3 & Hrun). apply run_inline_cons in Hrun as (? & h4 & E4 & Hrun).
    apply run_inline_cons in Hrun as (? & h5 & E5 & Hrun). apply run_inline_cons in Hrun as (? & h6' & E6 & Hrun).
    injection Hrun as ->. cbn [run_stage] in *.
    assert (Hearlier : h_embedder h4 = h_embedder h0).
    { etransitivity; [exact (in_world_slot _ _ _ _ E4)|]. etransitivity; [exact (in_world_slot _ _ _ _ E3)|].
      etransitivity; [exact (in_world_slot _ _ _ _ E2)|exact (in_world_slot _ _ _ _ E1)]. }
    pose proof (in_world_slot _ _ _ _ E6) as S6.
    apply calmly_inv in E1 as (u1 & E1), E2 as (u2 & E2), E3 as (u3 & E3).
    apply calmly_lift_inv in E4 as (u4 & E4 & Hf4), E6 as (u6 & E6 & Hf6).
    apply bind_inv in E5 as (e & h4' & (Hw4 & Hheld & Hcache)%embedder_inv & E5'). pose proof (in_world_slot _ _ _ _ E5') as S5.
    apply calmly_lift_inv in E5' as (u5 & E5 & Hf5).
    rewrite Hw4 in E5, Hf5. destruct (first_stages id _ _ _ _ _ _ _ _ _ Hs0 E1 E2 E3 E4 Hf4) as [Hl Hex].
    destruct (last_stages id _ _ _ e _ _ _ Hl Hex E5 Hf5 E6 Hf6) as (? & ? & ? & _). exists e.
    split; [by rewrite <- Hearlier|]. split; [|done]. by rewrite S6, S5. }
  rewrite Hdb7. split; [|split; [|split]].
  - eapply (has_lines_same id (h_world h6) _ row (with_status Ready row)); [done|done|by rewrite Hdb7|done| |done].
    rewrite Hdb7. cbn. by rewrite lookup_insert_eq.
  - exists e. split; [by rewrite <- S0|]. split; [by rewrite S7|]. by eapply has_chunks_same.
  - by exists tmpl.
  - cbn. rewrite lookup_insert_eq. by eexists.
Qed.
End inline.

(** ** The order, and a stage that fails *)

(** The inline driver runs the stages in dependency order and stops at the
    first that fails: the error is that stage's, no later stage has run, and the
    recording is [failed]. *)
Theorem inline_stops `{System} `{UuidFmt} `{EnvF32} `{SerdeJson TranscriptArtifact} `{SerdeJson DiarizationArtifact}
    `{CharAlnum} `{CorrectionReader} `{JsonText} `{FastEmbed} `{StrHash} `{Speech.SpeechEngine} `{LanguageModel} local_embed cfg id :
  (forall k1 k2, k1 ∈ JobKind.predecessors k2 -> exists l1 l2 l3, inline_order = l1 ++ k1 :: l2 ++ k2 :: l3) /\
  (forall order h e h', run_inline local_embed cfg id order h = (Err e, h') ->
     exists done k rest h1 h2, order = done ++ k :: rest /\ run_inline local_embed cfg id done h = (Ok (Some tt), h1) /\
       run_stage local_embed cfg k id empty_payload h1 = (Err e, h2) /\
       w_files (h_world h') = w_files (h_world h2) /\
       w_db (h_world h') = snd (set_recording_status id RecFailed (w_db (h_world h2)))).
Proof.
  split.
  - intros k1 k2 Hp. unfold inline_order. destruct k2; cbn in Hp; repeat (apply elem_of_cons in Hp as [->|Hp]); try (by inversion Hp).
    + by exists [], [], [Transcribe; Types.Merge; Embed; Summarize].
    + by exists [], [Diarize], [Types.Merge; Embed; Summarize].
    + by exists [Transcode], [Transcribe], [Embed; Summarize].
    + by exists [Transcode; Diarize], [], [Embed; Summarize].
    + by exists [Transcode; Diarize; Transcribe], [], [Summarize].
    + by exists [Transcode; Diarize; Transcribe], [Embed], [].
  - induction order as [|k order IH]; intros h e h'; cbn [run_inline]; [done|].
    destruct (run_stage local_embed cfg k id empty_payload h) as [[[[]|]|e'] h1] eqn:E; [|done|].
    + intros Hrun. destruct (IH h1 e h' Hrun) as (d & k' & rest & h2 & h3 & -> & Hd & Hk & Hs').
      exists (k :: d), k', rest, h2, h3. split; [done|]. cbn [run_inline]. by rewrite E.
    + intros Hf. exists [], k, order, h, h1. split; [done|]. split; [done|]. rewrite E. revert Hf.
      unfold mbind, M_bind, on_db, in_world, lift, ignore_err, fail_with. destruct (set_recording_status id RecFailed (w_db (h_world h1))) as [r s2].
      by intros [= -> <-].
Qed.

(** ** Back on the queue *)

(** New jobs, and only for what is wanted: afterwards each of these has a live
    job, and none is made for one that had. *)
Definition queues (wanted : list (Uuid * JobKind)) (s s' : Db) : Prop :=
  db_recordings s' = db_recordings s /\
  exists new, db_jobs s' = db_jobs s ++ new /\
    Forall (fun j => exists k, live_key j = Some k /\ k ∈ wanted /\ job_state j = Queued) new /\
    (forall k, k ∈ wanted -> k ∈ live_keys (db_jobs s')) /\
    ((forall k, k ∈ wanted -> k ∈ live_keys (db_jobs s)) -> new = []).

Lemma queues_app w1 w2 s s1 s2 : queues w1 s s1 -> queues w2 s1 s2 -> queues (w1 ++ w2) s s2.
Proof.
  intros (Hr1 & n1 & H1 & F1 & L1 & N1) (Hr2 & n2 & H2 & F2 & L2 & N2). split; [congruence|]. exists (n1 ++ n2).
  split; [by rewrite H2, H1, app_assoc|]. split; [|split].
  - apply Forall_app. split; (eapply Forall_impl; [eassumption|]); intros j (k & ? & ? & ?); exists k; set_solver.
  - intros k [Hk|Hk]%elem_of_app; [|by apply L2]. rewrite H2. unfold live_keys. rewrite omap_app. apply elem_of_app. left. by apply L1.
  - intros Hall. assert (n1 = []) as -> by (apply N1; set_solver). rewrite app_nil_r in H1. rewrite N2; [done|].
    intros k Hk. rewrite H1. set_solver.
Qed.

Lemma queues_none s : queues [] s s.
Proof. split; [done|]. exists []. rewrite app_nil_r. split; [done|]. split; [constructor|]. split; [intros k Hk; inversion Hk|done]. Qed.

Lemma enqueue_queues r k payload s : schema_ok s -> fk s r ->
  exists j s', Queue.enqueue r k payload s = (Ok j, s') /\ schema_ok s' /\ queues [(r, k)] s s'.
Proof.
  intros Hs Hr. destruct (enqueue_answers r k payload 0 s Hs Hr) as (j & s' & Heq & Hin & Hk & Hcase & _). exists j, s'.
  pose proof (enqueue_schema r k payload 0 s Hs) as Hs'. pose proof (enqueue_recordings r k payload 0 s) as Hrec. rewrite Heq in Hs', Hrec.
  split; [done|]. split; [done|]. split; [done|].
  assert (Hlive : forall k', k' ∈ [(r, k)] -> k' ∈ live_keys (db_jobs s')).
  { intros k' ->%list_elem_of_singleton. apply list_elem_of_omap. by exists j. }
  destruct Hcase as [Hj|(Hno & Hnew & Hj)].
  - exists []. rewrite app_nil_r. split; [done|]. split; [constructor|done].
  - exists [j]. split; [done|]. split; [|split; [done|]].
    + constructor; [|constructor]. exists (r, k). split; [done|]. split; [by left|]. by rewrite Hnew.
    + intros Hall. exfalso. apply Hno, Hall. by left.
Qed.

(** One kind of job when asked for. *)
Definition asked (b : bool) (r : Uuid) (k : JobKind) : list (Uuid * JobKind) := if b then [(r, k)] else [].
Definition reindexed (embeddings summaries : bool) (r : Uuid) : list (Uuid * JobKind) :=
  asked embeddings r Embed ++ asked summaries r Summarize.

Lemma asked_queues (b : bool) r k payload s : schema_ok s -> fk s r ->
  exists s', (if b then _ ← Queue.enqueue r k payload; mret tt else mret tt) s = (Ok tt, s') /\ schema_ok s' /\ queues (asked b r k) s s'.
Proof.
  intros Hs Hr. destruct b; [|exists s; split; [done|]; split; [done|apply queues_none]].
  destruct (enqueue_queues r k payload s Hs Hr) as (j & s' & Heq & Hs' & Hq). exists s'. by rewrite (bind_ok _ _ _ _ _ Heq).
Qed.

Lemma queues_fk w s s' r : queues w s s' -> fk s r -> fk s' r.
Proof. intros [Hr _] Hf. unfold fk. by rewrite Hr. Qed.

Lemma reindex_loop e m rs s : schema_ok s -> Forall (fk s) rs ->
  exists s', mfor rs (reindex_one e m) s = (Ok tt, s') /\ schema_ok s' /\ queues (flat_map (reindexed e m) rs) s s'.
Proof.
  revert s. induction rs as [|r rs IH]; intros s Hs Hfk; cbn [mfor flat_map]; [exists s; split; [done|]; split; [done|apply queues_none]|].
  apply Forall_cons in Hfk as [Hr Hfk].
  destruct (asked_queues e r Embed reindex_payload s Hs Hr) as (s1 & E1 & Hs1 & Hq1).
  destruct (asked_queues m r Summarize reindex_payload s1 Hs1 (queues_fk _ _ _ _ Hq1 Hr)) as (s2 & E2 & Hs2 & Hq2).
  pose proof (queues_app _ _ _ _ _ Hq1 Hq2) as Hq.
  destruct (IH s2 Hs2) as (s3 & E3 & Hs3 & Hq3); [by eapply Forall_impl; [exact Hfk|]; intros x Hx; eapply queues_fk|].
  assert (reindex_one e m r s = (Ok tt, s2)) as E12 by (unfold reindex_one; by rewrite (bind_ok _ _ _ _ _ E1)).
  exists s3. rewrite (bind_ok _ _ _ _ _ E12). split; [done|]. split; [done|]. by eapply queues_app.
Qed.

(** The recordings that have been merged by a job. *)
Definition merged (s : Db) (r : Uuid) : Prop := done_job s r Types.Merge.

Lemma merged_list s : exists rs, recordings_with_merge_done s = (Ok rs, s) /\ forall r, r ∈ rs <-> merged s r.
Proof.
  eexists. split; [reflexivity|]. intros r. rewrite elem_of_dedup_first, list_elem_of_omap. split.
  - intros [(j & [Hj Hb]%elem_of_bfilter & Hr) _]. apply andb_true_iff in Hb as [Hk%bool_decide_eq_true_1 Hst%bool_decide_eq_true_1].
    by exists j.
  - intros (j & Hj & Hr & Hk & Hst). split; [|intros Hx; inversion Hx]. exists j. split; [|done]. apply elem_of_bfilter. split; [done|].
    unfold Queue.in_state. rewrite Hk, Hst. done.
Qed.

Lemma reindex_queues e m s : schema_ok s -> exists rs s', reindex e m s = (Ok tt, s') /\ schema_ok s' /\
  (forall r, r ∈ rs <-> merged s r) /\ queues (flat_map (reindexed e m) rs) s s'.
Proof.
  intros Hs. destruct (merged_list s) as (rs & Hrs & Hiff). exists rs. unfold reindex. destruct (negb e && negb m) eqn:E.
  - apply andb_true_iff in E as [He%negb_true_iff Hm%negb_true_iff]. subst e m. exists s.
    assert (flat_map (reindexed false false) rs = []) as -> by (clear; induction rs; done). do 3 (split; [done|]). apply queues_none.
  - rewrite (bind_ok _ _ _ _ _ Hrs). destruct (reindex_loop e m rs s Hs) as (s' & Hrun & Hs' & Hq); [|by exists s'].
    apply Forall_forall. intros r (j & Hj & Hr & _)%Hiff. pose proof (jobs_fk s Hs) as F. rewrite Forall_forall in F. by apply (F j).
Qed.

(** C36: Derived data is put back on the queue once.  Reindexing always succeeds.
    Afterwards every recording with a finished merge job has a live job of each
    kind asked for; no other job was made, none of a kind that was already live,
    and no existing one was touched, so that asking again changes nothing. *)
Theorem reindex_spec (embeddings summaries : bool) (s : Db) : schema_ok s ->
  exists s', reindex embeddings summaries s = (Ok tt, s') /\ schema_ok s' /\
    exists new, db_jobs s' = db_jobs s ++ new /\
      Forall (fun j => job_state j = Queued /\ exists r, job_recording_id j = Some r /\ merged s r /\
        ((job_kind j = Embed /\ embeddings = true) \/ (job_kind j = Summarize /\ summaries = true))) new /\
      (forall r, merged s r -> (embeddings = true -> (r, Embed) ∈ live_keys (db_jobs s')) /\
                              (summaries = true -> (r, Summarize) ∈ live_keys (db_jobs s'))) /\
      exists s'', reindex embeddings summaries s' = (Ok tt, s'') /\ db_jobs s'' = db_jobs s'.
Proof.
  intros Hs. destruct (reindex_queues embeddings summaries s Hs) as (rs & s' & Hrun & Hs' & Hrs & Hrec & new & Hj & Hnew & Hlive & _).
  exists s'. split; [done|]. split; [done|]. exists new. split; [done|].
  assert (Hwant : forall r k, (r, k) ∈ flat_map (reindexed embeddings summaries) rs <->
    merged s r /\ ((k = Embed /\ embeddings = true) \/ (k = Summarize /\ summaries = true))).
  { intros r k. rewrite elem_of_flat_map. setoid_rewrite Hrs. unfold reindexed, asked.
    destruct embeddings, summaries; set_solver. }
  split; [|split].
  - eapply Forall_impl; [exact Hnew|]. intros j ([r k] & Hk & Hin & Hst). split; [done|]. exists r. apply Hwant in Hin as [Hm Hk'].
    unfold live_key in Hk. destruct (job_live j); [|done]. destruct (job_recording_id j) as [r'|]; [|done]. injection Hk as -> ->. done.
  - intros r Hm. split; intros ->; apply Hlive, Hwant; (split; [done|]); [by left|by right].
  - destruct (reindex_queues embeddings summaries s' Hs') as (rs2 & s2 & Hrun2 & _ & Hrs2 & _ & new2 & Hj2 & _ & _ & Hnone).
    exists s2. split; [done|]. rewrite Hj2, Hnone, app_nil_r; [done|]. intros [r k] (r' & Hr' & Hin)%elem_of_flat_map.
    apply Hlive. apply elem_of_flat_map. exists r'. split; [|done]. apply Hrs. apply Hrs2 in Hr' as (j & Hin' & Hjr & Hjk & Hst).
    exists j. split; [|done]. rewrite Hj in Hin'. apply elem_of_app in Hin' as [?|Hin']; [done|].
    rewrite Forall_forall in Hnew. destruct (Hnew j Hin') as (? & _ & _ & Hq). congruence.
Qed.


(** ** One entry for a name *)

Section enroll.
Context `{UuidFmt} `{PgVector}.

Definition named (name : string) (p : Speaker) : Prop :=
  to_ascii_lowercase (spk_display_name p) = to_ascii_lowercase name.

(** No two entries of the library have one name, however it is capitalised. *)
Definition one_name (s : Db) : Prop :=
  forall i j p q, db_speakers s !! i = Some p -> db_speakers s !! j = Some q -> named (spk_display_name q) p -> i = j.

Definition with_voice (v : list f32) (p : Speaker) : Speaker :=
  mkSpeaker (spk_id p) (spk_display_name p) (Some v) (spk_created_at p).

Lemma warn_reads embedding s : exists n, warn_if_duplicate embedding s = (Ok n, s).
Proof. unfold warn_if_duplicate, nearest_enrolled, match_speaker_by_embedding, attempt. by eexists. Qed.

(** The entry [enroll] would find. *)
Lemma enroll_cases id name v replace s : schema_ok s -> vector_ok VOICE_DIM v = true ->
  (exists p, db_speakers s !! spk_id p = Some p /\ named name p /\ enroll_voice id name v replace s =
     (if replace then (Ok (spk_id p), set_speakers (<[spk_id p := with_voice v p]> (db_speakers s)) s)
      else (Err (already_enrolled name p), s))) \/
  ((forall i p, db_speakers s !! i = Some p -> ~ named name p) /\ enroll_voice id name v replace s =
     match create_speaker id name (Some v) s with (Ok p, s') => (Ok (spk_id p), s') | (Err e, s') => (Err e, s') end).
Proof.
  intros Hs Hv. unfold enroll_voice, list_speakers. rewrite bind_query.
  destruct (find_first _ (speakers_by name_le s)) as [p|] eqn:E.
  - apply find_first_Some in E as [[u Hu]%list_speakers_elem Hn%eq_ignore_ascii_case_spec].
    pose proof (speakers_key s Hs u p Hu) as Hid. cbn in Hid. subst u. left. exists p. split; [done|]. split; [done|].
    destruct replace; [|done]. cbn [negb]. unfold set_speaker_embedding, update_speaker. rewrite Hv. cbn [negb].
    unfold mbind, M_bind. by rewrite Hu.
  - right. split.
    + intros i p Hp Hn. assert (Hin : p ∈ speakers_by name_le s) by (apply list_speakers_elem; by exists i).
      apply (proj1 (find_first_None _ _) E) in Hin. apply eq_ignore_ascii_case_spec in Hn. congruence.
    + destruct (warn_reads v s) as (n & Hw). rewrite (bind_ok _ _ _ _ _ Hw). unfold mbind, M_bind.
      by destruct (create_speaker id name (Some v) s) as [[p|e] s'].
Qed.

(** C37: Enrolling never makes a second entry for a name.  When the library has the
    name, however capitalised, the call is refused with nothing changed, or
    with [--replace] gives that entry the new voice and nothing else; otherwise
    it adds one entry of that name with the voice.  Either way, a library
    without two entries of one name stays so, and no other entry changes. *)
Theorem enroll_voice_spec (id : Uuid) (name : string) (v : list f32) (replace : bool) (s : Db) :
  schema_ok s -> vector_ok VOICE_DIM v = true -> db_speakers s !! id = None ->
  let '(r, s') := enroll_voice id name v replace s in
  match r with
  | Err e => s' = s /\ replace = false /\ exists p, db_speakers s !! spk_id p = Some p /\ named name p /\ e = already_enrolled name p
  | Ok u => exists p, db_speakers s' !! u = Some p /\ named name p /\ spk_embedding p = Some v /\
      (replace = false -> u = id) /\ s' = set_speakers (<[u := p]> (db_speakers s)) s
  end /\ (one_name s -> one_name s').
Proof.
  intros Hs Hv Hfresh. destruct (enroll_cases id name v replace s Hs Hv) as [(p & Hp & Hn & ->)|[Hno ->]].
  - destruct replace; [|split; [split; [done|]; split; [done|]; by exists p|done]]. split.
    + exists (with_voice v p). cbn. rewrite lookup_insert_eq. done.
    + intros Hone i j a b. cbn. rewrite !lookup_insert_Some.
      intros [[<- <-]|[Hi Ha]] [[<- <-]|[Hj Hb]]; cbn; [done|by apply (Hone _ j p b)|by apply (Hone i _ a p)|by apply (Hone i j a b)].
  - unfold create_speaker. cbn [opt_vector_ok]. rewrite Hv. cbn [negb]. rewrite bool_decide_false by (rewrite Hfresh; by intros [? ?]).
    split.
    + exists (mkSpeaker id name (Some v) (db_now s)). cbn. rewrite lookup_insert_eq. done.
    + intros Hone i j a b. cbn. rewrite !lookup_insert_Some.
      intros [[<- <-]|[Hi Ha]] [[<- <-]|[Hj Hb]]; cbn; [done| | |by apply (Hone i j a b)]; intros Hn; exfalso.
      * by apply (Hno j b).
      * by apply (Hno i a).
Qed.
End enroll.

(** ** A file becomes a recording *)

Section ingest.
Context `{System} `{UuidFmt} `{EnvF32} `{SerdeJson TranscriptArtifact} `{SerdeJson DiarizationArtifact}.
Context `{CharAlnum} `{CorrectionReader} `{JsonText} `{FastEmbed} `{StrHash} (local_embed : bool) (cfg : Config.Config).
Context `{EnvVar} `{Powf} `{FragmentFiles} `{Paths} `{FileTree} `{Sherpa} `{CreateRecognizer} `{ExtractorDim} `{TaskPanic} `{Transport}.
Context (onnx : bool) (available : option Z) `{CopyFile}.
Notation ingest := (ingest_file local_embed cfg onnx available).

Lemma enqueue_segments r k pl s : db_segments (snd (Queue.enqueue r k pl s)) = db_segments s.
Proof. unfold Queue.enqueue. rewrite enqueue_state. unfold Queue.insert_job. cbn zeta. case_bool_decide; [done|]. by destruct (negb _). Qed.

(** A copied file is filed as the first segment of a new recording, and queued. *)
Lemma file_and_queue (id segment_id : Uuid) (key : string) (bytes : option Z) (row : RecordingRow) (s : Db) :
  schema_ok s -> db_recordings s !! id = Some row -> (forall x, x ∈ db_segments s -> seg_recording_id (sr_seg x) <> id) ->
  segment_id ∉ map (fun x => seg_id (sr_seg x)) (db_segments s) ->
  let seg := mkSegment segment_id id 1 key (Some 0) None bytes None (db_now s) in
  exists s1 s2 s3 s4 j row', insert_segment segment_id id 1 key (Some 0) None bytes None s = (Ok seg, s1) /\
    set_recording_storage_key id (storage.storage_key id) s1 = (Ok tt, s2) /\ set_recording_status id Processing s2 = (Ok tt, s3) /\
    Queue.enqueue id Transcode empty_payload s3 = (Ok j, s4) /\
    row' = with_status Processing (with_storage_key (storage.storage_key id) row) /\
    db_recordings s4 !! id = Some row' /\ db_segments s4 = db_segments s ++ [mkSegmentRow seg None] /\
    (id, Transcode) ∈ live_keys (db_jobs s4).
Proof.
  intros Hs Hrow Hno Hseg seg. set (s1 := set_segments (db_segments s ++ [mkSegmentRow seg None]) s).
  assert (E1 : insert_segment segment_id id 1 key (Some 0) None bytes None s = (Ok seg, s1)).
  { unfold insert_segment. rewrite (proj2 (find_first_None _ _)).
    - unfold recording_exists. rewrite bool_decide_true by (by exists row). by rewrite bool_decide_false.
    - intros x Hx. apply bool_decide_eq_false. intros [= Hr _]. by apply (Hno x Hx). }
  pose proof (insert_segment_schema segment_id id 1 key (Some 0) None bytes None s Hs) as Hs1. rewrite E1 in Hs1. cbn [snd] in Hs1.
  assert (E2 := update_or_not_found id (with_storage_key (storage.storage_key id)) s1). cbn [db_recordings set_segments s1] in E2. rewrite Hrow in E2.
  match type of E2 with _ = (_, ?x) => set (s2 := x) in * end.
  pose proof (set_recording_storage_key_schema id (storage.storage_key id) _ Hs1) as Hs2. unfold set_recording_storage_key in Hs2. rewrite E2 in Hs2. cbn [snd] in Hs2.
  assert (E3 := update_or_not_found id (with_status Processing) s2). cbn [db_recordings set_recordings s2] in E3. rewrite lookup_insert_eq in E3.
  match type of E3 with _ = (_, ?x) => set (s3 := x) in * end.
  pose proof (set_recording_status_schema id Processing _ Hs2) as Hs3. unfold set_recording_status in Hs3. rewrite E3 in Hs3. cbn [snd] in Hs3.
  assert (Hr3 : db_recordings s3 !! id = Some (with_status Processing (with_storage_key (storage.storage_key id) row))).
  { unfold s3. cbn [db_recordings set_recordings]. by rewrite lookup_insert_eq. }
  destruct (enqueue_queues id Transcode empty_payload s3 Hs3 ltac:(by eexists)) as (j & s4 & E4 & Hs4 & Hrec & new & _ & _ & Hlive & _).
  exists s1, s2, s3, s4, j. eexists. do 4 (split; [done|]). split; [done|]. split; [by rewrite Hrec|]. split; [|apply Hlive; by left].
  pose proof (enqueue_segments id Transcode empty_payload s3) as Hsg. rewrite E4 in Hsg. by etransitivity; [exact Hsg|].
Qed.

(** A queued ingest leaves a recording the worker takes from there: it is
    [processing], it has the file as its one segment, of the file's length, and
    a live transcode job.  Of a file that is not there nothing is made; when
    copying fails the recording has been made, and is left without a segment. *)
Theorem ingest_queued (id segment_id : Uuid) (file : string) (title : option string) (n : option Z) (w : World) :
  schema_ok (w_db w) -> db_recordings (w_db w) !! id = None -> segment_id ∉ map (fun x => seg_id (sr_seg x)) (db_segments (w_db w)) ->
  let ext := default "bin" (path_extension file) in
  let place := storage.segment_path (blobs_of cfg) id 1 ext in
  (w_files w !! file = None -> ingest id segment_id file title n false w =
     (Err (BadRequest ("ingest file does not exist: " +:+ file)), w)) /\
  (is_Some (w_files w !! file) -> (forall fs d, sys_create_dir_all fs d = Ok tt) ->
     match sys_copy (w_files w) file place with
     | Err e => exists w' row, ingest id segment_id file title n false w =
           (Err (Storage ("copying ingest file to " +:+ place +:+ ": " +:+ e)), w') /\
         db_recordings (w_db w') !! id = Some row /\ rec_status (rr_rec row) = Uploading /\ db_segments (w_db w') = db_segments (w_db w)
     | Ok fs => exists s' row, ingest id segment_id file title n false w = (Ok (Some id), mkWorld s' fs) /\
         db_recordings s' !! id = Some row /\ rec_status (rr_rec row) = Processing /\ rec_title (rr_rec row) = title /\
         rec_participants_expected (rr_rec row) = n /\
         (exists seg, db_segments s' = db_segments (w_db w) ++ [mkSegmentRow seg None] /\ seg_recording_id seg = id /\ seg_seq seg = 1 /\
            seg_storage_key seg = storage.segment_key id 1 ext /\ seg_bytes seg = (fun b => Z.of_nat (length b)) <$> fs !! place) /\
         (id, Transcode) ∈ live_keys (db_jobs s')
     end).
Proof.
  intros Hs Hno Hseg ext place. unfold ingest_file. split.
  { intros Hf. by rewrite (bind_ok (path_exists file) _ w false w) by (unfold path_exists; by rewrite Hf). }
  intros [bytes Hf] Hdir. rewrite (bind_ok (path_exists file) _ w true w) by (unfold path_exists; by rewrite Hf).
  cbn [negb]. fold ext.
  set (rec := mkRecording id title (db_now (w_db w)) None None Uploading n (Some ext) None None [] []).
  set (row := mkRecordingRow rec (negb (bool_decide (is_Some title)))).
  set (s1 := set_recordings (<[id := row]> (db_recordings (w_db w))) (w_db w)).
  assert (lift (create_recording id title None n (Some ext) None) w = (Ok rec, mkWorld s1 (w_files w))) as E1.
  { unfold lift, create_recording, recording_exists. rewrite Hno, bool_decide_false by (by intros [? ?]). done. }
  pose proof (create_recording_schema id title None n (Some ext) None _ Hs) as Hs1.
  rewrite (bind_ok _ _ _ _ _ E1). change (rec_id rec) with id. fold place.
  rewrite (bind_ok _ _ _ tt (mkWorld s1 (w_files w))) by (destruct (RustPath.parent place); [unfold create_dir_all; by rewrite Hdir|done]).
  destruct (sys_copy (w_files w) file place) as [fs|e] eqn:Ec.
  2: { exists (mkWorld s1 (w_files w)), row. rewrite (bind_err _ _ _ (Storage ("copying ingest file to " +:+ place +:+ ": " +:+ e)) (mkWorld s1 (w_files w))) by (unfold copy_file; cbn [w_files]; by rewrite Ec).
       split; [done|]. split; [cbn; by rewrite lookup_insert_eq|done]. }
  rewrite (bind_ok _ _ _ tt (mkWorld s1 fs)) by (unfold copy_file; cbn [w_files]; by rewrite Ec).
  rewrite (bind_ok (file_size place) _ _ _ _ eq_refl). cbn [w_files].
  assert (Hnone : forall x, x ∈ db_segments s1 -> seg_recording_id (sr_seg x) <> id).
  { intros x Hx Hid. pose proof (segments_fk _ Hs) as F. rewrite Forall_forall in F. destruct (F x Hx) as [r Hr]. congruence. }
  destruct (file_and_queue id segment_id (storage.segment_key id 1 ext) ((fun b => Z.of_nat (length b)) <$> fs !! place) row s1)
    as (t1 & t2 & t3 & t4 & j & row' & T1 & T2 & T3 & T4 & -> & Hrow & Hsegs & Hlive);
    [unfold create_recording, recording_exists in Hs1; rewrite Hno, bool_decide_false in Hs1 by (by intros [? ?]); exact Hs1|by apply lookup_insert_eq|done|done|].
  unfold mbind, M_bind, lift. cbn [w_db w_files]. rewrite T1. cbn [w_db w_files]. rewrite T2. cbn [w_db w_files]. rewrite T3. cbn [w_db w_files]. rewrite T4.
  exists t4. eexists. split; [reflexivity|]. split; [exact Hrow|]. do 3 (split; [done|]). split; [|done].
  eexists. split; [exact Hsegs|]. done.
Qed.
End ingest.

(** *** Witness: half a second of silence, the stub engine, no model *)

Definition no_json_text : JsonText := {| json_from_str _ := Err "no"; json_to_string _ := "" |}.
Definition inline_host : Host :=
  mkHost (mkWorld (set_segments [live_seg None] sample_db) {[ "/var/lib/scribe/blobs/k" := [] ]}) (new_lazy Config.default_config).
Definition inline_run : result Error (option unit) * Host :=
  @process_with silent_system plain_uuid no_overrides transcript_codec diarization_codec ascii_alnum no_reader no_json_text
    (toy_fast 0) byte_sum false Config.default_config stub_engine silent_model 1 inline_host.

Lemma inline_runs : fst inline_run = Ok (Some tt).
Proof. vm_compute. reflexivity. Qed.

Lemma inline_host_schema : schema_ok (w_db (h_world inline_host)).
Proof.
  pose proof sample_schema as []. split; try done.
  - cbn. repeat constructor. set_solver.
  - cbn. repeat constructor. set_solver.
  - cbn. constructor; [by exists sample_recording|constructor].
Qed.

Lemma inline_delivers_witness :
  exists row, db_recordings (w_db (h_world (snd inline_run))) !! 1%N = Some row /\ rec_status (rr_rec row) = Ready.
Proof.
  pose proof (@inline_delivers silent_system plain_uuid no_overrides transcript_codec diarization_codec codec_laws ascii_alnum no_reader no_json_text
    (toy_fast 0) byte_sum false Config.default_config stub_engine silent_model 1 inline_host) as Hall.
  pose proof inline_runs as Hok. unfold inline_run in *. destruct (process_with _ _ _ _) as [r h'] eqn:E. cbn in Hok. subst r.
  destruct (Hall h' inline_host_schema eq_refl) as (_ & _ & _ & Hready). exact Hready.
Defined.

(** *** Witness: a recording merged by a job *)

Definition merged_db : Db :=
  snd (Queue.complete 1 (snd (Queue.claim_one [] "w" [Types.Merge] (snd (Queue.enqueue 1 Types.Merge JNull sample_db))))).

Lemma reindex_spec_witness : exists s', reindex true false merged_db = (Ok tt, s') /\ (1%N, Embed) ∈ live_keys (db_jobs s').
Proof.
  assert (Hs : schema_ok merged_db) by (apply complete_schema, claim_one_schema, enqueue_schema, sample_schema).
  destruct (reindex_spec true false merged_db Hs) as (s' & Hrun & _ & new & _ & _ & Hlive & _).
  exists s'. split; [done|]. apply Hlive; [|done]. eexists. split; [by left|done].
Defined.

(** *** Witness: a first voice *)

Lemma enroll_voice_spec_witness :
  exists s', @enroll_voice plain_uuid ApiProps.same_voice 7 "Ana" ApiProps.a_voice false sample_db = (Ok 7%N, s') /\ one_name s'.
Proof.
  pose proof (@enroll_voice_spec plain_uuid ApiProps.same_voice 7 "Ana" ApiProps.a_voice false sample_db sample_schema eq_refl eq_refl) as Hall.
  destruct (enroll_voice 7 "Ana" ApiProps.a_voice false sample_db) as [[u|e] s'] eqn:E; destruct Hall as [Hu Hone].
  - destruct Hu as (p & _ & _ & _ & -> & _); [|done]. exists s'. split; [done|]. apply Hone. intros i j ? q Hp. cbn in Hp; by rewrite lookup_empty in Hp.
  - exfalso. destruct Hu as (_ & _ & p & Hp & _). cbn in Hp. by rewrite lookup_empty in Hp.
Defined.

(** *** Witness: a file is queued *)

Definition toy_copy : CopyFile := fun fs from to_ => match fs !! from with Some b => Ok (<[to_ := b]> fs) | None => Err "not found" end.
Definition no_transport : Transport :=
  {| post _ _ _ := Err "refused"; get _ _ := Err "refused"; status_line _ := ""; decode_ollama _ := Err ""; decode_openai _ := Err "" |}.
Definition no_recognizer : CreateRecognizer := {| create_recognizer _ := None; default_max_active_paths := 4 |}.
Definition empty_tree : FileTree := {| Models.path_exists _ := false; is_dir _ := false; read_dir _ := None |}.
Definition toy_ingest : WorldM (option Uuid) :=
  @ingest_file silent_system plain_uuid no_overrides transcript_codec diarization_codec ascii_alnum no_reader no_json_text
    (toy_fast 0) byte_sum false Config.default_config ClusterProps.no_env SplitProps.no_powf DiarizeProps.no_cache DiarizeProps.utf8_paths
    empty_tree DiarizeProps.sample_engine no_recognizer (fun _ => 192) (Internal "panic") no_transport false None toy_copy
    7 8 "talk.wav" (Some "Talk") None false.
Definition inbox : World := mkWorld sample_db {[ "talk.wav" := [1%N; 2%N] ]}.

Lemma ingest_queued_witness :
  exists w', toy_ingest inbox = (Ok (Some 7%N), w') /\ (7%N, Transcode) ∈ live_keys (db_jobs (w_db w')).
Proof.
  destruct (@ingest_queued silent_system plain_uuid no_overrides transcript_codec diarization_codec ascii_alnum no_reader no_json_text
    (toy_fast 0) byte_sum false Config.default_config ClusterProps.no_env SplitProps.no_powf DiarizeProps.no_cache DiarizeProps.utf8_paths
    empty_tree DiarizeProps.sample_engine no_recognizer (fun _ => 192) (Internal "panic") no_transport false None toy_copy
    7 8 "talk.wav" (Some "Talk") None inbox sample_schema) as [_ Hin]; [reflexivity|cbn; set_solver|].
  destruct (Hin ltac:(by eexists) ltac:(done)) as (s' & row & Hrun & _ & _ & _ & _ & _ & Hlive).
  eexists. split; [exact Hrun|exact Hlive].
Defined.
