(* ===== verification/Update.v ===== *)
(** * Self-update: [crates/scribe-update]

    A package is verified, its binary staged beside the running one, tried,
    asked to migrate the database, and renamed into place; the binary before it
    stays as a backup.  A host is its files and the programs that were run on
    it.  File calls, processes, ed25519, hex, tar with gzip, and serde are
    parameters. *)

From Stdlib Require Import Ascii String.
From S2P Require Import Prelude RustStr Types RustPath Utf8 Llm Store Stages Config.

#[local] Arguments String.append !_ _ /.

(** ** Errors *)

Module UpdateError.
Inductive UpdateError :=
| Disabled
| Misconfigured (m : string)
| InvalidPackage (m : string)
| BadSignature
| ChecksumMismatch (expected actual : string)
| Downgrade (package running : string)
| TargetMismatch (package host : string)
| SanityCheck (m : string)
| Migration (m : string)
| NoBackup
| Io (m : string)
| Other (m : string).

Definition to_string (e : UpdateError) : string :=
  match e with
  | Disabled => "update is disabled (set [update].enabled = true and configure a key + token)"
  | Misconfigured m => "update misconfigured: " +:+ m
  | InvalidPackage m => "invalid package: " +:+ m
  | BadSignature => "signature verification failed"
  | ChecksumMismatch expected actual =>
      "checksum mismatch: manifest says " +:+ expected +:+ ", binary is " +:+ actual
  | Downgrade package running =>
      "refusing downgrade: package " +:+ package +:+ " <= running " +:+ running +:+ " (set allow_downgrade)"
  | TargetMismatch package host =>
      "target mismatch: package is for `" +:+ package +:+ "`, host is `" +:+ host +:+ "` (set allow_target_mismatch)"
  | SanityCheck m => "staged binary failed its sanity check: " +:+ m
  | Migration m => "database migration with the new binary failed: " +:+ m
  | NoBackup => "no backup binary to roll back to"
  | Io m => "io error: " +:+ m
  | Other m => m
  end.

Definition into_core (e : UpdateError) : Error :=
  match e with
  | Disabled => NotFound "update endpoint disabled"
  | Misconfigured m => Types.Config m
  | BadSignature | InvalidPackage _ | ChecksumMismatch _ _ | Downgrade _ _ | TargetMismatch _ _ => BadRequest (to_string e)
  | NoBackup => NotFound (to_string e)
  | other => Internal (to_string other)
  end.
End UpdateError.
Export (hints) UpdateError.
Notation UpdateError := UpdateError.UpdateError.

(** ** Packages *)

Record Manifest := mkManifest {
  man_name : string; man_version : string; man_target : string; man_sha256 : string;
  man_created_at : string; man_notes : string;
}.
Record Package := mkPackage {
  pkg_manifest_bytes : list N; pkg_manifest : Manifest; pkg_signature_hex : string; pkg_binary : list N;
}.

(** serde's reader and pretty printer of a manifest. *)
Class ManifestJson := {
  manifest_of : list N -> result string Manifest;
  manifest_pretty : Manifest -> list N;
}.

(** An entry of an archive: its path as text, and its content. *)
Record TarEntry := mkTarEntry { te_path : result string string; te_data : result string (list N) }.

Definition MANIFEST_ENTRY : string := "manifest.json".
Definition SIG_ENTRY : string := "manifest.sig".
Definition BINARY_ENTRY : string := "scribe".

(** tar over gzip: the entries of a file, or why it is no archive; and the
    writers, which write through to the file.  A failed write may have written
    a part. *)
Class Archive := {
  tar_entries : list N -> result string (list (result string TarEntry));
  tar_append : Files -> string -> string -> Z -> list N -> result string unit * Files;
  tar_into_inner : Files -> string -> result string unit * Files;
  gzip_finish : Files -> string -> result string unit * Files;
}.

(** What runs of the host's programs and its build are made of: [std::fs],
    [std::process] and [std::env]. *)
Record ProcessOutput := mkProcessOutput { out_success : bool; out_status : string; out_stdout : list N; out_stderr : list N }.
Class HostOs := {
  os_open : Files -> string -> result string (list N);
  os_create : Files -> string -> result string Files;
  os_create_dir_all : Files -> string -> result string unit;
  os_write : Files -> string -> list N -> result string unit * Files;
  os_set_executable : Files -> string -> result string unit;
  os_remove_file : Files -> string -> result string Files;
  os_rename : Files -> string -> string -> result string Files;
  (** A program run to its end, with one argument and a database URL set. *)
  os_output : Files -> string -> string -> option string -> result string ProcessOutput;
  os_exec : Files -> string -> list string -> option string;
  current_exe : result string string;
  ARCH : string;
  OS : string;
  VERSION : string;
}.

Record Ran := mkRan { ran_path : string; ran_arg : string; ran_url : option string; ran_binary : option (list N) }.
Record Host := mkHost { h_files : Files; h_ran : list Ran }.
Notation HostM := (M Host UpdateError).

Definition of_res {S E A} (r : result E A) : M S E A := match r with Ok a => mret a | Err e => fail_with e end.

(** [From<std::io::Error>] *)
Definition io {A} (r : result string A) : result UpdateError A :=
  match r with Ok a => Ok a | Err e => Err (UpdateError.Io e) end.

Section files.
Context `{HostOs}.

(** A call that changes files, and one that may have when it failed. *)
Definition on_files (f : Files -> result string Files) : HostM unit := fun h =>
  match f (h_files h) with
  | Ok fs => (Ok tt, mkHost fs (h_ran h))
  | Err e => (Err (UpdateError.Io e), h)
  end.
Definition through_files (err : string -> UpdateError) (f : Files -> result string unit * Files) : HostM unit := fun h =>
  let '(r, fs) := f (h_files h) in
  (match r with Ok _ => Ok tt | Err e => Err (err e) end, mkHost fs (h_ran h)).
Definition look (f : Files -> result string unit) : HostM unit := fun h =>
  (io (f (h_files h)), h).

Definition read (p : string) : HostM (list N) := fun h => (io (os_open (h_files h) p), h).
Definition exists_ (p : string) : HostM bool := fun h => (Ok (bool_decide (is_Some (h_files h !! p))), h).
Definition remove_file (p : string) : HostM unit := on_files (fun fs => os_remove_file fs p).
Definition rename (a b : string) : HostM unit := on_files (fun fs => os_rename fs a b).

(** A spawned program is one that ran. *)
Definition output (p arg : string) (url : option string) : HostM (result string ProcessOutput) := fun h =>
  match os_output (h_files h) p arg url with
  | Ok out => (Ok (Ok out), mkHost (h_files h) (h_ran h ++ [mkRan p arg url (h_files h !! p)]))
  | Err e => (Ok (Err e), h)
  end.
End files.

Section package.
Context `{ManifestJson} `{Archive} `{HostOs}.

(** A pretty JSON text and a newline. *)
Definition to_signed_bytes (m : Manifest) : list N := manifest_pretty m ++ [10%N].

Definition from_bytes (b : list N) : result string Manifest := manifest_of b.

(** [path.rsplit(['/', '\\']).next()] *)
Definition base_name (path : string) : string :=
  default path (last (split_char "/" (default path (last (split_char "092" path))))).

(** What the loop over the entries has found. *)
Record Found := mkFound { f_manifest : option (list N); f_signature : option string; f_binary : option (list N) }.

Definition found_entry (f : Found) (name : string) (buf : list N) : Found :=
  if String.eqb name MANIFEST_ENTRY then mkFound (Some buf) (f_signature f) (f_binary f)
  else if String.eqb name SIG_ENTRY then mkFound (f_manifest f) (Some (trim (from_utf8_lossy buf))) (f_binary f)
  else if String.eqb name BINARY_ENTRY then mkFound (f_manifest f) (f_signature f) (Some buf)
  else if String.eqb name "scribe.exe" then mkFound (f_manifest f) (f_signature f) (Some buf)
  else f.

Fixpoint read_entries (entries : list (result string TarEntry)) (f : Found) : result UpdateError Found :=
  match entries with
  | [] => Ok f
  | Err e :: _ => Err (UpdateError.InvalidPackage ("bad tar entry: " +:+ e))
  | Ok entry :: entries' =>
      match te_path entry with
      | Err e => Err (UpdateError.InvalidPackage ("bad entry path: " +:+ e))
      | Ok path =>
          match te_data entry with
          | Err e => Err (UpdateError.Io e)
          | Ok buf => read_entries entries' (found_entry f (base_name path) buf)
          end
      end
  end.

Definition missing {A} (entry : string) (o : option A) : result UpdateError A :=
  match o with Some a => Ok a | None => Err (UpdateError.InvalidPackage ("missing " +:+ entry)) end.

Definition from_reader (content : list N) : result UpdateError Package :=
  match tar_entries content with
  | Err e => Err (UpdateError.InvalidPackage ("not a tar archive: " +:+ e))
  | Ok entries =>
      match read_entries entries (mkFound None None None) with
      | Err e => Err e
      | Ok f =>
          match missing MANIFEST_ENTRY (f_manifest f), missing SIG_ENTRY (f_signature f), missing BINARY_ENTRY (f_binary f) with
          | Err e, _, _ | _, Err e, _ | _, _, Err e => Err e
          | Ok manifest_bytes, Ok signature_hex, Ok binary =>
              match from_bytes manifest_bytes with
              | Err e => Err (UpdateError.InvalidPackage ("bad manifest.json: " +:+ e))
              | Ok manifest => Ok (mkPackage manifest_bytes manifest signature_hex binary)
              end
          end
      end
  end.

Definition package_read (path : string) : HostM Package :=
  content ← read path;
  of_res (from_reader content).

Definition append (path name : string) (data : list N) : HostM unit :=
  through_files (fun e => UpdateError.Other ("appending " +:+ name +:+ ": " +:+ e))
    (fun fs => tar_append fs path name (if String.eqb name BINARY_ENTRY then 493 else 420) data).

Definition package_write (path : string) (manifest_bytes : list N) (signature_hex : string) (binary : list N) : HostM unit :=
  _ ← on_files (fun fs => os_create fs path);
  _ ← append path MANIFEST_ENTRY manifest_bytes;
  _ ← append path SIG_ENTRY (as_bytes signature_hex);
  _ ← append path BINARY_ENTRY binary;
  _ ← through_files (fun e => UpdateError.Other ("finishing tar: " +:+ e)) (fun fs => tar_into_inner fs path);
  through_files (fun e => UpdateError.Other ("finishing gzip: " +:+ e)) (fun fs => gzip_finish fs path).

Definition current_target : string :=
  if String.eqb OS "macos" then ARCH +:+ "-apple-darwin"
  else if String.eqb OS "linux" then ARCH +:+ "-unknown-linux-gnu"
  else if String.eqb OS "windows" then ARCH +:+ "-pc-windows-msvc"
  else ARCH +:+ "-" +:+ OS.

Definition running_version : string := VERSION.
End package.

(** ** Verification *)

(** ed25519: keys and signatures as bytes. *)
Class Ed25519 := {
  VerifyingKey : Type;
  SigningKey : Type;
  key_from_bytes : list N -> result string VerifyingKey;
  key_to_bytes : VerifyingKey -> list N;
  signing_from_bytes : list N -> SigningKey;
  signing_to_bytes : SigningKey -> list N;
  verifying_key : SigningKey -> VerifyingKey;
  sign : SigningKey -> list N -> list N;
  verify_strict : VerifyingKey -> list N -> list N -> bool;
}.

Class HexCodec := { hex_decode : string -> result string (list N); hex_encode : list N -> string }.

(** The pieces [s.split(['-', '+'])] starts with. *)
Definition split_core (s : string) : string := split_first "+" (split_first "-" s).

Definition parse_version (v : string) : Z * Z * Z :=
  let core := split_core (trim_start_matches (String.eqb "v") (trim v)) in
  let nums := map (fun s => default 0 (parse_u64 s)) (split_char "." core) in
  let nth i := default 0 (nums !! i) in
  (nth 0%nat, nth 1%nat, nth 2%nat).

(** The order of tuples. *)
Definition triple_le (a b : Z * Z * Z) : bool :=
  let '(a1, a2, a3) := a in let '(b1, b2, b3) := b in
  (a1 <? b1) || ((a1 =? b1) && ((a2 <? b2) || ((a2 =? b2) && (a3 <=? b3)))).

Definition version_le (a b : string) : bool := triple_le (parse_version a) (parse_version b).

Section verify.
Context `{HostOs} `{Ed25519} `{HexCodec} `{Sha256} `{UnicodeCase}.

(** [bytes.as_slice().try_into()] *)
Definition sized (n : nat) (b : list N) : bool := bool_decide (length b = n).

Definition parse_public_key (hex_str : string) : result UpdateError VerifyingKey :=
  match hex_decode (trim hex_str) with
  | Err e => Err (UpdateError.Misconfigured ("public_key is not hex: " +:+ e))
  | Ok bytes =>
      if negb (sized 32 bytes) then Err (UpdateError.Misconfigured "public_key must be 32 bytes")
      else
        match key_from_bytes bytes with
        | Err e => Err (UpdateError.Misconfigured ("invalid ed25519 public key: " +:+ e))
        | Ok k => Ok k
        end
  end.

Definition parse_signature (hex_str : string) : result UpdateError (list N) :=
  match hex_decode (trim hex_str) with
  | Err e => Err (UpdateError.InvalidPackage ("signature is not hex: " +:+ e))
  | Ok bytes =>
      if negb (sized 64 bytes) then Err (UpdateError.InvalidPackage "signature must be 64 bytes") else Ok bytes
  end.

(** 1: the manifest's bytes are signed by the configured key. *)
Definition check_signature (cfg : Config.UpdateConfig) (pkg : Package) : result UpdateError unit :=
  match Config.public_key cfg with
  | None => Err (UpdateError.Misconfigured "no [update].public_key set")
  | Some pubkey_hex =>
      match parse_public_key pubkey_hex with
      | Err e => Err e
      | Ok verifying_key =>
          match parse_signature (pkg_signature_hex pkg) with
          | Err e => Err e
          | Ok signature =>
              if verify_strict verifying_key (pkg_manifest_bytes pkg) signature then Ok tt
              else Err UpdateError.BadSignature
          end
      end
  end.

(** 2 to 5: checksum, name, target and version. *)
Definition check_manifest (cfg : Config.UpdateConfig) (pkg : Package) : result UpdateError unit :=
  let m := pkg_manifest pkg in
  let actual := sha256 (pkg_binary pkg) in
  let expected := to_lowercase (trim (man_sha256 m)) in
  if negb (String.eqb actual expected) then Err (UpdateError.ChecksumMismatch expected actual)
  else if negb (String.eqb (man_name m) "scribe") then
    Err (UpdateError.InvalidPackage ("manifest name is `" +:+ man_name m +:+ "`, expected `scribe`"))
  else
    let host := current_target in
    if negb (String.eqb (man_target m) host) && negb (Config.allow_target_mismatch cfg) && negb (String.eqb (man_target m) "any")
    then Err (UpdateError.TargetMismatch (man_target m) host)
    else if negb (Config.allow_downgrade cfg) && version_le (man_version m) running_version
    then Err (UpdateError.Downgrade (man_version m) running_version)
    else Ok tt.

Definition verify_package (cfg : Config.UpdateConfig) (pkg : Package) : result UpdateError unit :=
  match check_signature cfg pkg with Err e => Err e | Ok _ => check_manifest cfg pkg end.
End verify.

(** ** Installing *)

Record ApplyOptions := mkApplyOptions { db_url : option string; run_sanity_check : bool; run_migrations : bool }.
Definition default_apply_options : ApplyOptions := mkApplyOptions None true true.

Record UpdateOutcome := mkOutcome {
  from_version : string; to_version : string; uo_target : string; uo_binary_path : string; uo_backup_path : string;
}.

(** [{name}.{ext}] beside the path. *)
Definition sibling (path ext : string) : string :=
  set_file_name path (default "scribe" (file_name path) +:+ "." +:+ ext).

Section apply.
Context `{HostOs} `{Ed25519} `{HexCodec} `{Sha256} `{UnicodeCase}.

Definition resolve_binary_path (cfg : Config.UpdateConfig) : result UpdateError string :=
  match Config.binary_path cfg with
  | Some p => Ok p
  | None =>
      match current_exe with
      | Ok p => Ok p
      | Err e => Err (UpdateError.Other ("cannot resolve current_exe(): " +:+ e))
      end
  end.

(** 2: the staged binary runs. *)
Definition sanity_check (staged : string) : HostM unit :=
  spawned ← output staged "--version" None;
  match spawned with
  | Err e => fail_with (UpdateError.SanityCheck ("spawning staged binary: " +:+ e))
  | Ok out =>
      if out_success out then mret tt
      else fail_with (UpdateError.SanityCheck ("`--version` exited " +:+ out_status out +:+ ": " +:+
        trim (from_utf8_lossy (out_stderr out))))
  end.

(** 3: it migrates the database. *)
Definition migrate (staged url : string) : HostM unit :=
  spawned ← output staged "migrate" (Some url);
  match spawned with
  | Err e => fail_with (UpdateError.Migration ("spawning migrate: " +:+ e))
  | Ok out =>
      if out_success out then mret tt
      else fail_with (UpdateError.Migration (trim (from_utf8_lossy (out_stderr out))))
  end.

(** [opts.db_url.filter(|u| !u.is_empty())] under [run_migrations]. *)
Definition migration_url (opts : ApplyOptions) : option string :=
  if run_migrations opts then
    match db_url opts with Some u => if is_empty u then None else Some u | None => None end
  else None.

(** 4: the swap, undone when its second half fails. *)
Definition back_up (binary_path backup : string) : HostM unit :=
  there ← exists_ binary_path;
  if (there : bool) then
    _ ← ignore_err (remove_file backup);
    saved ← attempt (rename binary_path backup);
    match saved with
    | Err (UpdateError.Io e) => fail_with (UpdateError.Io ("backing up " +:+ binary_path +:+ ": " +:+ e))
    | Err e => fail_with e
    | Ok _ => mret tt
    end
  else mret tt.

Definition move_in (staged binary_path backup : string) : HostM unit :=
  moved ← attempt (rename staged binary_path);
  match moved with
  | Ok _ => mret tt
  | Err e =>
      saved ← exists_ backup;
      _ ← (if (saved : bool) then ignore_err (rename backup binary_path) else mret tt);
      fail_with (match e with
        | UpdateError.Io e => UpdateError.Io ("installing new binary at " +:+ binary_path +:+ ": " +:+ e)
        | e => e
        end)
  end.

Definition swap (staged binary_path backup : string) : HostM unit :=
  _ ← back_up binary_path backup;
  move_in staged binary_path backup.

(** The closure whose failure removes the staged file. *)
Definition commit (opts : ApplyOptions) (staged binary_path backup : string) : HostM unit :=
  _ ← (if run_sanity_check opts then sanity_check staged else mret tt);
  _ ← match migration_url opts with Some url => migrate staged url | None => mret tt end;
  swap staged binary_path backup.

(** 1: the staged binary, executable, beside the target. *)
Definition stage (staged : string) (binary : list N) : HostM unit :=
  _ ← match parent staged with Some dir => look (fun fs => os_create_dir_all fs dir) | None => mret tt end;
  _ ← through_files UpdateError.Io (fun fs => os_write fs staged binary);
  look (fun fs => os_set_executable fs staged).

Definition apply_package (cfg : Config.UpdateConfig) (pkg : Package) (opts : ApplyOptions) : HostM UpdateOutcome :=
  _ ← of_res (verify_package cfg pkg);
  binary_path ← of_res (resolve_binary_path cfg);
  let staged := sibling binary_path "new" in
  let backup := sibling binary_path "old" in
  _ ← stage staged (pkg_binary pkg);
  result ← attempt (commit opts staged binary_path backup);
  match result with
  | Err e => _ ← ignore_err (remove_file staged); fail_with e
  | Ok _ => mret (mkOutcome running_version (man_version (pkg_manifest pkg)) (man_target (pkg_manifest pkg)) binary_path backup)
  end.

(** The version a binary reports, if it can be asked. *)
Definition reported_version (binary_path : string) : HostM string :=
  spawned ← output binary_path "--version" None;
  mret (match spawned with
    | Ok o => match from_utf8 (out_stdout o) with Some s => trim s | None => "unknown" end
    | Err _ => "unknown"
    end).

(** The exchange of the binary and its backup: the binary is set aside, the
    backup takes its place, and what was set aside becomes the backup. *)
Definition put_back (binary_path backup pending : string) : HostM unit :=
  _ ← rename backup binary_path;
  left ← exists_ pending;
  if (left : bool) then ignore_err (rename pending backup) else mret tt.

Definition exchange (binary_path backup pending : string) : HostM unit :=
  _ ← ignore_err (remove_file pending);
  there ← exists_ binary_path;
  _ ← (if (there : bool) then rename binary_path pending else mret tt);
  put_back binary_path backup pending.

Definition rollback (cfg : Config.UpdateConfig) : HostM string :=
  binary_path ← of_res (resolve_binary_path cfg);
  let backup := sibling binary_path "old" in
  saved ← exists_ backup;
  if negb saved then fail_with UpdateError.NoBackup
  else
    _ ← exchange binary_path backup (sibling binary_path "rollback-tmp");
    reported_version binary_path.

(** ** Restarting *)

(** How a process ends that restarts. *)
Inductive Restarted := Exited (code : Z) | Execed (binary : string) (args : list string).

(** [args] are the process's own, after its name.  An [Ok] does not return. *)
Definition self_exec (cfg : Config.UpdateConfig) (args : list string) (fs : Files) : result UpdateError Restarted :=
  match resolve_binary_path cfg with
  | Err e => Err e
  | Ok bin =>
      match os_exec fs bin args with
      | Some err => Err (UpdateError.Other ("execv " +:+ bin +:+ " failed: " +:+ err))
      | None => Ok (Execed bin args)
      end
  end.

Definition restart (cfg : Config.UpdateConfig) (args : list string) (fs : Files) : result UpdateError Restarted :=
  match Config.restart cfg with
  | Config.Supervisor => Ok (Exited 0)
  | Config.SelfExec => self_exec cfg args fs
  end.
End apply.

(** ** Keys and signing *)

Section keys.
Context `{HostOs} `{Ed25519} `{HexCodec} `{Sha256} `{ManifestJson} `{Archive}.

Definition from_private_hex (hex_str : string) : result UpdateError SigningKey :=
  match hex_decode (trim hex_str) with
  | Err e => Err (UpdateError.Other ("private key not hex: " +:+ e))
  | Ok bytes =>
      if negb (sized 32 bytes) then Err (UpdateError.Other "private key must be 32 bytes")
      else Ok (signing_from_bytes bytes)
  end.

Definition public_hex (key : SigningKey) : string := hex_encode (key_to_bytes (verifying_key key)).
Definition private_hex (key : SigningKey) : string := hex_encode (signing_to_bytes key).

Definition sign_package (key : SigningKey) (binary_path version : string) (target : option string)
    (notes created_at out : string) : HostM Manifest :=
  binary ← read binary_path;
  let manifest := mkManifest "scribe" version (default current_target target) (sha256 binary) created_at notes in
  let manifest_bytes := to_signed_bytes manifest in
  let signature_hex := hex_encode (sign key manifest_bytes) in
  _ ← package_write out manifest_bytes signature_hex binary;
  mret manifest.
End keys.
