(* ===== verification/UpdateProps.v ===== *)
(** * What self-update promises: properties of [Update]

    Nothing unverified touches the disk or runs; an install replaces the binary
    and keeps the one before it, or leaves the host with the binary it had; a
    rollback exchanges the two; a package signed with the operator's key is read
    back and accepted. *)

From Stdlib Require Import Ascii String.
From S2P Require Import Prelude RustStr Types RustPath Utf8 Llm Store Stages Config Update.

#[local] Arguments String.append !_ _ /.

(** What the file calls are documented to do, directories and modes left out. *)
Class HostOsLaws `{HostOs} : Prop := {
  os_write_ok : forall fs p b fs', os_write fs p b = (Ok tt, fs') -> fs' = <[p := b]> fs;
  os_write_other : forall fs p b q, q <> p -> snd (os_write fs p b) !! q = fs !! q;
  os_remove_ok : forall fs p fs', os_remove_file fs p = Ok fs' -> fs' = delete p fs;
  os_rename_ok : forall fs a b fs', os_rename fs a b = Ok fs' ->
    exists c, fs !! a = Some c /\ fs' = <[b := c]> (delete a fs);
}.

(** ** The three paths of an install are different files *)

Lemma no_slash_app a b : no_slash a -> no_slash b -> no_slash (a +:+ b).
Proof. unfold no_slash. intros Ha Hb. by rewrite all_bytes_app, Ha, Hb. Qed.

Lemma sibling_name_part p ext :
  no_slash ext -> (2 <= String.length ext)%nat ->
  let n := default "scribe" (file_name p) +:+ "." +:+ ext in no_slash n /\ is_noop n = false /\ n <> "..".
Proof.
  intros Hs Hl. cbn zeta. set (b := default "scribe" (file_name p)).
  assert (Hb : no_slash b).
  { unfold b. destruct (file_name p) as [f|] eqn:E; [|done]. by apply file_name_part in E as [? _]. }
  assert (Hlen : (3 <= String.length (b +:+ "." +:+ ext))%nat).
  { clear -Hl. induction b as [|a b IH]; cbn; [lia|]. cbn in IH. lia. }
  split; [|split].
  - apply no_slash_app; [done|]. by apply (no_slash_app ".").
  - unfold is_noop, is_empty. apply orb_false_iff. split; apply String.eqb_neq; intros He; rewrite He in Hlen; cbn in Hlen; lia.
  - intros He. rewrite He in Hlen. cbn in Hlen. lia.
Qed.

Lemma file_name_sibling p ext :
  no_slash ext -> (2 <= String.length ext)%nat ->
  file_name (sibling p ext) = Some (default "scribe" (file_name p) +:+ "." +:+ ext).
Proof. intros Hs Hl. destruct (sibling_name_part p ext Hs Hl) as (H1 & H2 & H3). by apply file_name_set. Qed.

Lemma sibling_ne p ext : no_slash ext -> (2 <= String.length ext)%nat -> sibling p ext <> p.
Proof.
  intros Hs Hl He. pose proof (file_name_sibling p ext Hs Hl) as Hf. rewrite He in Hf.
  destruct (file_name p) as [f|]; [|done]. change (default "scribe" (Some f)) with f in Hf. injection Hf as Hf.
  apply (f_equal String.length) in Hf. rewrite !append_length in Hf. cbn in Hf. lia.
Qed.

Lemma sibling_inj p e1 e2 :
  no_slash e1 -> no_slash e2 -> (2 <= String.length e1)%nat -> (2 <= String.length e2)%nat ->
  sibling p e1 = sibling p e2 -> e1 = e2.
Proof.
  intros Hs1 Hs2 Hl1 Hl2 He. pose proof (file_name_sibling p e1 Hs1 Hl1) as Hf.
  rewrite He, file_name_sibling in Hf by done. injection Hf as Hf. by apply append_inj_l, (append_inj_l ".") in Hf.
Qed.

Lemma siblings_differ p :
  sibling p "new" <> p /\ sibling p "old" <> p /\ sibling p "new" <> sibling p "old" /\
  sibling p "rollback-tmp" <> p /\ sibling p "rollback-tmp" <> sibling p "old".
Proof.
  repeat split; try (apply sibling_ne; [done|cbn; lia]);
    intros He; apply sibling_inj in He; done || (cbn; lia).
Qed.

(** ** Files an operation leaves alone, and programs it runs *)

Definition same_but (l : list string) (fs fs' : Files) : Prop := forall q, q ∉ l -> fs' !! q = fs !! q.

#[export] Instance same_but_preorder l : PreOrder (same_but l).
Proof. split; [by intros fs q _|]. intros a b c Hab Hbc q Hq. by rewrite (Hbc q Hq), (Hab q Hq). Qed.

Lemma same_but_weaken l l' fs fs' : same_but l fs fs' -> (forall q, q ∈ l -> q ∈ l') -> same_but l' fs fs'.
Proof. intros Hs Hl q Hq. apply Hs. intros Hin. by apply Hq, Hl. Qed.

Section host.
Context `{HostOsLaws}.

Lemma remove_file_same p h : same_but [p] (h_files h) (h_files (snd (remove_file p h))) /\ h_ran (snd (remove_file p h)) = h_ran h.
Proof.
  unfold remove_file, on_files. destruct (os_remove_file _ p) as [fs|e] eqn:E; cbn; [|done].
  apply os_remove_ok in E as ->. split; [|done]. intros q Hq. rewrite lookup_delete_ne by set_solver. done.
Qed.

(** The two outcomes of a rename. *)
Lemma rename_cases a b h :
  (exists c fs', rename a b h = (Ok tt, mkHost fs' (h_ran h)) /\ h_files h !! a = Some c /\ fs' = <[b := c]> (delete a (h_files h))) \/
  (exists e, rename a b h = (Err (UpdateError.Io e), h)).
Proof.
  unfold rename, on_files. destruct (os_rename _ a b) as [fs|e] eqn:E; [left|right; eauto].
  apply os_rename_ok in E as (c & Hc & ->). eauto 6.
Qed.

Lemma rename_refused a b h e h' : rename a b h = (Err e, h') -> exists e', os_rename (h_files h) a b = Err e'.
Proof. unfold rename, on_files. destruct (os_rename _ a b) as [fs|e']; [done|]. by exists e'. Qed.

Lemma stage_spec staged b h :
  let '(r, h') := stage staged b h in
  h_ran h' = h_ran h /\ same_but [staged] (h_files h) (h_files h') /\
  (r = Ok tt -> h_files h' = <[staged := b]> (h_files h)).
Proof.
  unfold stage.
  assert (Hw : forall h, let '(r, h') := (_ ← through_files UpdateError.Io (fun fs => os_write fs staged b);
      look (fun fs => os_set_executable fs staged)) h in
    h_ran h' = h_ran h /\ same_but [staged] (h_files h) (h_files h') /\
    (r = Ok tt -> h_files h' = <[staged := b]> (h_files h))).
  { clear h. intros h. unfold through_files, look, mbind, M_bind.
    pose proof (fun q => os_write_other (h_files h) staged b q) as Ho.
    destruct (os_write (h_files h) staged b) as [[[]|e] fs] eqn:E; cbn in *.
    - apply os_write_ok in E as ->. split; [done|]. split; [|done]. intros q Hq. rewrite lookup_insert_ne by set_solver. done.
    - split; [done|]. split; [|done]. intros q Hq. apply Ho. set_solver. }
  destruct (parent staged) as [dir|]; [|exact (Hw h)].
  destruct (os_create_dir_all (h_files h) dir) as [[]|e] eqn:E.
  - rewrite (bind_ok _ _ h tt h) by (unfold look; by rewrite E). exact (Hw h).
  - rewrite (bind_err _ _ h (UpdateError.Io e) h) by (unfold look; by rewrite E). by repeat split.
Qed.

(** Trying the staged binary only runs it. *)
Definition tried (staged : string) (bin : option (list N)) (h h' : Host) (ran : list Ran) : Prop :=
  h_files h' = h_files h /\ h_ran h' = h_ran h ++ ran /\
  Forall (fun x => ran_path x = staged /\ ran_binary x = bin) ran.

Lemma output_tried p arg url h :
  exists ran, tried p (h_files h !! p) h (snd (output p arg url h)) ran /\
  match fst (output p arg url h) with
  | Ok (Ok _) => ran = [mkRan p arg url (h_files h !! p)]
  | Ok (Err _) => ran = []
  | Err _ => False
  end.
Proof.
  unfold output, tried. destruct (os_output _ p arg url) as [o|e]; cbn; eexists; (split; [|done]); cbn.
  - split; [done|]. split; [done|]. by repeat constructor.
  - by rewrite app_nil_r.
Qed.

Lemma sanity_check_tried staged h :
  exists ran, tried staged (h_files h !! staged) h (snd (sanity_check staged h)) ran /\
  (fst (sanity_check staged h) = Ok tt -> ran = [mkRan staged "--version" None (h_files h !! staged)]).
Proof.
  unfold sanity_check, mbind, M_bind. destruct (output_tried staged "--version" None h) as (ran & Ht & Hr).
  destruct (output _ _ _ h) as [[[o|e]|e] h']; cbn in *; [|by exists ran|done].
  exists ran. by destruct (out_success o).
Qed.

Lemma migrate_tried staged url h :
  exists ran, tried staged (h_files h !! staged) h (snd (migrate staged url h)) ran /\
  (fst (migrate staged url h) = Ok tt -> ran = [mkRan staged "migrate" (Some url) (h_files h !! staged)]).
Proof.
  unfold migrate, mbind, M_bind. destruct (output_tried staged "migrate" (Some url) h) as (ran & Ht & Hr).
  destruct (output _ _ _ h) as [[[o|e]|e] h']; cbn in *; [|by exists ran|done].
  exists ran. by destruct (out_success o).
Qed.

Lemma tried_trans staged b h1 h2 h3 r1 r2 : tried staged b h1 h2 r1 -> tried staged b h2 h3 r2 -> tried staged b h1 h3 (r1 ++ r2).
Proof.
  intros (Hf1 & Hr1 & H1') (Hf2 & Hr2 & H2'). split; [by rewrite Hf2|]. split; [by rewrite Hr2, Hr1, app_assoc|].
  by apply Forall_app.
Qed.
End host.

(** ** The swap *)

Section swap.
Context `{HostOsLaws}.
Context (staged bin backup : string).
Context (Hsb : staged <> bin) (Hbb : backup <> bin) (Hsk : staged <> backup).

Lemma back_up_spec h :
  let '(r, h') := back_up bin backup h in
  h_ran h' = h_ran h /\ same_but [bin; backup] (h_files h) (h_files h') /\
  match r with
  | Ok _ => h_files h' !! bin = None /\
      h_files h' !! backup = match h_files h !! bin with Some c => Some c | None => h_files h !! backup end
  | Err _ => h_files h' !! bin = h_files h !! bin
  end.
Proof.
  unfold back_up, exists_. unfold mbind at 1, M_bind at 1. case_bool_decide as Hin.
  2:{ assert (Hn : h_files h !! bin = None) by (by apply eq_None_not_Some). cbn. rewrite Hn. by repeat split. }
  rewrite (bind_ok _ _ h tt (snd (remove_file backup h))) by done.
  destruct (remove_file_same backup h) as [Hf Hr]. set (h1 := snd (remove_file backup h)) in *.
  assert (Hb : h_files h1 !! bin = h_files h !! bin) by (apply Hf; set_solver).
  unfold attempt, mbind, M_bind. destruct (rename_cases bin backup h1) as [(c & fs & -> & Hc & ->)|[e ->]]; cbn.
  - split; [done|]. rewrite <- Hb, Hc. split; [|split].
    + intros q Hq. rewrite lookup_insert_ne, lookup_delete_ne by set_solver. apply Hf. set_solver.
    + by rewrite lookup_insert_ne, lookup_delete_eq by done.
    + by rewrite lookup_insert_eq.
  - split; [done|]. split; [|done]. apply (same_but_weaken _ _ _ _ Hf). set_solver.
Qed.

(** Neither half of the swap can be done: moving the new binary in, and moving
    the old one back. *)
Definition stuck (fs : Files) : Prop :=
  (exists e, os_rename fs staged bin = Err e) /\ (exists e, os_rename fs backup bin = Err e).

Lemma move_in_spec h :
  h_files h !! bin = None ->
  let '(r, h') := move_in staged bin backup h in
  h_ran h' = h_ran h /\ same_but [bin; staged; backup] (h_files h) (h_files h') /\
  match r with
  | Ok _ => h_files h' !! bin = h_files h !! staged /\ h_files h' !! staged = None /\ h_files h' !! backup = h_files h !! backup
  | Err _ => forall c, h_files h !! backup = Some c ->
      h_files h' !! bin = Some c \/ (h_files h' !! bin = None /\ h_files h' !! backup = Some c /\ stuck (h_files h'))
  end.
Proof.
  intros Hno. unfold move_in, attempt, mbind, M_bind.
  destruct (rename_cases staged bin h) as [(c & fs & -> & Hc & ->)|[e Hin']]; [|pose proof (rename_refused _ _ _ _ _ Hin') as Href; rewrite Hin']; cbn.
  - split; [done|]. split; [|split; [|split]].
    + intros q Hq. by rewrite lookup_insert_ne, lookup_delete_ne by set_solver.
    + by rewrite lookup_insert_eq.
    + by rewrite lookup_insert_ne, lookup_delete_eq by done.
    + by rewrite lookup_insert_ne, lookup_delete_ne by done.
  - case_bool_decide as Hin; cbn; [|split; [done|]; split; [done|]; intros c Hc; exfalso; apply Hin; by exists c].
    unfold ignore_err. destruct (rename_cases backup bin h) as [(c & fs & -> & Hc & ->)|[e' Hun]];
      [|pose proof (rename_refused _ _ _ _ _ Hun) as Href'; rewrite Hun]; cbn.
    + split; [done|]. split; [intros q Hq; by rewrite lookup_insert_ne, lookup_delete_ne by set_solver|].
      intros c' Hc'. left. rewrite lookup_insert_eq. congruence.
    + split; [done|]. split; [done|]. intros c Hc. right. split; [done|]. by split.
Qed.

Lemma swap_spec h :
  let '(r, h') := swap staged bin backup h in
  h_ran h' = h_ran h /\ same_but [bin; staged; backup] (h_files h) (h_files h') /\
  match r with
  | Ok _ => h_files h' !! bin = h_files h !! staged /\ h_files h' !! staged = None /\
      h_files h' !! backup = match h_files h !! bin with Some c => Some c | None => h_files h !! backup end
  | Err _ => forall c, h_files h !! bin = Some c ->
      h_files h' !! bin = Some c \/ (h_files h' !! bin = None /\ h_files h' !! backup = Some c /\ stuck (h_files h'))
  end.
Proof.
  unfold swap. pose proof (back_up_spec h) as Hb. unfold mbind, M_bind.
  destruct (back_up bin backup h) as [[[]|e] h1]; destruct Hb as (Hr & Hs & Hb).
  2:{ split; [done|]. split; [by apply (same_but_weaken _ _ _ _ Hs); set_solver|]. intros c Hc. left. congruence. }
  destruct Hb as [Hn Hk]. pose proof (move_in_spec h1 Hn) as Hm. destruct (move_in _ _ _ h1) as [[[]|e] h2]; destruct Hm as (Hr2 & Hs2 & Hm).
  - split; [congruence|]. split; [etrans; [by apply (same_but_weaken _ _ _ _ Hs); set_solver|done]|].
    destruct Hm as (-> & -> & ->). split; [apply Hs; set_solver|]. split; [done|exact Hk].
  - split; [congruence|]. split; [etrans; [by apply (same_but_weaken _ _ _ _ Hs); set_solver|done]|].
    intros c Hc. apply Hm. by rewrite Hk, Hc.
Qed.
End swap.

(** ** Installing *)

Section install.
Context `{HostOsLaws} `{Ed25519} `{HexCodec} `{Sha256} `{UnicodeCase}.

(** The programs a successful install has run. *)
Definition trials (opts : ApplyOptions) (staged : string) (binary : list N) : list Ran :=
  (if run_sanity_check opts then [mkRan staged "--version" None (Some binary)] else []) ++
  match migration_url opts with Some url => [mkRan staged "migrate" (Some url) (Some binary)] | None => [] end.

Lemma commit_spec opts staged bin backup h binary :
  staged <> bin -> backup <> bin -> staged <> backup -> h_files h !! staged = Some binary ->
  let '(r, h') := commit opts staged bin backup h in
  (exists ran, h_ran h' = h_ran h ++ ran /\
     Forall (fun x => ran_path x = staged /\ ran_binary x = Some binary) ran /\
     (r = Ok tt -> ran = trials opts staged binary)) /\
  same_but [bin; staged; backup] (h_files h) (h_files h') /\
  match r with
  | Ok _ => h_files h' !! bin = Some binary /\ h_files h' !! staged = None /\
      h_files h' !! backup = match h_files h !! bin with Some c => Some c | None => h_files h !! backup end
  | Err _ => forall c, h_files h !! bin = Some c ->
      h_files h' !! bin = Some c \/ (h_files h' !! bin = None /\ h_files h' !! backup = Some c /\ stuck staged bin backup (h_files h'))
  end.
Proof.
  intros Hsb Hbb Hsk Hst. unfold commit, trials.
  set (m1 := if run_sanity_check opts then _ else _). set (l1 := if run_sanity_check opts then [_] else []).
  assert (H1' : exists ran, tried staged (Some binary) h (snd (m1 h)) ran /\ (fst (m1 h) = Ok tt -> ran = l1)).
  { unfold m1, l1. destruct (run_sanity_check opts).
    - destruct (sanity_check_tried staged h) as (ran & Ht & Hr). rewrite Hst in Ht, Hr. eauto.
    - exists []. cbn. split; [|done]. unfold tried. by rewrite app_nil_r. }
  destruct H1' as (ran1 & Ht1 & Hr1). unfold mbind at 1, M_bind at 1.
  destruct (m1 h) as [[[]|e] h1]; cbn in Ht1, Hr1; pose proof Ht1 as (Hf1 & Hn1 & Ha1).
  2:{ split; [exists ran1; by repeat split|]. rewrite Hf1. split; [done|]. auto. }
  set (m2 := match migration_url opts with Some url => _ | None => _ end). set (l2 := match migration_url opts with Some url => [_] | None => [] end).
  assert (H2' : exists ran, tried staged (Some binary) h1 (snd (m2 h1)) ran /\ (fst (m2 h1) = Ok tt -> ran = l2)).
  { unfold m2, l2. destruct (migration_url opts) as [url|].
    - destruct (migrate_tried staged url h1) as (ran & Ht & Hr). rewrite Hf1, Hst in Ht, Hr. eauto.
    - exists []. cbn. split; [|done]. unfold tried. by rewrite app_nil_r. }
  destruct H2' as (ran2 & Ht2 & Hr2). pose proof (tried_trans _ _ _ _ _ _ _ Ht1 Ht2) as (Hf & Hn & Ha).
  unfold mbind, M_bind. destruct (m2 h1) as [[[]|e] h2]; cbn in Hr2, Hf, Hn.
  2:{ split; [exists (ran1 ++ ran2); by repeat split|]. rewrite Hf. split; [done|]. auto. }
  pose proof (swap_spec staged bin backup Hsb Hbb Hsk h2) as Hs. destruct (swap _ _ _ h2) as [r h3].
  destruct Hs as (Hn3 & Hs3 & Hr3). rewrite Hf in Hs3, Hr3. rewrite Hst in Hr3. split; [|done].
  exists (ran1 ++ ran2). split; [congruence|]. split; [done|]. intros _. by rewrite Hr1, Hr2.
Qed.

(** The ways an install goes. *)
Lemma apply_cases cfg pkg opts bin h :
  resolve_binary_path cfg = Ok bin ->
  let staged := sibling bin "new" in
  let backup := sibling bin "old" in
  (exists e, verify_package cfg pkg = Err e /\ apply_package cfg pkg opts h = (Err e, h)) \/
  verify_package cfg pkg = Ok tt /\
  ((exists e h1, stage staged (pkg_binary pkg) h = (Err e, h1) /\ apply_package cfg pkg opts h = (Err e, h1)) \/
   exists h1, stage staged (pkg_binary pkg) h = (Ok tt, h1) /\
   ((exists e h2, commit opts staged bin backup h1 = (Err e, h2) /\
       apply_package cfg pkg opts h = (Err e, snd (remove_file staged h2))) \/
    exists h2, commit opts staged bin backup h1 = (Ok tt, h2) /\
      apply_package cfg pkg opts h =
        (Ok (mkOutcome running_version (man_version (pkg_manifest pkg)) (man_target (pkg_manifest pkg)) bin backup), h2))).
Proof.
  intros Hbin staged backup. unfold apply_package. destruct (verify_package cfg pkg) as [[]|e]; [right; split; [done|]|left].
  2:{ exists e. split; [done|]. by apply bind_err. }
  rewrite (bind_ok _ _ h tt h), Hbin, (bind_ok _ _ h bin h) by done. fold staged backup.
  destruct (stage staged (pkg_binary pkg) h) as [[[]|e] h1] eqn:Es; [right|left].
  2:{ eexists e, h1. split; [done|]. by apply bind_err. }
  exists h1. split; [done|]. rewrite (bind_ok _ _ h tt h1) by done. unfold attempt, mbind, M_bind.
  destruct (commit opts staged bin backup h1) as [[[]|e] h2]; [right|left]; eauto.
Qed.

(** After a success. *)
Lemma apply_succeeds cfg pkg opts bin o h h' :
  resolve_binary_path cfg = Ok bin -> apply_package cfg pkg opts h = (Ok o, h') ->
  h_files h' !! bin = Some (pkg_binary pkg) /\
  h_files h' !! sibling bin "old" = match h_files h !! bin with Some c => Some c | None => h_files h !! sibling bin "old" end.
Proof.
  intros Hbin Ha. destruct (siblings_differ bin) as (Hsb & Hbb & Hsk & _).
  destruct (apply_cases cfg pkg opts bin h Hbin) as [(e & _ & He)|(_ & [(e & h1 & _ & He)|(h1 & Hst & [(e & h2 & _ & He)|(h2 & Hc & He)])])];
    rewrite Ha in He; try discriminate He. injection He as _ <-.
  pose proof (stage_spec (sibling bin "new") (pkg_binary pkg) h) as Hs. rewrite Hst in Hs. destruct Hs as (_ & Hs & Hf).
  pose proof (commit_spec opts _ bin _ h1 (pkg_binary pkg) Hsb Hbb Hsk) as Hcs. rewrite Hc in Hcs.
  destruct Hcs as (_ & _ & Hb & _ & Hk); [by rewrite Hf, lookup_insert_eq|]. split; [done|].
  rewrite Hk, !Hs by set_solver. done.
Qed.

(** C16: An install is safe.  A package that does not verify changes nothing and
    runs nothing; whatever runs is the package's own, verified binary, at its
    staged path; no file but the binary, the staged one and the backup is
    touched.  A successful install has run the trials asked for, leaves the new
    binary in place, nothing staged, and the binary before it as the backup.
    After a failed one the binary it would have replaced is still in place or,
    when the system refused both to move the new binary in and to move the old
    one back, whole in the backup. *)
Theorem apply_package_spec cfg pkg opts bin h :
  resolve_binary_path cfg = Ok bin ->
  let staged := sibling bin "new" in
  let backup := sibling bin "old" in
  let '(r, h') := apply_package cfg pkg opts h in
  (forall e, verify_package cfg pkg = Err e -> r = Err e /\ h' = h) /\
  (exists ran, h_ran h' = h_ran h ++ ran /\
     Forall (fun x => ran_path x = staged /\ ran_binary x = Some (pkg_binary pkg)) ran /\
     (is_ok r = true -> ran = trials opts staged (pkg_binary pkg))) /\
  (forall q, q ∉ [bin; staged; backup] -> h_files h' !! q = h_files h !! q) /\
  match r with
  | Ok o => verify_package cfg pkg = Ok tt /\ uo_binary_path o = bin /\ uo_backup_path o = backup /\
      h_files h' !! bin = Some (pkg_binary pkg) /\ h_files h' !! staged = None /\
      h_files h' !! backup = match h_files h !! bin with Some c => Some c | None => h_files h !! backup end
  | Err _ => forall c, h_files h !! bin = Some c ->
      h_files h' !! bin = Some c \/ (h_files h' !! bin = None /\ h_files h' !! backup = Some c /\
        exists fs, same_but [staged] fs (h_files h') /\ stuck staged bin backup fs)
  end.
Proof.
  intros Hbin staged backup. destruct (siblings_differ bin) as (Hsb & Hbb & Hsk & _).
  fold staged in Hsb, Hsk. fold backup in Hbb, Hsk.
  pose proof (apply_cases cfg pkg opts bin h Hbin) as Hcases. cbn zeta in Hcases. fold staged backup in Hcases.
  destruct Hcases as [(e & Hv & ->)|(Hv & Hst)].
  { split; [intros e' He'; split; [congruence|done]|]. split; [|split; [done|by left]]. exists []. rewrite app_nil_r. by repeat split. }
  rewrite Hv. pose proof (stage_spec staged (pkg_binary pkg) h) as Hs.
  destruct Hst as [(e & h1 & Hst & ->)|(h1 & Hst & Hc)]; rewrite Hst in Hs; destruct Hs as (Hn1 & Hs1 & Hf1).
  { split; [done|]. split; [exists []; rewrite app_nil_r; by repeat split|]. split; [intros q Hq; apply Hs1; set_solver|].
    intros c Hc. left. rewrite Hs1; [done|set_solver]. }
  specialize (Hf1 eq_refl).
  assert (Hst1 : h_files h1 !! staged = Some (pkg_binary pkg)) by (by rewrite Hf1, lookup_insert_eq).
  pose proof (commit_spec opts staged bin backup h1 (pkg_binary pkg) Hsb Hbb Hsk Hst1) as Hcs.
  destruct Hc as [(e & h2 & Hc & ->)|(h2 & Hc & ->)]; rewrite Hc in Hcs; destruct Hcs as ((ran & Hn2 & Ha & Hr2) & Hs2 & Hr).
  - destruct (remove_file_same staged h2) as [Hs3 Hn3]. set (h3 := snd (remove_file staged h2)) in *.
    split; [done|]. split; [exists ran; rewrite Hn3, <- Hn1; by repeat split|]. split.
    + intros q Hq. rewrite Hs3 by set_solver. rewrite (Hs2 q Hq). apply Hs1. set_solver.
    + intros c Hold. rewrite !Hs3 by set_solver. destruct (Hr c) as [?|(? & ? & Hstuck)]; [by rewrite Hs1 by set_solver|by left|].
      right. split; [done|]. split; [done|]. by exists (h_files h2).
  - split; [done|]. split; [exists ran; rewrite <- Hn1; by auto|]. split.
    + intros q Hq. rewrite (Hs2 q Hq). apply Hs1. set_solver.
    + destruct Hr as (Hr & Hr' & Hb). do 5 (split; [done|]). rewrite Hb, !Hs1 by set_solver. done.
Qed.
End install.

(** ** Rolling back *)

Section rolling.
Context `{HostOsLaws}.

Context (bin backup pending : string).
Context (Hkb : backup <> bin) (Hpb : pending <> bin) (Hpk : pending <> backup).

(** From a host whose backup is [b] and whose binary, if there, is [old], to one
    where they are exchanged, or the new backup could not be named as such; and
    what an error leaves. *)
Definition exchanged (b : list N) (old : option (list N)) (r : result UpdateError unit) (fs : Files) : Prop :=
  match r with
  | Ok _ => fs !! bin = Some b /\ forall c, old = Some c ->
      (fs !! backup = Some c /\ fs !! pending = None) \/ (fs !! backup = None /\ fs !! pending = Some c)
  | Err _ => fs !! backup = Some b /\ forall c, old = Some c ->
      fs !! bin = Some c \/ (fs !! bin = None /\ fs !! pending = Some c)
  end.

Lemma put_back_spec b old h :
  h_files h !! bin = None -> h_files h !! backup = Some b ->
  (forall c, old = Some c -> h_files h !! pending = Some c) ->
  let '(r, h') := put_back bin backup pending h in
  same_but [bin; backup; pending] (h_files h) (h_files h') /\ exchanged b old r (h_files h').
Proof using Type*.
  intros Hn Hk Hp. unfold put_back, mbind at 1, M_bind at 1.
  destruct (rename_cases backup bin h) as [(b' & fs & -> & Hb' & ->)|[e ->]].
  2:{ split; [done|]. split; [done|]. intros c Hc. right. auto. }
  assert (b' = b) as -> by congruence. set (h2 := mkHost _ _).
  assert (Hs2 : same_but [bin; backup; pending] (h_files h) (h_files h2)).
  { intros q Hq. cbn. by rewrite lookup_insert_ne, lookup_delete_ne by set_solver. }
  unfold exists_. rewrite (bind_ok _ _ h2 _ h2) by done. cbn beta.
  assert (Hb2 : h_files h2 !! bin = Some b) by (cbn; by rewrite lookup_insert_eq).
  assert (Hk2 : h_files h2 !! backup = None) by (cbn; by rewrite lookup_insert_ne, lookup_delete_eq).
  assert (Hp2 : h_files h2 !! pending = h_files h !! pending) by (cbn; by rewrite lookup_insert_ne, lookup_delete_ne).
  case_bool_decide as Hin.
  - unfold ignore_err. destruct (rename_cases pending backup h2) as [(c & fs & -> & Hc & ->)|[e ->]]; cbn [fst snd h_files].
    + split; [intros q Hq; rewrite lookup_insert_ne, lookup_delete_ne by set_solver; by apply Hs2|].
      split; [by rewrite lookup_insert_ne, lookup_delete_ne|]. intros c' Hc'. left. apply Hp in Hc'.
      rewrite lookup_insert_eq, lookup_insert_ne, lookup_delete_eq by done. split; [congruence|done].
    + split; [done|]. split; [done|]. intros c Hc. right. rewrite Hp2. auto.
  - split; [done|]. split; [done|]. intros c Hc. exfalso. apply Hin. rewrite Hp2, (Hp c Hc). by eexists.
Qed.

Lemma set_aside_spec b h :
  h_files h !! backup = Some b ->
  let '(r, h') := (there ← exists_ bin; _ ← (if (there : bool) then rename bin pending else mret tt);
      put_back bin backup pending) h in
  same_but [bin; backup; pending] (h_files h) (h_files h') /\ exchanged b (h_files h !! bin) r (h_files h').
Proof using Type*.
  intros Hb. unfold exists_. rewrite (bind_ok _ _ h _ h) by done. cbn beta. case_bool_decide as Hin.
  - destruct (rename_cases bin pending h) as [(c & fs & Hr & Hc & ->)|[e Hr]].
    2:{ rewrite (bind_err _ _ h _ _ Hr). split; [done|]. split; [done|]. by left. }
    rewrite (bind_ok _ _ h tt _ Hr). set (h1 := mkHost _ _).
    assert (Hs1 : same_but [bin; backup; pending] (h_files h) (h_files h1)).
    { intros q Hq. cbn. by rewrite lookup_insert_ne, lookup_delete_ne by set_solver. }
    pose proof (put_back_spec b (h_files h !! bin) h1) as Hp. destruct (put_back _ _ _ h1) as [r h'].
    destruct Hp as [Hs Hr']; [cbn; by rewrite lookup_insert_ne, lookup_delete_eq|cbn; by rewrite lookup_insert_ne, lookup_delete_ne|
      intros c' Hc'; cbn; rewrite lookup_insert_eq; congruence|]. split; [by etrans|done].
  - rewrite (bind_ok _ _ h tt h) by done. assert (Hn : h_files h !! bin = None) by (by apply eq_None_not_Some).
    apply put_back_spec; [done..|]. by rewrite Hn.
Qed.

Lemma exchange_spec b h :
  h_files h !! backup = Some b ->
  let '(r, h') := exchange bin backup pending h in
  same_but [bin; backup; pending] (h_files h) (h_files h') /\ exchanged b (h_files h !! bin) r (h_files h').
Proof using Type*.
  intros Hb. unfold exchange. destruct (remove_file_same pending h) as [Hf _].
  rewrite (bind_ok _ _ h tt (snd (remove_file pending h))) by done. set (h0 := snd (remove_file pending h)) in *.
  rewrite <- (Hf bin) by set_solver. rewrite <- (Hf backup) in Hb by set_solver.
  apply (same_but_weaken _ [bin; backup; pending]) in Hf; [|set_solver]. clearbody h0.
  pose proof (set_aside_spec b h0 Hb) as Hs. revert Hs.
  match goal with |- context [(?m ≫= ?k) h0] => destruct ((m ≫= k) h0) as [r h'] end.
  intros [Hs Hr]. split; [by etrans|done].
Qed.
End rolling.

Section rollback.
Context `{HostOsLaws}.

Lemma reported_version_ran p h :
  exists v ran, reported_version p h = (Ok v, mkHost (h_files h) (h_ran h ++ ran)) /\
    Forall (fun x => ran_path x = p /\ ran_binary x = h_files h !! p) ran.
Proof.
  unfold reported_version, output, mbind, M_bind, mret, M_ret. destruct (os_output _ p _ _) as [o|e].
  - eexists _, [_]. split; [done|]. by repeat constructor.
  - eexists _, []. split; [|constructor]. rewrite app_nil_r. by destruct h.
Qed.

(** File calls run nothing. *)
Definition has_run (l : list Ran) (h : Host) : Prop := h_ran h = l.

#[local] Instance on_files_run l f : Preserves (has_run l) (on_files f).
Proof. intros h Hh. unfold on_files. by destruct (f _). Qed.
#[local] Instance exists_run l p : Preserves (has_run l) (exists_ p).
Proof. by intros h Hh. Qed.

Lemma exchange_runs_nothing bin backup pending h : h_ran (snd (exchange bin backup pending h)) = h_ran h.
Proof.
  assert (Hp : Preserves (has_run (h_ran h)) (exchange bin backup pending))
    by (unfold exchange, put_back, remove_file, rename; apply _).
  by apply Hp.
Qed.

(** A rollback exchanges the binary and its backup.  Without a backup nothing
    happens.  Otherwise no other file is touched but the one the binary is set
    aside in; after a success the backup is the binary, and the binary before it
    is the backup, or, when only that last renaming failed, set aside; nothing
    runs but the restored binary.  After an error the backup is still there, and
    the binary is in place or set aside. *)
Theorem rollback_spec cfg bin h :
  resolve_binary_path cfg = Ok bin ->
  let backup := sibling bin "old" in
  let pending := sibling bin "rollback-tmp" in
  (h_files h !! backup = None -> rollback cfg h = (Err UpdateError.NoBackup, h)) /\
  forall b, h_files h !! backup = Some b ->
    let '(r, h') := rollback cfg h in
    (forall q, q ∉ [bin; backup; pending] -> h_files h' !! q = h_files h !! q) /\
    (exists ran, h_ran h' = h_ran h ++ ran /\ Forall (fun x => ran_path x = bin /\ ran_binary x = Some b) ran) /\
    match r with
    | Ok _ => h_files h' !! bin = Some b /\ forall c, h_files h !! bin = Some c ->
        (h_files h' !! backup = Some c /\ h_files h' !! pending = None) \/
        (h_files h' !! backup = None /\ h_files h' !! pending = Some c)
    | Err _ => h_files h' !! backup = Some b /\ forall c, h_files h !! bin = Some c ->
        h_files h' !! bin = Some c \/ (h_files h' !! bin = None /\ h_files h' !! pending = Some c)
    end.
Proof.
  intros Hbin backup pending. destruct (siblings_differ bin) as (_ & Hkb & _ & Hpb & Hpk).
  fold backup in Hkb, Hpk. fold pending in Hpb, Hpk. unfold rollback. rewrite Hbin, (bind_ok _ _ h bin h) by done.
  fold backup pending. rewrite (bind_ok (exists_ backup) _ h (bool_decide (is_Some (h_files h !! backup))) h) by done. cbn beta.
  split; [by intros ->|]. intros b Hb. rewrite bool_decide_true by (by eexists). cbn [negb]. unfold mbind, M_bind.
  pose proof (exchange_spec bin backup pending Hkb Hpb Hpk b h Hb) as He.
  pose proof (exchange_runs_nothing bin backup pending h) as Hn.
  destruct (exchange bin backup pending h) as [[[]|e] h1]; destruct He as [Hs Hr]; cbn [snd] in Hn.
  - destruct (reported_version_ran bin h1) as (v & ran & -> & Ha). cbn [h_files h_ran]. split; [done|].
    destruct Hr as [Hr Hc]. split; [|done]. rewrite Hr in Ha. exists ran. by rewrite Hn.
  - split; [done|]. split; [|done]. exists []. by rewrite Hn, app_nil_r.
Qed.
End rollback.

(** ** Installing, then rolling back *)

(** A file that is there can be renamed. *)
Class Renames `{HostOs} : Prop := rename_total : forall fs a b c, fs !! a = Some c -> exists fs', os_rename fs a b = Ok fs'.

Section undo.
Context `{HostOsLaws} `{!Renames} `{Ed25519} `{HexCodec} `{Sha256} `{UnicodeCase}.

Lemma rename_there a b c h :
  h_files h !! a = Some c -> rename a b h = (Ok tt, mkHost (<[b := c]> (delete a (h_files h))) (h_ran h)).
Proof.
  intros Ha. destruct (rename_cases a b h) as [(c' & fs & Hr & Hc & ->)|[e Hr]]; [by simplify_eq|].
  exfalso. destruct (rename_total _ a b c Ha) as [fs' Hf]. unfold rename, on_files in Hr. by rewrite Hf in Hr.
Qed.

Lemma exchange_succeeds bin backup pending b c h :
  backup <> bin -> pending <> bin -> pending <> backup ->
  h_files h !! backup = Some b -> h_files h !! bin = Some c ->
  fst (exchange bin backup pending h) = Ok tt /\
  h_files (snd (exchange bin backup pending h)) !! bin = Some b /\
  h_files (snd (exchange bin backup pending h)) !! backup = Some c.
Proof.
  intros Hkb Hpb Hpk Hb Hc. unfold exchange, put_back, exists_. destruct (remove_file_same pending h) as [Hf _].
  rewrite (bind_ok _ _ h tt (snd (remove_file pending h))) by done. set (h0 := snd (remove_file pending h)) in *.
  rewrite <- (Hf bin) in Hc by set_solver. rewrite <- (Hf backup) in Hb by set_solver. clearbody h0.
  rewrite (bind_ok _ _ h0 true h0) by (by rewrite bool_decide_true by (by eexists)).
  rewrite (bind_ok _ _ h0 tt _ (rename_there bin pending c h0 Hc)). set (h1 := mkHost _ _).
  assert (Hb1 : h_files h1 !! backup = Some b) by (cbn; by rewrite lookup_insert_ne, lookup_delete_ne by done).
  rewrite (bind_ok _ _ h1 tt _ (rename_there backup bin b h1 Hb1)). set (h2 := mkHost _ _).
  assert (Hp2 : h_files h2 !! pending = Some c)
    by (cbn; by rewrite lookup_insert_ne, lookup_delete_ne, lookup_insert_eq by done).
  rewrite (bind_ok _ _ h2 true h2) by (by rewrite bool_decide_true by (by eexists)).
  unfold ignore_err. rewrite (rename_there pending backup c h2 Hp2). cbn. split; [done|].
  split; [|by rewrite lookup_insert_eq]. by rewrite lookup_insert_ne, lookup_delete_ne, lookup_insert_eq by done.
Qed.

Lemma rollback_exchanges cfg bin b c h :
  resolve_binary_path cfg = Ok bin -> h_files h !! sibling bin "old" = Some b -> h_files h !! bin = Some c ->
  exists v h', rollback cfg h = (Ok v, h') /\ h_files h' !! bin = Some b /\ h_files h' !! sibling bin "old" = Some c.
Proof.
  intros Hbin Hb Hc. destruct (siblings_differ bin) as (_ & Hkb & _ & Hpb & Hpk).
  destruct (exchange_succeeds bin _ _ b c h Hkb Hpb Hpk Hb Hc) as (He & Hb' & Hc').
  unfold rollback. rewrite Hbin, (bind_ok _ _ h bin h) by done.
  rewrite (bind_ok _ _ h true h) by (unfold exists_; by rewrite bool_decide_true by (by eexists)). cbn [negb].
  destruct (exchange _ _ _ h) as [r h1] eqn:E; cbn in He, Hb', Hc'; subst r. rewrite (bind_ok _ _ h tt h1) by done.
  destruct (reported_version_ran bin h1) as (v & ran & -> & _). by eexists _, _.
Qed.

(** C31: An update can be undone, and the undoing too.  Where renaming works, a
    rollback after a successful install puts back the binary there was before
    it and keeps the new one as the backup; a second rollback brings the new
    one back. *)
Theorem update_can_be_undone cfg pkg opts bin old o h h1 :
  resolve_binary_path cfg = Ok bin -> h_files h !! bin = Some old ->
  apply_package cfg pkg opts h = (Ok o, h1) ->
  exists v2 h2 v3 h3, rollback cfg h1 = (Ok v2, h2) /\ rollback cfg h2 = (Ok v3, h3) /\
    h_files h1 !! bin = Some (pkg_binary pkg) /\
    (h_files h2 !! bin = Some old /\ h_files h2 !! sibling bin "old" = Some (pkg_binary pkg)) /\
    (h_files h3 !! bin = Some (pkg_binary pkg) /\ h_files h3 !! sibling bin "old" = Some old).
Proof.
  intros Hbin Hold Ha. destruct (apply_succeeds cfg pkg opts bin o h h1 Hbin Ha) as [Hb Hk]. rewrite Hold in Hk.
  destruct (rollback_exchanges cfg bin _ _ h1 Hbin Hk Hb) as (v2 & h2 & Hr2 & Hb2 & Hk2).
  destruct (rollback_exchanges cfg bin _ _ h2 Hbin Hk2 Hb2) as (v3 & h3 & Hr3 & Hb3 & Hk3).
  by exists v2, h2, v3, h3.
Qed.
End undo.
