(* ===== verification/SigningProps.v ===== *)
(** * Who may update: signatures, versions and packages of [Update]

    What the verification of a package establishes, the order of versions it
    refuses downgrades by, and the round trip from the operator's [sign_package]
    to a server that accepts the package. *)

From Stdlib Require Import Ascii String.
From S2P Require Import Prelude RustStr Types RustPath Utf8 Llm Store Stages Config Update.

#[local] Arguments String.append !_ _ /.

(** ** Versions *)

Definition version_text (a b c : Z) : string := pretty a +:+ "." +:+ pretty b +:+ "." +:+ pretty c.

Lemma split_char_three a b c :
  0 <= a -> 0 <= b -> 0 <= c -> split_char "." (version_text a b c) = [pretty a; pretty b; pretty c].
Proof.
  intros Ha Hb Hc. unfold version_text.
  assert (Hd : forall n, 0 <= n -> all_bytes (fun x => negb (Ascii.eqb x ".")) (pretty n) = true).
  { intros n Hn. apply (all_bytes_impl is_digit); [|by apply pretty_digits].
    intros x Hx. apply negb_true_iff, Ascii.eqb_neq. intros ->. by vm_compute in Hx. }
  change ("." +:+ pretty b +:+ "." +:+ pretty c) with (String "." (pretty b +:+ String "." (pretty c))).
  by rewrite !split_char_app, !split_char_none by auto.
Qed.

(** A digit, a dot: what the core of a version is made of. *)
Definition version_byte (x : ascii) : bool := is_digit x || Ascii.eqb x ".".

Lemma version_text_bytes a b c : 0 <= a -> 0 <= b -> 0 <= c -> all_bytes version_byte (version_text a b c) = true.
Proof.
  intros Ha Hb Hc. assert (Hd : forall n, 0 <= n -> all_bytes version_byte (pretty n) = true).
  { intros n Hn. apply (all_bytes_impl is_digit); [|by apply pretty_digits]. intros x Hx. unfold version_byte. by rewrite Hx. }
  unfold version_text. rewrite !all_bytes_app, !Hd by done. done.
Qed.

Lemma version_byte_plain x : version_byte x = true -> plain x = true.
Proof. unfold version_byte. intros [Hx|Hx]%orb_prop; [by apply digit_plain|]. apply Ascii.eqb_eq in Hx as ->. by vm_compute. Qed.

Lemma version_byte_not x c : version_byte c = false -> version_byte x = true -> negb (Ascii.eqb x c) = true.
Proof. intros Hc Hx. apply negb_true_iff, Ascii.eqb_neq. intros ->. congruence. Qed.

(** No [v] is dropped from a text that starts with none. *)
Lemma trim_start_v s : all_bytes version_byte s = true -> trim_start_matches (String.eqb "v") s = s.
Proof.
  intros Hs. unfold trim_start_matches. rewrite (drop_while_none _ (chars s)); [apply concat_chars|].
  rewrite chars_plain by (by apply (all_bytes_impl version_byte); [apply version_byte_plain|]).
  clear -Hs. induction s as [|x s IH]; cbn [list_ascii_of_string map]; [constructor|]. cbn in Hs. apply andb_prop in Hs as [Hx Hs].
  constructor; [|by apply IH]. apply String.eqb_neq. intros [= <-]. by vm_compute in Hx.
Qed.

Lemma parse_version_text a b c :
  0 <= a <= u64_max -> 0 <= b <= u64_max -> 0 <= c <= u64_max -> parse_version (version_text a b c) = (a, b, c).
Proof.
  intros Ha Hb Hc. unfold parse_version. pose proof (version_text_bytes a b c ltac:(lia) ltac:(lia) ltac:(lia)) as Hv.
  rewrite trim_plain by (by apply (all_bytes_impl version_byte); [apply version_byte_plain|]).
  rewrite trim_start_v by done. unfold split_core, split_first.
  assert (Hno : forall x, version_byte x = false -> split_once x (version_text a b c) = None).
  { intros x Hx. apply split_once_absent, (all_bytes_impl version_byte); [|done]. intros y. by apply version_byte_not. }
  rewrite !Hno by done. rewrite split_char_three by lia. cbn. by rewrite !parse_u64_pretty.
Qed.

Lemma triple_le_total p q : triple_le p q = false -> triple_le q p = true.
Proof.
  destruct p as [[p1 p2] p3], q as [[q1 q2] q3]. unfold triple_le.
  destruct (Z.ltb_spec p1 q1), (Z.eqb_spec p1 q1), (Z.ltb_spec p2 q2), (Z.eqb_spec p2 q2), (Z.leb_spec p3 q3),
    (Z.ltb_spec q1 p1), (Z.eqb_spec q1 p1), (Z.ltb_spec q2 p2), (Z.eqb_spec q2 p2), (Z.leb_spec q3 p3); cbn; try done; lia.
Qed.

Lemma triple_le_antisym p q : triple_le p q = true -> triple_le q p = true -> p = q.
Proof.
  destruct p as [[p1 p2] p3], q as [[q1 q2] q3]. unfold triple_le.
  destruct (Z.ltb_spec p1 q1), (Z.eqb_spec p1 q1), (Z.ltb_spec p2 q2), (Z.eqb_spec p2 q2), (Z.leb_spec p3 q3),
    (Z.ltb_spec q1 p1), (Z.eqb_spec q1 p1), (Z.ltb_spec q2 p2), (Z.eqb_spec q2 p2), (Z.leb_spec q3 p3); cbn; try done; intros _ _; try lia.
  repeat f_equal; lia.
Qed.

(** ** What a verified package is *)

Definition later (p q : Z * Z * Z) : Prop := triple_le p q = false.

Lemma later_lex a b c a' b' c' :
  later (a, b, c) (a', b', c') <-> a' < a \/ (a' = a /\ (b' < b \/ (b' = b /\ c' < c))).
Proof.
  unfold later, triple_le.
  destruct (Z.ltb_spec a a'), (Z.eqb_spec a a'), (Z.ltb_spec b b'), (Z.eqb_spec b b'), (Z.leb_spec c c'); cbn; split; try done; lia.
Qed.

Section sound.
Context `{HostOs} `{Ed25519} `{HexCodec} `{Sha256} `{UnicodeCase} `{ManifestJson} `{Archive}.

Lemma from_reader_manifest content pkg :
  from_reader content = Ok pkg -> manifest_of (pkg_manifest_bytes pkg) = Ok (pkg_manifest pkg).
Proof.
  unfold from_reader, from_bytes. destruct (tar_entries content) as [entries|]; [|done].
  destruct (read_entries entries _) as [f|]; [|done].
  destruct (missing _ (f_manifest f)) as [mb|]; [|done]. destruct (missing _ (f_signature f)) as [sh|]; [|done].
  destruct (missing _ (f_binary f)) as [b|]; [|done]. destruct (manifest_of mb) as [m|] eqn:E; [|done]. by intros [= <-].
Qed.

Lemma check_signature_sound cfg pkg :
  check_signature cfg pkg = Ok tt ->
  exists key_hex key_bytes key signature,
    Config.public_key cfg = Some key_hex /\
    hex_decode (trim key_hex) = Ok key_bytes /\ length key_bytes = 32%nat /\ key_from_bytes key_bytes = Ok key /\
    hex_decode (trim (pkg_signature_hex pkg)) = Ok signature /\ length signature = 64%nat /\
    verify_strict key (pkg_manifest_bytes pkg) signature = true.
Proof.
  unfold check_signature, parse_public_key, parse_signature, sized.
  destruct (Config.public_key cfg) as [k|]; [|done]. destruct (hex_decode (trim k)) as [kb|] eqn:Ek; [|done].
  case_bool_decide as Hk; [|done]. cbn [negb]. destruct (key_from_bytes kb) as [key|] eqn:Ekey; [|done].
  destruct (hex_decode (trim (pkg_signature_hex pkg))) as [sg|] eqn:Es; [|done].
  case_bool_decide as Hl; [|done]. cbn [negb]. destruct (verify_strict key _ sg) eqn:Ev; [|done]. intros _.
  by exists k, kb, key, sg.
Qed.

(** C17: What is accepted was signed.  A package read from an archive verifies
    only if the configured key, 32 bytes, signed the very bytes the manifest was
    parsed from, with a signature of 64; that manifest names the binary's
    digest, the product and this host, or a target the policy admits; and,
    unless downgrades are allowed, a version strictly later than the running
    one, in the order of dotted numbers. *)
Theorem verify_package_sound cfg content pkg :
  from_reader content = Ok pkg -> verify_package cfg pkg = Ok tt ->
  (exists key_hex key_bytes key signature,
    Config.public_key cfg = Some key_hex /\
    hex_decode (trim key_hex) = Ok key_bytes /\ length key_bytes = 32%nat /\ key_from_bytes key_bytes = Ok key /\
    hex_decode (trim (pkg_signature_hex pkg)) = Ok signature /\ length signature = 64%nat /\
    verify_strict key (pkg_manifest_bytes pkg) signature = true) /\
  exists m, manifest_of (pkg_manifest_bytes pkg) = Ok m /\ pkg_manifest pkg = m /\
    sha256 (pkg_binary pkg) = to_lowercase (trim (man_sha256 m)) /\ man_name m = "scribe" /\
    (man_target m = current_target \/ man_target m = "any" \/ Config.allow_target_mismatch cfg = true) /\
    (Config.allow_downgrade cfg = true \/
      forall a b c a' b' c', 0 <= a <= u64_max -> 0 <= b <= u64_max -> 0 <= c <= u64_max ->
        0 <= a' <= u64_max -> 0 <= b' <= u64_max -> 0 <= c' <= u64_max ->
        man_version m = version_text a b c -> running_version = version_text a' b' c' ->
        a' < a \/ (a' = a /\ (b' < b \/ (b' = b /\ c' < c)))).
Proof.
  intros Hread. unfold verify_package. destruct (check_signature cfg pkg) as [[]|] eqn:Esig; [|done]. intros Hm.
  split; [by apply check_signature_sound|]. exists (pkg_manifest pkg). split; [by eapply from_reader_manifest|]. split; [done|].
  unfold check_manifest in Hm. destruct (String.eqb_spec (sha256 (pkg_binary pkg)) (to_lowercase (trim (man_sha256 (pkg_manifest pkg))))); [|done].
  split; [done|]. cbn [negb] in Hm. destruct (String.eqb_spec (man_name (pkg_manifest pkg)) "scribe"); [|done]. split; [done|]. cbn [negb] in Hm.
  destruct (negb (String.eqb _ current_target) && _ && _) eqn:Et; [done|]. split.
  { destruct (String.eqb_spec (man_target (pkg_manifest pkg)) current_target); [by left|].
    destruct (Config.allow_target_mismatch cfg); [by right; right|].
    destruct (String.eqb_spec (man_target (pkg_manifest pkg)) "any"); [by right; left|done]. }
  destruct (Config.allow_downgrade cfg); [by left|]. right. cbn [negb andb] in Hm.
  intros a b c a' b' c' Ha Hb Hc Ha' Hb' Hc' Hv Hr. apply (later_lex a b c).
  unfold version_le in Hm. rewrite Hv, Hr, !parse_version_text in Hm by done.
  unfold later. by destruct (triple_le _ _).
Qed.
End sound.

(** ** From the operator to the server *)

(** What the keys, hexadecimal, digests, archives and serde are documented to do. *)
Class Ed25519Laws `{Ed25519} : Prop := {
  key_bytes_length : forall k, length (key_to_bytes k) = 32%nat;
  key_of_bytes : forall k, key_from_bytes (key_to_bytes k) = Ok k;
  signature_length : forall k m, length (sign k m) = 64%nat;
  signature_verifies : forall k m, verify_strict (verifying_key k) m (sign k m) = true;
}.

Definition hex_digit (a : ascii) : bool := is_digit a || ((97 <=? byte_of a)%N && (byte_of a <=? 102)%N).

Class HexLaws `{HexCodec} : Prop := {
  hex_round : forall b, hex_decode (hex_encode b) = Ok b;
  hex_lower : forall b, all_bytes hex_digit (hex_encode b) = true;
}.
Class Sha256Laws `{Sha256} : Prop := sha256_lower : forall b, all_bytes hex_digit (sha256 b) = true.
Class AsciiCase `{UnicodeCase} : Prop := ascii_lowercase : forall s, all_bytes is_ascii s = true -> to_lowercase s = to_ascii_lowercase s.
Class ManifestLaws `{ManifestJson} : Prop := manifest_round : forall m, manifest_of (manifest_pretty m ++ [10%N]) = Ok m.

(** An archive that was written to its end holds the entries appended. *)
Definition written `{Archive} (fs : Files) (path : string) (entries : list (string * Z * list N)) (fs' : Files) : Prop :=
  exists fs1 fs2, foldl (fun acc '(name, mode, data) =>
      match acc with Some fs => match tar_append fs path name mode data with (Ok _, fs') => Some fs' | _ => None end | None => None end)
    (Some fs) entries = Some fs1 /\
  tar_into_inner fs1 path = (Ok tt, fs2) /\ gzip_finish fs2 path = (Ok tt, fs').

Class ArchiveLaws `{Archive} `{HostOs} : Prop := archive_round : forall fs fs0 fs' path entries,
  os_create fs path = Ok fs0 -> written fs0 path entries fs' ->
  exists content, fs' !! path = Some content /\
    tar_entries content = Ok (map (fun e => Ok (mkTarEntry (Ok e.1.1) (Ok e.2))) entries).

Class OpenLaws `{HostOs} : Prop := os_open_ok : forall fs p c, os_open fs p = Ok c -> fs !! p = Some c.

Lemma hex_digit_plain a : hex_digit a = true -> plain a = true.
Proof. destruct a as [[] [] [] [] [] [] [] []]; vm_compute; done. Qed.
Lemma hex_digit_ascii a : hex_digit a = true -> is_ascii a = true.
Proof. destruct a as [[] [] [] [] [] [] [] []]; vm_compute; done. Qed.
Lemma hex_digit_lower a : hex_digit a = true -> ascii_lower a = a.
Proof. destruct a as [[] [] [] [] [] [] [] []]; vm_compute; done. Qed.

Lemma hex_text s : all_bytes hex_digit s = true -> trim s = s /\ from_utf8_lossy (as_bytes s) = s /\ to_ascii_lowercase s = s.
Proof.
  intros Hs. split; [|split].
  - apply trim_plain. by apply (all_bytes_impl hex_digit); [apply hex_digit_plain|].
  - apply from_utf8_lossy_ascii. by apply (all_bytes_impl hex_digit); [apply hex_digit_ascii|].
  - induction s as [|a s IH]; cbn; [done|]. cbn in Hs. apply andb_prop in Hs as [Ha Hs]. by rewrite hex_digit_lower, IH.
Qed.

Section round.
Context `{HostOs} `{Ed25519} `{HexCodec} `{Sha256} `{UnicodeCase} `{ManifestJson} `{Archive}.
Context `{!Ed25519Laws} `{!HexLaws} `{!Sha256Laws} `{!AsciiCase} `{!ManifestLaws} `{!ArchiveLaws} `{!OpenLaws}.

Lemma through_files_ok err f h h' :
  through_files err f h = (Ok tt, h') -> f (h_files h) = (Ok tt, h_files h').
Proof. unfold through_files. destruct (f (h_files h)) as [[[]|e] fs]; [|done]. by intros [= <-]. Qed.

Lemma package_write_written path mb sg bin h h' :
  package_write path mb sg bin h = (Ok tt, h') ->
  exists fs0, os_create (h_files h) path = Ok fs0 /\
    written fs0 path [(MANIFEST_ENTRY, 420, mb); (SIG_ENTRY, 420, as_bytes sg); (BINARY_ENTRY, 493, bin)] (h_files h').
Proof.
  unfold package_write, append. intros Hw.
  apply bind_inv in Hw as ([] & h0 & H0' & Hw). unfold on_files in H0'.
  destruct (os_create (h_files h) path) as [fs0|e]; [|done]. injection H0' as <-.
  apply bind_inv in Hw as ([] & h1 & H1'%through_files_ok & Hw). apply bind_inv in Hw as ([] & h2 & H2'%through_files_ok & Hw).
  apply bind_inv in Hw as ([] & h3 & H3'%through_files_ok & Hw). apply bind_inv in Hw as ([] & h4 & H4'%through_files_ok & Hw).
  apply through_files_ok in Hw. exists fs0. split; [done|]. exists (h_files h3), (h_files h4). split; [|done].
  cbn [h_files] in *. cbn [foldl]. change (if String.eqb MANIFEST_ENTRY BINARY_ENTRY then 493 else 420) with 420 in H1'.
  change (if String.eqb SIG_ENTRY BINARY_ENTRY then 493 else 420) with 420 in H2'.
  change (if String.eqb BINARY_ENTRY BINARY_ENTRY then 493 else 420) with 493 in H3'.
  by rewrite H1', H2', H3'.
Qed.

Lemma read_back content mb sg bin m :
  all_bytes hex_digit sg = true -> manifest_of mb = Ok m ->
  tar_entries content = Ok (map (fun e => Ok (mkTarEntry (Ok e.1.1) (Ok e.2)))
    [(MANIFEST_ENTRY, 420, mb); (SIG_ENTRY, 420, as_bytes sg); (BINARY_ENTRY, 493, bin)]) ->
  from_reader content = Ok (mkPackage mb m sg bin).
Proof.
  intros Hsg Hm Ht. unfold from_reader, from_bytes. rewrite Ht. cbn [map fst snd read_entries te_path te_data].
  change (base_name MANIFEST_ENTRY) with MANIFEST_ENTRY. change (base_name SIG_ENTRY) with SIG_ENTRY.
  change (base_name BINARY_ENTRY) with BINARY_ENTRY. unfold found_entry.
  change (String.eqb MANIFEST_ENTRY MANIFEST_ENTRY) with true. change (String.eqb SIG_ENTRY MANIFEST_ENTRY) with false.
  change (String.eqb SIG_ENTRY SIG_ENTRY) with true. change (String.eqb BINARY_ENTRY MANIFEST_ENTRY) with false.
  change (String.eqb BINARY_ENTRY SIG_ENTRY) with false. change (String.eqb BINARY_ENTRY BINARY_ENTRY) with true.
  cbn [f_manifest f_signature f_binary missing]. rewrite Hm.
  destruct (hex_text sg Hsg) as (Htr & -> & _). by rewrite Htr.
Qed.

Lemma check_signature_accepts cfg key pkg :
  Config.public_key cfg = Some (public_hex key) -> pkg_signature_hex pkg = hex_encode (sign key (pkg_manifest_bytes pkg)) ->
  check_signature cfg pkg = Ok tt.
Proof.
  intros Hk Hs. unfold check_signature, parse_public_key, parse_signature, sized, public_hex in *. rewrite Hk, Hs.
  destruct (hex_text _ (hex_lower (key_to_bytes (verifying_key key)))) as (-> & _).
  rewrite hex_round, bool_decide_true by apply key_bytes_length. cbn [negb]. rewrite key_of_bytes.
  destruct (hex_text _ (hex_lower (sign key (pkg_manifest_bytes pkg)))) as (-> & _).
  rewrite hex_round, bool_decide_true by apply signature_length. cbn [negb]. by rewrite signature_verifies.
Qed.

Lemma signed_accepted key binary_path version target notes created out h m h' cfg :
  sign_package key binary_path version target notes created out h = (Ok m, h') ->
  Config.public_key cfg = Some (public_hex key) ->
  exists binary content pkg,
    h_files h !! binary_path = Some binary /\ h_files h' !! out = Some content /\
    from_reader content = Ok pkg /\ pkg_binary pkg = binary /\ pkg_manifest pkg = m /\ man_version m = version /\
    (target = None \/ target = Some current_target \/ target = Some "any" \/ Config.allow_target_mismatch cfg = true ->
     verify_package cfg pkg =
       if negb (Config.allow_downgrade cfg) && version_le version running_version
       then Err (UpdateError.Downgrade version running_version) else Ok tt).
Proof.
  intros Hsign Hkey. unfold sign_package in Hsign. apply bind_inv in Hsign as (binary & h0 & Hopen & Hsign).
  unfold read in Hopen. destruct (os_open (h_files h) binary_path) as [b|e] eqn:Eo; [|done]. injection Hopen as -> <-.
  apply os_open_ok in Eo. set (m0 := mkManifest _ _ _ _ _ _) in Hsign. set (sg := hex_encode _) in Hsign.
  apply bind_inv in Hsign as ([] & h1 & Hw & [= <- <-]).
  apply package_write_written in Hw as (fs0 & Hc & Hw). destruct (archive_round _ _ _ _ _ Hc Hw) as (content & Hout & Ht).
  exists binary, content, (mkPackage (to_signed_bytes m0) m0 sg binary). split; [done|]. split; [done|].
  split; [apply read_back; [apply hex_lower|apply manifest_round|done]|]. do 3 (split; [done|]). intros Htarget.
  unfold verify_package. rewrite (check_signature_accepts cfg key) by done. unfold check_manifest. cbn [pkg_manifest pkg_binary].
  change (man_sha256 m0) with (sha256 binary). destruct (hex_text _ (sha256_lower binary)) as (-> & _ & Hl).
  rewrite ascii_lowercase, Hl by (apply (all_bytes_impl hex_digit); [apply hex_digit_ascii|apply sha256_lower]).
  rewrite String.eqb_refl. change (String.eqb (man_name m0) "scribe") with true. cbn [negb].
  change (man_target m0) with (default current_target target).
  replace (negb (String.eqb (default current_target target) current_target) && negb (Config.allow_target_mismatch cfg) &&
    negb (String.eqb (default current_target target) "any")) with false; [done|]. symmetry.
  destruct Htarget as [-> | [-> | [-> | ->]]]; cbn [default from_option id]; rewrite ?String.eqb_refl; cbn [negb andb];
    rewrite ?andb_false_r; done.
Qed.

(** A signed package is read back and accepted.  What [sign_package] wrote
    with a key is read as the binary and the manifest it answered, and a server
    configured with that key accepts it, for this host or any, if only the
    version is later or downgrades are allowed. *)
Theorem signed_package_accepted key binary_path version target notes created out h m h' cfg :
  sign_package key binary_path version target notes created out h = (Ok m, h') ->
  Config.public_key cfg = Some (public_hex key) ->
  exists binary content pkg,
    h_files h !! binary_path = Some binary /\ h_files h' !! out = Some content /\
    from_reader content = Ok pkg /\ pkg_binary pkg = binary /\ pkg_manifest pkg = m /\ man_version m = version /\
    (target = None \/ target = Some current_target \/ target = Some "any" \/ Config.allow_target_mismatch cfg = true ->
     verify_package cfg pkg =
       if negb (Config.allow_downgrade cfg) && version_le version running_version
       then Err (UpdateError.Downgrade version running_version) else Ok tt).
Proof. apply signed_accepted. Qed.
End round.
