(* ===== verification/Admin.v ===== *)
(** * The remaining handlers: [admin.rs], [audio.rs], [health.rs], [error.rs]

    Self-update over HTTP, playback of the transcoded audio, the health probe,
    and how an error becomes a response.  The restart an update schedules is
    part of its answer. *)

From Stdlib Require Import Ascii String.
From S2P Require Import Prelude RustStr Types RustPath Utf8 Llm Db Store Stages Http Api Config Update UpdateProps SigningProps.

#[local] Arguments String.append !_ _ /.

(** ** [error.rs]: [IntoResponse] for [ApiError] *)

Record JsonResponse := mkJsonResponse { jr_status : Z; jr_body : Json }.

(** Every status of [Error.http_status] is one [StatusCode::from_u16] takes. *)
Definition into_response (e : Error) : JsonResponse :=
  mkJsonResponse (Error.http_status e)
    (JObject [("error", JObject [("code", JString (Error.code e)); ("message", JString (Error.to_string e))])]).

(** ** [handlers/audio.rs] *)

Module audio.
Definition get_audio `{UuidFmt} (blobs : string) (id : Uuid) (range_header : option string) : WorldM Response :=
  _ ← lift (Store.get_recording id);
  let path := storage.wav_path blobs id in
  file ← read_file path;
  of_result (serve_file_range path "audio/wav" range_header (Ok file)).
End audio.

(** ** [handlers/health.rs] *)

Module health.
Section handler.
Context `{HostOs}.

(** [ping] is what [SELECT 1] gave. *)
Definition health (public_base_url : string) (auth : AuthState) (ping : result string unit) : Json :=
  JObject [("status", JString "ok"); ("version", JString VERSION); ("db", JBool (is_ok ping));
    ("public_base_url", JString public_base_url);
    ("auth", JString (if trust_tailscale_identity auth then "tailnet" else "token"))].
End handler.
End health.

(** ** [handlers/admin.rs] *)

(** A response, and the restart that follows it after a delay. *)
Record Answered := mkAnswered { an_body : Json; an_restart_in_ms : Z }.

Module admin.
Section handlers.
Context `{UuidFmt} `{BlobFs} `{HostOs} `{Ed25519} `{HexCodec} `{Sha256} `{UnicodeCase} `{ManifestJson} `{Archive}.

Definition restart_mode (m : Config.RestartMode) : string :=
  match m with Config.SelfExec => "SelfExec" | Config.Supervisor => "Supervisor" end.

Definition has_backup (u : Config.UpdateConfig) (fs : Files) : bool :=
  match (match Config.binary_path u with Some p => Some p | None => match current_exe with Ok p => Some p | Err _ => None end end) with
  | Some p => bool_decide (is_Some (fs !! with_file_name p (default "" (file_name p) +:+ ".old")))
  | None => false
  end.

Definition info (u : Config.UpdateConfig) (fs : Files) : Json :=
  JObject [("version", JString running_version); ("target", JString current_target);
    ("update_enabled", JBool (Config.enabled u)); ("restart_mode", JString (restart_mode (Config.restart u)));
    ("has_backup", JBool (has_backup u fs))].

Notation AdminM := (M Host Error).

(** [map_err(|e| ApiError(e.into()))] *)
Definition core {A} (m : HostM A) : AdminM A := fun h =>
  let '(r, h') := m h in (match r with Ok a => Ok a | Err e => Err (UpdateError.into_core e) end, h').

(** A call on the upload's file; a failed write may have written a part. *)
Definition storage_call {A} (what : string) (r : result string A) : result Error A :=
  match r with Ok a => Ok a | Err e => Err (Storage (what +:+ ": " +:+ e)) end.
Definition create_staging_dir (dir : string) : AdminM unit := fun h =>
  (storage_call "creating staging dir" (fs_create_dir_all (h_files h) dir), h).
Definition create_staging_file (path : string) : AdminM unit := fun h =>
  match storage_call "creating staging file" (fs_create (h_files h) path) with
  | Ok fs => (Ok tt, mkHost fs (h_ran h))
  | Err e => (Err e, h)
  end.
Definition write_package (path : string) (chunk : list N) : AdminM unit := fun h =>
  let '(r, fs) := fs_write_all (h_files h) path chunk in
  (storage_call "writing package" r, mkHost fs (h_ran h)).

(** The loop over the body. *)
Fixpoint stream_upload (path : string) (stream : list (result string (list N))) : AdminM unit :=
  match stream with
  | [] => mret tt
  | Err e :: _ => fail_with (BadRequest ("upload error: " +:+ e))
  | Ok chunk :: stream' => _ ← write_package path chunk; stream_upload path stream'
  end.

Definition upload_path (u : Config.UpdateConfig) (id : Uuid) : string :=
  storage.path_join (Config.staging_dir u) ("upload-" +:+ uuid_to_string id +:+ ".tar.gz").

(** [file.flush().await.ok()]: what flushing answers is dropped.  A write
    reports its own failure here; tokio may keep that of the last one for the
    flush, and then the file is short and fails verification. *)
Definition flush_staging_file (path : string) : AdminM unit :=
  ignore_err (fun h => (storage_call "flushing" (fs_flush (h_files h) path), h)).

(** 1: the upload, streamed to a file. *)
Definition receive_package (u : Config.UpdateConfig) (id : Uuid) (stream : list (result string (list N))) : AdminM unit :=
  _ ← create_staging_dir (Config.staging_dir u);
  _ ← create_staging_file (upload_path u id);
  _ ← stream_upload (upload_path u id) stream;
  flush_staging_file (upload_path u id).

(** 2: verified and installed. *)
Definition install_package (u : Config.UpdateConfig) (db_url path : string) : AdminM UpdateOutcome :=
  core (pkg ← package_read path; apply_package u pkg (mkApplyOptions (Some db_url) true true)).

(** [id] is a fresh uuid; the restart comes after the answer. *)
Definition update (u : Config.UpdateConfig) (db_url : string) (id : Uuid) (stream : list (result string (list N)))
    : AdminM Answered :=
  _ ← receive_package u id stream;
  outcome ← install_package u db_url (upload_path u id);
  _ ← ignore_err (core (remove_file (upload_path u id)));
  let delay := Config.restart_delay_ms u in
  mret (mkAnswered (JObject [("from_version", JString (from_version outcome)); ("to_version", JString (to_version outcome));
    ("target", JString (uo_target outcome)); ("restarting", JBool true); ("restart_in_ms", JNumber (pretty delay))]) delay).

Definition rollback_handler (u : Config.UpdateConfig) : AdminM Answered :=
  restored ← core (rollback u);
  let delay := Config.restart_delay_ms u in
  mret (mkAnswered (JObject [("restored_version", JString restored); ("restarting", JBool true);
    ("restart_in_ms", JNumber (pretty delay))]) delay).
End handlers.
End admin.

(** ** What the admin routes promise *)

Section promises.
Context `{UuidFmt} `{BlobFs} `{HostOs} `{Ed25519} `{HexCodec} `{Sha256} `{UnicodeCase} `{ManifestJson} `{Archive}.

Context `{!BlobFsLaws} `{!HostOsLaws} `{!OpenLaws}.

(** A host that says it has no backup has none to roll back to. *)
Lemma no_backup_no_rollback u bin h :
  resolve_binary_path u = Ok bin -> file_name bin <> None ->
  admin.has_backup u (h_files h) = false -> rollback u h = (Err UpdateError.NoBackup, h).
Proof.
  intros Hbin Hf. unfold admin.has_backup, with_file_name, rollback. rewrite Hbin, (bind_ok _ _ h bin h) by done.
  unfold resolve_binary_path in Hbin.
  assert (match Config.binary_path u with Some p => Some p | None => match current_exe with Ok p => Some p | Err _ => None end end = Some bin) as ->.
  { destruct (Config.binary_path u); [congruence|]. destruct current_exe; congruence. }
  unfold sibling. destruct (file_name bin) as [n|]; [|done]. cbn [default from_option id]. intros Hno.
  change (n +:+ "." +:+ "old") with (n +:+ ".old").
  by rewrite (bind_ok (exists_ _) _ h false h) by (unfold exists_; by rewrite Hno).
Qed.

(** The whole of a body, when it could be read to its end. *)
Fixpoint body_of (stream : list (result string (list N))) : option (list N) :=
  match stream with
  | [] => Some []
  | Err _ :: _ => None
  | Ok chunk :: stream' => app chunk <$> body_of stream'
  end.

Lemma stream_upload_spec path stream h got :
  h_files h !! path = Some got ->
  let '(r, h') := admin.stream_upload path stream h in
  h_ran h' = h_ran h /\ same_but [path] (h_files h) (h_files h') /\
  (is_ok r = true -> exists content, body_of stream = Some content /\ h_files h' !! path = Some (got ++ content)).
Proof.
  revert h got. induction stream as [|[chunk|e] stream IH]; intros h got Hgot; cbn [admin.stream_upload body_of].
  - split; [done|]. split; [done|]. intros _. exists []. by rewrite app_nil_r.
  - unfold mbind, M_bind, admin.write_package. pose proof (fun q => write_other (h_files h) path chunk q) as Ho.
    destruct (fs_write_all (h_files h) path chunk) as [[[]|e] fs] eqn:E; cbn [admin.storage_call snd] in *.
    2:{ split; [done|]. split; [|done]. intros q Hq. apply Ho. set_solver. }
    apply (write_law _ _ _ got) in E as ->; [|done]. set (h1 := mkHost _ _).
    specialize (IH h1 (got ++ chunk)). destruct (admin.stream_upload path stream h1) as [r h'].
    destruct IH as (Hr & Hs & Hok); [cbn; by rewrite lookup_insert_eq|]. split; [done|]. split.
    + intros q Hq. rewrite (Hs q Hq). cbn. rewrite lookup_insert_ne by set_solver. done.
    + intros Hr'. destruct (Hok Hr') as (content & -> & Hc). exists (chunk ++ content). by rewrite app_assoc.
  - by split.
Qed.

Lemma receive_package_spec u id stream h :
  let '(r, h') := admin.receive_package u id stream h in
  h_ran h' = h_ran h /\ same_but [admin.upload_path u id] (h_files h) (h_files h') /\
  (is_ok r = true -> exists content, body_of stream = Some content /\ h_files h' !! admin.upload_path u id = Some content).
Proof.
  unfold admin.receive_package. set (path := admin.upload_path u id). unfold mbind, M_bind, admin.create_staging_dir, admin.create_staging_file.
  destruct (fs_create_dir_all _ _) as [[]|e]; cbn [admin.storage_call]; [|by split].
  destruct (fs_create (h_files h) path) as [fs|e] eqn:E; cbn [admin.storage_call]; [|by split].
  apply create_law in E as ->. set (h0 := mkHost _ _).
  pose proof (stream_upload_spec path stream h0 []) as Hs. destruct (admin.stream_upload path stream h0) as [r h'].
  destruct Hs as (Hr & Hs & Hok); [cbn; by rewrite lookup_insert_eq|].
  assert (Hflush : forall h, admin.flush_staging_file path h = (Ok tt, h)) by done.
  assert (Hall : same_but [path] (h_files h) (h_files h')).
  { intros q Hq. rewrite (Hs q Hq). cbn. rewrite lookup_insert_ne by set_solver. done. }
  destruct r as [[]|e]; [rewrite Hflush|]; by split.
Qed.

(** What installing an uploaded file comes to. *)
Lemma install_package_cases u url bin path h content :
  resolve_binary_path u = Ok bin -> h_files h !! path = Some content ->
  let '(r, h') := admin.install_package u url path h in
  (forall o, r = Ok o -> exists pkg, from_reader content = Ok pkg /\ verify_package u pkg = Ok tt /\
    uo_backup_path o = sibling bin "old" /\ h_files h' !! bin = Some (pkg_binary pkg) /\
    h_files h' !! sibling bin "old" = match h_files h !! bin with Some c => Some c | None => h_files h !! sibling bin "old" end) /\
  ((forall pkg, from_reader content = Ok pkg -> verify_package u pkg <> Ok tt) -> is_ok r = false /\ h' = h).
Proof.
  intros Hbin Hc. unfold admin.install_package, admin.core, package_read, read.
  destruct (os_open (h_files h) path) as [c|e] eqn:Eo.
  2:{ unfold mbind, M_bind. rewrite Eo. cbn. done. }
  apply os_open_ok in Eo as Ho. rewrite Hc in Ho. injection Ho as <-.
  unfold mbind at 1, M_bind at 1. rewrite (bind_ok _ _ h content h) by (by rewrite Eo).
  destruct (from_reader content) as [pkg|e] eqn:Er; cbn [of_res]; [|done]. cbn [mret M_ret].
  set (opts := mkApplyOptions _ _ _). destruct (apply_package u pkg opts h) as [r h'] eqn:Ea. split.
  - intros o Ho. destruct r as [o'|e]; [|done]. injection Ho as ->. exists pkg. split; [done|].
    destruct (apply_succeeds u pkg opts bin o h h' Hbin Ea) as [Hb Hk].
    destruct (apply_cases u pkg opts bin h Hbin) as [(e & _ & He)|(Hv & [(e & h1 & _ & He)|(h1 & _ & [(e & h2 & _ & He)|(h2 & _ & He)])])];
      rewrite Ea in He; try discriminate He. injection He as -> _. done.
  - intros Hno. specialize (Hno pkg eq_refl).
    destruct (apply_cases u pkg opts bin h Hbin) as [(e & _ & He)|(Hv & _)]; [|by destruct Hno]. rewrite Ea in He. by injection He as -> ->.
Qed.

(** C30: Only a verified upload changes the server.  A body that cannot be read,
    is no package, or does not verify, is refused; no file but the upload is
    touched, and nothing is run.  A success answers with the restart it
    schedules, and the body was a verified package whose binary is now the
    server's, with the one before as its backup. *)
Theorem update_spec u url id stream bin h :
  resolve_binary_path u = Ok bin ->
  let path := admin.upload_path u id in
  path <> bin -> path <> sibling bin "old" ->
  let '(r, h') := admin.update u url id stream h in
  ((forall content pkg, body_of stream = Some content -> from_reader content = Ok pkg -> verify_package u pkg <> Ok tt) ->
    is_ok r = false /\ h_ran h' = h_ran h /\ forall q, q <> path -> h_files h' !! q = h_files h !! q) /\
  (forall a, r = Ok a -> an_restart_in_ms a = Config.restart_delay_ms u /\
    exists content pkg, body_of stream = Some content /\ from_reader content = Ok pkg /\ verify_package u pkg = Ok tt /\
      h_files h' !! bin = Some (pkg_binary pkg) /\
      h_files h' !! sibling bin "old" = match h_files h !! bin with Some c => Some c | None => h_files h !! sibling bin "old" end).
Proof.
  intros Hbin path Hpb Hpk. unfold admin.update. pose proof (receive_package_spec u id stream h) as Hrec.
  unfold mbind at 1, M_bind at 1. destruct (admin.receive_package u id stream h) as [[[]|e] h1]; destruct Hrec as (Hr1 & Hs1 & Hok1); fold path in Hs1, Hok1 |- *.
  2:{ split; [|done]. intros _. split; [done|]. split; [done|]. intros q Hq. apply Hs1. set_solver. }
  destruct (Hok1 eq_refl) as (content & Hbody & Hcontent).
  pose proof (install_package_cases u url bin path h1 content Hbin Hcontent) as Hi.
  unfold mbind at 1, M_bind at 1. destruct (admin.install_package u url path h1) as [[o|e] h2]; destruct Hi as [Hi1 Hi2].
  2:{ split; [|done]. intros Hno. destruct Hi2 as [_ ->]; [by eauto|]. split; [done|]. split; [done|]. intros q Hq. apply Hs1. set_solver. }
  destruct (Hi1 o eq_refl) as (pkg & Hread & Hv & _ & Hb & Hk). unfold mbind, M_bind, ignore_err.
  destruct (remove_file_same path h2) as [Hs3 _].
  assert (Hsnd : snd (admin.core (remove_file path) h2) = snd (remove_file path h2)) by (unfold admin.core; by destruct (remove_file path h2)).
  rewrite Hsnd. cbn [mret M_ret]. split; [intros Hno; by destruct (Hno content pkg Hbody Hread)|].
  intros a [= <-]. split; [done|]. exists content, pkg. do 3 (split; [done|]).
  rewrite !Hs3 by set_solver. split; [done|]. rewrite Hk, !Hs1 by set_solver. done.
Qed.
End promises.
