(* ===== verification/UpdateToy.v ===== *)
(** * A host to test self-update on

    Instances of the classes of [Update] that satisfy what is assumed of them: a
    file system of a map, with renames that can be made to fail, keys that are
    numbers, and codecs by enumeration. *)

From Stdlib Require Import Ascii String.
From stdpp Require Import countable.
From S2P Require Import Prelude RustStr Types RustPath Utf8 Llm Store StoreProps Stages Api ApiProps Config Update UpdateProps SigningProps Admin.

#[local] Arguments String.append !_ _ /.

Definition no_entry : string := "no such file".

(** [bad a b]: renaming [a] to [b] fails. *)
Definition toy_os (bad : string -> string -> bool) : HostOs := {|
  os_open fs p := match fs !! p with Some c => Ok c | None => Err no_entry end;
  os_create fs p := Ok (<[p := []]> fs);
  os_create_dir_all _ _ := Ok tt;
  os_write fs p b := (Ok tt, <[p := b]> fs);
  os_set_executable _ _ := Ok tt;
  os_remove_file fs p := match fs !! p with Some _ => Ok (delete p fs) | None => Err no_entry end;
  os_rename fs a b :=
    if bad a b then Err "permission denied"
    else match fs !! a with Some c => Ok (<[b := c]> (delete a fs)) | None => Err no_entry end;
  os_output _ _ _ _ := Ok (mkProcessOutput true "exit status: 0" (as_bytes "scribe 0.2.0") []);
  os_exec _ _ _ := None;
  current_exe := Ok "/opt/scribe";
  ARCH := "x86_64"; OS := "linux"; VERSION := "0.1.0";
|}.

#[export] Instance toy_os_laws bad : @HostOsLaws (toy_os bad).
Proof.
  split; cbn.
  - by intros fs p b fs' [= <-].
  - intros fs p b q Hq. by rewrite lookup_insert_ne.
  - intros fs p fs'. destruct (fs !! p); [|done]. by intros [= <-].
  - intros fs a b fs'. destruct (bad a b); [done|]. destruct (fs !! a) as [c|] eqn:E; [|done]. intros [= <-]. eauto.
Qed.

Definition never : string -> string -> bool := fun _ _ => false.

#[export] Instance toy_renames : @Renames (toy_os never).
Proof. intros fs a b c Hc. cbn. rewrite Hc. eauto. Qed.

#[export] Instance toy_open bad : @OpenLaws (toy_os bad).
Proof. intros fs p c. cbn. destruct (fs !! p); [|done]. by intros [= ->]. Qed.

(** A key is a number; a signature adds it to the length of what is signed. *)
Definition toy_sign (k : N) (m : list N) : list N := (k + N.of_nat (length m))%N :: repeat 0%N 63.
Definition toy_ed25519 : Ed25519 := {|
  VerifyingKey := N; SigningKey := N;
  key_from_bytes b := match b with k :: _ => Ok k | [] => Err "empty" end;
  key_to_bytes k := k :: repeat 0%N 31;
  signing_from_bytes b := match b with k :: _ => k | [] => 0%N end;
  signing_to_bytes k := k :: repeat 0%N 31;
  verifying_key k := k;
  sign := toy_sign;
  verify_strict k m s := bool_decide (s = toy_sign k m);
|}.

#[export] Instance toy_ed25519_laws : @Ed25519Laws toy_ed25519.
Proof. split; try done. intros k m. cbn. by apply bool_decide_true. Qed.

(** Lists by their number, written in decimal digits. *)
Definition number (b : list N) : N := N.pos (encode b).
Definition toy_hex : HexCodec := {|
  hex_encode b := pretty (Z.of_N (number b));
  hex_decode s :=
    match parse_digits 0 s with
    | Some (Zpos p) => match decode p with Some b => Ok b | None => Err "not a number of a list" end
    | _ => Err "not a number"
    end;
|}.

Lemma digits_hex n : 0 <= n -> all_bytes hex_digit (pretty n) = true.
Proof.
  intros Hn. apply (all_bytes_impl is_digit); [|by apply pretty_digits]. intros a Ha. unfold hex_digit. by rewrite Ha.
Qed.

#[export] Instance toy_hex_laws : @HexLaws toy_hex.
Proof.
  split; intros b; cbn [hex_encode hex_decode toy_hex]; [|apply digits_hex; lia].
  rewrite parse_pretty by lia. unfold number. cbn. by rewrite countable.decode_encode.
Qed.

Definition toy_sha : Sha256 := fun b => pretty (Z.of_N (foldr N.add 0%N b)).
#[export] Instance toy_sha_laws : @Sha256Laws toy_sha.
Proof. intros b. unfold sha256, toy_sha. apply digits_hex. lia. Qed.

#[export] Instance ascii_case_ascii : @AsciiCase ascii_case.
Proof. by intros s _. Qed.

Definition fields (m : Manifest) : string * string * string * string * string * string :=
  (man_name m, man_version m, man_target m, man_sha256 m, man_created_at m, man_notes m).
Definition toy_serde : ManifestJson := {|
  manifest_pretty m := [N.pos (encode (fields m))];
  manifest_of b :=
    match b with
    | N.pos p :: _ =>
        match (decode p : option (string * string * string * string * string * string)) with
        | Some (name, version, target, sha, created, notes) =>
            Ok (mkManifest name version target sha created notes)
        | None => Err "not a manifest"
        end
    | _ => Err "empty"
    end;
|}.

#[export] Instance toy_serde_laws : @ManifestLaws toy_serde.
Proof. intros m. cbn. rewrite countable.decode_encode. by destruct m. Qed.

(** An archive is the number of its list of entries. *)
Definition toy_entries (content : list N) : list (string * list N) :=
  match content with N.pos p :: _ => default [] (decode p) | _ => [] end.
Definition toy_archive : Archive := {|
  tar_entries content := Ok (map (fun e => Ok (mkTarEntry (Ok e.1) (Ok e.2))) (toy_entries content));
  tar_append fs path name mode data :=
    (Ok tt, <[path := [N.pos (encode (toy_entries (default [] (fs !! path)) ++ [(name, data)]))]]> fs);
  tar_into_inner fs _ := (Ok tt, fs);
  gzip_finish fs _ := (Ok tt, fs);
|}.

#[export] Instance toy_archive_laws bad : @ArchiveLaws toy_archive (toy_os bad).
Proof.
  intros fs fs0 fs' path entries Hc (fs1 & fs2 & Hf & [= <-] & [= <-]). cbn in Hc. injection Hc as <-.
  assert (Hgen : forall entries fs l, fs !! path <> None -> toy_entries (default [] (fs !! path)) = l ->
    foldl (fun acc '(name, mode, data) =>
      match acc with Some fs => match @tar_append toy_archive fs path name mode data with (Ok _, fs') => Some fs' | _ => None end | None => None end)
      (Some fs) entries = Some fs1 ->
    exists content, fs1 !! path = Some content /\ toy_entries content = l ++ map (fun e => (e.1.1, e.2)) entries).
  { clear. induction entries as [|[[name mode] data] entries IH]; intros fs l Hin Hl; cbn [foldl].
    - intros [= <-]. destruct (fs !! path) as [c|]; [|done]. exists c. by rewrite app_nil_r.
    - cbn [tar_append toy_archive]. rewrite Hl. intros Hf. apply (IH _ (l ++ [(name, data)])) in Hf.
      + destruct Hf as (c & Hc & He). exists c. split; [done|]. by rewrite He, <- app_assoc.
      + by rewrite lookup_insert_eq.
      + rewrite lookup_insert_eq. cbn. by rewrite countable.decode_encode. }
  apply (Hgen _ _ []) in Hf; [|by rewrite lookup_insert_eq|by rewrite lookup_insert_eq].
  destruct Hf as (content & Hp & He). exists content. split; [done|]. cbn. rewrite He. cbn. by rewrite map_map.
Qed.

(** ** The properties at a concrete update *)

#[local] Existing Instances toy_ed25519 toy_hex toy_sha toy_serde toy_archive ascii_case.

Definition operator : @SigningKey toy_ed25519 := 7%N.
Definition server : Config.UpdateConfig :=
  Config.mkUpdate true (Some "token") (Some (public_hex operator)) Config.SelfExec "/var/staging"
    (Some "/opt/scribe") false false 750.
Definition new_binary : list N := [1; 2; 3]%N.
Definition old_binary : list N := [9]%N.

Definition release : Manifest := mkManifest "scribe" "0.2.0" "x86_64-unknown-linux-gnu" (sha256 new_binary) "2026-01-01T00:00:00Z" "".
Definition released : Package :=
  mkPackage (to_signed_bytes release) release (hex_encode (sign operator (to_signed_bytes release))) new_binary.
Definition options : ApplyOptions := mkApplyOptions (Some "postgres://db") true true.
Definition running : Host := mkHost {[ "/opt/scribe" := old_binary ]} [].

Example update_happens :
  let '(r, h) := apply_package (H := toy_os never) server released options running in
  r = Ok (mkOutcome "0.1.0" "0.2.0" "x86_64-unknown-linux-gnu" "/opt/scribe" "/opt/scribe.old") /\
  h_files h !! "/opt/scribe" = Some new_binary /\ h_files h !! "/opt/scribe.old" = Some old_binary.
Proof. vm_compute. repeat split. Qed.

Lemma apply_package_spec_witness :
  verify_package (H := toy_os never) server released = Ok tt /\
  h_files (snd (apply_package (H := toy_os never) server released options running)) !! "/opt/scribe" = Some new_binary /\
  h_files (snd (apply_package (H := toy_os never) server released options running)) !! "/opt/scribe.old" = Some old_binary.
Proof.
  pose proof (apply_package_spec (H := toy_os never) server released options "/opt/scribe" running eq_refl) as Hs.
  cbn zeta in Hs. assert (Hok : is_ok (fst (apply_package (H := toy_os never) server released options running)) = true) by (vm_compute; reflexivity).
  destruct (apply_package _ _ _ running) as [[o|e] h']; [|done]. destruct Hs as (_ & _ & _ & Hv & _ & _ & Hb & _ & Hk).
  exact (conj Hv (conj Hb Hk)).
Defined.

Definition updated : Host := mkHost {[ "/opt/scribe" := new_binary; "/opt/scribe.old" := old_binary ]} [].

Lemma rollback_spec_witness :
  h_files (snd (rollback (H := toy_os never) server updated)) !! "/opt/scribe" = Some old_binary.
Proof.
  destruct (rollback_spec (H := toy_os never) server "/opt/scribe" updated eq_refl) as [_ Hs].
  specialize (Hs old_binary eq_refl).
  assert (Hok : is_ok (fst (rollback (H := toy_os never) server updated)) = true) by (vm_compute; reflexivity).
  destruct (rollback _ updated) as [[v|e] h']; [|done]. destruct Hs as (_ & _ & Hb & _). exact Hb.
Defined.

Lemma update_can_be_undone_witness :
  exists v2 h2, rollback (H := toy_os never) server updated = (Ok v2, h2) /\ h_files h2 !! "/opt/scribe" = Some old_binary.
Proof.
  destruct (apply_package (H := toy_os never) server released options running) as [[o|e] h1] eqn:E.
  2:{ exfalso. apply (f_equal (fun x => is_ok (fst x))) in E. vm_compute in E. done. }
  destruct (update_can_be_undone (H := toy_os never) server released options "/opt/scribe" old_binary o running h1 eq_refl eq_refl E)
    as (v2 & h2 & v3 & h3 & Hr & _ & _ & [Hb _] & _).
  assert (Hroll : h_files (snd (rollback (H := toy_os never) server h1)) = h_files (snd (rollback (H := toy_os never) server updated))).
  { clear -E. change h1 with (snd (@Ok UpdateError _ o, h1)). rewrite <- E. vm_compute. reflexivity. }
  rewrite Hr in Hroll. cbn [snd] in Hroll. rewrite Hroll in Hb.
  destruct (rollback _ updated) as [[v|e] h'] eqn:Er; [exists v, h'; exact (conj eq_refl Hb)|].
  exfalso. apply (f_equal (fun x => is_ok (fst x))) in Er. vm_compute in Er. done.
Defined.

Definition published : Host := mkHost {[ "scribe" := new_binary ]} [].

Lemma signed_package_accepted_witness :
  exists content pkg, h_files (snd (sign_package (H := toy_os never) (H0 := toy_ed25519) operator "scribe" "0.2.0" None "" "now" "out.tar.gz" published)) !! "out.tar.gz" = Some content /\
    from_reader content = Ok pkg /\ pkg_binary pkg = new_binary /\ verify_package (H := toy_os never) server pkg = Ok tt.
Proof.
  destruct (sign_package (H := toy_os never) (H0 := toy_ed25519) operator "scribe" "0.2.0" None "" "now" "out.tar.gz" published) as [[m|e] h'] eqn:E.
  2:{ exfalso. apply (f_equal (fun x => is_ok (fst x))) in E. vm_compute in E. done. }
  destruct (signed_package_accepted (H := toy_os never) (H0 := toy_ed25519) operator "scribe" "0.2.0" None "" "now" "out.tar.gz" published m h' server E eq_refl)
    as (binary & content & pkg & Hb & Hout & Hr & Hbin & _ & _ & Hv).
  exists content, pkg. split; [exact Hout|]. split; [exact Hr|]. split.
  - rewrite Hbin. vm_compute in Hb. injection Hb as <-. reflexivity.
  - exact (Hv (or_introl eq_refl)).
Defined.

Definition archived : list N := [N.pos (encode [("manifest.json", to_signed_bytes release);
  ("manifest.sig", as_bytes (pkg_signature_hex released)); ("scribe", new_binary)])].

Lemma verify_package_sound_witness :
  exists kb key, length kb = 32%nat /\ key_from_bytes kb = Ok key /\ man_name (pkg_manifest released) = "scribe" /\
    exists signature, verify_strict key (pkg_manifest_bytes released) signature = true.
Proof.
  destruct (verify_package_sound (H := toy_os never) server archived released) as [(kh & kb & key & sg & _ & _ & Hl & Hkey & _ & _ & Hv) (m & _ & Hm & _ & Hn & _)];
    [by vm_compute..|].
  subst m. exact (ex_intro _ kb (ex_intro _ key (conj Hl (conj Hkey (conj Hn (ex_intro _ sg Hv)))))).
Defined.

(** The same upload, sent in two pieces. *)
Lemma update_spec_witness :
  let '(r, h') := admin.update (H := plain_uuid) (H0 := memory_fs) (H1 := toy_os never) server "postgres://db" 1%N
    [Ok archived; Ok []] running in
  is_ok r = true /\ h_files h' !! "/opt/scribe" = Some new_binary.
Proof.
  pose proof (@update_spec plain_uuid memory_fs (toy_os never) _ _ _ _ _ _ memory_fs_laws _ _
    server "postgres://db" 1%N [Ok archived; Ok []] "/opt/scribe" running eq_refl) as Hs.
  cbn zeta in Hs |- *. specialize (Hs ltac:(by vm_compute) ltac:(by vm_compute)).
  destruct (admin.update _ _ _ _ running) as [r h'] eqn:E.
  assert (Hok : is_ok r = true) by (change r with (fst (r, h')); rewrite <- E; vm_compute; reflexivity).
  destruct r as [a|e]; [|done]. destruct Hs as [_ Hs]. destruct (Hs a eq_refl) as (_ & content & pkg & Hb & Hr & _ & Hbin & _).
  split; [done|]. rewrite Hbin. 
  assert (Hr' : forall c p, body_of [Ok archived; Ok []] = Some c -> from_reader c = Ok p -> pkg_binary p = new_binary).
  { intros c p [= <-]. vm_compute. by intros [= <-]. }
  by rewrite (Hr' content pkg Hb Hr).
Defined.

(** A rollback can leave a host without its binary: after the binary is set
    aside, the backup cannot be moved, and nothing moves the binary back. *)
Lemma rollback_can_strand :
  let h' := snd (rollback (H := toy_os (fun a _ => String.eqb a "/opt/scribe.old")) server updated) in
  is_ok (fst (rollback (H := toy_os (fun a _ => String.eqb a "/opt/scribe.old")) server updated)) = false /\
  h_files h' !! "/opt/scribe" = None /\ h_files h' !! "/opt/scribe.rollback-tmp" = Some new_binary.
Proof. vm_compute. repeat split. Qed.

(** An install that fails at its last step undoes it, but the backup that was
    there is gone. *)
Lemma failed_install_drops_backup :
  let h' := snd (apply_package (H := toy_os (fun a _ => String.eqb a "/opt/scribe.new")) server released options updated) in
  is_ok (fst (apply_package (H := toy_os (fun a _ => String.eqb a "/opt/scribe.new")) server released options updated)) = false /\
  h_files h' !! "/opt/scribe" = Some new_binary /\ h_files h' !! "/opt/scribe.old" = None.
Proof. vm_compute. repeat split. Qed.
