(* ===== verification/Mcp.v ===== *)
(** * The MCP endpoint: [crates/scribe-api/src/mcp.rs]

    JSON-RPC over [POST /mcp]: one message or a batch in, the replies out.  Each
    tool calls the HTTP handler of the same operation and renders its answer as
    text.  Reading and printing JSON, deserializing a tool's arguments, and
    chrono's reader and printer of times are parameters.  A JSON object lists its
    fields in the order [serde_json] iterates over them. *)

From Stdlib Require Import Ascii String.
From S2P Require Import Prelude RustStr Types Llm Db Store Summarize Search Ask Api.

#[local] Arguments String.append !_ _ /.

(** [serde_json::from_slice] and [to_string_pretty]; how a speaker serializes. *)
Class JsonIo := {
  from_slice : list N -> result string Json;
  to_string_pretty : Json -> result string string;
  speaker_value : SpeakerView -> Json;
}.

(** The derived [Deserialize] of a tool's arguments. *)
Class Deserialize (A : Type) := deserialize : Json -> result string A.

(** [format("%Y-%m-%d %H:%M UTC")], and [DateTime::parse_from_rfc3339] in UTC. *)
Class Times := {
  format_minute : Instant -> string;
  parse_rfc3339 : string -> result string Instant;
}.

Definition PROTOCOL_VERSIONS : list string := ["2025-11-25"; "2025-06-18"; "2025-03-26"].

(** [PROTOCOL_VERSIONS[0]] *)
Definition newest_version : string := default "" (head PROTOCOL_VERSIONS).

Definition INSTRUCTIONS : string :=
  "Scribe holds recorded meetings: diarized transcripts with speaker names, summaries, and a search index. Find a meeting with list_recordings or search, then read it with get_transcript or get_summary. If a transcript has the wrong number of speakers, set_participants with the right count re-runs speaker detection without re-transcribing; poll get_transcript until its status is ready again.".

Definition PARSE_ERROR : Z := -32700.
Definition INVALID_REQUEST : Z := -32600.
Definition METHOD_NOT_FOUND : Z := -32601.
Definition INVALID_PARAMS : Z := -32602.

(** What goes back over HTTP. *)
Inductive McpResponse := Forbidden | Accepted | JsonBody (v : Json).

Definition origin_allowed (origin public_base_url : string) : bool :=
  let base := trim_end_matches (String.eqb "/") (trim public_base_url) in
  negb (is_empty base) && eq_ignore_ascii_case (trim_end_matches (String.eqb "/") origin) base.

Definition error_response (id : Json) (code : Z) (message : string) : Json :=
  JObject [("jsonrpc", JString "2.0"); ("id", id);
    ("error", JObject [("code", JNumber (pretty code)); ("message", JString message)])].

Definition result_response (id result : Json) : Json :=
  JObject [("jsonrpc", JString "2.0"); ("id", id); ("result", result)].

(** [version] is the crate's. *)
Definition initialize_result (version : string) (params : Json) : Json :=
  let requested := json_get params "protocolVersion" ≫= json_as_str in
  let chosen :=
    match requested with
    | Some v => if bool_decide (v ∈ PROTOCOL_VERSIONS) then v else newest_version
    | None => newest_version
    end in
  JObject [("protocolVersion", JString chosen);
    ("capabilities", JObject [("tools", JObject [("listChanged", JBool false)])]);
    ("serverInfo", JObject [("name", JString "scribe"); ("version", JString version)]);
    ("instructions", JString INSTRUCTIONS)].

(** ** The tools as the client sees them *)

Definition RECORDING_ID : string := "Recording id (a UUID), from list_recordings or search.".
Definition RFC3339 : string := "RFC 3339 timestamp, e.g. 2026-09-01T00:00:00Z".

Definition list_recordings_definition : Json :=
  JObject [
    ("name", JString "list_recordings");
    ("description", JString "List recorded meetings, newest first: id, date, title, length, processing status, stated participant count and tags.");
    ("inputSchema", JObject [
      ("type", JString "object");
      ("properties", JObject [
        ("limit", JObject [
          ("type", JString "integer");
          ("minimum", JNumber "1");
          ("maximum", JNumber "200");
          ("description", JString "How many to return (default 20).")]);
        ("offset", JObject [
          ("type", JString "integer");
          ("minimum", JNumber "0");
          ("description", JString "Skip this many, for paging.")]);
        ("tag", JObject [("type", JString "string"); ("description", JString "Only recordings carrying this tag.")])])]);
    ("annotations", JObject [("readOnlyHint", JBool true)])].

Definition get_transcript_definition : Json :=
  JObject [
    ("name", JString "get_transcript");
    ("description", JString "Read one meeting: its details, speakers, and the diarized transcript as timestamped lines with speaker names. While the meeting is still processing, shows how far each pipeline stage has got instead.");
    ("inputSchema", JObject [
      ("type", JString "object");
      ("properties", JObject [("recording_id", JObject [("type", JString "string"); ("description", JString RECORDING_ID)])]);
      ("required", JArray [JString "recording_id"])]);
    ("annotations", JObject [("readOnlyHint", JBool true)])].

Definition get_summary_definition : Json :=
  JObject [
    ("name", JString "get_summary");
    ("description", JString "Read a meeting's generated summaries: title, summary, decisions, action items and topics. A meeting has one summary per template it was summarised with.");
    ("inputSchema", JObject [
      ("type", JString "object");
      ("properties", JObject [
        ("recording_id", JObject [("type", JString "string"); ("description", JString RECORDING_ID)]);
        ("template", JObject [
          ("type", JString "string");
          ("description", JString "Only this summary template (e.g. general). Default: all.")])]);
      ("required", JArray [JString "recording_id"])]);
    ("annotations", JObject [("readOnlyHint", JBool true)])].

Definition search_definition : Json :=
  JObject [
    ("name", JString "search");
    ("description", JString "Search every transcript by meaning and keyword. Returns matching passages with the meeting, timestamp and speaker.");
    ("inputSchema", JObject [
      ("type", JString "object");
      ("properties", JObject [
        ("query", JObject [("type", JString "string")]);
        ("limit", JObject [
          ("type", JString "integer");
          ("minimum", JNumber "1");
          ("maximum", JNumber "200");
          ("description", JString "Default 10.")]);
        ("from", JObject [
          ("type", JString "string");
          ("description", JString ("Only meetings on or after this. " +:+ RFC3339))]);
        ("to", JObject [("type", JString "string"); ("description", JString ("Only meetings before this. " +:+ RFC3339))]);
        ("recording_id", JObject [("type", JString "string"); ("description", JString "Only this meeting.")]);
        ("speaker_id", JObject [
          ("type", JString "string");
          ("description", JString "Only this enrolled speaker (id from list_speakers).")])]);
      ("required", JArray [JString "query"])]);
    ("annotations", JObject [("readOnlyHint", JBool true)])].

Definition ask_definition : Json :=
  JObject [
    ("name", JString "ask");
    ("description", JString "Answer a question from the meetings using the server's own language model, with citations. Use search and get_transcript instead when you want to read the material yourself.");
    ("inputSchema", JObject [
      ("type", JString "object");
      ("properties", JObject [
        ("question", JObject [("type", JString "string")]);
        ("recording_id", JObject [("type", JString "string"); ("description", JString "Only this meeting.")]);
        ("from", JObject [("type", JString "string"); ("description", JString RFC3339)]);
        ("to", JObject [("type", JString "string"); ("description", JString RFC3339)])]);
      ("required", JArray [JString "question"])]);
    ("annotations", JObject [("readOnlyHint", JBool true)])].

Definition list_speakers_definition : Json :=
  JObject [
    ("name", JString "list_speakers");
    ("description", JString "The enrolled speaker library: each known voice's id, name, and how many meetings it appears in.");
    ("inputSchema", JObject [("type", JString "object"); ("properties", JObject [])]);
    ("annotations", JObject [("readOnlyHint", JBool true)])].

Definition set_participants_definition : Json :=
  JObject [
    ("name", JString "set_participants");
    ("description", JString ("State how many people speak in a meeting, then (by default) re-run speaker detection with that count. Only speaker detection and the stages after it re-run; the words are kept. The meeting is processing until it finishes " +:+ em_dash +:+ " poll get_transcript."));
    ("inputSchema", JObject [
      ("type", JString "object");
      ("properties", JObject [
        ("recording_id", JObject [("type", JString "string"); ("description", JString RECORDING_ID)]);
        ("participants", JObject [
          ("type", JArray [JString "integer"; JString "null"]);
          ("minimum", JNumber "1");
          ("maximum", JNumber "64");
          ("description", JString "Number of people. null clears it, so speaker detection discovers the count again.")]);
        ("rediarize", JObject [
          ("type", JString "boolean");
          ("description", JString "Re-run speaker detection now (default true).")])]);
      ("required", JArray [JString "recording_id"; JString "participants"])]);
    ("annotations", JObject [("readOnlyHint", JBool false); ("destructiveHint", JBool false); ("idempotentHint", JBool true)])].

Definition rediarize_definition : Json :=
  JObject [
    ("name", JString "rediarize");
    ("description", JString ("Re-run speaker detection on a meeting with its current settings, keeping the transcript's words. The meeting is processing until it finishes " +:+ em_dash +:+ " poll get_transcript."));
    ("inputSchema", JObject [
      ("type", JString "object");
      ("properties", JObject [("recording_id", JObject [("type", JString "string"); ("description", JString RECORDING_ID)])]);
      ("required", JArray [JString "recording_id"])]);
    ("annotations", JObject [("readOnlyHint", JBool false); ("destructiveHint", JBool false); ("idempotentHint", JBool true)])].

Definition tool_definitions : Json :=
  JArray [list_recordings_definition; get_transcript_definition; get_summary_definition; search_definition; ask_definition; list_speakers_definition; set_participants_definition; rediarize_definition].

(** ** Arguments *)

Record ListArgs := mkListArgs { la_limit : option Z; la_offset : option Z; la_tag : option string }.
Record RecordingArgs := mkRecordingArgs { ra_recording_id : Uuid }.
Record SummaryArgs := mkSummaryArgs { sa_recording_id : Uuid; sa_template : option string }.
Record SearchArgs := mkSearchArgs {
  sea_query : string; sea_limit : option Z; sea_from : option string; sea_to : option string;
  sea_recording_id : option Uuid; sea_speaker_id : option Uuid;
}.
Record AskArgs := mkAskArgs {
  aa_question : string; aa_recording_id : option Uuid; aa_from : option string; aa_to : option string;
}.
Record ParticipantsArgs := mkParticipantsArgs {
  pa_recording_id : Uuid; pa_participants : option Z; pa_rediarize : option bool;
}.

(** Text for the model, or an error it should see. *)
Notation ToolOutput := (M Db string string).

Definition parse_args {A} `{Deserialize A} (args : Json) : M Db string A :=
  match deserialize args with Ok a => mret a | Err e => fail_with ("invalid arguments: " +:+ e) end.

(** [.await.map_err(api_err)?] *)
Definition api {A} (m : DbM A) : M Db string A := fun s =>
  let '(r, s') := m s in (match r with Ok a => Ok a | Err e => Err (Error.to_string e) end, s').

Definition parse_time `{Times} (field : string) (value : option string) : M Db string (option Instant) :=
  match value with
  | Some v =>
      if is_empty (trim v) then mret None
      else
        match parse_rfc3339 (trim v) with
        | Ok t => mret (Some t)
        | Err e => fail_with ("`" +:+ field +:+ "` is not an RFC 3339 timestamp: " +:+ e)
        end
  | None => mret None
  end.

(** [83_000] is [1:23]; an hour or more gets an hour field. *)
Definition fmt_ms (ms : Z) : string :=
  let s := Z.quot (Z.max ms 0) 1000 in
  let h := Z.quot s 3600 in
  let m := Z.quot (Z.rem s 3600) 60 in
  let s := Z.rem s 60 in
  if 0 <? h then pretty h +:+ ":" +:+ pad02 m +:+ ":" +:+ pad02 s
  else pretty m +:+ ":" +:+ pad02 s.

Definition opt_ms (ms : option Z) : string := match ms with Some v => fmt_ms v | None => "?" end.
Definition title_of (t : option string) : string := default "(untitled)" t.

(** ** The tools *)

Section render.
Context `{UuidFmt} `{JsonText} `{Times}.

Definition list_line (r : Recording) : string :=
  "- " +:+ uuid_to_string (rec_id r) +:+ " | " +:+ format_minute (rec_created_at r) +:+ " | " +:+ title_of (rec_title r) +:+
  " | " +:+ opt_ms (rec_duration_ms r) +:+ " | " +:+ RecordingStatus.as_str (rec_status r) +:+
  (match rec_participants_expected r with Some n => " | " +:+ pretty n +:+ " participants stated" | None => "" end) +:+
  (match rec_tags r with [] => "" | tags => " | tags: " +:+ join ", " tags end) +:+ newline.

Definition more_follows (next : Z) : string := "(more may follow: offset " +:+ pretty next +:+ ")" +:+ newline.

Definition header_text (r : Recording) : string :=
  "# " +:+ title_of (rec_title r) +:+ newline +:+ newline +:+
  "id: " +:+ uuid_to_string (rec_id r) +:+ newline +:+
  "recorded: " +:+ format_minute (rec_created_at r) +:+ newline +:+
  "length: " +:+ opt_ms (rec_duration_ms r) +:+ newline +:+
  "status: " +:+ RecordingStatus.as_str (rec_status r) +:+ newline +:+
  (match rec_participants_expected r with
   | Some n => "participants stated: " +:+ pretty n
   | None => "participants stated: none (speaker detection chose the count)"
   end) +:+ newline +:+
  (match rec_tags r with [] => "" | tags => "tags: " +:+ join ", " tags +:+ newline end).

(** The name a stage serializes to. *)
Definition kind_name (k : JobKind) : string :=
  match k with TranscribeSegment => "transcribesegment" | _ => JobKind.as_str k end.

Definition stage_line (s : StageProgress) : string :=
  "- " +:+ kind_name (sp_kind s) +:+ ": " +:+ sp_state s +:+
  (match sp_error s with Some e => " " +:+ em_dash +:+ " " +:+ e | None => "" end) +:+ newline.

Definition progress_text (p : PipelineProgress) : string :=
  newline +:+ "## Processing: " +:+ pretty (pp_completed p) +:+ "/" +:+ pretty (pp_total p) +:+ " stages done" +:+ newline +:+
  str_concat (map stage_line (pp_stages p)).

Definition words_of (local_idx : Z) (utterances : list Utterance) : Z :=
  foldl Z.add 0 (map (fun u => count (split_whitespace (utt_text u)))
    (bfilter (fun u => bool_decide (utt_local_idx u = Some local_idx)) utterances)).

Definition speaker_line (utterances : list Utterance) (s : RecordingSpeaker) : string :=
  "- " +:+ default ("Speaker " +:+ pretty (rs_local_idx s)) (rs_display_name s) +:+
  " (local index " +:+ pretty (rs_local_idx s) +:+
  (match rs_speaker_id s with Some _ => ", enrolled" | None => "" end) +:+ ") " +:+ em_dash +:+ " " +:+
  pretty (words_of (rs_local_idx s) utterances) +:+ " words" +:+ newline.

Definition utterance_line (u : Utterance) : string :=
  let who :=
    match utt_speaker_name u with
    | Some name => name
    | None => match utt_local_idx u with Some i => "Speaker " +:+ pretty i | None => "Unknown" end
    end in
  "[" +:+ fmt_ms (utt_start_ms u) +:+ "] " +:+ who +:+ ": " +:+ trim (utt_text u) +:+ newline.

Definition transcript_text (d : RecordingDetail) : string :=
  header_text (det_recording d) +:+
  (match det_progress d with Some p => progress_text p | None => "" end) +:+
  newline +:+ "## Speakers (" +:+ pretty (count (det_speakers d)) +:+ ")" +:+ newline +:+
  str_concat (map (speaker_line (det_utterances d)) (det_speakers d)) +:+
  newline +:+ "## Transcript" +:+ newline +:+
  (match det_utterances d with [] => "(no transcript yet)" +:+ newline | _ => "" end) +:+
  str_concat (map utterance_line (det_utterances d)).

(** A field of an object in a list. *)
Definition json_field (f : string * Json) : option string :=
  match snd f with
  | JNull => None
  | JString s => Some (fst f +:+ ": " +:+ s)
  | other => Some (fst f +:+ ": " +:+ json_to_string other)
  end.

Definition json_list (v : Json) : list string :=
  match v with
  | JArray items => map (fun i =>
      match i with
      | JString s => s
      | JObject o => join "; " (omap json_field o)
      | other => json_to_string other
      end) items
  | JNull => []
  | other => [json_to_string other]
  end.

Definition section_text (heading : string) (items : Json) : string :=
  match json_list items with
  | [] => ""
  | lines => "## " +:+ heading +:+ newline +:+ str_concat (map (fun line => "- " +:+ line +:+ newline) lines) +:+ newline
  end.

Definition summary_text (s : Summary) : string :=
  "# " +:+ title_of (sum_title s) +:+ " (" +:+ default "general" (sum_template s) +:+ " template)" +:+ newline +:+ newline +:+
  (match sum_summary s with Some text => trim text +:+ newline +:+ newline | None => "" end) +:+
  section_text "Decisions" (sum_decisions s) +:+ section_text "Action items" (sum_action_items s) +:+
  section_text "Topics" (sum_topics s).

Definition passage_line (title : option string) (id : Uuid) (start_ms : option Z) (speaker : option string) (text : string)
    : string :=
  "- " +:+ title_of title +:+ " (" +:+ uuid_to_string id +:+ ") [" +:+ opt_ms start_ms +:+ "] " +:+
  default "Unknown" speaker +:+ ": " +:+ trim text +:+ newline.

Definition hit_line (h : SearchHit) : string :=
  passage_line (hit_recording_title h) (hit_recording_id h) (hit_start_ms h) (hit_speaker h) (hit_text h).
Definition source_line (c : Citation) : string :=
  passage_line (cit_recording_title c) (cit_recording_id c) (cit_start_ms c) (cit_speaker c) (cit_snippet c).

Definition answer_text (a : Answer) : string :=
  trim (answer a) +:+
  match citations a with
  | [] => ""
  | cs => newline +:+ newline +:+ "Sources:" +:+ newline +:+ str_concat (map source_line cs)
  end.
End render.

Section tools.
Context `{UuidFmt} `{UnicodeCase} `{JsonText} `{Times} `{JsonIo}.
Context `{PgVector} `{FullText} `{HalfVec} `{Numeric} `{Embedder} `{LanguageModel}.
Context `{Deserialize ListArgs} `{Deserialize RecordingArgs} `{Deserialize SummaryArgs} `{Deserialize SearchArgs}
  `{Deserialize AskArgs} `{Deserialize ParticipantsArgs}.

(** What a page of recordings is shown as. *)
Definition list_text (limit offset : Z) (list : list Recording) : string :=
  match list with
  | [] => if 0 <? offset then "No more recordings." else "No recordings."
  | _ =>
      str_concat (map list_line list) +:+
      (if limit <=? count list then more_follows (offset + limit) else "")
  end.

Definition list_recordings_tool (args : Json) : ToolOutput :=
  a ← parse_args (A := ListArgs) args;
  let limit := default 20 (la_limit a) in
  let offset := default 0 (la_offset a) in
  list ← api (recordings.list_recordings (mkListQuery (Some limit) (Some offset) (la_tag a)));
  mret (list_text limit offset list).

Definition get_transcript_tool (args : Json) : ToolOutput :=
  a ← parse_args (A := RecordingArgs) args;
  d ← api (recordings.get_recording (ra_recording_id a));
  mret (transcript_text d).

Definition get_summary_tool (args : Json) : ToolOutput :=
  a ← parse_args (A := SummaryArgs) args;
  d ← api (recordings.get_recording (sa_recording_id a));
  let want := match trim <$> sa_template a with Some t => if is_empty t then None else Some t | None => None end in
  let wanted s := match want with Some w => bool_decide (sum_template s = Some w) | None => true end in
  match bfilter wanted (det_summaries d) with
  | [] =>
      mret (match want with
        | Some w => "No `" +:+ w +:+ "` summary for this meeting."
        | None => "No summary yet (status: " +:+ RecordingStatus.as_str (rec_status (det_recording d)) +:+ ")."
        end)
  | summaries => mret (str_concat (map summary_text summaries))
  end.

Definition search_tool (args : Json) : ToolOutput :=
  a ← parse_args (A := SearchArgs) args;
  from ← parse_time "from" (sea_from a);
  to ← parse_time "to" (sea_to a);
  hits ← api (search (mkSearchQuery (sea_query a) from to (sea_speaker_id a) (sea_recording_id a) (Some (default 10 (sea_limit a)))));
  mret (match hits with [] => "No matches." | _ => str_concat (map hit_line hits) end).

Definition ask_tool (summarize_model : string) (args : Json) : ToolOutput :=
  a ← parse_args (A := AskArgs) args;
  from ← parse_time "from" (aa_from a);
  to ← parse_time "to" (aa_to a);
  answer ← api (ask summarize_model (mkAskBody (aa_question a) [] (Some (mkAskFilters from to None (aa_recording_id a))) None));
  mret (answer_text answer).

Definition list_speakers_tool : ToolOutput :=
  speakers ← api speakers.list_speakers;
  match to_string_pretty (JObject [("speakers", JArray (map speaker_value speakers))]) with
  | Ok t => mret t
  | Err e => fail_with e
  end.

Definition stated (participants : option Z) : string :=
  match participants with
  | Some n => "Participant count set to " +:+ pretty n +:+ "."
  | None => "Participant count cleared."
  end.

Definition set_participants_tool (args : Json) : ToolOutput :=
  a ← parse_args (A := ParticipantsArgs) args;
  _ ← api (recordings.set_participants (pa_recording_id a) (pa_participants a));
  let stated := stated (pa_participants a) in
  if negb (default true (pa_rediarize a)) then mret (stated +:+ " Speaker detection was not re-run.")
  else
    again ← attempt (api (recordings.rediarize_recording (pa_recording_id a)));
    match again with
    | Err e => fail_with (stated +:+ " But re-running speaker detection failed: " +:+ e)
    | Ok _ => mret (stated +:+ " Speaker detection is re-running; poll get_transcript until status is ready.")
    end.

Definition rediarize_tool (args : Json) : ToolOutput :=
  a ← parse_args (A := RecordingArgs) args;
  _ ← api (recordings.rediarize_recording (ra_recording_id a));
  mret "Speaker detection is re-running; poll get_transcript until status is ready.".

(** [None]: there is no such tool. *)
Definition tool (summarize_model name : string) : option (Json -> ToolOutput) :=
  if String.eqb name "list_recordings" then Some list_recordings_tool
  else if String.eqb name "get_transcript" then Some get_transcript_tool
  else if String.eqb name "get_summary" then Some get_summary_tool
  else if String.eqb name "search" then Some search_tool
  else if String.eqb name "ask" then Some (ask_tool summarize_model)
  else if String.eqb name "list_speakers" then Some (fun _ => list_speakers_tool)
  else if String.eqb name "set_participants" then Some set_participants_tool
  else if String.eqb name "rediarize" then Some rediarize_tool
  else None.

(** An error of a tool is text the model sees, not one of the protocol. *)
Definition tool_result (output : result string string) : Json :=
  let '(text, is_error) := match output with Ok t => (t, false) | Err t => (t, true) end in
  JObject [("content", JArray [JObject [("type", JString "text"); ("text", JString text)]]); ("isError", JBool is_error)].

Definition call_tool (summarize_model : string) (params : Json) : M Db (Z * string) Json :=
  match json_get params "name" ≫= json_as_str with
  | None => fail_with (INVALID_PARAMS, "tools/call needs a tool name")
  | Some name =>
      let args := default (JObject []) (json_get params "arguments") in
      match tool summarize_model name with
      | None => fail_with (INVALID_PARAMS, "unknown tool: " +:+ name)
      | Some run => fun s => let '(output, s') := run args s in (Ok (tool_result output), s')
      end
  end.

(** ** Messages *)

(** What a method answers. *)
Definition dispatch (version summarize_model method : string) (params : Json) : M Db (Z * string) Json :=
  if String.eqb method "initialize" then mret (initialize_result version params)
  else if String.eqb method "ping" then mret (JObject [])
  else if String.eqb method "tools/list" then mret (JObject [("tools", tool_definitions)])
  else if String.eqb method "tools/call" then call_tool summarize_model params
  else fail_with (METHOD_NOT_FOUND, "method not found: " +:+ method).

(** [None] for a notification or a client's response. *)
Definition handle_message (version summarize_model : string) (msg : Json) (s : Db) : option Json * Db :=
  match json_get msg "method" ≫= json_as_str with
  | None =>
      (match json_get msg "id", json_get msg "result", json_get msg "error" with
       | Some id, None, None => Some (error_response id INVALID_REQUEST "missing method")
       | _, _, _ => None
       end, s)
  | Some method =>
      match json_get msg "id" with
      | None => (None, s)
      | Some id =>
          let params := default JNull (json_get msg "params") in
          let '(r, s') := dispatch version summarize_model method params s in
          (Some (match r with
             | Ok v => result_response id v
             | Err (code, message) => error_response id code message
             end), s')
      end
  end.

(** The loop over a batch. *)
Fixpoint handle_batch (version summarize_model : string) (batch : list Json) (s : Db) : list Json * Db :=
  match batch with
  | [] => ([], s)
  | m :: batch' =>
      let '(reply, s1) := handle_message version summarize_model m s in
      let '(replies, s2) := handle_batch version summarize_model batch' s1 in
      (match reply with Some v => v :: replies | None => replies end, s2)
  end.

Definition messages (msg : Json) : list Json := match msg with JArray batch => batch | single => [single] end.

Definition respond (replies : list Json) : McpResponse :=
  match replies with
  | [] => Accepted
  | [v] => JsonBody v
  | _ => JsonBody (JArray replies)
  end.

(** [origin] is the request's [Origin] header, when it is readable text. *)
Definition post (version summarize_model public_base_url : string) (origin : option string) (body : list N) (s : Db)
    : McpResponse * Db :=
  if match origin with Some o => negb (origin_allowed o public_base_url) | None => false end then (Forbidden, s)
  else
    match from_slice body with
    | Err e => (JsonBody (error_response JNull PARSE_ERROR e), s)
    | Ok msg =>
        let '(replies, s') := handle_batch version summarize_model (messages msg) s in
        (respond replies, s')
    end.
End tools.

(** [GET] and [DELETE]: 405, and the methods allowed. *)
Definition not_allowed : Z * string := (405, "POST").
