(* ===== verification/McpProps.v ===== *)
(** * What the MCP endpoint promises: properties of [Mcp]

    Each request gets one reply, with its id, in order; the tools listed are the
    tools there are, and those marked read-only only read; [set_participants]
    keeps the count it was given even when the speakers cannot be found again. *)

From Stdlib Require Import Ascii String.
From S2P Require Import Prelude RustStr Types Llm Db DbSchema Queue Store StoreProps Worker Summarize QueueSteps Search SearchProps Ask Api ApiProps Mcp.

#[local] Arguments String.append !_ _ /.

(** ** Reading *)

Section reads.
Context `{UuidFmt} `{UnicodeCase} `{JsonText} `{Times} `{JsonIo}.
Context `{PgVector} `{FullText} `{HalfVec} `{Numeric} `{Embedder} `{LanguageModel}.

(** A state that an operation leaves as it is. *)
#[local] Notation Reads m := (forall s0 : Db, Preserves (eq s0) m) (only parsing).

#[local] Instance reads_query {A} (f : Db -> A) : Reads (query f).
Proof. by intros s0 s <-. Qed.
#[local] Instance reads_api {A} (m : DbM A) s0 : Preserves (eq s0) m -> Preserves (eq s0) (api m).
Proof. intros Hm s Hs. specialize (Hm s Hs). unfold api. by destruct (m s) as [r s']. Qed.
#[local] Instance reads_parse_args {A} `{Deserialize A} (args : Json) : Reads (parse_args (A := A) args).
Proof. intros s0 s <-. unfold parse_args. by destruct (deserialize args). Qed.
#[local] Instance reads_parse_time field value : Reads (parse_time field value).
Proof. intros s0 s <-. unfold parse_time. destruct value as [v|]; [|done]. destruct (is_empty _); [done|]. by destruct (parse_rfc3339 _). Qed.
#[local] Instance reads_get_row id : Reads (Store.get_recording id).
Proof. intros s0 s <-. rewrite get_recording_eq. by destruct (db_recordings s0 !! id). Qed.
#[local] Instance reads_get_recording id : Reads (recordings.get_recording id).
Proof.
  intros s0. unfold recordings.get_recording, list_recording_speakers, list_utterances_by_recording,
    list_summaries_by_recording, Queue.list_jobs_by_recording.
  repeat (apply preserves_bind; [apply _|intros ?]).
  apply preserves_bind; [|intros ?; apply _]. destruct (rec_status a); apply _.
Qed.
#[local] Instance reads_search q : Reads (search q).
Proof. intros s0 s <-. symmetry. apply search_bounded. Qed.
#[local] Instance reads_ask model body : Reads (ask model body).
Proof.
  intros s0 s <-. unfold ask, embed_query. destruct (embed_one _) as [v|e]; [|done]. rewrite bind_mret.
  pose proof (fun f k => proj1 (hybrid_search_reads (retrieval_query (ask_question body) (ask_history body)) v f k s0)) as Hr.
  unfold mbind, M_bind. specialize (Hr (ask_filters_of (ask_filters body)) (clamp 1 MAX_TOP_K (default DEFAULT_TOP_K (ask_top_k body)))).
  by destruct (hybrid_search _ _ _ _ s0) as [[hits|e] s'].
Qed.

Context `{Deserialize ListArgs} `{Deserialize RecordingArgs} `{Deserialize SummaryArgs} `{Deserialize SearchArgs}
  `{Deserialize AskArgs} `{Deserialize ParticipantsArgs}.

Lemma list_recordings_reads args : Reads (list_recordings_tool args).
Proof. intros s0. unfold list_recordings_tool, recordings.list_recordings, Store.list_recordings. apply _. Qed.
Lemma get_transcript_reads args : Reads (get_transcript_tool args).
Proof. intros s0. unfold get_transcript_tool. apply _. Qed.
Lemma get_summary_reads args : Reads (get_summary_tool args).
Proof.
  intros s0. unfold get_summary_tool. apply preserves_bind; [apply _|intros a]. apply preserves_bind; [apply _|intros d].
  cbn zeta. destruct (bfilter _ _); apply _.
Qed.
Lemma search_reads args : Reads (search_tool args).
Proof. intros s0. unfold search_tool. apply _. Qed.
Lemma ask_reads model args : Reads (ask_tool model args).
Proof. intros s0. unfold ask_tool. apply _. Qed.
Lemma list_speakers_reads : Reads list_speakers_tool.
Proof.
  intros s0. unfold list_speakers_tool, speakers.list_speakers, list_speakers_with_usage.
  apply preserves_bind; [apply _|intros l]. destruct (to_string_pretty _); apply _.
Qed.

(** ** The list of tools *)

Definition listed : list Json := match tool_definitions with JArray tools => tools | _ => [] end.
Definition listed_name (t : Json) : string := default "" (json_get t "name" ≫= json_as_str).
Definition read_only (t : Json) : bool :=
  match json_get t "annotations" ≫= (fun a => json_get a "readOnlyHint") with Some (JBool b) => b | _ => false end.

Definition names : list string :=
  ["list_recordings"; "get_transcript"; "get_summary"; "search"; "ask"; "list_speakers"; "set_participants"; "rediarize"].

Lemma listed_names : map listed_name listed = names.
Proof. reflexivity. Qed.

Lemma tool_iff model name : is_Some (tool model name) <-> name ∈ names.
Proof.
  unfold tool, names. rewrite !elem_of_cons, elem_of_nil.
  repeat match goal with |- context [String.eqb name ?n] => destruct (String.eqb_spec name n) as [->|?] end;
    split; try (intros _; by tauto); try by eexists.
  - by intros [? ?].
  - intuition congruence.
Qed.

(** The state after a call whose tool only reads. *)
Lemma call_tool_reads model params name run s :
  json_get params "name" = Some (JString name) -> tool model name = Some run ->
  (forall args, Reads (run args)) -> snd (call_tool model params s) = s.
Proof.
  intros Hn Ht Hr. unfold call_tool. rewrite Hn. change (Some (JString name) ≫= json_as_str) with (Some name). cbv iota beta.
  rewrite Ht. specialize (Hr (default (JObject []) (json_get params "arguments")) s s eq_refl).
  by destruct (run _ s) as [o s'].
Qed.

(** The tools are what the list says.  Every tool listed exists and every
    one that exists is listed, once; and a tool whose listing hints that it is
    read-only leaves the database as it was, whatever its arguments and
    whatever the models, the search and the reader of arguments do. *)
Theorem tools_as_listed model :
  NoDup (map listed_name listed) /\
  (forall name, is_Some (tool model name) <-> name ∈ map listed_name listed) /\
  (forall t params s, t ∈ listed -> read_only t = true -> json_get params "name" = Some (JString (listed_name t)) ->
     snd (call_tool model params s) = s).
Proof.
  rewrite listed_names. split; [by apply (bool_decide_unpack _); vm_compute|]. split; [apply tool_iff|].
  intros t params s Ht Hro Hn. unfold listed, tool_definitions in Ht. rewrite !elem_of_cons, elem_of_nil in Ht.
  destruct Ht as [-> | [-> | [-> | [-> | [-> | [-> | [-> | [-> | []]]]]]]]]; try discriminate Hro;
    eapply call_tool_reads; [exact Hn|reflexivity| |exact Hn|reflexivity| |exact Hn|reflexivity| |exact Hn|reflexivity| |exact Hn|reflexivity| |exact Hn|reflexivity|];
    intros args.
  - apply list_recordings_reads.
  - apply get_transcript_reads.
  - apply get_summary_reads.
  - apply search_reads.
  - apply ask_reads.
  - apply list_speakers_reads.
Qed.
End reads.

(** ** One reply for each request *)

Section replies.
Context `{UuidFmt} `{UnicodeCase} `{JsonText} `{Times} `{JsonIo}.
Context `{PgVector} `{FullText} `{HalfVec} `{Numeric} `{Embedder} `{LanguageModel}.
Context `{Deserialize ListArgs} `{Deserialize RecordingArgs} `{Deserialize SummaryArgs} `{Deserialize SearchArgs}
  `{Deserialize AskArgs} `{Deserialize ParticipantsArgs}.

(** The id of a message that asks for a reply: a request's, or that of a message
    that is neither a request nor a response. *)
Definition asks (msg : Json) : option Json :=
  match json_get msg "method" ≫= json_as_str with
  | Some _ => json_get msg "id"
  | None =>
      match json_get msg "result", json_get msg "error" with None, None => json_get msg "id" | _, _ => None end
  end.

(** A reply: the version, the id, and a result or an error with a code. *)
Definition reply_to (id v : Json) : Prop :=
  (exists result, v = result_response id result) \/ (exists code message, v = error_response id code message).

Lemma handle_message_reply version model msg s :
  match asks msg with
  | Some id => exists v, fst (handle_message version model msg s) = Some v /\ reply_to id v
  | None => handle_message version model msg s = (None, s)
  end.
Proof.
  unfold asks, handle_message. destruct (json_get msg "method" ≫= json_as_str) as [method|].
  - destruct (json_get msg "id") as [id|]; [|done].
    destruct (dispatch version model method _ s) as [[v|[code message]] s']; eexists; (split; [reflexivity|]); [left|right]; eauto.
  - destruct (json_get msg "id") as [id|], (json_get msg "result"), (json_get msg "error"); try done.
    eexists. split; [reflexivity|]. right. eauto.
Qed.

Lemma handle_batch_replies version model batch s :
  Forall2 reply_to (omap asks batch) (fst (handle_batch version model batch s)).
Proof.
  revert s. induction batch as [|m batch IH]; intros s; cbn [handle_batch]; [constructor|].
  change (omap asks (m :: batch)) with (match asks m with Some y => y :: omap asks batch | None => omap asks batch end).
  pose proof (handle_message_reply version model m s) as Hm.
  destruct (handle_message version model m s) as [r s1]. specialize (IH s1).
  destruct (handle_batch version model batch s1) as [replies s2]. cbn [fst] in *. destruct (asks m) as [id|].
  - destruct Hm as (v & -> & Hv). by constructor.
  - by injection Hm as -> ->.
Qed.

Lemma quiet_batch version model batch s :
  omap asks batch = [] -> handle_batch version model batch s = ([], s).
Proof.
  revert s. induction batch as [|m batch IH]; intros s; cbn [handle_batch]; [done|].
  change (omap asks (m :: batch)) with (match asks m with Some y => y :: omap asks batch | None => omap asks batch end).
  pose proof (handle_message_reply version model m s) as Hm. destruct (asks m); [done|]. intros Hb. rewrite Hm. by rewrite IH.
Qed.

(** C29: Requests and replies match.  From an allowed origin, a body that is no
    JSON is answered with a parse error; otherwise every message of the body
    that asks for a reply gets exactly one, carrying its id, in the order of the
    messages; a body of notifications and responses is only accepted, and
    changes nothing.  From another origin nothing is read. *)
Theorem one_reply_per_request version model public_base_url origin body s :
  let allowed := match origin with Some o => origin_allowed o public_base_url | None => true end in
  (allowed = false -> post version model public_base_url origin body s = (Forbidden, s)) /\
  (allowed = true ->
    match from_slice body with
    | Err e => post version model public_base_url origin body s = (JsonBody (error_response JNull PARSE_ERROR e), s)
    | Ok msg => exists replies, Forall2 reply_to (omap asks (messages msg)) replies /\
        fst (post version model public_base_url origin body s) = respond replies /\
        (omap asks (messages msg) = [] -> post version model public_base_url origin body s = (Accepted, s))
    end).
Proof.
  cbn zeta. unfold post. set (foreign := match origin with Some o => negb _ | None => false end).
  assert (Hf : foreign = negb (match origin with Some o => origin_allowed o public_base_url | None => true end))
    by (unfold foreign; by destruct origin).
  rewrite Hf. split; [by intros ->|]. intros ->. cbn [negb]. destruct (from_slice body) as [msg|e]; [|done].
  exists (fst (handle_batch version model (messages msg) s)). split; [apply handle_batch_replies|]. split.
  - by destruct (handle_batch _ _ _ s).
  - intros Hq. by rewrite quiet_batch.
Qed.
End replies.

(** ** Stating the number of participants *)

Section participants.
Context `{UuidFmt} `{Deserialize ParticipantsArgs}.

Definition in_range_count (n : option Z) : bool := match n with Some n => (1 <=? n) && (n <=? 64) | None => true end.

Lemma set_participants_eq id n s :
  recordings.set_participants id n s =
  if in_range_count n then
    match db_recordings s !! id with
    | Some row => (Ok (JObject [("id", JString (uuid_to_string id)); ("participants_expected", json_opt_number n)]),
        set_recordings (<[id := with_participants n row]> (db_recordings s)) s)
    | None => (Err (recording_not_found id), s)
    end
  else (Err (BadRequest "participants_expected must be between 1 and 64"), s).
Proof.
  assert (Hstore : forall A (k : A), (_ ← set_participants_expected id n; mret k : DbM A) s =
    match db_recordings s !! id with
    | Some row => (Ok k, set_recordings (<[id := with_participants n row]> (db_recordings s)) s)
    | None => (Err (recording_not_found id), s)
    end).
  { intros A k. unfold set_participants_expected. unfold mbind at 1, M_bind at 1. rewrite update_or_not_found.
    by destruct (db_recordings s !! id). }
  unfold recordings.set_participants, in_range_count. destruct n as [n|]; [|apply Hstore].
  destruct ((1 <=? n) && (n <=? 64)); [apply Hstore|done].
Qed.

(** Re-running the detection of speakers where there are words. *)
Lemma rediarize_recording_ok id row t s :
  schema_ok s -> db_recordings s !! id = Some row -> db_artifacts s !! (id, KIND_TRANSCRIPT) = Some t ->
  exists s', recordings.rediarize_recording id s = (Ok (recordings.status_answer id), s') /\
    db_recordings s' = <[id := with_status Processing row]> (db_recordings s) /\
    db_artifacts s' !! (id, KIND_TRANSCRIPT) = Some t /\ db_artifacts s' !! (id, KIND_DIARIZATION) = None /\
    v_utterances (derived s' id) = [] /\ (id, Diarize) ∈ live_keys (db_jobs s').
Proof.
  intros Hs Hrow Ht. unfold recordings.rediarize_recording. unfold mbind at 1, M_bind at 1. rewrite get_recording_eq, Hrow.
  pose proof (reset_for_rediarize_eq id s) as Heq. rewrite bool_decide_true, Hrow in Heq by (by eexists).
  set (s1 := set_recordings _ _) in Heq. rewrite (bind_ok _ _ s true s1 Heq). cbn [negb].
  assert (Hs1 : schema_ok s1) by (change s1 with (snd (@Ok Error _ true, s1)); rewrite <- Heq; by apply reset_for_rediarize_schema).
  assert (Hfk : fk s1 id) by (unfold fk; cbn; rewrite lookup_insert_eq; by eexists).
  destruct (enqueue_ok id Diarize empty_payload s1 Hs1 Hfk) as (j & s2 & He & Hf & Hj & Hk & _).
  rewrite (bind_ok _ _ s1 j s2 He). exists s2. split; [done|].
  assert (Hall : forall A (g : Db -> A), (forall x, g (but_jobs x) = g x) -> g s2 = g s1)
    by (intros A g Hg; rewrite <- (Hg s2), Hf; apply Hg).
  split; [by apply but_jobs_recordings in Hf|].
  rewrite !(Hall _ db_artifacts) by done. split; [cbn; by rewrite lookup_delete_ne|]. split; [apply lookup_delete_eq|].
  split; [|by apply list_elem_of_omap; exists j].
  rewrite (Hall _ (fun x => v_utterances (derived x id))) by done. apply bfilter_negb.
Qed.

Lemma rediarize_recording_no_words id row s :
  db_recordings s !! id = Some row -> db_artifacts s !! (id, KIND_TRANSCRIPT) = None ->
  exists m, recordings.rediarize_recording id s = (Err (Conflict m), s).
Proof.
  intros Hrow Ht. eexists. unfold recordings.rediarize_recording. unfold mbind at 1, M_bind at 1. rewrite get_recording_eq, Hrow.
  pose proof (reset_for_rediarize_eq id s) as Heq. rewrite bool_decide_false in Heq by (rewrite Ht; by intros []).
  by rewrite (bind_ok _ _ s false s Heq).
Qed.

(** The tool is the two handlers, one after the other. *)
Lemma set_participants_tool_eq args a s :
  deserialize args = Ok a ->
  set_participants_tool args s =
  match recordings.set_participants (pa_recording_id a) (pa_participants a) s with
  | (Err e, s1) => (Err (Error.to_string e), s1)
  | (Ok _, s1) =>
      if negb (default true (pa_rediarize a))
      then (Ok (stated (pa_participants a) +:+ " Speaker detection was not re-run."), s1)
      else
        match recordings.rediarize_recording (pa_recording_id a) s1 with
        | (Err e, s2) => (Err (stated (pa_participants a) +:+ " But re-running speaker detection failed: " +:+ Error.to_string e), s2)
        | (Ok _, s2) =>
            (Ok (stated (pa_participants a) +:+ " Speaker detection is re-running; poll get_transcript until status is ready."), s2)
        end
  end.
Proof.
  intros Ha. unfold set_participants_tool, parse_args. rewrite Ha. unfold api, attempt, mbind, M_bind, mret, M_ret.
  destruct (recordings.set_participants _ _ s) as [[v|e] s1]; [|done]. destruct (negb _); [done|].
  by destruct (recordings.rediarize_recording _ s1) as [[w|e] s2].
Qed.

(** The stated count is kept.  A count out of range or an unknown recording
    is an error that changes nothing.  Otherwise the count is stored and
    nothing else is, unless re-running was not declined and the words are
    there: then the recording is processing again with that count, its
    diarization and all that was made from it are gone, its words are kept, and
    a diarize job is live.  When there are no words to diarize against, the
    error says that the count was set all the same. *)
Theorem set_participants_tool_spec args a s :
  deserialize args = Ok a -> schema_ok s ->
  let id := pa_recording_id a in
  let n := pa_participants a in
  if negb (in_range_count n) then
    set_participants_tool args s = (Err "invalid request: participants_expected must be between 1 and 64", s)
  else
    match db_recordings s !! id with
    | None => set_participants_tool args s = (Err ("not found: recording " +:+ uuid_to_string id), s)
    | Some row =>
        let stored := set_recordings (<[id := with_participants n row]> (db_recordings s)) s in
        if negb (default true (pa_rediarize a)) then
          set_participants_tool args s = (Ok (stated n +:+ " Speaker detection was not re-run."), stored)
        else
          match db_artifacts s !! (id, KIND_TRANSCRIPT) with
          | None => exists why, set_participants_tool args s =
              (Err (stated n +:+ " But re-running speaker detection failed: " +:+ why), stored)
          | Some t => exists s', set_participants_tool args s =
              (Ok (stated n +:+ " Speaker detection is re-running; poll get_transcript until status is ready."), s') /\
              db_recordings s' = <[id := with_status Processing (with_participants n row)]> (db_recordings s) /\
              db_artifacts s' !! (id, KIND_TRANSCRIPT) = Some t /\ db_artifacts s' !! (id, KIND_DIARIZATION) = None /\
              v_utterances (derived s' id) = [] /\ (id, Diarize) ∈ live_keys (db_jobs s')
          end
    end.
Proof.
  intros Ha Hs id n. rewrite (set_participants_tool_eq args a s Ha). fold id n. rewrite set_participants_eq.
  destruct (in_range_count n); cbn [negb]; [|done]. destruct (db_recordings s !! id) as [row|] eqn:Hrow; [|done].
  set (stored := set_recordings _ s). destruct (negb (default true (pa_rediarize a))); [done|].
  assert (Hst : db_recordings stored !! id = Some (with_participants n row)) by apply lookup_insert_eq.
  destruct (db_artifacts s !! (id, KIND_TRANSCRIPT)) as [t|] eqn:Ht.
  - assert (Hs1 : schema_ok stored).
    { pose proof (set_participants_schema id n s Hs) as Hp. unfold set_participants_expected in Hp.
      by rewrite update_or_not_found, Hrow in Hp. }
    destruct (rediarize_recording_ok id _ t stored Hs1 Hst Ht) as (s' & -> & Hr & Hrest). exists s'. split; [done|].
    split; [|done]. rewrite Hr. cbn. by rewrite insert_insert_eq.
  - destruct (rediarize_recording_no_words id _ stored Hst Ht) as [m ->]. by eexists.
Qed.
End participants.

(** ** Paging *)

Section paging.
Context `{UuidFmt} `{Times} `{Deserialize ListArgs}.

(** The recordings a tag selects, latest first. *)
Definition selected (tag : option string) (s : Db) : list Recording :=
  map rr_rec (match tag with
    | Some t => bfilter (fun r => bool_decide (t ∈ rec_tags (rr_rec r))) (select_recordings s)
    | None => select_recordings s
    end).
Definition wanted_tag (tag : option string) : option string :=
  match trim <$> tag with Some t => if is_empty t then None else Some t | None => None end.

Lemma limit_offset_map {A B} (f : A -> B) limit offset l : map f (limit_offset limit offset l) = limit_offset limit offset (map f l).
Proof. unfold limit_offset. by rewrite <- (fmap_drop f), <- (fmap_take f). Qed.

Lemma list_recordings_page limit offset tag s :
  recordings.list_recordings (mkListQuery (Some limit) (Some offset) tag) s =
  (Ok (limit_offset (Z.max 1 (Z.min limit 500)) (Z.max offset 0) (selected (wanted_tag tag) s)), s).
Proof.
  unfold recordings.list_recordings, Store.list_recordings, query, exec, selected. cbn [lq_limit lq_offset lq_tag default from_option id].
  fold (wanted_tag tag). destruct (wanted_tag tag); by rewrite <- limit_offset_map.
Qed.

Lemma page_count {A} limit offset (l : list A) :
  0 <= limit -> 0 <= offset -> count (limit_offset limit offset l) = Z.max 0 (Z.min limit (count l - offset)).
Proof. intros Hl Ho. unfold limit_offset, count. rewrite length_take, length_drop. lia. Qed.

(** Consecutive pages put together are the list as far as they go. *)
Lemma pages_join {A} limit (l : list A) k :
  0 <= limit -> concat (map (fun i => limit_offset limit (Z.of_nat i * limit) l) (seq 0 k)) = take (Z.to_nat (Z.of_nat k * limit)) l.
Proof.
  intros Hl. induction k as [|k IH]; [done|]. rewrite seq_S, map_app, concat_app, IH. cbn. rewrite app_nil_r. unfold limit_offset.
  replace (Z.to_nat (Z.of_nat (S k) * limit)) with (Z.to_nat (Z.of_nat k * limit) + Z.to_nat limit)%nat by lia.
  by rewrite take_take_drop.
Qed.

(** Paging misses nothing.  With a limit between 1 and 500, the pages at the
    offsets the answers name are the consecutive slices of the selected
    recordings, so that the first [k] of them hold the first [k * limit] and
    enough of them hold all; and as long as a recording is left after a page,
    the page ends by naming the next offset.  A limit above 500 is cut to that,
    but compared with what came back as it was asked: a page is then never
    said to be followed by more. *)
Theorem paging_misses_nothing args a limit s :
  deserialize args = Ok a -> la_limit a = Some limit ->
  let offset := default 0 (la_offset a) in
  let all := selected (wanted_tag (la_tag a)) s in
  let page := limit_offset (Z.min limit 500) offset all in
  (1 <= limit -> 0 <= offset -> list_recordings_tool args s = (Ok (list_text limit offset page), s)) /\
  (1 <= limit <= 500 -> 0 <= offset -> offset + limit < count all ->
    list_text limit offset page = str_concat (map list_line page) +:+ more_follows (offset + limit)) /\
  (1 <= limit <= 500 -> forall k,
    concat (map (fun i => limit_offset limit (Z.of_nat i * limit) all) (seq 0 k)) = take (Z.to_nat (Z.of_nat k * limit)) all) /\
  (500 < limit -> 0 <= offset -> page <> [] -> list_text limit offset page = str_concat (map list_line page)).
Proof.
  intros Ha Hl offset all page. split; [|split; [|split]].
  - intros H1' Ho. unfold list_recordings_tool, parse_args. rewrite Ha. unfold mbind, M_bind, mret, M_ret, api. rewrite Hl.
    cbn [default from_option id]. fold offset. rewrite list_recordings_page. fold all.
    replace (Z.max 1 (Z.min limit 500)) with (Z.min limit 500) by lia. by replace (Z.max offset 0) with offset by lia.
  - intros H1' Ho Hmore. assert (Hc : count page = limit) by (unfold page; rewrite page_count by lia; lia).
    clearbody page offset. clear all Hmore. unfold list_text. destruct page as [|r rs]; [unfold count in Hc; cbn in Hc; lia|].
    by rewrite Hc, Z.leb_refl.
  - intros H1' k. apply pages_join. lia.
  - intros H1' Ho Hne. assert (Hc : count page <= 500) by (unfold page; rewrite page_count by lia; lia).
    clearbody page offset. clear all. unfold list_text. destruct page as [|r rs]; [done|].
    rewrite (proj2 (Z.leb_gt _ _)) by lia. apply append_nil_r.
Qed.
End paging.

(** ** At concrete requests *)

#[local] Instance three_people : Deserialize ParticipantsArgs := fun _ => Ok (mkParticipantsArgs 1%N (Some 3) None).
#[local] Instance two_per_page : Deserialize ListArgs := fun _ => Ok (mkListArgs (Some 2) None None).

Lemma set_participants_tool_spec_witness :
  exists why, @set_participants_tool plain_uuid three_people JNull uploading_db =
    (Err ("Participant count set to 3. But re-running speaker detection failed: " +:+ why),
     set_recordings (<[1%N := with_participants (Some 3) (with_status Uploading sample_recording)]> (db_recordings uploading_db)) uploading_db).
Proof. exact (@set_participants_tool_spec plain_uuid three_people JNull _ uploading_db eq_refl uploading_schema). Defined.

Definition plain_times : Times := {| format_minute _ := "now"; parse_rfc3339 _ := Ok 0 |}.

Lemma paging_misses_nothing_witness :
  exists text, @list_recordings_tool plain_uuid plain_times two_per_page JNull uploading_db = (Ok text, uploading_db).
Proof.
  destruct (@paging_misses_nothing plain_uuid plain_times two_per_page JNull _ 2 uploading_db eq_refl eq_refl) as [Hp _].
  eexists. exact (Hp ltac:(lia) ltac:(cbn; lia)).
Defined.
