(* ===== verification/Discovery.v ===== *)
(** * LAN discovery: [crates/scribe-api/src/discovery.rs]

    The record the server announces over mDNS, when it announces one, and the
    host name it announces it under.  The mDNS daemon, the environment and
    [/etc/hostname] are parameters; the network is the list of what the daemon
    was told, in order. *)

From Stdlib Require Import Ascii String.
From S2P Require Import Prelude RustStr RustPath Types Cluster Config Update.

#[local] Arguments String.append !_ _ /.

Definition SERVICE_TYPE : string := "_scribe._tcp.local.".

Class Mdns := {
  ServiceDaemon : Type;
  ServiceInfo : Type;
  daemon_new : result string ServiceDaemon;
  service_new : string -> string -> string -> string -> Z -> list (string * string) -> result string ServiceInfo;
  enable_addr_auto : ServiceInfo -> ServiceInfo;
  get_fullname : ServiceInfo -> string;
  register : ServiceDaemon -> ServiceInfo -> result string unit;
}.

(** [/etc/hostname], when it can be read. *)
Class HostnameFile := etc_hostname : option string.

(** ** The host name *)

Definition is_ascii_alphanumeric (a : ascii) : bool := is_digit a || is_alpha a.

(** A character of a DNS label, anything else made a hyphen. *)
Definition label_char (c : string) : string :=
  match c with
  | String a EmptyString => if is_ascii_alphanumeric a || Ascii.eqb a "-" then c else "-"
  | _ => "-"
  end.

Section hostname.
Context `{EnvVar} `{HostnameFile}.

Definition raw_hostname : string :=
  let from_file :=
    match etc_hostname with
    | Some s => let s := trim s in if is_empty s then None else Some s
    | None => None
    end in
  match env_var "HOSTNAME" with
  | Some h => if is_empty (trim h) then default "scribe" from_file else h
  | None => default "scribe" from_file
  end.

Definition hostname : string :=
  let short := str_concat (map label_char (chars (split_first "." raw_hostname))) in
  let trimmed := trim_matches (String.eqb "-") short in
  if is_empty trimmed then "scribe" else trimmed.
End hostname.

(** ** The announcement *)

(** [cfg.api.bind.rsplit(':').next()] as a port, or 8443. *)
Definition advertised_port (bind : string) : Z :=
  default 8443 (p ← last (split_char ":" bind); n ← parse_u64 p; if n <=? 65535 then Some n else None).

(** Whether the configuration asks for it and its URL is one to send a phone to. *)
Definition advertisable (cfg : Config.Config) : bool :=
  let url := trim (Config.public_base_url (Config.api cfg)) in
  Config.advertise_lan (Config.api cfg) && negb (is_empty url) && negb (contains "127.0.0.1" url || contains "localhost" url).

Section advertise.
Context `{Mdns} `{EnvVar} `{HostnameFile} `{HostOs}.

Inductive Announcement := Registered (service : ServiceInfo) | Unregistered (fullname : string).
Record Advertiser := mkAdvertiser { adv_daemon : ServiceDaemon; adv_fullname : string }.

Definition service_record (cfg : Config.Config) : result string ServiceInfo :=
  let host := hostname in
  let auth := if Config.trust_tailscale_identity (Config.auth cfg) then "tailnet" else "token" in
  service_new SERVICE_TYPE host (host +:+ ".local.") "" (advertised_port (Config.bind (Config.api cfg)))
    [("url", trim (Config.public_base_url (Config.api cfg))); ("version", VERSION); ("auth", auth)].

Definition advertise (cfg : Config.Config) (net : list Announcement) : option Advertiser * list Announcement :=
  let url := trim (Config.public_base_url (Config.api cfg)) in
  if negb (Config.advertise_lan (Config.api cfg)) then (None, net)
  else if is_empty url then (None, net)
  else if contains "127.0.0.1" url || contains "localhost" url then (None, net)
  else
    match daemon_new with
    | Err _ => (None, net)
    | Ok daemon =>
        match service_record cfg with
        | Err _ => (None, net)
        | Ok service =>
            let service := enable_addr_auto service in
            match register daemon service with
            | Err _ => (None, net)
            | Ok _ => (Some (mkAdvertiser daemon (get_fullname service)), net ++ [Registered service])
            end
        end
    end.

(** [Drop] *)
Definition retract (a : option Advertiser) (net : list Announcement) : list Announcement :=
  match a with Some a => net ++ [Unregistered (adv_fullname a)] | None => net end.
End advertise.

(** ** What a host name is *)

Definition label_byte (a : ascii) : bool := is_ascii_alphanumeric a || Ascii.eqb a "-".

(** A legal DNS label, its length aside. *)
Definition dns_label (s : string) : Prop :=
  s <> "" /\ all_bytes label_byte s = true /\
  (forall r, s <> String "-" r) /\ (forall l, s <> l +:+ "-").

Lemma label_char_label c : exists a, label_char c = String a "" /\ label_byte a = true.
Proof.
  unfold label_char, label_byte. destruct c as [|a [|b r]]; try (by exists "-"%char).
  destruct (is_ascii_alphanumeric a || Ascii.eqb a "-") eqn:E; [by exists a|by exists "-"%char].
Qed.

Lemma label_byte_plain a : label_byte a = true -> plain a = true.
Proof. destruct a as [[] [] [] [] [] [] [] []]; vm_compute; congruence || done. Qed.

Lemma labelled s : all_bytes label_byte (str_concat (map label_char (chars s))) = true.
Proof.
  induction (chars s) as [|c l IH]; [done|]. cbn [map str_concat foldr]. change (foldr String.append "" (map label_char l)) with (str_concat (map label_char l)).
  rewrite all_bytes_app, IH, andb_true_r. destruct (label_char_label c) as (a & -> & Ha). cbn. by rewrite Ha.
Qed.

Lemma dropped_head p l c l' : drop_while p l = c :: l' -> p c = false.
Proof. induction l as [|x l IH]; cbn; [done|]. destruct (p x) eqn:E; [done|]. congruence. Qed.

(** Trimming leaves no match at either end. *)
Lemma trimmed_head p s c l : chars (trim_matches p s) = c :: l -> p c = false.
Proof.
  rewrite chars_trim_matches. intros Hc. apply (dropped_head p (c :: l) c l).
  rewrite <- Hc, drop_while_drop_while_end; [done|apply drop_while_idem].
Qed.
Lemma trimmed_last p s c l : chars (trim_matches p s) = l ++ [c] -> p c = false.
Proof.
  rewrite chars_trim_matches. unfold drop_while_end. intros Hc. apply (f_equal reverse) in Hc.
  rewrite reverse_involutive, reverse_app in Hc. apply (dropped_head _ _ _ _ Hc).
Qed.

Lemma dns_label_trimmed s : all_bytes label_byte s = true ->
  trim_matches (String.eqb "-") s <> "" -> dns_label (trim_matches (String.eqb "-") s).
Proof.
  intros Hs Hne. destruct (trim_matches_split (String.eqb "-") s) as (l & r & Hsplit & _ & _).
  rewrite Hsplit, !all_bytes_app in Hs. apply andb_prop in Hs as [_ Hs]. apply andb_prop in Hs as [Hs _].
  pose proof (all_bytes_impl _ _ _ label_byte_plain Hs) as Hp. apply chars_plain in Hp.
  repeat split; [done|done|..].
  - intros r' E. rewrite E in Hp at 2. cbn in Hp. apply trimmed_head in Hp. done.
  - intros l' E. rewrite E in Hp at 2.
    assert (Happ : forall l0, map (fun a => String a "") (list_ascii_of_string (l0 +:+ "-")) = map (fun a => String a "") (list_ascii_of_string l0) ++ ["-"]).
    { intros l0. induction l0 as [|a l0 IH]; [done|]. cbn. by rewrite IH. }
    rewrite Happ in Hp. apply trimmed_last in Hp. done.
Qed.

(** ** What is announced *)

Section promises.
Context `{Mdns} `{EnvVar} `{HostnameFile} `{HostOs}.

Lemma hostname_label : dns_label hostname.
Proof.
  unfold hostname. cbn zeta. unfold is_empty. destruct (String.eqb_spec (trim_matches (String.eqb "-") (str_concat (map label_char (chars (split_first "." raw_hostname))))) "") as [_|Hne].
  - repeat split; [done| |].
    { intros r' E. injection E as E. discriminate E. }
    intros l' E. apply (f_equal list_ascii_of_string) in E.
    assert (Happ : list_ascii_of_string (l' +:+ "-") = list_ascii_of_string l' ++ ["-"%char]).
    { clear. induction l' as [|a l' IH]; [done|]. cbn. by rewrite IH. }
    rewrite Happ in E. apply (f_equal last) in E. rewrite last_snoc in E. discriminate E.
  - apply dns_label_trimmed; [apply labelled|done].
Qed.

Lemma advertised_port_range bind : 0 <= advertised_port bind <= 65535.
Proof.
  unfold advertised_port. destruct (last _) as [p|]; cbn; [|lia]. destruct (parse_u64 p) as [n|] eqn:E; cbn; [|lia].
  apply parse_u64_range in E. destruct (n <=? 65535) eqn:En; cbn; lia.
Qed.

Lemma advertise_some cfg net a net' : advertise cfg net = (Some a, net') ->
  advertisable cfg = true /\ exists service, net' = net ++ [Registered service] /\ a = mkAdvertiser (adv_daemon a) (get_fullname service).
Proof.
  unfold advertise, advertisable. cbn zeta. destruct (Config.advertise_lan _); cbn [negb andb]; [|done].
  destruct (is_empty _); cbn [negb andb]; [done|]. destruct (contains "127.0.0.1" _ || _); cbn [negb]; [done|].
  destruct daemon_new as [daemon|]; [|done]. destruct (service_record cfg) as [service|]; [|done]. destruct (register daemon _); [|done].
  intros [= <- <-]. split; [done|]. by exists (enable_addr_auto service).
Qed.
Lemma advertise_none cfg net net' : advertise cfg net = (None, net') -> net' = net.
Proof. unfold advertise. cbn zeta. repeat (case_match; try congruence). Qed.

(** The server announces itself exactly when the configuration asks for it
    with a URL that is neither empty nor names 127.0.0.1 or localhost, and the
    mDNS daemon plays along; otherwise the network sees nothing.  What it
    announces is one record of a host name that is a legal label (its length
    aside), a port, and three properties that say the URL, the version and which
    kind of credential to bring: no device key, token or path.  The record is
    retracted under the name it was announced with. *)
Theorem advertise_spec (cfg : Config.Config) (net : list Announcement) :
  match advertise cfg net with
  | (Some a, net') =>
      advertisable cfg = true /\ dns_label hostname /\ 0 <= advertised_port (Config.bind (Config.api cfg)) <= 65535 /\
      exists service, service_new SERVICE_TYPE hostname (hostname +:+ ".local.") "" (advertised_port (Config.bind (Config.api cfg)))
          [("url", trim (Config.public_base_url (Config.api cfg))); ("version", VERSION);
           ("auth", if Config.trust_tailscale_identity (Config.auth cfg) then "tailnet" else "token")] = Ok service /\
        net' = net ++ [Registered (enable_addr_auto service)] /\
        retract (Some a) net' = net' ++ [Unregistered (get_fullname (enable_addr_auto service))]
  | (None, net') =>
      net' = net /\
      (advertisable cfg = false \/ is_ok daemon_new = false \/ is_ok (service_record cfg) = false \/
       exists daemon service, daemon_new = Ok daemon /\ service_record cfg = Ok service /\ is_ok (register daemon (enable_addr_auto service)) = false)
  end.
Proof.
  unfold advertise, advertisable. cbn zeta.
  destruct (Config.advertise_lan _); cbn [negb andb]; [|eauto].
  destruct (is_empty _); cbn [negb andb]; [eauto|].
  destruct (contains "127.0.0.1" _ || _); cbn [negb]; [eauto|].
  destruct daemon_new as [daemon|e] eqn:Ed; [|eauto].
  destruct (service_record cfg) as [service|e] eqn:Es; [|eauto].
  destruct (register daemon _) as [u|e] eqn:Er.
  - split; [done|]. split; [apply hostname_label|]. split; [apply advertised_port_range|]. exists service. done.
  - split; [done|]. right; right; right. exists daemon, service. by rewrite Er.
Qed.
End promises.

(** A URL of the IPv6 loopback address is announced: the test is for two
    spellings of the address only. *)
Example advertises_ipv6_loopback :
  advertisable (Config.mkConfig Config.default_database Config.default_storage
    (Config.mkApi "[::1]:8443" None 0 "http://[::1]:8443" true) Config.default_auth Config.default_asr Config.default_worker
    Config.default_llm Config.default_update) = true.
Proof. vm_compute. reflexivity. Qed.
