(* ===== verification/Router.v ===== *)
(** * Routes: [crates/scribe-api/src/lib.rs], [router]

    The route table with its layers, as data, and what becomes of a request:
    no route, refused by the layer its route is behind, no such method, or
    handed to a handler.  Matching a path and a method is axum's, a parameter
    with what its documentation says of it as laws. *)

From Stdlib Require Import Ascii String.
From S2P Require Import Prelude RustStr RustPath Types Config Http.

#[local] Arguments String.append !_ _ /.

Inductive Method := GET | HEAD | POST | PUT | PATCH | DELETE | OtherMethod (name : string).

(** The handlers, by the functions of [handlers] and [mcp]. *)
Inductive Handler :=
| CreateRecording | ListRecordings | GetRecording | DeleteRecording | CompleteRecording | ReprocessRecording
| RediarizeRecording | SummarizeRecording | TranslateSummary | SetRecordingTags | SetParticipants | EditUtterance
| ListTags | ListSummaryTemplates | PutSegment | GetSegment | GetAudio
| NameSpeaker | UnnameSpeaker | DeleteRecordingSpeaker | ListSpeakers | RenameSpeaker | DeleteSpeaker
| SearchHandler | Ask | GetSchedule | SetSchedule | SetOverride
| McpPost | McpNotAllowed | Update | RollbackHandler | AdminInfo | Health.

#[export] Instance Method_eq_dec : EqDecision Method.
Proof. solve_decision. Defined.
#[export] Instance Handler_eq_dec : EqDecision Handler.
Proof. solve_decision. Defined.

(** [rt_limited]: whether axum's default body limit holds. *)
Record Route := mkRoute { rt_path : string; rt_methods : list (Method * Handler); rt_limited : bool }.

Inductive Layer := Open | DeviceAuth | UpdateAuth.

Definition route (path : string) (methods : list (Method * Handler)) : Route := mkRoute path methods true.
Definition unlimited (r : Route) : Route := mkRoute (rt_path r) (rt_methods r) false.

Definition authed : list Route := [
  route "/recordings" [(POST, CreateRecording); (GET, ListRecordings)];
  route "/recordings/{id}" [(GET, GetRecording); (DELETE, DeleteRecording)];
  route "/recordings/{id}/complete" [(POST, CompleteRecording)];
  route "/recordings/{id}/reprocess" [(POST, ReprocessRecording)];
  route "/recordings/{id}/rediarize" [(POST, RediarizeRecording)];
  route "/recordings/{id}/summarize" [(POST, SummarizeRecording)];
  route "/recordings/{id}/translate" [(POST, TranslateSummary)];
  route "/recordings/{id}/tags" [(PUT, SetRecordingTags)];
  route "/recordings/{id}/participants" [(PUT, SetParticipants)];
  route "/recordings/{id}/utterances/{utterance_id}" [(PATCH, EditUtterance)];
  route "/tags" [(GET, ListTags)];
  unlimited (route "/recordings/{id}/segments/{seq}" [(PUT, PutSegment); (GET, GetSegment)]);
  route "/recordings/{id}/audio" [(GET, GetAudio)];
  route "/recordings/{id}/speakers/{local_idx}/name" [(POST, NameSpeaker); (DELETE, UnnameSpeaker)];
  route "/recordings/{id}/speakers/{local_idx}" [(DELETE, DeleteRecordingSpeaker)];
  route "/speakers" [(GET, ListSpeakers)];
  route "/speakers/{id}" [(PATCH, RenameSpeaker); (DELETE, DeleteSpeaker)];
  route "/search" [(GET, SearchHandler)];
  route "/ask" [(POST, Ask)];
  route "/processing-schedule" [(GET, GetSchedule); (PUT, SetSchedule)];
  route "/processing-schedule/override" [(POST, SetOverride)];
  route "/summary-templates" [(GET, ListSummaryTemplates)];
  route "/mcp" [(POST, McpPost); (GET, McpNotAllowed); (DELETE, McpNotAllowed)]
].

Definition admin : list Route := [
  unlimited (route "/admin/update" [(POST, Update)]);
  route "/admin/update/rollback" [(POST, RollbackHandler)];
  route "/admin/info" [(GET, AdminInfo)]
].

Definition router : list (Layer * Route) :=
  [(Open, route "/health" [(GET, Health)])] ++ map (pair UpdateAuth) admin ++ map (pair DeviceAuth) authed.

(** ** Paths against patterns *)

Inductive Part := Lit (s : string) | Param (name : string).

Definition part_of (s : string) : Part :=
  match strip_prefix "{" s with Some r => Param (split_first "}" r) | None => Lit s end.
Definition parts_of (pattern : string) : list Part := map part_of (split_char "/" pattern).

(** A parameter takes one part of the path, which is not empty. *)
Fixpoint take_params (ps : list Part) (path : list string) : option (list (string * string)) :=
  match ps, path with
  | [], [] => Some []
  | Lit l :: ps', s :: path' => if String.eqb l s then take_params ps' path' else None
  | Param n :: ps', s :: path' => if is_empty s then None else params ← take_params ps' path'; Some ((n, s) :: params)
  | _, _ => None
  end.
Definition path_params (pattern path : string) : option (list (string * string)) :=
  take_params (parts_of pattern) (split_char "/" path).

Class Axum := {
  (** The route of a path, with its parameters. *)
  at_path : list (Layer * Route) -> string -> option (Layer * Route * list (string * string));
  (** The handler of a method; [get] answers HEAD too. *)
  on_method : list (Method * Handler) -> Method -> option Handler;
  (** Whose layer is around the answer for unknown paths, once routers with a
      layer each have been merged. *)
  fallback_layer : Layer;
}.

(** Documented of routers whose patterns do not overlap. *)
Class AxumLaws `{Axum} : Prop := {
  at_path_Some : forall rs path r params, at_path rs path = Some (r, params) -> r ∈ rs /\ path_params (rt_path (snd r)) path = Some params;
  at_path_None : forall rs path r, at_path rs path = None -> r ∈ rs -> path_params (rt_path (snd r)) path = None;
  on_method_Some : forall ms m h, on_method ms m = Some h -> (m, h) ∈ ms \/ (m = HEAD /\ (GET, h) ∈ ms);
  on_method_listed : forall ms m h, (m, h) ∈ ms -> (forall h', (m, h') ∈ ms -> h' = h) -> on_method ms m = Some h;
}.

(** ** A request *)

Inductive Outcome :=
| NoRoute
| Refused (e : Error)
| NoMethod
| Handled (h : Handler) (params : list (string * string)) (limited : bool).

Definition guard (layer : Layer) (auth : AuthState) (upd : Http.UpdateConfig) (req : Request) : result Error unit :=
  match layer with
  | Open => Ok tt
  | DeviceAuth => require_auth auth req
  | UpdateAuth => require_update_auth upd req
  end.

(** A layer is around every method of its routes, the ones they do not have
    included. *)
Definition handle `{Axum} (auth : AuthState) (upd : Http.UpdateConfig) (m : Method) (path : string) (req : Request) : Outcome :=
  match at_path router path with
  | None => match guard fallback_layer auth upd req with Err e => Refused e | Ok _ => NoRoute end
  | Some (layer, r, params) =>
      match guard layer auth upd req with
      | Err e => Refused e
      | Ok _ =>
          match on_method (rt_methods r) m with
          | Some h => Handled h params (rt_limited r)
          | None => NoMethod
          end
      end
  end.

(** ** Which paths are which *)

(** A path both patterns take. *)
Fixpoint clash (ps qs : list Part) : bool :=
  match ps, qs with
  | [], [] => true
  | Lit a :: ps', Lit b :: qs' => String.eqb a b && clash ps' qs'
  | _ :: ps', _ :: qs' => clash ps' qs'
  | _, _ => false
  end.

Lemma take_params_clash ps qs path a b : take_params ps path = Some a -> take_params qs path = Some b -> clash ps qs = true.
Proof.
  revert qs path a b. induction ps as [|p ps IH]; intros qs path a b Ha Hb.
  - destruct path as [|s path]; [|done]. destruct qs as [|[l|n] qs]; done.
  - destruct path as [|s path]; [by destruct p|]. destruct qs as [|q qs]; [done|].
    assert (Hp : exists a', take_params ps path = Some a').
    { destruct p as [l|n]; cbn in Ha; [destruct (String.eqb l s); [eauto|done]|]. destruct (is_empty s); [done|]. destruct (take_params ps path); eauto. }
    assert (Hq : exists b', take_params qs path = Some b').
    { destruct q as [l|n]; cbn in Hb; [destruct (String.eqb l s); [eauto|done]|]. destruct (is_empty s); [done|]. destruct (take_params qs path); eauto. }
    destruct Hp as [a' Hp], Hq as [b' Hq]. pose proof (IH _ _ _ _ Hp Hq) as Hc.
    destruct p as [l|n], q as [l'|n']; cbn; try done. cbn in Ha, Hb.
    destruct (String.eqb_spec l s) as [->|]; [|done]. destruct (String.eqb_spec l' s) as [->|]; [|done]. by rewrite String.eqb_refl.
Qed.

#[export] Instance Layer_eq_dec : EqDecision Layer.
Proof. solve_decision. Defined.
#[export] Instance Route_eq_dec : EqDecision Route.
Proof. solve_decision. Defined.

Definition no_overlap (rs : list (Layer * Route)) : bool :=
  forallb (fun a => forallb (fun b => negb (clash (parts_of (rt_path (snd a))) (parts_of (rt_path (snd b)))) || bool_decide (a = b)) rs) rs.

Lemma router_no_overlap : no_overlap router = true.
Proof. vm_compute. reflexivity. Qed.

Lemma one_route a b path p q :
  a ∈ router -> b ∈ router -> path_params (rt_path (snd a)) path = Some p -> path_params (rt_path (snd b)) path = Some q -> a = b /\ p = q.
Proof.
  intros Ha Hb Hp Hq. pose proof router_no_overlap as Hno. unfold no_overlap in Hno.
  rewrite forallb_forall in Hno. specialize (Hno a (proj1 (list_elem_of_In _ _) Ha)).
  rewrite forallb_forall in Hno. specialize (Hno b (proj1 (list_elem_of_In _ _) Hb)).
  rewrite (take_params_clash _ _ _ _ _ Hp Hq) in Hno. apply bool_decide_eq_true in Hno as <-. split; [done|]. congruence.
Qed.

Lemma methods_once r m h h' : r ∈ router -> (m, h) ∈ rt_methods (snd r) -> (m, h') ∈ rt_methods (snd r) -> h' = h.
Proof.
  intros Hr Hh Hh'.
  assert (Hall : forallb (fun r => forallb (fun a => forallb (fun b => negb (bool_decide (fst a = fst b)) || bool_decide (snd a = snd b)) (rt_methods (snd r))) (rt_methods (snd r))) router = true)
    by (vm_compute; reflexivity).
  rewrite forallb_forall in Hall. specialize (Hall r (proj1 (list_elem_of_In _ _) Hr)).
  rewrite forallb_forall in Hall. specialize (Hall _ (proj1 (list_elem_of_In _ _) Hh)).
  rewrite forallb_forall in Hall. specialize (Hall _ (proj1 (list_elem_of_In _ _) Hh')).
  cbn in Hall. rewrite bool_decide_true in Hall by done. by apply bool_decide_eq_true in Hall.
Qed.

(** ** What a request can reach *)

(** An endpoint: a method and a path of the table. *)
Definition endpoint (layer : Layer) (r : Route) (m : Method) (path : string) (h : Handler) (params : list (string * string)) : Prop :=
  (layer, r) ∈ router /\ (m, h) ∈ rt_methods r /\ path_params (rt_path r) path = Some params.

Definition update_admitted (upd : Http.UpdateConfig) (req : Request) : Prop :=
  upd_enabled upd = true /\ exists t, upd_token upd = Some t /\ t <> "" /\ bearer_token req = Some t.

Definition passes (layer : Layer) (auth : AuthState) (upd : Http.UpdateConfig) (req : Request) : Prop :=
  match layer with Open => True | DeviceAuth => device_admitted auth req | UpdateAuth => update_admitted upd req end.

Lemma require_update_auth_admits upd req : require_update_auth upd req = Ok tt <-> update_admitted upd req.
Proof.
  unfold require_update_auth, update_admitted. destruct (upd_enabled upd); cbn [negb]; [|split; [done|by intros [? _]]].
  destruct (upd_token upd) as [e|]; [|split; [done|by intros (_ & ? & ? & _)]].
  unfold is_empty. destruct (String.eqb_spec e "") as [->|Hne]; [split; [done|by intros (_ & ? & [= <-] & ? & _)]|].
  destruct (bearer_token req) as [t|]; [|split; [done|by intros (_ & ? & _ & _ & ?)]].
  unfold ct_eq. destruct (String.eqb_spec t e) as [->|Hte].
  - rewrite bool_decide_true by done. cbn. split; [|done]. intros _. split; [done|]. by exists e.
  - rewrite andb_false_r. split; [done|]. intros (_ & t' & [= <-] & _ & [= ->]). done.
Qed.

Lemma guard_passes layer auth upd req : guard layer auth upd req = Ok tt <-> passes layer auth upd req.
Proof. destruct layer; cbn; [done|apply require_auth_admits|apply require_update_auth_admits]. Qed.

Section requests.
Context `{AxumLaws}.

Lemma handle_route auth upd m path req layer r params :
  (layer, r) ∈ router -> path_params (rt_path r) path = Some params ->
  handle auth upd m path req =
    match guard layer auth upd req with
    | Err e => Refused e
    | Ok _ => match on_method (rt_methods r) m with Some h => Handled h params (rt_limited r) | None => NoMethod end
    end.
Proof.
  intros Hr Hp. unfold handle. destruct (at_path router path) as [[[layer' r'] params']|] eqn:E.
  - apply at_path_Some in E as [Hr' Hp']. destruct (one_route _ _ _ _ _ Hr' Hr Hp' Hp) as [[= -> ->] ->]. done.
  - apply (at_path_None _ _ _ E) in Hr. cbn in Hr. congruence.
Qed.

(** Which layer each handler is behind, and which take bodies of any size. *)
Lemma behind layer r m h params path : endpoint layer r m path h params ->
  (layer = Open <-> h = Health) /\ (layer = UpdateAuth <-> h ∈ [Update; RollbackHandler; AdminInfo]) /\
  (rt_limited r = false <-> h ∈ [PutSegment; GetSegment; Update]).
Proof.
  intros (Hr & Hm & _).
  assert (Hall : forallb (fun lr => forallb (fun mh =>
      bool_decide ((fst lr = Open <-> snd mh = Health) /\ (fst lr = UpdateAuth <-> snd mh ∈ [Update; RollbackHandler; AdminInfo]) /\
        (rt_limited (snd lr) = false <-> snd mh ∈ [PutSegment; GetSegment; Update]))) (rt_methods (snd lr))) router = true)
    by (vm_compute; reflexivity).
  rewrite forallb_forall in Hall. specialize (Hall _ (proj1 (list_elem_of_In _ _) Hr)). cbn [fst snd] in Hall.
  rewrite forallb_forall in Hall. specialize (Hall _ (proj1 (list_elem_of_In _ _) Hm)). by apply bool_decide_eq_true in Hall.
Qed.

Lemma handled_by auth upd m path req h params limited :
  handle auth upd m path req = Handled h params limited ->
  (exists layer r m', endpoint layer r m' path h params /\ (m' = m \/ (m = HEAD /\ m' = GET))) /\
  (h = Health \/
   (h ∈ [Update; RollbackHandler; AdminInfo] /\ update_admitted upd req) \/
   (h ∉ [Health; Update; RollbackHandler; AdminInfo] /\ device_admitted auth req)) /\
  (limited = false <-> h ∈ [PutSegment; GetSegment; Update]).
Proof.
  intros Hh. unfold handle in Hh. destruct (at_path router path) as [[[layer r] params']|] eqn:E; [|by destruct (guard _ _ _ _)].
  apply at_path_Some in E as [Hr Hp]. cbn in Hp. destruct (guard layer auth upd req) as [[]|e] eqn:Eg; [|done].
  destruct (on_method (rt_methods r) m) as [h'|] eqn:Em; [|done]. injection Hh as -> -> <-.
  assert (He : exists m', endpoint layer r m' path h params /\ (m' = m \/ m = HEAD /\ m' = GET)).
  { apply on_method_Some in Em as [Hin|[-> Hin]]; [by exists m; split; [|left]|by exists GET; split; [|right]]. }
  destruct He as (m' & He & Hm'). destruct (behind _ _ _ _ _ _ He) as (Hopen & Hupd & Hlim).
  split; [by exists layer, r, m'|]. split; [|done]. apply guard_passes in Eg. destruct layer; cbn in Eg.
  + left. by apply Hopen.
  + right. right. split; [|done]. intros [->|Hin]%elem_of_cons; [by discriminate (proj2 Hopen eq_refl)|].
    by discriminate (proj2 Hupd Hin).
  + right. left. split; [by apply Hupd|done].
Qed.

(** A request reaches a handler exactly by the table.  Every endpoint of it
    runs its own handler with the path's parameters when the credentials of its
    layer are there, and answers their refusal whatever the method when they are
    not; a handler that runs is one of the table's for that path, with its method
    (HEAD for GET), and only the health check runs unguarded: the update routes
    take the update token, and everything else a device's credential where the
    server asks for one; and only uploads of segments and of packages, and the download
    beside the former, are without a body limit. *)
Theorem router_spec auth upd m path req :
  (forall layer r h params, endpoint layer r m path h params -> passes layer auth upd req ->
     handle auth upd m path req = Handled h params (rt_limited r)) /\
  (forall layer r params, (layer, r) ∈ router -> path_params (rt_path r) path = Some params -> ~ passes layer auth upd req ->
     exists e, guard layer auth upd req = Err e /\ handle auth upd m path req = Refused e) /\
  (forall h params limited, handle auth upd m path req = Handled h params limited ->
     (exists layer r m', endpoint layer r m' path h params /\ (m' = m \/ (m = HEAD /\ m' = GET))) /\
     (h = Health \/
      (h ∈ [Update; RollbackHandler; AdminInfo] /\ update_admitted upd req) \/
      (h ∉ [Health; Update; RollbackHandler; AdminInfo] /\ device_admitted auth req)) /\
     (limited = false <-> h ∈ [PutSegment; GetSegment; Update])) /\
  ((forall r, r ∈ router -> path_params (rt_path (snd r)) path = None) ->
     handle auth upd m path req = NoRoute \/ exists e, handle auth upd m path req = Refused e).
Proof.
  split; [|split; [|split]].
  - intros layer r h params (Hr & Hm & Hp) Hpass. rewrite (handle_route _ _ _ _ _ _ _ _ Hr Hp), (proj2 (guard_passes _ _ _ _) Hpass).
    rewrite (on_method_listed _ m h Hm); [done|]. intros h' Hh'. by apply (methods_once (layer, r) m).
  - intros layer r params Hr Hp Hno. rewrite (handle_route _ _ _ _ _ _ _ _ Hr Hp).
    destruct (guard layer auth upd req) as [[]|e] eqn:Eg; [|eauto]. by apply guard_passes in Eg.
  - intros h params limited. apply handled_by.
  - intros Hno. unfold handle. destruct (at_path router path) as [[[layer r] params]|] eqn:E.
    2:{ destruct (guard _ _ _ _); eauto. }
    apply at_path_Some in E as [Hr Hp]. rewrite (Hno _ Hr) in Hp. done.
Qed.
End requests.

(** ** A router to test on *)

Definition first_route (rs : list (Layer * Route)) (path : string) : option (Layer * Route * list (string * string)) :=
  match find_first (fun r => bool_decide (is_Some (path_params (rt_path (snd r)) path))) rs with
  | Some r => (fun params => (r, params)) <$> path_params (rt_path (snd r)) path
  | None => None
  end.
Definition first_method (ms : list (Method * Handler)) (m : Method) : option Handler :=
  match find_first (fun x => bool_decide (fst x = m)) ms with
  | Some x => Some (snd x)
  | None => if bool_decide (m = HEAD) then snd <$> find_first (fun x => bool_decide (fst x = GET)) ms else None
  end.
Definition toy_axum : Axum := {| at_path := first_route; on_method := first_method; fallback_layer := DeviceAuth |}.

Lemma toy_axum_laws : @AxumLaws toy_axum.
Proof.
  split; cbn.
  - intros rs path r params. unfold first_route. destruct (find_first _ rs) as [x|] eqn:E; [|done].
    apply find_first_Some in E as [Hx _]. destruct (path_params (rt_path (snd x)) path) eqn:Ep; [|done]. by intros [= <- <-].
  - intros rs path r. unfold first_route. destruct (find_first _ rs) as [x|] eqn:E.
    + apply find_first_Some in E as [_ Hx]. apply bool_decide_eq_true in Hx as [p Hp]. by rewrite Hp.
    + intros _ Hr. rewrite find_first_None in E. specialize (E r Hr). apply bool_decide_eq_false in E.
      destruct (path_params _ _); [|done]. exfalso. eauto.
  - intros ms m h. unfold first_method. destruct (find_first _ ms) as [[m' h']|] eqn:E.
    + apply find_first_Some in E as [Hx Hm]. apply bool_decide_eq_true in Hm. cbn in *. subst m'. intros [= <-]. by left.
    + case_bool_decide as Hm; [|done]. destruct (find_first (fun x => bool_decide (fst x = GET)) ms) as [[m' h']|] eqn:E'; [|done].
      apply find_first_Some in E' as [Hx Hg]. apply bool_decide_eq_true in Hg. cbn in *. subst m'. intros [= <-]. by right.
  - intros ms m h Hin Hone. unfold first_method. destruct (find_first _ ms) as [[m' h']|] eqn:E.
    + apply find_first_Some in E as [Hx Hm]. apply bool_decide_eq_true in Hm. cbn in *. subst m'. f_equal. by apply Hone.
    + rewrite find_first_None in E. specialize (E _ Hin). by apply bool_decide_eq_false in E.
Qed.

Definition locked : AuthState := mkAuthState true {[ "k3y" := "phone" ]} false [].
Definition anonymous : Request := mkRequest (fun _ => None) None.

Lemma router_spec_witness :
  @handle toy_axum locked (mkUpdateConfig false None) GET "/health" anonymous = Handled Health [] true /\
  exists e, @handle toy_axum locked (mkUpdateConfig false None) DELETE "/recordings/7/audio" anonymous = Refused e.
Proof.
  destruct (@router_spec toy_axum toy_axum_laws locked (mkUpdateConfig false None) GET "/health" anonymous) as (Hok & _).
  destruct (@router_spec toy_axum toy_axum_laws locked (mkUpdateConfig false None) DELETE "/recordings/7/audio" anonymous) as (_ & Hno & _).
  split.
  - apply (Hok Open (route "/health" [(GET, Health)]) Health []); [|exact I]. repeat split; [left|left].
  - destruct (Hno DeviceAuth (route "/recordings/{id}/audio" [(GET, GetAudio)]) [("id", "7")]) as (e & _ & He).
    + apply (bool_decide_unpack _). vm_compute. exact I.
    + vm_compute. reflexivity.
    + intros [Hr|[(Ht & _)|(t & Ht & _)]]; [discriminate Hr|discriminate Ht|discriminate Ht].
    + exists e. exact He.
Defined.

(** The same requests with a device's key; HEAD is answered by GET's handler. *)
Example with_key :
  let req := mkRequest (fun h => if String.eqb h "authorization" then Some "Bearer k3y" else None) None in
  @handle toy_axum locked (mkUpdateConfig false None) HEAD "/recordings/7/audio" req = Handled GetAudio [("id", "7")] true /\
  @handle toy_axum locked (mkUpdateConfig false None) DELETE "/recordings/7/audio" req = NoMethod /\
  @handle toy_axum locked (mkUpdateConfig false None) GET "/recordings//audio" req = NoRoute /\
  @handle toy_axum locked (mkUpdateConfig true (Some "t")) POST "/admin/update" req = Refused (Unauthorized "invalid update token").
Proof. vm_compute. repeat split. Qed.
