(* ===== verification/Serve.v ===== *)
(** * Starting the server: [AppState::build] of [state.rs], [serve] of [lib.rs]

    What has to be there before a socket is bound, in which order it is looked
    for, and what the network is told while the server runs.  Connecting to the
    database, the key file and the sockets are parameters; a server that runs
    for ever is one whose [axum_serve] never answers. *)

From Stdlib Require Import Ascii String.
From S2P Require Import Prelude RustStr RustPath Types Llm Stages Cluster Config Http TextEmbed Engine Update Discovery Router.

#[local] Arguments String.append !_ _ /.

(** [Db::connect] *)
Class DbServer := db_connect : Config.DatabaseConfig -> result Error unit.

(** The device key file: whether it is there, its text, and what TOML makes of it. *)
Class KeyFile := {
  key_file_exists : string -> bool;
  read_key_file : string -> result Error string;
  keys_of_toml : string -> result string (list (string * string));
}.

(** ** The state of the handlers *)

Record AppState := mkAppState {
  as_db : Config.DatabaseConfig; as_embedder : Embedder; as_ollama : ChatClient; as_blobs : string;
  as_auth : AuthState; as_cfg : Config.Config;
}.

Section build.
Context `{DbServer} `{KeyFile} `{FastEmbed} `{CharAlnum} `{StrHash}.

Definition build (local_embed : bool) (cfg : Config.Config) : result Error AppState :=
  match db_connect (Config.database cfg) with
  | Err e => Err e
  | Ok _ =>
      match build_embedder local_embed (Config.llm cfg) with
      | Err e => Err e
      | Ok embedder =>
          let ollama := client_from_config (Config.llm cfg) in
          match load_device_keys key_file_exists read_key_file keys_of_toml (Config.device_keys (Config.auth cfg)) with
          | Err e => Err e
          | Ok keys =>
              let auth := mkAuthState (Config.require_device_token (Config.auth cfg)) keys
                (Config.trust_tailscale_identity (Config.auth cfg)) (Config.tailnet_users (Config.auth cfg)) in
              Ok (mkAppState (Config.database cfg) embedder ollama (Config.blobs (Config.storage cfg)) auth cfg)
          end
      end
  end.

(** [build_state] *)
Definition build_state (local_embed : bool) (cfg : Config.Config) : result Error AppState := build local_embed cfg.
End build.

(** What a request meets in a server of this state. *)
Definition respond `{Axum} (st : AppState) : Method -> string -> Request -> Outcome :=
  handle (as_auth st) (mkUpdateConfig (Config.enabled (Config.update (as_cfg st))) (Config.token (Config.update (as_cfg st)))).

(** ** Serving *)

Class Sockets := {
  SocketAddr : Type;
  Listener : Type;
  parse_socket_addr : string -> result string SocketAddr;
  socket_addr_text : SocketAddr -> string;
  tcp_bind : SocketAddr -> result string Listener;
  local_addr : Listener -> result string SocketAddr;
  axum_serve : Listener -> AppState -> result string unit;
}.

Section serve.
Context `{DbServer} `{KeyFile} `{FastEmbed} `{CharAlnum} `{StrHash}.
Context `{Sockets} `{Mdns} `{EnvVar} `{HostnameFile} `{HostOs}.

(** The listener of [api.bind]. *)
Definition listen (bind : string) : result Error Listener :=
  match parse_socket_addr bind with
  | Err e => Err (Types.Config ("invalid api.bind `" +:+ bind +:+ "`: " +:+ e))
  | Ok addr =>
      match tcp_bind addr with
      | Err e => Err (Internal ("binding " +:+ socket_addr_text addr +:+ ": " +:+ e))
      | Ok listener =>
          match local_addr listener with
          | Err e => Err (Internal ("reading local addr: " +:+ e))
          | Ok _ => Ok listener
          end
      end
  end.

(** The advertiser lives as long as the server. *)
Definition serve (local_embed : bool) (cfg : Config.Config) (net : list Announcement) : result Error unit * list Announcement :=
  match build_state local_embed cfg with
  | Err e => (Err e, net)
  | Ok state =>
      match listen (Config.bind (Config.api cfg)) with
      | Err e => (Err e, net)
      | Ok listener =>
          let '(advertiser, net) := advertise cfg net in
          match axum_serve listener state with
          | Err e => (Err (Internal ("server error: " +:+ e)), retract advertiser net)
          | Ok _ => (Ok tt, retract advertiser net)
          end
      end
  end.

(** ** What starting means *)

Lemma build_ok local_embed cfg st : build_state local_embed cfg = Ok st ->
  is_ok (db_connect (Config.database cfg)) = true /\
  build_embedder local_embed (Config.llm cfg) = Ok (as_embedder st) /\
  load_device_keys key_file_exists read_key_file keys_of_toml (Config.device_keys (Config.auth cfg)) = Ok (keys (as_auth st)) /\
  require_device_token (as_auth st) = Config.require_device_token (Config.auth cfg) /\
  trust_tailscale_identity (as_auth st) = Config.trust_tailscale_identity (Config.auth cfg) /\
  tailnet_users (as_auth st) = Config.tailnet_users (Config.auth cfg) /\
  as_blobs st = Config.blobs (Config.storage cfg) /\ as_cfg st = cfg.
Proof.
  unfold build_state, build. destruct (db_connect _); [|done]. destruct (build_embedder _ _); [|done].
  destruct (load_device_keys _ _ _ _); [|done]. by intros [= <-].
Qed.

(** A key is a valid credential exactly when the configured file says so. *)
Lemma loaded_keys path m k : load_device_keys key_file_exists read_key_file keys_of_toml path = Ok m -> is_Some (m !! k) ->
  exists p text table device, path = Some p /\ read_key_file p = Ok text /\ keys_of_toml text = Ok table /\ (device, k) ∈ table.
Proof.
  unfold load_device_keys. destruct path as [p|]; [|intros [= <-] [? Hk]; by rewrite lookup_empty in Hk].
  destruct (key_file_exists p); cbn [negb]; [|intros [= <-] [? Hk]; by rewrite lookup_empty in Hk].
  destruct (read_key_file p) as [text|] eqn:Er; [|done]. destruct (keys_of_toml text) as [table|] eqn:Et; [|done]. intros [= <-] Hk.
  assert (Hgen : forall (m0 : gmap string string), is_Some (foldl (fun keys '(device_id, key) => <[key := device_id]> keys) m0 table !! k) ->
    is_Some (m0 !! k) \/ exists d, (d, k) ∈ table).
  { clear. induction table as [|[d k'] table IH]; intros m0; cbn [foldl]; [by left|]. intros [Hm|(d' & Hd)]%IH.
    - destruct (decide (k' = k)) as [->|Hne]; [right; exists d; by left|]. rewrite lookup_insert_ne in Hm by done. by left.
    - right. exists d'. by right. }
  apply Hgen in Hk as [[? Hk]|(d & Hd)]; [by rewrite lookup_empty in Hk|]. by exists p, text, table, d.
Qed.

(** Starting, step by step.  A database, an embedder of the configured width
    and a readable key file come first, then the listener; if one is missing the
    server does not start, with that step's error, and nothing is announced.
    Once it serves it may have announced itself, and when it stops it has
    retracted exactly what it announced. *)
Theorem serve_spec (local_embed : bool) (cfg : Config.Config) (net : list Announcement) :
  let '(r, net') := serve local_embed cfg net in
  match build_state local_embed cfg, listen (Config.bind (Config.api cfg)) with
  | Err e, _ => r = Err e /\ net' = net
  | Ok _, Err e => r = Err e /\ net' = net
  | Ok st, Ok listener =>
      is_ok (db_connect (Config.database cfg)) = true /\ build_embedder local_embed (Config.llm cfg) = Ok (as_embedder st) /\
      (is_ok r = is_ok (axum_serve listener st)) /\
      (net' = net \/
       advertisable cfg = true /\ exists service, net' = net ++ [Registered service; Unregistered (get_fullname service)])
  end.
Proof.
  unfold serve. destruct (build_state local_embed cfg) as [st|e] eqn:Eb; [|done]. destruct (listen _) as [l|e]; [|done].
  destruct (build_ok _ _ _ Eb) as (Hdb & Hemb & _). destruct (advertise cfg net) as [a net1] eqn:Ea.
  assert (Hnet : retract a net1 = net \/ advertisable cfg = true /\ exists service, retract a net1 = net ++ [Registered service; Unregistered (get_fullname service)]).
  { destruct a as [a|].
    - apply advertise_some in Ea as (Hadv & service & -> & ->). right. split; [done|]. exists service. cbn. by rewrite <- app_assoc.
    - apply advertise_none in Ea as ->. by left. }
  destruct (axum_serve l st) as [u|e]; by repeat split.
Qed.

(** C23: Who is served, in terms of the configuration the server was started
    with.  A request that reaches a handler is for the health check; or carries
    the configured update token, which is not empty, for an update route while
    updates are enabled; or meets a server configured not to ask for device
    tokens; or was vouched for by the tailnet proxy of this machine, which the
    configuration trusts, for a login it allows; or carries a key that the
    configured key file lists. *)
Theorem served_to `{AxumLaws} (local_embed : bool) (cfg : Config.Config) (st : AppState) m path req h params limited :
  build_state local_embed cfg = Ok st -> respond st m path req = Handled h params limited ->
  h = Health \/
  (h ∈ [Router.Update; RollbackHandler; AdminInfo] /\ Config.enabled (Config.update cfg) = true /\
   exists t, Config.token (Config.update cfg) = Some t /\ t <> "" /\ bearer_token req = Some t) \/
  Config.require_device_token (Config.auth cfg) = false \/
  (Config.trust_tailscale_identity (Config.auth cfg) = true /\ (exists a, peer req = Some a /\ is_loopback a = true) /\
   exists v, header req TAILSCALE_USER_LOGIN = Some v /\ trim v <> "" /\
     (Config.tailnet_users (Config.auth cfg) = [] \/
      exists u, u ∈ Config.tailnet_users (Config.auth cfg) /\ eq_ignore_ascii_case u (trim v) = true)) \/
  exists k p text table device, bearer_token req = Some k /\ Config.device_keys (Config.auth cfg) = Some p /\
    read_key_file p = Ok text /\ keys_of_toml text = Ok table /\ (device, k) ∈ table.
Proof.
  intros Hb Hr. destruct (build_ok _ _ _ Hb) as (_ & _ & Hkeys & Hreq & Htrust & Husers & _ & Hcfg).
  unfold respond in Hr. rewrite Hcfg in Hr. apply handled_by in Hr as (_ & [->|[(Hin & Hen & Ht)|(_ & [Hoff|[Hv|(k & Hbt & _ & Hk)]])]] & _).
  - by left.
  - right. left. by split; [|split].
  - right. right. left. congruence.
  - right. right. right. left. unfold vouched in Hv. by rewrite Htrust, Husers in Hv.
  - right. right. right. right. destruct (loaded_keys _ _ _ Hkeys Hk) as (p & text & table & device & ?). by exists k, p, text, table, device.
Qed.
End serve.

(** ** A server that was started *)

Definition any_db : DbServer := fun _ => Ok tt.
Definition one_key : KeyFile := {|
  key_file_exists _ := true; read_key_file _ := Ok "phone = k3y"; keys_of_toml _ := Ok [("phone", "k3y")];
|}.
Definition every_char : CharAlnum := fun _ => true.

Definition locked_config : Config.Config :=
  let c := Config.default_config in
  Config.mkConfig (Config.database c) (Config.storage c) (Config.api c) (Config.mkAuth (Some "/etc/scribe/keys.toml") true false [])
    (Config.asr c) (Config.worker c) (Config.llm c) (Config.update c).
Definition locked_server : result Error AppState := @build_state any_db one_key (toy_fast 768) every_char byte_sum false locked_config.
Definition key_request : Request := mkRequest (fun h => if String.eqb h "authorization" then Some "Bearer k3y" else None) None.

Lemma locked_server_starts : is_ok locked_server = true.
Proof. vm_compute. reflexivity. Qed.

Lemma served_to_witness :
  exists k p text table device, bearer_token key_request = Some k /\
    Config.device_keys (Config.auth locked_config) = Some p /\
    @read_key_file one_key p = Ok text /\ @keys_of_toml one_key text = Ok table /\ (device, k) ∈ table.
Proof.
  pose proof locked_server_starts as Hs. destruct locked_server as [st|e] eqn:Eb; [|discriminate Hs].
  unfold locked_server in Eb. destruct (build_ok _ _ _ Eb) as (_ & _ & Hkeys & Hreq & Htrust & Husers & _ & Hcfg).
  assert (Hauth : as_auth st = mkAuthState true {[ "k3y" := "phone" ]} false []).
  { destruct (as_auth st) as [q ks tr us]. cbn in *. subst q tr us. cbn in Hkeys. injection Hkeys as <-. reflexivity. }
  assert (Hr : @respond toy_axum st GET "/recordings/7/audio" key_request = Handled GetAudio [("id", "7")] true).
  { unfold respond. rewrite Hauth, Hcfg. vm_compute. reflexivity. }
  destruct (@served_to any_db one_key (toy_fast 768) every_char byte_sum toy_axum toy_axum_laws false locked_config st
    GET "/recordings/7/audio" key_request GetAudio [("id", "7")] true Eb Hr) as [Hh|[(Hin & _)|[Ho|[(Ht & _)|Hk]]]].
  - discriminate Hh.
  - exfalso. revert Hin. apply (bool_decide_unpack (GetAudio ∉ [Router.Update; RollbackHandler; AdminInfo])). vm_compute. exact I.
  - discriminate Ho.
  - discriminate Ht.
  - exact Hk.
Defined.
