(* ===== verification/Console.v ===== *)
(** * What the command line prints

    A command acts on a state of its own kind and appends lines to the two
    streams of the terminal; its error is the text [anyhow] displays.  Padding
    and fixed-point printing are those of [std::fmt]. *)

From Stdlib Require Import Ascii String.
From S2P Require Import Prelude RustStr Types.

#[local] Arguments String.append !_ _ /.

Record Term (S : Type) := mkTerm { t_state : S; t_out : list string; t_err : list string }.
Arguments mkTerm {S} _ _ _.
Arguments t_state {S} _.
Arguments t_out {S} _.
Arguments t_err {S} _.

Notation TermM S := (M (Term S) string).

Section term.
Context {S : Type}.

Definition println (s : string) : TermM S unit := fun t => (Ok tt, mkTerm (t_state t) (t_out t ++ [s]) (t_err t)).
Definition eprintln (s : string) : TermM S unit := fun t => (Ok tt, mkTerm (t_state t) (t_out t) (t_err t ++ [s])).
Definition print_all (l : list string) : TermM S unit := mfor l println.

(** An operation of the program, its error taken as text. *)
Definition lift {E A} (to_text : E -> string) (m : M S E A) : TermM S A := fun t =>
  let '(r, s) := m (t_state t) in
  (match r with Ok a => Ok a | Err e => Err (to_text e) end, mkTerm s (t_out t) (t_err t)).

Definition look {A} (f : S -> A) : TermM S A := fun t => (Ok (f (t_state t)), t).
Definition bail {A} (e : string) : TermM S A := fail_with e.
End term.

Lemma print_all_eq {S} l (t : Term S) : print_all l t = (Ok tt, mkTerm (t_state t) (t_out t ++ l) (t_err t)).
Proof.
  revert t. induction l as [|x l IH]; intros t.
  - rewrite app_nil_r. by destruct t.
  - change (print_all (x :: l) t) with (print_all l (snd (println x t))). rewrite IH. cbn. by rewrite <- app_assoc.
Qed.

(** What was on the terminal stays there. *)
Definition appends {S} (t t' : Term S) : Prop := exists out err, t_out t' = t_out t ++ out /\ t_err t' = t_err t ++ err.

#[export] Instance appends_preorder {S} : PreOrder (@appends S).
Proof.
  split.
  - intros t. exists [], []. by rewrite !app_nil_r.
  - intros a b c (o & e & Ho & He) (o' & e' & Ho' & He'). exists (o ++ o'), (e ++ e'). by rewrite Ho', He', Ho, He, !app_assoc.
Qed.

#[export] Instance println_appends {S} s : Steps (@appends S) (println s).
Proof. intros t. exists [s], []. by rewrite app_nil_r. Qed.
#[export] Instance eprintln_appends {S} s : Steps (@appends S) (eprintln s).
Proof. intros t. exists [], [s]. by rewrite app_nil_r. Qed.
#[export] Instance lift_appends {S E A} (f : E -> string) (m : M S E A) : Steps (@appends S) (lift f m).
Proof. intros t. unfold lift. destruct (m (t_state t)). exists [], []. by rewrite !app_nil_r. Qed.
#[export] Instance look_appends {S A} (f : S -> A) : Steps (@appends S) (look f).
Proof. intros t. cbn. reflexivity. Qed.

(** ** [std::fmt] *)

Fixpoint spaces (n : nat) : string := match n with O => "" | S n' => String " " (spaces n') end.
Definition missing_to (w : Z) (s : string) : nat := Z.to_nat (w - char_count s).

(** [{:<w$}] and [{:>w$}] *)
Definition pad_right (w : Z) (s : string) : string := s +:+ spaces (missing_to w s).
Definition pad_left (w : Z) (s : string) : string := spaces (missing_to w s) +:+ s.

(** [{:02}] *)
Definition two_digits (n : Z) : string :=
  if n <? 0 then pretty n else (if n <? 10 then "0" else "") +:+ pretty n.

(** [n as f64] for a [u64], an integer again. *)
Definition half_even (num den : Z) : Z :=
  let q := num / den in let r := num mod den in
  if (2 * r <? den) || ((2 * r =? den) && Z.even q) then q else q + 1.
Definition as_f64 (n : Z) : Z :=
  let shift := Z.log2 n - 52 in if 0 <? shift then half_even n (2 ^ shift) * 2 ^ shift else n.

(** [{:.d$}] of a number at least zero that is [num / den]: exact, ties to even. *)
Definition fixed_point (d : nat) (num den : Z) : string :=
  let scale := 10 ^ Z.of_nat d in
  let q := half_even (num * scale) den in
  match d with
  | O => pretty q
  | _ => pretty (q / scale) +:+ "." +:+ (let f := pretty (q mod scale) in zeros (d - String.length f) +:+ f)
  end.

Example fmt_examples :
  pad_right 5 "ab" = "ab   " /\ pad_left 4 "x" = "   x" /\ two_digits 7 = "07" /\
  fixed_point 0 5 2 = "2" /\ fixed_point 2 2435420160 (2 ^ 30) = "2.27" /\ fixed_point 2 1 1 = "1.00".
Proof. vm_compute. repeat split. Qed.
