(* ===== verification/Pull.v ===== *)
(** * The model commands: [crates/scribe-cli/src/models.rs]

    What a models directory should hold, what of it is there, and the download
    of the rest.  The server, the file calls ([BlobFs] of [Api]) and what a
    directory listing shows are parameters; paths are text. *)

From Stdlib Require Import Ascii String.
From S2P Require Import Prelude RustStr Types RustPath Llm Stages Api Models Config Console.

#[local] Arguments String.append !_ _ /.

Definition PARAKEET : string := "parakeet-tdt-0.6b-v3".
Definition WHISPER_TURBO : string := "whisper-large-v3-turbo".

(** How the files there are look to the search for models. *)
Class Tree := tree : Files -> FileTree.

Definition debug_provider (p : LlmProvider) : string := match p with Ollama => "Ollama" | Openai => "Openai" end.
Definition debug_bool (b : bool) : string := if b then "true" else "false".

(** ** What is there *)

Record Asset := mkAsset { as_label : string; as_path : string; as_present : bool }.

Section assets.
Context `{FileTree}.

Definition new_asset (label path : string) : Asset := mkAsset label path (path_exists path).
Definition mark (a : Asset) : string := if as_present a then "[present]" else "[missing]".

Definition expected_assets (models_dir : string) : list Asset :=
  let asr := storage.path_join models_dir "asr" in
  let diar := storage.path_join models_dir "diarization" in
  [new_asset "asr/encoder.onnx" (storage.path_join asr "encoder.onnx");
   new_asset "asr/decoder.onnx" (storage.path_join asr "decoder.onnx");
   new_asset "asr/joiner.onnx" (storage.path_join asr "joiner.onnx");
   new_asset "asr/tokens.txt" (storage.path_join asr "tokens.txt");
   new_asset "diarization/segmentation.onnx" (storage.path_join diar "segmentation.onnx");
   new_asset "diarization/embedding.onnx" (storage.path_join diar "embedding.onnx")].

Definition asr_ready (dir : string) : bool := bool_decide (is_Some (discover dir)).
Definition diar_found (dir : string) : bool := bool_decide (is_Some (discover_diarization dir)).
End assets.

Definition ready_or_stub (b : bool) : string := if b then "ready" else "not found (stub engine will be used)".

Section list_models.
Context `{Tree}.

(** [list] *)
Definition list_lines (cfg : Config.Config) (fs : Files) : list string :=
  let dir := Config.models_dir (Config.worker cfg) in
  let llm := Config.llm cfg in
  ["models_dir: " +:+ dir; ""; "ONNX assets (sherpa-onnx):"] ++
  map (fun a => "  " +:+ pad_right 9 (mark a) +:+ " " +:+ pad_right 30 (as_label a) +:+ " " +:+ as_path a)
    (@expected_assets (tree fs) dir) ++
  [""; "  ASR model:         " +:+ ready_or_stub (@asr_ready (tree fs) dir);
   "  Diarization model: " +:+ ready_or_stub (@diar_found (tree fs) dir);
   ""; "LLM server (configured):";
   "  provider:        " +:+ debug_provider (Config.provider llm);
   "  base_url:        " +:+ Config.base_url llm;
   "  summarize_model: " +:+ Config.summarize_model llm;
   "  embed_model:     " +:+ Config.embed_model llm +:+ "  (dim " +:+ pretty (Config.embed_dim llm) +:+ ")";
   "";
   "ASR config: model `" +:+ Config.model (Config.asr cfg) +:+ "`, diarization " +:+ debug_bool (Config.diarization (Config.asr cfg))].

Definition list_models (cfg : Config.Config) : TermM Files unit :=
  lines ← look (list_lines cfg);
  print_all lines.
End list_models.

(** ** What to fetch *)

Record Download := mkDownload { dl_label : string; dl_url : string; dl_dest : string; dl_bytes : Z }.

Definition hf (repo file : string) : string := "https://huggingface.co/" +:+ repo +:+ "/resolve/main/" +:+ file.

(** Remote name, local name, size. *)
Definition asr_recipe (model : string) : list (string * string * Z) :=
  if String.eqb model PARAKEET then
    [("encoder.onnx", "encoder.onnx", 41766257);
     ("encoder.weights", "encoder.weights", 2435420160);
     ("decoder.onnx", "decoder.onnx", 47233743);
     ("joiner.onnx", "joiner.onnx", 25286330);
     ("tokens.txt", "tokens.txt", 93939)]
  else if String.eqb model WHISPER_TURBO then
    [("turbo-encoder.onnx", "encoder.onnx", 735920);
     ("turbo-decoder.onnx", "decoder.onnx", 636209532);
     ("turbo-tokens.txt", "tokens.txt", 816730);
     ("turbo-encoder.weights", "turbo-encoder.weights", 2600325120)]
  else [].

Definition plan_asr (dir model : string) : list Download :=
  let repo := if String.eqb model PARAKEET then "csukuangfj/sherpa-onnx-nemo-parakeet-tdt-0.6b-v3"
              else "csukuangfj/sherpa-onnx-whisper-turbo" in
  let asr_dir := storage.path_join (storage.path_join dir "asr") model in
  map (fun '(remote, local, bytes) =>
    mkDownload ("asr/" +:+ model +:+ "/" +:+ local) (hf repo remote) (storage.path_join asr_dir local) bytes) (asr_recipe model).

Definition plan_diarization (dir : string) : list Download :=
  let diar := storage.path_join dir "diarization" in
  [mkDownload "diarization/segmentation.onnx" (hf "csukuangfj/sherpa-onnx-pyannote-segmentation-3-0" "model.onnx")
     (storage.path_join diar "segmentation.onnx") 5992913;
   mkDownload "diarization/embedding.onnx"
     "https://github.com/k2-fsa/sherpa-onnx/releases/download/speaker-recongition-models/3dspeaker_speech_eres2net_sv_en_voxceleb_16k.onnx"
     (storage.path_join diar "embedding.onnx") 26485263].

Definition plan (cfg : Config.Config) : list Download :=
  let dir := Config.models_dir (Config.worker cfg) in
  plan_asr dir (Config.model (Config.asr cfg)) ++
  (if Config.diarization (Config.asr cfg) then plan_diarization dir else []).

Definition MB : Z := 1024 * 1024.

Definition human (bytes : Z) : string :=
  let b := as_f64 bytes in
  if b <? MB then fixed_point 0 b 1024 +:+ " KB"
  else if b <? 1024 * MB then fixed_point 0 b MB +:+ " MB"
  else fixed_point 2 b (1024 * MB) +:+ " GB".

(** ** One file *)

(** The server's answer: a status, the length it announces, and the pieces of
    the body until the connection ends or fails. *)
Record GetResponse := mkGetResponse { gr_status : Z; gr_length : option Z; gr_chunks : list (result string (list N)) }.

Class ModelServer := {
  client_built : result string unit;
  http_get : string -> result string GetResponse;
  (** [error_for_status]'s text. *)
  status_text : string -> Z -> string;
  sync_all : Files -> string -> result string unit;
}.

Section fetch.
Context `{BlobFs} `{ModelServer}.
Notation PullM := (TermM Files).

Definition of_files {A} (f : Files -> result string A * Files) : PullM A := lift (fun e => e) f.

(** A call that only answers, one that changes the files when it succeeds, and
    one whose failure leaves its mark. *)
Definition ask_files (f : Files -> result string unit) : PullM unit := of_files (fun fs => (f fs, fs)).
Definition step_files (f : Files -> result string Files) : PullM unit :=
  of_files (fun fs => match f fs with Ok fs' => (Ok tt, fs') | Err e => (Err e, fs) end).
Definition remove_part (part : string) : PullM unit := of_files (fun fs => (Ok tt, fs_remove_file fs part)).

Definition REPORT_EVERY : Z := 64 * 1024 * 1024.

Definition progress (expected : option Z) (written : Z) : string :=
  match expected with
  | Some total =>
      if 0 <? total then "      " +:+ human written +:+ " / " +:+ human total +:+ " (" +:+ pretty (written * 100 / total) +:+ "%)"
      else "      " +:+ human written
  | None => "      " +:+ human written
  end.

(** The loop over the stream. *)
Fixpoint receive (part : string) (expected : option Z) (chunks : list (result string (list N))) (written next_report : Z) : PullM Z :=
  match chunks with
  | [] =>
      _ ← ask_files (fun fs => fs_flush fs part);
      _ ← ask_files (fun fs => sync_all fs part);
      mret written
  | Err e :: _ => bail e
  | Ok chunk :: chunks' =>
      _ ← of_files (fun fs => fs_write_all fs part chunk);
      let written := written + Z.of_nat (length chunk) in
      if next_report <=? written then
        _ ← println (progress expected written);
        receive part expected chunks' written (written + REPORT_EVERY)
      else receive part expected chunks' written next_report
  end.

Definition sent (url : string) : PullM GetResponse :=
  match http_get url with
  | Err e => bail e
  | Ok resp => if (400 <=? gr_status resp) && (gr_status resp <? 600) then bail (status_text url (gr_status resp)) else mret resp
  end.

Definition make_parent (d : Download) : PullM unit :=
  match parent (dl_dest d) with Some dir => ask_files (fun fs => fs_create_dir_all fs dir) | None => mret tt end.

Definition size_note (d : Download) (resp : GetResponse) : PullM unit :=
  match gr_length resp with
  | Some len =>
      if len =? dl_bytes d then mret tt
      else println ("      note: upstream serves " +:+ human len +:+ " (recipe expected " +:+ human (dl_bytes d) +:+ ") — using upstream.")
  | None => mret tt
  end.

(** [fetch] up to the file it writes. *)
Definition prepare (d : Download) : PullM GetResponse :=
  _ ← make_parent d;
  resp ← sent (dl_url d);
  _ ← size_note d resp;
  mret resp.

(** [fetch] from there on. *)
Definition store (d : Download) (resp : GetResponse) : PullM unit :=
  let expected := gr_length resp in
  let part := with_extension (dl_dest d) "part" in
  _ ← step_files (fun fs => fs_create fs part);
  received ← attempt (receive part expected (gr_chunks resp) 0 REPORT_EVERY);
  match received with
  | Err e => _ ← remove_part part; bail e
  | Ok written =>
      if match expected with Some total => negb (written =? total) | None => false end then
        _ ← remove_part part;
        bail ("truncated download: got " +:+ pretty written +:+ " of " +:+ pretty (default 0 expected) +:+ " bytes")
      else
        _ ← step_files (fun fs => fs_rename fs part (dl_dest d));
        println ("      ok  " +:+ dl_dest d +:+ " (" +:+ human written +:+ ")")
  end.

Definition fetch (d : Download) : PullM unit :=
  resp ← prepare d;
  store d resp.

(** The loop over what is to be downloaded: false at the first failure. *)
Fixpoint fetch_all (i n : Z) (todo : list Download) : PullM bool :=
  match todo with
  | [] => mret true
  | d :: todo' =>
      _ ← println ("[" +:+ pretty i +:+ "/" +:+ pretty n +:+ "] " +:+ dl_label d +:+ " …");
      r ← attempt (fetch d);
      match r with
      | Err e =>
          _ ← eprintln ("      failed: " +:+ e);
          _ ← eprintln ("      source: " +:+ dl_url d);
          mret false
      | Ok _ => fetch_all (i + 1) n todo'
      end
  end.

(** ** All of them *)

Context `{Tree}.

Definition guidance_lines (cfg : Config.Config) (asr diar : bool) : list string :=
  let dir := Config.models_dir (Config.worker cfg) in
  let enabled := Config.diarization (Config.asr cfg) in
  let llm := Config.llm cfg in
  ["ASR model:         " +:+ (if asr then "ready" else "MISSING");
   "Diarization model: " +:+ (if negb enabled then "disabled in config" else if diar then "ready" else "MISSING")] ++
  (if asr then [] else
    [""; "Fetch the ASR checkpoint by hand and unpack it into " +:+ dir +:+ "/asr/:";
     "  https://github.com/k2-fsa/sherpa-onnx/releases  (tag: asr-models)";
     "  expected files: encoder/decoder/joiner .onnx (or .int8.onnx) + tokens.txt";
     "  see models/README.md for the per-model layout."]) ++
  (if enabled && negb diar then
    [""; "Fetch the diarization models into " +:+ dir +:+ "/diarization/:";
     "  segmentation.onnx — pyannote-segmentation-3.0";
     "  embedding.onnx    — a 192-dim speaker-embedding extractor"] else []) ++
  [""; "LLM models are managed by the LLM server, not this directory:";
   "  ollama pull " +:+ Config.summarize_model llm;
   "  embeddings: `" +:+ Config.embed_model llm +:+ "` (dim " +:+ pretty (Config.embed_dim llm) +:+ ") — fastembed downloads this on first use"].

Definition manual_guidance (cfg : Config.Config) : PullM bool :=
  let dir := Config.models_dir (Config.worker cfg) in
  asr ← look (fun fs => @asr_ready (tree fs) dir);
  diar ← look (fun fs => negb (Config.diarization (Config.asr cfg)) || @diar_found (tree fs) dir);
  _ ← print_all (guidance_lines cfg asr diar);
  mret (asr && diar).

Definition recipe_note (cfg : Config.Config) (all : list Download) : PullM unit :=
  if existsb (fun d => bool_decide (is_Some (strip_prefix "asr/" (dl_label d)))) all then mret tt
  else
    _ ← println ("note: no download recipe for `[asr].model = " +:+ Config.model (Config.asr cfg) +:+ "`.");
    _ ← println ("      automatic recipes exist for `" +:+ PARAKEET +:+ "` and `" +:+ WHISPER_TURBO +:+ "`.");
    println "".

Definition finish (cfg : Config.Config) : PullM bool := _ ← println ""; manual_guidance cfg.

Definition download_all (cfg : Config.Config) (dry_run : bool) (todo : list Download) : PullM bool :=
  let n := Z.of_nat (length todo) in
  _ ← println ("to download: " +:+ pretty n +:+ " file(s), about " +:+ human (zsum (map dl_bytes todo)));
  _ ← print_all (map (fun d => "  " +:+ pad_right 44 (dl_label d) +:+ " " +:+ pad_left 9 (human (dl_bytes d))) todo);
  _ ← println "";
  if dry_run then _ ← println "--dry-run: nothing was downloaded."; mret true
  else
    match client_built with
    | Err e => _ ← eprintln ("error: could not build HTTP client: " +:+ e); mret false
    | Ok _ =>
        ok ← fetch_all 1 n todo;
        if negb ok then mret false
        else
          _ ← println "";
          _ ← println ("downloaded " +:+ pretty n +:+ " file(s).");
          finish cfg
    end.

Definition pull (cfg : Config.Config) (force dry_run : bool) : PullM bool :=
  _ ← println ("models_dir: " +:+ Config.models_dir (Config.worker cfg));
  _ ← println "";
  match plan cfg with
  | [] =>
      _ ← println ("no download recipe for `[asr].model = " +:+ Config.model (Config.asr cfg) +:+ "`.");
      finish cfg
  | all =>
      _ ← recipe_note cfg all;
      todo ← look (fun fs => bfilter (fun d => force || negb (@path_exists (tree fs) (dl_dest d))) all);
      match todo with
      | [] =>
          _ ← println "all model assets are already present — nothing to download.";
          _ ← println "(re-download with `scribe models pull --force`)";
          finish cfg
      | _ => download_all cfg dry_run todo
      end
  end.
End fetch.
