(* ===== verification/PullProps.v ===== *)
(** * What a pull leaves behind

    One download changes its destination and nothing but its destination, and
    only by a whole file; when a pull succeeds, the worker finds every model its
    configuration names. *)

From Stdlib Require Import Ascii String.
From S2P Require Import Prelude RustStr Types RustPath Llm Stages Api Models Config Console Pull.

#[local] Arguments String.append !_ _ /.

#[export] Instance steps_attempt {S E A} (R : S -> S -> Prop) (m : M S E A) : Steps R m -> Steps R (attempt m : M S E (result E A)).
Proof. intros Hm s. specialize (Hm s). unfold attempt. by destruct (m s). Qed.

(** Only the files [P] names change. *)
Definition only (P : string -> Prop) (t t' : Term Files) : Prop := forall q, ~ P q -> t_state t' !! q = t_state t !! q.

#[export] Instance only_preorder P : PreOrder (only P).
Proof. split; [by intros t q|]. intros a b c Hab Hbc q Hq. by rewrite (Hbc q Hq), (Hab q Hq). Qed.

#[export] Instance only_println P s : Steps (only P) (println s).
Proof. by intros t q. Qed.
#[export] Instance only_eprintln P s : Steps (only P) (eprintln s).
Proof. by intros t q. Qed.
#[export] Instance only_bail P A e : Steps (only P) (bail e : TermM Files A).
Proof. by intros t q. Qed.
#[export] Instance only_look {A} P (f : Files -> A) : Steps (only P) (look f).
Proof. by intros t q. Qed.
#[export] Instance only_print_all P l : Steps (only P) (print_all l).
Proof. unfold print_all. apply _. Qed.

Section one_file.
Context `{BlobFsLaws} `{ModelServer}.

#[export] Instance only_ask P f : Steps (only P) (ask_files f).
Proof. by intros t q. Qed.

Lemma only_step (P : string -> Prop) f :
  (forall fs fs', f fs = Ok fs' -> forall q, ~ P q -> fs' !! q = fs !! q) -> Steps (only P) (step_files f).
Proof.
  intros Hf t q Hq. unfold step_files, of_files, lift. destruct (f (t_state t)) as [fs|] eqn:E; cbn; [by eapply Hf|done].
Qed.

Lemma only_write (P : string -> Prop) part bs : P part -> Steps (only P) (of_files (fun fs => fs_write_all fs part bs)).
Proof.
  intros Hp t q Hq. unfold of_files, lift. pose proof (write_other (t_state t) part bs q) as Hw.
  destruct (fs_write_all (t_state t) part bs). cbn in *. apply Hw. by intros ->.
Qed.

Lemma only_remove (P : string -> Prop) part : P part -> Steps (only P) (remove_part part).
Proof. intros Hp t q Hq. cbn. apply remove_other. by intros ->. Qed.

Lemma only_receive (P : string -> Prop) part expected chunks written next : P part -> Steps (only P) (receive part expected chunks written next).
Proof.
  intros Hp. revert written next. induction chunks as [|[c|e] chunks IH]; intros written next; cbn [receive]; [apply _| |apply _].
  apply steps_bind; [apply _|by apply only_write|]. intros _. cbn zeta. apply steps_if; [|apply IH]. apply steps_bind; [apply _|apply _|]. intros _. apply IH.
Qed.

(** A stream that was received is in the file, after what was there. *)
Lemma receive_ok part expected chunks written next t t' n old :
  t_state t !! part = Some old -> receive part expected chunks written next t = (Ok n, t') ->
  exists data, chunks = map Ok data /\ t_state t' !! part = Some (old ++ concat data) /\ n = written + Z.of_nat (length (concat data)).
Proof.
  revert written next t old. induction chunks as [|[c|e] chunks IH]; intros written next t old Hold Hr; cbn [receive] in Hr.
  - exists []. cbn. rewrite app_nil_r, Z.add_0_r. unfold ask_files, of_files, lift, mbind, M_bind in Hr.
    destruct (fs_flush _ _); [|done]. cbn in Hr. destruct (sync_all _ _); [|done]. cbn in Hr. by injection Hr as <- <-.
  - unfold mbind, M_bind in Hr. unfold of_files at 1, lift in Hr.
    destruct (fs_write_all (t_state t) part c) as [[u|e] fs] eqn:Ew; [|done]. destruct u. apply (write_law _ _ _ _ _ Hold) in Ew. subst fs.
    assert (Hgo : forall w nx (u : Term Files), t_state u = <[part := old ++ c]> (t_state t) -> receive part expected chunks w nx u = (Ok n, t') ->
      exists data, chunks = map Ok data /\ t_state t' !! part = Some ((old ++ c) ++ concat data) /\ n = w + Z.of_nat (length (concat data))).
    { intros w nx u Hu Hru. eapply (IH w nx u); [by rewrite Hu, lookup_insert_eq|exact Hru]. }
    assert (exists w nx u, w = written + Z.of_nat (length c) /\ t_state u = <[part := old ++ c]> (t_state t) /\ receive part expected chunks w nx u = (Ok n, t'))
      as (w & nx & u & -> & Hu & Hru).
    { cbn zeta in Hr. destruct (next <=? _); [|eexists _, _, _; split; [done|split; [|exact Hr]]; done].
      unfold println in Hr. cbn in Hr. eexists _, _, _. split; [done|]. split; [|exact Hr]. done. }
    destruct (Hgo _ _ _ Hu Hru) as (data & -> & Hf & ->). exists (c :: data). cbn. rewrite app_assoc. split; [done|]. split; [done|].
    rewrite length_app. lia.
  - done.
Qed.

Lemma prepare_files d : Steps (only (fun _ => False)) (prepare d).
Proof.
  unfold prepare. apply steps_bind; [apply _|unfold make_parent; destruct (parent _); apply _|]. intros _.
  apply steps_bind; [apply _| |].
  - unfold sent. destruct (http_get _) as [resp|]; [|apply _]. apply steps_if; [apply _|apply steps_ret, _].
  - intros resp. apply steps_bind; [apply _| |intros _; apply steps_ret, _].
    unfold size_note. destruct (gr_length resp) as [len|]; [|apply steps_ret, _]. apply steps_if; [apply steps_ret, _|apply _].
Qed.

Lemma prepare_resp d t resp t' : prepare d t = (Ok resp, t') -> http_get (dl_url d) = Ok resp.
Proof.
  unfold prepare, mbind, M_bind. destruct (make_parent d t) as [[[]|e] t1]; [|done].
  unfold sent. destruct (http_get _) as [r|]; [|done]. destruct (_ && _); [done|]. cbn.
  destruct (size_note d r t1) as [[]]; [|done]. by intros [= <- _].
Qed.

Lemma receive_to part expected chunks t :
  Steps (only (fun q => q = part)) (attempt (receive part expected chunks 0 REPORT_EVERY) : TermM Files _) ->
  forall r t', receive part expected chunks 0 REPORT_EVERY t = (r, t') -> forall q, q <> part -> t_state t' !! q = t_state t !! q.
Proof. intros Hs r t' Hr q Hq. specialize (Hs t q Hq). unfold attempt in Hs. by rewrite Hr in Hs. Qed.

Lemma store_spec d resp t t' r :
  let part := with_extension (dl_dest d) "part" in
  part <> dl_dest d -> store d resp t = (r, t') ->
  (forall q, q <> part -> q <> dl_dest d -> t_state t' !! q = t_state t !! q) /\
  match r with
  | Err _ => t_state t' !! dl_dest d = t_state t !! dl_dest d
  | Ok _ => exists data, gr_chunks resp = map Ok data /\
      t_state t' !! dl_dest d = Some (concat data) /\ t_state t' !! part = None /\
      (forall len, gr_length resp = Some len -> Z.of_nat (length (concat data)) = len)
  end.
Proof.
  intros part Hne Hs. unfold store in Hs. cbn zeta in Hs. fold part in Hs. unfold mbind at 1, M_bind at 1 in Hs.
  unfold step_files at 1, of_files, lift in Hs. destruct (fs_create (t_state t) part) as [fs|e] eqn:Ec; [|by injection Hs as <- <-].
  apply create_law in Ec. subst fs. unfold mbind at 1, M_bind at 1, attempt in Hs.
  match type of Hs with context [receive part ?x ?c ?w ?n ?u] => destruct (receive part x c w n u) as [rr t1] eqn:Er; set (t0 := u) in * end.
  assert (Hk : forall q, q <> part -> t_state t1 !! q = t_state t !! q).
  { intros q Hq. rewrite (receive_to part _ _ t0 (steps_attempt _ _ (only_receive _ part _ _ _ _ eq_refl)) _ _ Er q Hq). cbn. by rewrite lookup_insert_ne. }
  assert (Hrm : forall A (e : string), (_ ← remove_part part; bail e : TermM Files A) t1 = (Err e, snd (remove_part part t1)) /\
    forall q, q <> part -> t_state (snd (remove_part part t1)) !! q = t_state t1 !! q).
  { intros A e. split; [done|]. intros q Hq. cbn. by apply remove_other. }
  destruct rr as [n|e].
  2:{ rewrite (proj1 (Hrm unit e)) in Hs. injection Hs as <- <-. split; [|rewrite (proj2 (Hrm unit e)) by done; by rewrite Hk].
      intros q Hq _. rewrite (proj2 (Hrm unit e)) by done. by rewrite Hk. }
  destruct (receive_ok part _ _ _ _ t0 t1 n [] (lookup_insert_eq _ _ _) Er) as (data & Hd & Hc & Hn). cbn [app] in Hc.
  destruct (match gr_length resp with Some _ => _ | None => _ end) eqn:El.
  { match type of Hs with context [bail ?e] => rewrite (proj1 (Hrm unit e)) in Hs end. injection Hs as <- <-.
    split; [intros q Hq _; rewrite (proj2 (Hrm unit "")) by done; by rewrite Hk|]. rewrite (proj2 (Hrm unit "")) by done. by rewrite Hk. }
  unfold mbind, M_bind, step_files, of_files, lift in Hs. destruct (fs_rename (t_state t1) part (dl_dest d)) as [fs|e] eqn:Ern.
  2:{ injection Hs as <- <-. cbn. split; [by intros q Hq _; rewrite Hk|by rewrite Hk]. }
  apply (rename_law _ _ _ _ _ Hc) in Ern. subst fs. unfold println in Hs. injection Hs as <- <-. cbn. split.
  - intros q Hq Hq'. rewrite lookup_insert_ne, lookup_delete_ne by done. by apply Hk.
  - exists data. split; [done|]. rewrite lookup_insert_eq, lookup_insert_ne, lookup_delete_eq by done. split; [done|]. split; [done|].
    intros len Hlen. rewrite Hlen in El. apply negb_false_iff, Z.eqb_eq in El. lia.
Qed.

Lemma fetch_cases d t t' r :
  let part := with_extension (dl_dest d) "part" in
  part <> dl_dest d -> fetch d t = (r, t') ->
  (forall q, q <> part -> q <> dl_dest d -> t_state t' !! q = t_state t !! q) /\
  match r with
  | Err _ => t_state t' !! dl_dest d = t_state t !! dl_dest d
  | Ok _ => exists resp data, http_get (dl_url d) = Ok resp /\ gr_chunks resp = map Ok data /\
      t_state t' !! dl_dest d = Some (concat data) /\ t_state t' !! part = None /\
      (forall len, gr_length resp = Some len -> Z.of_nat (length (concat data)) = len)
  end.
Proof.
  intros part Hne Hf. unfold fetch, mbind, M_bind in Hf. pose proof (prepare_files d t) as Hp.
  destruct (prepare d t) as [[resp|e] t0] eqn:Ep; cbn in Hp.
  all: assert (Hsame : forall q, t_state t0 !! q = t_state t !! q) by (intros q; apply Hp; intros []).
  2:{ injection Hf as <- <-. split; [intros q _ _|]; by rewrite Hsame. }
  destruct (store_spec d resp t0 t' r Hne Hf) as [Hk Hr]. split; [intros q Hq Hq'; rewrite (Hk q Hq Hq'); apply Hsame|].
  destruct r as [u|e]; [|rewrite Hr; apply Hsame]. destruct Hr as (data & Hd). exists resp, data. split; [by eapply prepare_resp|done].
Qed.

(** C24: A download is all or nothing.  Whatever happens, no file but the
    destination and its [.part] neighbour changes; when it fails, the
    destination is as it was; when it succeeds, the destination holds exactly
    what the server sent to the end of its stream, of the length the server
    announced if it announced one, and the [.part] file is gone. *)
Theorem fetch_spec (d : Download) (t t' : Term Files) (r : result string unit) :
  let part := with_extension (dl_dest d) "part" in
  part <> dl_dest d -> fetch d t = (r, t') ->
  (forall q, q <> part -> q <> dl_dest d -> t_state t' !! q = t_state t !! q) /\
  match r with
  | Err _ => t_state t' !! dl_dest d = t_state t !! dl_dest d
  | Ok _ => exists resp data, http_get (dl_url d) = Ok resp /\ gr_chunks resp = map Ok data /\
      t_state t' !! dl_dest d = Some (concat data) /\ t_state t' !! part = None /\
      (forall len, gr_length resp = Some len -> Z.of_nat (length (concat data)) = len)
  end.
Proof. apply fetch_cases. Qed.
End one_file.

(** ** Where things are put *)

Definition part_of (d : Download) : string := with_extension (dl_dest d) "part".

(** A destination, its [.part] neighbour and what lies under it, all relative
    to the models directory. *)
Definition rel_of (sub local : string) : string * string * string :=
  (sub +:+ local, sub +:+ stem_of local +:+ ".part", sub +:+ local +:+ "/").

Definition rel_paths (model : string) (diarization : bool) : list (string * string * string) :=
  map (fun '(_, local, _) => rel_of ("asr/" +:+ model +:+ "/") local) (asr_recipe model) ++
  (if diarization then [rel_of "diarization/" "segmentation.onnx"; rel_of "diarization/" "embedding.onnx"] else []).

Definition abs_of (dir : string) (r : string * string * string) : string * string * string :=
  let '(a, b, c) := r in (lead dir +:+ a, lead dir +:+ b, lead dir +:+ c).

Definition paths_of (d : Download) : string * string * string := (dl_dest d, part_of d, lead (dl_dest d)).

(** No part is a destination, nor lies under one. *)
Definition apart (l : list (string * string * string)) : bool :=
  forallb (fun '(_, b, _) => forallb (fun '(a, _, c) => negb (String.eqb b a) && negb (bool_decide (is_Some (strip_prefix c b)))) l) l.

Definition simple (n : string) : Prop := no_slash n /\ is_noop n = false /\ n <> "..".

Lemma simple_nonempty n : simple n -> n <> "".
Proof. intros (_ & H & _) ->. done. Qed.

Lemma lead_path_join d n : simple n -> lead (storage.path_join d n) = lead d +:+ n +:+ "/".
Proof. intros Hn. pose proof (simple_nonempty n Hn). destruct Hn as (? & ? & ?). by rewrite path_join_lead, lead_join. Qed.

Lemma place d n sub : simple n -> lead d = sub -> forall label url bytes,
  paths_of (mkDownload label url (storage.path_join d n) bytes) = (sub +:+ n, sub +:+ stem_of n +:+ ".part", sub +:+ n +:+ "/").
Proof.
  intros Hn <- label url bytes. pose proof (simple_nonempty n Hn). destruct (Hn) as (? & ? & ?). unfold paths_of, part_of. cbn [dl_dest].
  by rewrite lead_path_join, with_extension_join, path_join_lead by done.
Qed.

Definition known (model : string) : Prop := model = PARAKEET \/ model = WHISPER_TURBO.

Lemma known_simple model : known model -> simple model.
Proof. by intros [-> | ->]. Qed.

Lemma asr_locals_simple model : known model -> Forall (fun r => simple (snd (fst r))) (asr_recipe model).
Proof. intros [-> | ->]; cbn; repeat (apply List.Forall_cons; [by repeat split|]); apply List.Forall_nil. Qed.

Lemma plan_paths cfg :
  known (Config.model (Config.asr cfg)) ->
  map paths_of (plan cfg) = map (abs_of (Config.models_dir (Config.worker cfg)))
    (rel_paths (Config.model (Config.asr cfg)) (Config.diarization (Config.asr cfg))).
Proof.
  intros Hk. unfold plan, rel_paths. set (dir := Config.models_dir (Config.worker cfg)). set (model := Config.model (Config.asr cfg)) in *.
  rewrite !map_app. f_equal.
  - unfold plan_asr. rewrite !map_map. apply map_ext_in. intros [[remote local] bytes] Hin.
    pose proof (proj1 (List.Forall_forall _ _) (asr_locals_simple model Hk) _ Hin) as Hs. cbn in Hs.
    rewrite (place _ _ (lead dir +:+ "asr/" +:+ model +:+ "/")) by (done ||
      (rewrite !lead_path_join by (done || by apply known_simple); by rewrite !append_assoc)).
    unfold abs_of, rel_of. by rewrite !append_assoc.
  - destruct (Config.diarization _); [|done]. unfold plan_diarization. cbn [map].
    rewrite !(place _ _ (lead dir +:+ "diarization/")) by (done || by rewrite lead_path_join). cbn. by rewrite !append_assoc.
Qed.

Lemma rel_apart model diarization : known model -> apart (rel_paths model diarization) = true.
Proof. intros [-> | ->]; destruct diarization; vm_compute; reflexivity. Qed.

(** A part is neither a destination nor under one. *)
Lemma plan_apart cfg d d' :
  known (Config.model (Config.asr cfg)) -> d ∈ plan cfg -> d' ∈ plan cfg ->
  part_of d <> dl_dest d' /\ within (dl_dest d') (part_of d) = false.
Proof.
  intros Hk Hd Hd'. pose proof (plan_paths cfg Hk) as Hp. set (dir := Config.models_dir (Config.worker cfg)) in *.
  assert (Hrel : forall x, x ∈ plan cfg -> exists r, r ∈ rel_paths (Config.model (Config.asr cfg)) (Config.diarization (Config.asr cfg)) /\ paths_of x = abs_of dir r).
  { intros x Hx. assert (paths_of x ∈ map paths_of (plan cfg)) as Hm by (by apply list_elem_of_fmap_2).
    rewrite Hp in Hm. apply list_elem_of_fmap in Hm as (r & -> & Hr). eauto. }
  destruct (Hrel d Hd) as ([[a b] c] & Hr & E), (Hrel d' Hd') as ([[a' b'] c'] & Hr' & E').
  unfold paths_of, abs_of in E, E'. injection E as _ Eb _. injection E' as Ea' _ Ec'.
  pose proof (rel_apart _ (Config.diarization (Config.asr cfg)) Hk) as Hap. unfold apart in Hap. rewrite forallb_forall in Hap.
  specialize (Hap _ (proj1 (list_elem_of_In _ _) Hr)). cbn in Hap. rewrite forallb_forall in Hap.
  specialize (Hap _ (proj1 (list_elem_of_In _ _) Hr')). cbn in Hap. apply andb_prop in Hap as [Hne Hw].
  split; [|unfold within; rewrite Ec', Eb, strip_prefix_common; by apply negb_true_iff in Hw].
  rewrite Eb, Ea'. intros Heq%append_inj_l. subst. by rewrite String.eqb_refl in Hne.
Qed.

(** ** The whole pull *)

(** What a directory listing shows of the files there are.  A path that exists
    goes on existing while the files at it and under it are kept, and what has
    an entry is a directory. *)
Class TreeLaws `{Tree} : Prop := {
  tree_file : forall fs p, is_Some (fs !! p) -> @path_exists (tree fs) p = true;
  tree_keeps : forall fs fs' p, @path_exists (tree fs) p = true ->
    (forall q, q = p \/ within p q = true -> is_Some (fs !! q) -> is_Some (fs' !! q)) -> @path_exists (tree fs') p = true;
  tree_parent : forall fs d n, d <> "" -> simple n ->
    @path_exists (tree fs) (storage.path_join d n) = true -> @is_dir (tree fs) d = true;
}.

Section whole.
Context `{BlobFsLaws} `{ModelServer} `{TreeLaws}.

Definition here (fs : Files) (d : Download) : Prop := @path_exists (tree fs) (dl_dest d) = true.

Lemma fetch_keeps d d' t t' r :
  part_of d <> dl_dest d -> part_of d <> dl_dest d' -> within (dl_dest d') (part_of d) = false ->
  fetch d t = (r, t') -> here (t_state t) d' -> here (t_state t') d'.
Proof.
  intros Hd Hne Hw Hf Hh. destruct (fetch_cases d t t' r Hd Hf) as [Hk Hr]. eapply tree_keeps; [exact Hh|].
  intros q Hq Hs. assert (q <> part_of d) as Hqp by (intros ->; destruct Hq as [Hq|Hq]; [by subst|by rewrite Hw in Hq]).
  destruct (decide (q = dl_dest d)) as [->|]; [|by rewrite Hk].
  destruct r; [destruct Hr as (? & ? & _ & _ & -> & _); eauto|by rewrite Hr].
Qed.

Lemma fetch_all_here cfg todo i n t t' :
  known (Config.model (Config.asr cfg)) -> (forall d, d ∈ todo -> d ∈ plan cfg) ->
  fetch_all i n todo t = (Ok true, t') ->
  forall d, d ∈ plan cfg -> here (t_state t) d \/ d ∈ todo -> here (t_state t') d.
Proof.
  intros Hk. revert i t. induction todo as [|d0 todo IH]; intros i t Hsub Hf d Hd Hor; cbn [fetch_all] in Hf.
  - injection Hf as <-. destruct Hor as [|[]%elem_of_nil]; done.
  - unfold mbind at 1, M_bind at 1, println at 1 in Hf. set (t1 := mkTerm _ _ _) in Hf.
    unfold mbind at 1, M_bind at 1, attempt in Hf. destruct (fetch d0 t1) as [[u|e] t2] eqn:E; [|done].
    assert (Hd0 : d0 ∈ plan cfg) by (apply Hsub; by left). destruct (plan_apart cfg d0 d0 Hk Hd0 Hd0) as [Hself _].
    assert (Hstep : here (t_state t1) d \/ d = d0 -> here (t_state t2) d).
    { intros [Hh | ->].
      - destruct (plan_apart cfg d0 d Hk Hd0 Hd) as [Hne Hw]. by eapply fetch_keeps.
      - destruct (fetch_cases d0 t1 t2 (Ok u) Hself E) as [_ (? & ? & _ & _ & Hc & _)]. apply tree_file. by rewrite Hc. }
    apply (IH (i + 1) t2); [intros x Hx; apply Hsub; by right|exact Hf|done|].
    destruct Hor as [Hh|[->|Hin]%elem_of_cons]; [left; apply Hstep; by left|left; apply Hstep; by right|by right].
Qed.

(** Printing leaves the files alone. *)
Lemma same_files {A} (m : TermM Files A) t : Steps (only (fun _ => False)) m -> t_state (snd (m t)) = t_state t.
Proof. intros Hm. apply map_eq. intros q. apply Hm. intros []. Qed.

#[export] Instance guidance_files cfg : Steps (only (fun _ => False)) (finish cfg).
Proof. unfold finish, manual_guidance. apply _. Qed.

#[export] Instance note_files cfg all : Steps (only (fun _ => False)) (recipe_note cfg all).
Proof. unfold recipe_note. apply _. Qed.

Lemma print_all_ok l (t : Term Files) : exists t', print_all l t = (Ok tt, t').
Proof. eexists. apply print_all_eq. Qed.

Lemma finish_ok cfg t : exists b t', finish cfg t = (Ok b, t') /\ t_state t' = t_state t.
Proof.
  pose proof (same_files (finish cfg) t _) as Hs. unfold finish, manual_guidance, mbind, M_bind, look in *. cbn [println] in *.
  unfold println in *. cbn [t_state] in *.
  match goal with |- context [print_all ?l ?u] => destruct (print_all_ok l u) as [t' E]; rewrite E in * end.
  eexists _, t'. split; [done|exact Hs].
Qed.

(** What the worker looks for is there once the recipe's files are. *)
Lemma recipe_is_enough cfg fs :
  known (Config.model (Config.asr cfg)) -> (forall d, d ∈ plan cfg -> here fs d) ->
  @real_models_present (tree fs) (Config.models_dir (Config.worker cfg)) (Config.model (Config.asr cfg))
    (Config.diarization (Config.asr cfg)) = true.
Proof.
  intros Hk Hall. set (dir := Config.models_dir (Config.worker cfg)). set (model := Config.model (Config.asr cfg)) in *.
  assert (Hasr : forall n, n ∈ map (fun r => snd (fst r)) (asr_recipe model) ->
    @path_exists (tree fs) (storage.path_join (storage.path_join (storage.path_join dir "asr") model) n) = true).
  { intros n ([[remote local] bytes] & -> & Hin)%list_elem_of_fmap. cbn [fst snd]. unfold here in Hall.
    assert (Hx : exists d, d ∈ plan_asr dir model /\ dl_dest d = storage.path_join (storage.path_join (storage.path_join dir "asr") model) local).
    { eexists. split; [apply list_elem_of_fmap; exists (remote, local, bytes); split; [reflexivity|done]|reflexivity]. }
    destruct Hx as (d & Hd & <-). apply Hall. apply elem_of_app. by left. }
  set (base := storage.path_join dir "asr") in *. set (mdir := storage.path_join base model) in *.
  assert (Hmd : mdir <> "").
  { unfold mdir. destruct (known_simple model Hk) as (? & ? & ?). rewrite path_join_lead by (done || by apply simple_nonempty, known_simple). intros E. apply (f_equal String.length) in E.
    rewrite append_length in E. destruct Hk as [Hk | Hk]; rewrite Hk in E; cbn in E; lia. }
  assert (Htok : @path_exists (tree fs) (storage.path_join mdir "tokens.txt") = true).
  { apply Hasr. clear -Hk. destruct Hk as [Hk | Hk]; rewrite Hk; cbn; set_solver. }
  assert (Hdir : @is_dir (tree fs) mdir = true) by (by eapply tree_parent; [done|..|exact Htok]).
  assert (Hsub : @model_subdir (tree fs) base model = Some mdir).
  { unfold model_subdir. assert (trim model = model) as -> by (clear -Hk; destruct Hk as [Hk | Hk]; rewrite Hk; done).
    destruct (String.eqb_spec model "") as [E|_]; [by apply (simple_nonempty model (known_simple model Hk)) in E|]. fold mdir. by rewrite Hdir. }
  assert (Henc : @path_exists (tree fs) (storage.path_join mdir "encoder.onnx") = true).
  { apply Hasr. clear -Hk. destruct Hk as [Hk | Hk]; rewrite Hk; cbn; set_solver. }
  assert (Hdec : @path_exists (tree fs) (storage.path_join mdir "decoder.onnx") = true).
  { apply Hasr. clear -Hk. destruct Hk as [Hk | Hk]; rewrite Hk; cbn; set_solver. }
  assert (Hlay : is_Some (@layout_in (tree fs) mdir)).
  { unfold layout_in. rewrite Htok. destruct (transducer_paths _ _); [done|]. unfold whisper_paths, first_existing. cbn [find_first].
    rewrite Henc, Hdec. by eexists. }
  unfold real_models_present. apply andb_true_intro. split.
  - apply bool_decide_eq_true. unfold discover_for. fold base. rewrite Hsub. cbn [mbind option_bind].
    destruct Hlay as [x ->]. by eexists.
  - destruct (Config.diarization (Config.asr cfg)) eqn:Ed; [|done]. cbn [negb orb]. apply bool_decide_eq_true.
    assert (Hdz : forall n, n ∈ ["segmentation.onnx"; "embedding.onnx"] -> @path_exists (tree fs) (storage.path_join (storage.path_join dir "diarization") n) = true).
    { intros n Hn. assert (Hx : exists d, d ∈ plan_diarization dir /\ dl_dest d = storage.path_join (storage.path_join dir "diarization") n).
      { unfold plan_diarization. cbn zeta. apply elem_of_cons in Hn as [->|[->|[]%elem_of_nil]%elem_of_cons]; eexists.
        - split; [apply elem_of_cons; left; reflexivity|reflexivity].
        - split; [apply elem_of_cons; right; apply elem_of_cons; left; reflexivity|reflexivity]. }
      destruct Hx as (d & Hd & <-). apply Hall. unfold plan. rewrite Ed. apply elem_of_app. by right. }
    unfold discover_diarization, first_existing. cbn [find_first]. rewrite !Hdz by set_solver. by eexists.
Qed.
(** The loop answers, and touches only what it was given to fetch. *)
Lemma fetch_all_only todo i n t :
  (forall d, d ∈ todo -> part_of d <> dl_dest d) ->
  exists b t', fetch_all i n todo t = (Ok b, t') /\
    forall q, (forall d, d ∈ todo -> q <> dl_dest d /\ q <> part_of d) -> t_state t' !! q = t_state t !! q.
Proof.
  revert i t. induction todo as [|d todo IH]; intros i t Hne; cbn [fetch_all]; [by exists true, t|].
  unfold mbind, M_bind, println, attempt, eprintln. set (t1 := mkTerm _ _ _).
  destruct (fetch d t1) as [r t2] eqn:E. destruct (fetch_cases d t1 t2 r (Hne d ltac:(by left)) E) as [Hk _].
  assert (H12 : forall q, (forall x, x ∈ d :: todo -> q <> dl_dest x /\ q <> part_of x) -> t_state t2 !! q = t_state t !! q).
  { intros q Hq. destruct (Hq d ltac:(by left)). by rewrite Hk. }
  destruct r as [u|e].
  - destruct (IH (i + 1) t2) as (b & t' & Hf & Ho); [intros x Hx; apply Hne; by right|]. exists b, t'. split; [exact Hf|].
    intros q Hq. rewrite Ho by (intros x Hx; apply Hq; by right). by apply H12.
  - eexists false, _. split; [reflexivity|]. cbn. apply H12.
Qed.

Lemma plan_not_nil cfg : known (Config.model (Config.asr cfg)) -> plan cfg <> [].
Proof. intros Hk. unfold plan, plan_asr. destruct Hk as [-> | ->]; done. Qed.

Lemma note_ok cfg all t : exists t', recipe_note cfg all t = (Ok tt, t') /\ t_state t' = t_state t.
Proof. unfold recipe_note. destruct (existsb _ all); eexists; (split; [reflexivity|done]). Qed.

Lemma download_all_cases cfg dry_run todo t :
  known (Config.model (Config.asr cfg)) -> (forall d, d ∈ todo -> d ∈ plan cfg) ->
  exists b t', download_all cfg dry_run todo t = (Ok b, t') /\
    (dry_run = true -> t_state t' = t_state t) /\
    (forall q, (forall d, d ∈ todo -> q <> dl_dest d /\ q <> part_of d) -> t_state t' !! q = t_state t !! q) /\
    (dry_run = false -> b = true -> forall d, d ∈ plan cfg -> here (t_state t) d \/ d ∈ todo -> here (t_state t') d).
Proof.
  intros Hk Hsub. unfold download_all. cbn zeta. unfold mbind, M_bind, println. set (t0 := mkTerm _ _ _).
  match goal with |- context [print_all ?l t0] => destruct (print_all_ok l t0) as [t1 E1]; pose proof (same_files (print_all l) t0 _) as Hs1 end.
  rewrite E1 in Hs1 |- *. cbn [snd t_state t0] in Hs1. destruct dry_run.
  - eexists true, _. split; [reflexivity|]. cbn [t_state]. rewrite Hs1. done.
  - destruct client_built as [u|e].
    2:{ eexists false, _. split; [reflexivity|]. cbn [t_state]. rewrite Hs1. done. }
    set (t2 := mkTerm (t_state t1) _ _).
    destruct (fetch_all_only todo 1 (Z.of_nat (length todo)) t2) as (b & t3 & E3 & Ho).
    { intros d Hd. exact (proj1 (plan_apart cfg d d Hk (Hsub d Hd) (Hsub d Hd))). }
    rewrite E3. assert (Hs2 : t_state t2 = t_state t) by exact Hs1. destruct b; cbn [negb].
    + match goal with |- context [finish cfg ?u] => destruct (finish_ok cfg u) as (b & t4 & E4 & H4); rewrite E4 end.
      exists b, t4. cbn [t_state] in H4. rewrite H4. split; [done|]. split; [done|]. split; [intros q Hq; by rewrite Ho, Hs2|].
      intros _ _ d Hd Hor. eapply fetch_all_here; [done|exact Hsub|exact E3|done|by rewrite Hs2].
    + eexists false, t3. split; [reflexivity|]. split; [done|]. split; [intros q Hq; by rewrite Ho, Hs2|done].
Qed.

(** A pull that says it succeeded leaves a working install.  For a model with
    a recipe, [pull] always answers; when it answers true and is no dry run, the
    files the loader asks for ([real_models_present], with the configured model
    and diarization setting) are all there.  A dry run changes no file; files
    that were already there are kept as they are unless forced; and nothing
    outside the recipe's destinations and their [.part] files is touched. *)
Theorem pull_spec (cfg : Config.Config) (force dry_run : bool) (t : Term Files) :
  known (Config.model (Config.asr cfg)) ->
  exists b t', pull cfg force dry_run t = (Ok b, t') /\
    (b = true -> dry_run = false ->
      @real_models_present (tree (t_state t')) (Config.models_dir (Config.worker cfg)) (Config.model (Config.asr cfg))
        (Config.diarization (Config.asr cfg)) = true) /\
    (dry_run = true -> t_state t' = t_state t) /\
    (force = false -> forall d, d ∈ plan cfg -> here (t_state t) d -> t_state t' !! dl_dest d = t_state t !! dl_dest d) /\
    (forall q, (forall d, d ∈ plan cfg -> q <> dl_dest d /\ q <> part_of d) -> t_state t' !! q = t_state t !! q).
Proof.
  intros Hk. unfold pull. unfold mbind, M_bind, println at 1 2, look. cbn [t_state t_out t_err]. set (t0 := mkTerm _ _ _).
  assert (H0' : t_state t0 = t_state t) by done.
  destruct (plan cfg) as [|d1 l] eqn:Ep; [by apply plan_not_nil in Hk|]. rewrite <- Ep.
  destruct (note_ok cfg (plan cfg) t0) as (t1 & E1 & H1'). rewrite E1.
  set (todo := bfilter _ (plan cfg)).
  assert (Htodo : forall d, d ∈ todo -> d ∈ plan cfg /\ (force = false -> ~ here (t_state t) d)).
  { intros d [Hd Hf]%elem_of_bfilter. split; [done|]. intros ->. unfold here. cbn in Hf. rewrite H1', H0' in Hf.
    by apply negb_true_iff in Hf as ->. }
  assert (Hor : forall d, d ∈ plan cfg -> here (t_state t1) d \/ d ∈ todo).
  { intros d Hd. destruct (@path_exists (tree (t_state t1)) (dl_dest d)) eqn:Ex; [by left|]. right. apply elem_of_bfilter.
    split; [done|]. rewrite Ex. apply orb_true_r. }
  destruct todo as [|d2 todo'] eqn:Et.
  - unfold println. match goal with |- context [finish cfg ?u] => destruct (finish_ok cfg u) as (b & t4 & E4 & H4); rewrite E4 end.
    cbn [t_state] in H4. rewrite H1', H0' in *. exists b, t4. rewrite H4. split; [done|]. split; [|done].
    intros _ _. apply recipe_is_enough; [done|]. intros d Hd. by destruct (Hor d Hd) as [|[]%elem_of_nil].
  - rewrite <- Et in *. destruct (download_all_cases cfg dry_run todo t1 Hk (fun d Hd => proj1 (Htodo d Hd))) as (b & t4 & E4 & Hdry & Ho & Hall).
    rewrite H1', H0' in *. exists b, t4. split; [exact E4|]. split.
    { intros Hb Hd. apply recipe_is_enough; [done|]. intros d Hin. by apply Hall, Hor. }
    split; [done|]. split; [|intros q Hq; apply Ho; intros d Hd; by apply Hq, Htodo].
    intros Hf d Hd Hh. apply Ho. intros d' Hd'. destruct (Htodo d' Hd') as [Hp Hn]. split.
    + intros He. apply (Hn Hf). unfold here. by rewrite <- He.
    + intros He. by apply (proj1 (plan_apart cfg d' d Hk Hp Hd)).
Qed.
End whole.
