(* ===== verification/PullToy.v ===== *)
(** * A directory of models to test downloads on

    A tree in which a directory is there when a file is in it, a server that
    answers every request, and what the commands say of installs that are not
    the ones the worker loads. *)

From Stdlib Require Import Ascii String.
From S2P Require Import Prelude RustStr Types RustPath Llm F32 Stages Api ApiProps Models Config Console Pull PullProps.

#[local] Arguments String.append !_ _ /.

Definition some_within (p : string) (fs : Files) : bool := negb (is_empty p) && existsb (fun e => within p (fst e)) (map_to_list fs).

Definition entry_under (p q : string) : option string := split_first "/" <$> strip_prefix (lead p) q.

#[export] Instance toy_tree : Tree := fun fs => {|
  path_exists p := bool_decide (is_Some (fs !! p)) || some_within p fs;
  is_dir p := some_within p fs;
  read_dir p := if some_within p fs then Some (dedup_first [] (omap (entry_under p) (map fst (map_to_list fs)))) else None;
|}.

Lemma some_within_spec p fs : some_within p fs = true <-> p <> "" /\ exists q, within p q = true /\ is_Some (fs !! q).
Proof.
  unfold some_within. rewrite andb_true_iff, negb_true_iff. unfold is_empty. rewrite String.eqb_neq, existsb_exists.
  split; intros [Hp Hq]; (split; [done|]).
  - destruct Hq as ([q c] & Hin & Hw). exists q. split; [done|]. apply list_elem_of_In, elem_of_map_to_list in Hin. by eexists.
  - destruct Hq as (q & Hw & [c Hc]). exists (q, c). split; [|done]. by apply list_elem_of_In, elem_of_map_to_list.
Qed.

#[export] Instance toy_tree_laws : TreeLaws.
Proof.
  split; cbn.
  - intros fs p Hp. by rewrite bool_decide_true.
  - intros fs fs' p [Hp%bool_decide_eq_true | Hp]%orb_true_iff Hkeep; apply orb_true_iff.
    + left. apply bool_decide_eq_true. apply Hkeep; [by left|done].
    + right. apply some_within_spec in Hp as (Hne & q & Hw & Hq). apply some_within_spec. split; [done|]. exists q. split; [done|].
      apply Hkeep; [by right|done].
  - intros fs d n Hd Hn He. pose proof (simple_nonempty n Hn) as Hnn. destruct (Hn) as (Hs & _ & _). apply some_within_spec. split; [done|].
    apply orb_true_iff in He as [He%bool_decide_eq_true | (_ & q & Hw & Hq)%some_within_spec].
    + eexists. split; [|exact He]. unfold within. rewrite path_join_lead, strip_prefix_app by done. by apply bool_decide_true.
    + exists q. split; [|done]. unfold within in *. rewrite lead_path_join in Hw by done. apply bool_decide_eq_true in Hw as [r Hr].
      apply strip_prefix_Some in Hr. rewrite Hr, append_assoc, strip_prefix_app. by apply bool_decide_true.
Qed.

(** A server whose files are one byte of 1 in two pieces of which one is empty. *)
#[export] Instance toy_server : ModelServer := {|
  client_built := Ok tt;
  http_get _ := Ok (mkGetResponse 200 (Some 1) [Ok [1%N]; Ok []]);
  status_text _ _ := "status";
  sync_all _ _ := Ok tt;
|}.
Definition broken_server : ModelServer := {|
  client_built := Ok tt;
  http_get _ := Ok (mkGetResponse 200 (Some 9) [Ok [1%N]; Ok []]);
  status_text _ _ := "status";
  sync_all _ _ := Ok tt;
|}.

Definition with_models (dir model : string) : Config.Config :=
  let c := Config.default_config in
  Config.mkConfig (Config.database c) (Config.storage c) (Config.api c) (Config.auth c)
    (Config.mkAsr model true "cpu" true [] None (of_Z 2) None 0)
    (Config.mkWorker ["all"] 1 dir 15 5 5) (Config.llm c) (Config.update c).

Definition empty_term : Term Files := mkTerm ∅ [] [].

Definition some_download : Download := mkDownload "asr/tokens.txt" "u" "/m/asr/tokens.txt" 1.

Lemma fetch_spec_witness :
  t_state (snd (@fetch memory_fs toy_server some_download empty_term)) !! "/m/asr/tokens.txt" = Some [1%N] /\
  t_state (snd (@fetch memory_fs broken_server some_download (mkTerm {[ "/m/asr/tokens.txt" := [7%N] ]} [] []))) !! "/m/asr/tokens.txt" = Some [7%N].
Proof.
  split; [vm_compute; reflexivity|].
  destruct (@fetch_spec memory_fs memory_fs_laws broken_server some_download (mkTerm {[ "/m/asr/tokens.txt" := [7%N] ]} [] [])
    (snd (@fetch memory_fs broken_server some_download (mkTerm {[ "/m/asr/tokens.txt" := [7%N] ]} [] [])))
    (Err "truncated download: got 1 of 9 bytes") ltac:(vm_compute; done) ltac:(vm_compute; reflexivity)) as [_ E].
  exact E.
Defined.

Lemma pull_spec_witness :
  fst (@pull memory_fs toy_server toy_tree (with_models "/m" PARAKEET) false false empty_term) = Ok true /\
  exists t', @pull memory_fs toy_server toy_tree (with_models "/m" PARAKEET) false false empty_term = (Ok true, t') /\
    @real_models_present (tree (t_state t')) "/m" PARAKEET true = true.
Proof.
  assert (Hrun : fst (@pull memory_fs toy_server toy_tree (with_models "/m" PARAKEET) false false empty_term) = Ok true)
    by (vm_compute; reflexivity).
  split; [exact Hrun|].
  destruct (@pull_spec memory_fs memory_fs_laws toy_server toy_tree toy_tree_laws (with_models "/m" PARAKEET) false false empty_term
    (or_introl eq_refl)) as (b & t' & E & Hb & _).
  rewrite E in Hrun. injection Hrun as ->. exists t'. split; [exact E|exact (Hb eq_refl eq_refl)].
Defined.

(** ** Installs the worker does not load *)

(** Parakeet is installed, and another checkpoint is configured: the pull says
    that everything the worker needs is there, and the worker falls back to the
    stub, which is what the verdict is documented to guard against. *)
Definition parakeet_only : Files :=
  list_to_map (map (fun n => ("/m/asr/" +:+ PARAKEET +:+ "/" +:+ n, [1%N])) ["encoder.onnx"; "decoder.onnx"; "joiner.onnx"; "tokens.txt"] ++
    map (fun n => ("/m/diarization/" +:+ n, [1%N])) ["segmentation.onnx"; "embedding.onnx"]).

Example pull_ready_yet_stub :
  fst (@pull memory_fs toy_server toy_tree (with_models "/m" "canary-1b") false false (mkTerm parakeet_only [] [])) = Ok true /\
  @real_models_present (tree parakeet_only) "/m" "canary-1b" true = false.
Proof. split; vm_compute; reflexivity. Qed.

(** After a pull that installed everything, [models list] marks the
    recognizer's files missing: it looks for them where no recipe puts them. *)
Example list_after_pull :
  @real_models_present (tree parakeet_only) "/m" PARAKEET true = true /\
  map mark (take 4 (@expected_assets (tree parakeet_only) "/m")) = repeat "[missing]" 4.
Proof. split; vm_compute; reflexivity. Qed.
