(* ===== verification/Doctor.v ===== *)
(** * Preflight checks: [crates/scribe-cli/src/doctor.rs]

    Each check adds a row to a report; a failing row makes the command exit
    with an error, and nothing else does.  The database, the programs it tries
    and the file calls are parameters. *)

From Stdlib Require Import Ascii String.
From S2P Require Import Prelude RustStr Types RustPath Utf8 Llm Stages Api Models Config Engine Update UpdateProps Serve Console Pull.

#[local] Arguments String.append !_ _ /.

Inductive Status := Pass | Warn | Fail | Info.

#[export] Instance Status_eq_dec : EqDecision Status.
Proof. solve_decision. Defined.

Definition tag (s : Status) : string := match s with Pass => "PASS" | Warn => "WARN" | Fail => "FAIL" | Info => "INFO" end.

Record Report := mkReport { rows : list (Status * string * string) }.

Definition new_report : Report := mkReport [].
Definition add (r : Report) (s : Status) (name detail : string) : Report := mkReport (rows r ++ [(s, name, detail)]).

Definition count (s : Status) (r : Report) : Z := Z.of_nat (length (bfilter (fun x => bool_decide (fst (fst x) = s)) (rows r))).
Definition any_fail (r : Report) : bool := existsb (fun x => bool_decide (fst (fst x) = Fail)) (rows r).

Definition report_lines (r : Report) : list string :=
  let width := foldr Z.max 0 (map (fun x => Z.of_nat (String.length (snd (fst x)))) (rows r)) in
  let fails := count Fail r in
  let warns := count Warn r in
  ["scribe doctor — " +:+ pretty (Z.of_nat (length (rows r))) +:+ " check(s)"; ""] ++
  map (fun x => "  [" +:+ tag (fst (fst x)) +:+ "]  " +:+ pad_right width (snd (fst x)) +:+ "  " +:+ snd x) (rows r) ++
  ["";
   if 0 <? fails then "result: FAIL (" +:+ pretty fails +:+ " failing, " +:+ pretty warns +:+ " warning(s))"
   else if 0 <? warns then "result: OK with " +:+ pretty warns +:+ " warning(s)"
   else "result: OK"].

(** ** What is asked of the machine *)

Record ToolOutput := mkToolOutput { tool_success : bool; tool_code : option Z; tool_stdout : list N }.

Class Machine := {
  (** [SELECT count( * ) FROM _sqlx_migrations] *)
  migrations_applied : Config.DatabaseConfig -> result string Z;
  (** A program run with one argument. *)
  run_tool : string -> string -> result string ToolOutput;
}.

(** The first line of what a program printed. *)
Definition first_line (none : string) (stdout : list N) : string :=
  trim (match lines (from_utf8_lossy stdout) with l :: _ => l | [] => none end).

Section checks.
Context `{DbServer} `{Machine} `{HostOs} `{Tree} `{Transport}.

Definition check_config (r : Report) (config_path : option string) : Report :=
  add r Pass "config" (match config_path with
    | Some p => "loaded from " +:+ p
    | None => "loaded from defaults + SCRIBE_* env (no --config)"
    end).

Definition check_database (r : Report) (cfg : Config.Config) : Report :=
  match db_connect (Config.database cfg) with
  | Err e => add r Fail "database" ("cannot connect: " +:+ Error.to_string e)
  | Ok _ =>
      match migrations_applied (Config.database cfg) with
      | Ok n =>
          if 0 <? n then add r Pass "database" ("connected; " +:+ pretty n +:+ " migration(s) applied")
          else add r Fail "database" "connected but no migrations applied — run `scribe migrate`"
      | Err _ => add r Fail "database" "connected but migrations table absent — run `scribe migrate`"
      end
  end.

Definition PROBE : string := ".scribe-doctor-write-test".

Definition check_blobs (r : Report) (cfg : Config.Config) (fs : Files) : Report * Files :=
  let dir := Config.blobs (Config.storage cfg) in
  match os_create_dir_all fs dir with
  | Err e => (add r Fail "storage" ("cannot create blobs dir " +:+ dir +:+ ": " +:+ e), fs)
  | Ok _ =>
      let probe := storage.path_join dir PROBE in
      match os_write fs probe (as_bytes "ok") with
      | (Ok _, fs1) =>
          (add r Pass "storage" ("blobs dir writable: " +:+ dir), match os_remove_file fs1 probe with Ok fs2 => fs2 | Err _ => fs1 end)
      | (Err e, fs1) => (add r Fail "storage" ("blobs dir not writable " +:+ dir +:+ ": " +:+ e), fs1)
      end
  end.

Definition check_ffmpeg (r : Report) : Report :=
  match run_tool "ffmpeg" "-version" with
  | Ok out =>
      if tool_success out then add r Pass "ffmpeg" (first_line "ffmpeg" (tool_stdout out))
      else add r Fail "ffmpeg" ("`ffmpeg -version` exited " +:+ pretty (default (-1) (tool_code out)))
  | Err e => add r Fail "ffmpeg" ("not found on PATH: " +:+ e)
  end.

Definition ok_or_missing (b : bool) : string := if b then "ok" else "missing".

Definition check_models (r : Report) (cfg : Config.Config) (fs : Files) : Report :=
  let dir := Config.models_dir (Config.worker cfg) in
  let asr := @asr_ready (tree fs) dir in
  let diar := @diar_found (tree fs) dir in
  if asr && (diar || negb (Config.diarization (Config.asr cfg))) then
    add r Pass "models" ("ONNX assets present under " +:+ dir)
  else if negb (@path_exists (tree fs) dir) then
    add r Warn "models" ("models_dir " +:+ dir +:+ " missing — stub engine will be used (run `scribe models pull`)")
  else
    add r Warn "models" ("incomplete ONNX assets under " +:+ dir +:+ " (asr: " +:+ ok_or_missing asr +:+ ", diar: "
      +:+ ok_or_missing diar +:+ ") — stub engine will be used").

Definition check_ollama (r : Report) (cfg : Config.Config) : Report :=
  let client := client_from_config (Config.llm cfg) in
  let where_ := debug_provider (Config.provider (Config.llm cfg)) +:+ " at " +:+ Llm.base_url client in
  match health client with
  | Ok true => add r Pass "llm" ("reachable — " +:+ where_)
  | Ok false => add r Warn "llm" ("responded non-2xx — " +:+ where_)
  | Err _ => add r Warn "llm" ("not reachable — " +:+ where_ +:+ " (needed only on the processing node)")
  end.

Definition check_best_effort (r : Report) : Report :=
  let r :=
    match run_tool "nvidia-smi" "-L" with
    | Ok out =>
        if tool_success out then add r Pass "gpu" (first_line "GPU detected" (tool_stdout out))
        else add r Info "gpu" "no NVIDIA GPU detected (CPU path is supported, just slower)"
    | Err _ => add r Info "gpu" "no NVIDIA GPU detected (CPU path is supported, just slower)"
    end in
  match run_tool "tailscale" "version" with
  | Ok out =>
      if tool_success out then add r Info "tailscale" ("CLI present (" +:+ first_line "tailscale present" (tool_stdout out) +:+ ")")
      else add r Info "tailscale" "CLI not found (only needed for from-anywhere access)"
  | Err _ => add r Info "tailscale" "CLI not found (only needed for from-anywhere access)"
  end.

(** The report the checks leave, and the files after them. *)
Definition checks (cfg : Config.Config) (config_path : option string) (fs : Files) : Report * Files :=
  let r := check_config new_report config_path in
  let r := check_database r cfg in
  let '(r, fs) := check_blobs r cfg fs in
  let r := check_ffmpeg r in
  let r := check_models r cfg fs in
  let r := check_ollama r cfg in
  (check_best_effort r, fs).

Definition run (cfg : Config.Config) (config_path : option string) : TermM Files bool :=
  report ← Console.lift (fun e : string => e) (fun fs => let '(r, fs) := checks cfg config_path fs in (Ok r, fs));
  _ ← print_all (report_lines report);
  mret (negb (any_fail report)).
End checks.

(** ** What passing means *)

Lemma any_fail_add r s name detail : any_fail (add r s name detail) = any_fail r || bool_decide (s = Fail).
Proof. unfold any_fail, add. cbn [rows]. rewrite existsb_app. cbn. by rewrite orb_false_r. Qed.

Section meaning.
Context `{DbServer} `{Machine} `{HostOsLaws} `{Tree} `{Transport}.

Definition database_ready (cfg : Config.Config) : bool :=
  is_ok (db_connect (Config.database cfg)) &&
  match migrations_applied (Config.database cfg) with Ok n => 0 <? n | Err _ => false end.

Definition storage_ready (cfg : Config.Config) (fs : Files) : bool :=
  let dir := Config.blobs (Config.storage cfg) in
  is_ok (os_create_dir_all fs dir) && is_ok (fst (os_write fs (storage.path_join dir PROBE) (as_bytes "ok"))).

Definition ffmpeg_ready : bool := match run_tool "ffmpeg" "-version" with Ok out => tool_success out | Err _ => false end.

Lemma fail_database r cfg : any_fail (check_database r cfg) = any_fail r || negb (database_ready cfg).
Proof.
  unfold check_database, database_ready. destruct (db_connect _); [|by rewrite any_fail_add]. cbn [is_ok andb].
  destruct (migrations_applied _) as [n|]; [|by rewrite any_fail_add]. destruct (0 <? n); by rewrite any_fail_add.
Qed.

Lemma fail_blobs r cfg fs : any_fail (fst (check_blobs r cfg fs)) = any_fail r || negb (storage_ready cfg fs).
Proof.
  unfold check_blobs, storage_ready. cbn zeta. destruct (os_create_dir_all _ _); [|cbn [fst]; by rewrite any_fail_add]. cbn [is_ok andb].
  destruct (os_write _ _ _) as [[|] ?]; cbn [fst]; by rewrite any_fail_add.
Qed.

Lemma fail_ffmpeg r : any_fail (check_ffmpeg r) = any_fail r || negb ffmpeg_ready.
Proof. unfold check_ffmpeg, ffmpeg_ready. destruct (run_tool _ _) as [out|]; [destruct (tool_success out)|]; by rewrite any_fail_add. Qed.

(** The checks that can only warn. *)
Lemma fail_models r cfg fs : any_fail (check_models r cfg fs) = any_fail r.
Proof.
  unfold check_models. cbn zeta. destruct (_ && _); [|destruct (negb _)]; by rewrite any_fail_add, orb_false_r.
Qed.
Lemma fail_ollama r cfg : any_fail (check_ollama r cfg) = any_fail r.
Proof. unfold check_ollama. cbn zeta. destruct (health _) as [[|]|]; by rewrite any_fail_add, orb_false_r. Qed.
Lemma fail_best_effort r : any_fail (check_best_effort r) = any_fail r.
Proof.
  unfold check_best_effort. cbn zeta.
  destruct (run_tool "nvidia-smi" _) as [o1|]; [destruct (tool_success o1)|]; (destruct (run_tool "tailscale" _) as [o2|]; [destruct (tool_success o2)|]);
    by rewrite !any_fail_add, !orb_false_r.
Qed.

Lemma blobs_files r cfg fs : forall q, q <> storage.path_join (Config.blobs (Config.storage cfg)) PROBE -> snd (check_blobs r cfg fs) !! q = fs !! q.
Proof.
  intros q Hq. unfold check_blobs. cbn zeta. destruct (os_create_dir_all _ _); [|done].
  revert Hq. generalize (storage.path_join (Config.blobs (Config.storage cfg)) PROBE). intros probe Hq.
  pose proof (os_write_other fs probe (as_bytes "ok") q Hq) as Hw.
  destruct (os_write fs probe (as_bytes "ok")) as [[u|e] fs1] eqn:Ew; cbn [fst snd] in *; [|done].
  destruct (os_remove_file fs1 probe) as [fs2|] eqn:Er; [|done]. apply os_remove_ok in Er as ->. by rewrite lookup_delete_ne.
Qed.

(** Every check adds the rows it should. *)
Lemma rows_add r s name detail : length (rows (add r s name detail)) = S (length (rows r)).
Proof. unfold add. cbn [rows]. rewrite length_app. cbn. lia. Qed.
Lemma rows_database r cfg : length (rows (check_database r cfg)) = S (length (rows r)).
Proof. unfold check_database. repeat case_match; apply rows_add. Qed.
Lemma rows_blobs r cfg fs : length (rows (fst (check_blobs r cfg fs))) = S (length (rows r)).
Proof.
  unfold check_blobs. cbn zeta. destruct (os_create_dir_all _ _); [|apply rows_add]. destruct (os_write _ _ _) as [[|] ?]; apply rows_add.
Qed.
Lemma rows_ffmpeg r : length (rows (check_ffmpeg r)) = S (length (rows r)).
Proof. unfold check_ffmpeg. repeat case_match; apply rows_add. Qed.
Lemma rows_models r cfg fs : length (rows (check_models r cfg fs)) = S (length (rows r)).
Proof. unfold check_models. cbn zeta. destruct (_ && _); [|destruct (negb _)]; apply rows_add. Qed.
Lemma rows_ollama r cfg : length (rows (check_ollama r cfg)) = S (length (rows r)).
Proof. unfold check_ollama. cbn zeta. destruct (health _) as [[|]|]; apply rows_add. Qed.
Lemma rows_best_effort r : length (rows (check_best_effort r)) = S (S (length (rows r))).
Proof.
  unfold check_best_effort. cbn zeta.
  destruct (run_tool "nvidia-smi" _) as [o1|]; [destruct (tool_success o1)|]; (destruct (run_tool "tailscale" _) as [o2|]; [destruct (tool_success o2)|]);
    by rewrite !rows_add.
Qed.
Lemma rows_checks cfg config_path fs : length (rows (fst (checks cfg config_path fs))) = 8%nat.
Proof.
  unfold checks. destruct (check_blobs _ cfg fs) as [r fs'] eqn:E. cbn [fst].
  rewrite rows_best_effort, rows_ollama, rows_models, rows_ffmpeg. change r with (fst (r, fs')). rewrite <- E, rows_blobs, rows_database.
  unfold check_config. by rewrite rows_add.
Qed.

(** The doctor's exit status is about exactly three things: the database can
    be reached and has a migration applied, the blob directory can be made and
    written to, and ffmpeg runs.  A missing model, language model, GPU or
    tailnet client only warns or informs.  The report always has its eight rows,
    what was on the terminal before stays, and no file but the probe, which is
    removed again when it can be, is touched. *)
Theorem doctor_spec (cfg : Config.Config) (config_path : option string) (t : Term Files) :
  exists t', run cfg config_path t = (Ok (database_ready cfg && storage_ready cfg (t_state t) && ffmpeg_ready), t') /\
    length (rows (fst (checks cfg config_path (t_state t)))) = 8%nat /\ appends t t' /\
    (forall q, q <> storage.path_join (Config.blobs (Config.storage cfg)) PROBE -> t_state t' !! q = t_state t !! q).
Proof.
  assert (Hfail : any_fail (fst (checks cfg config_path (t_state t))) = negb (database_ready cfg && storage_ready cfg (t_state t) && ffmpeg_ready)).
  { unfold checks. pose proof (fail_blobs (check_database (check_config new_report config_path) cfg) cfg (t_state t)) as Hb.
    destruct (check_blobs _ cfg (t_state t)) as [r fs]. cbn [fst] in *.
    rewrite fail_best_effort, fail_ollama, fail_models, fail_ffmpeg, Hb, fail_database. unfold check_config.
    rewrite any_fail_add, orb_false_r. cbn [any_fail rows new_report existsb orb]. by rewrite !negb_andb. }
  pose proof (blobs_files (check_database (check_config new_report config_path) cfg) cfg (t_state t)) as Hfiles.
  assert (Hsnd : snd (checks cfg config_path (t_state t)) = snd (check_blobs (check_database (check_config new_report config_path) cfg) cfg (t_state t))).
  { unfold checks. by destruct (check_blobs _ cfg (t_state t)). }
  unfold run, mbind, M_bind, Console.lift. destruct (checks cfg config_path (t_state t)) as [r fs] eqn:Ec. cbn [fst snd] in *.
  rewrite print_all_eq. eexists. split; [cbn [mret M_ret]; by rewrite Hfail, negb_involutive|]. cbn [t_state t_out t_err].
  split; [|split].
  - change r with (fst (r, fs)). rewrite <- Ec. apply rows_checks.
  - exists (report_lines r), []. by rewrite app_nil_r.
  - intros q Hq. rewrite Hsnd. by apply Hfiles.
Qed.
End meaning.
