(* ===== verification/UpdateCli.v ===== *)
(** * The update commands: [crates/scribe-cli/src/update.rs]

    Making keys, signing, verifying, installing and rolling back packages from
    the terminal, over the operations of [Update].  The generated key and the
    time are arguments; file modes are not part of the files modelled. *)

From Stdlib Require Import Ascii String.
From S2P Require Import Prelude RustStr Types RustPath Utf8 Llm Store Stages ApiProps Config Update UpdateProps SigningProps Console.

#[local] Arguments String.append !_ _ /.

Section commands.
Context `{HostOs} `{Ed25519} `{HexCodec} `{Sha256} `{UnicodeCase} `{ManifestJson} `{Archive}.
Notation HostTerm := (TermM Host).

Definition update_op {A} (m : HostM A) : HostTerm A := Console.lift UpdateError.to_string m.

(** [std::fs::write], its error as it is displayed. *)
Definition write_file (path : string) (content : list N) : HostTerm unit :=
  Console.lift (fun e => e) (fun h =>
    let '(r, fs) := os_write (h_files h) path content in (r, mkHost fs (h_ran h))).

(** A double quote. *)
Definition dq : string := bytes [34%N].

Definition config_lines (public : string) : list string :=
  [""; "# Add to your server config to enable signed self-update:"; "[update]"; "enabled = true";
   "public_key = " +:+ dq +:+ public +:+ dq; "token = " +:+ dq +:+ "<choose-a-strong-random-token>" +:+ dq].

(** [kp] is the key [generate_keypair] made. *)
Definition keygen (kp : SigningKey) (out : option string) : HostTerm unit :=
  let public := public_hex kp in
  _ ← match out with
      | Some path =>
          _ ← write_file path (as_bytes (private_hex kp +:+ newline));
          let pubpath := with_extension path "pub" in
          _ ← write_file pubpath (as_bytes (public +:+ newline));
          _ ← eprintln ("private key → " +:+ path +:+ " (KEEP SECRET, chmod 600)");
          eprintln ("public key  → " +:+ pubpath)
      | None => eprintln ("private key (KEEP SECRET): " +:+ private_hex kp)
      end;
  print_all (config_lines public).

(** A path to a key file, or the key itself. *)
Definition read_key (value : string) : HostTerm string :=
  Console.lift (fun e => e) (fun h =>
    (if bool_decide (is_Some (h_files h !! value)) then
       match os_open (h_files h) value with
       | Err e => Err e
       | Ok content =>
           match from_utf8 content with Some s => Ok (trim s) | None => Err "stream did not contain valid UTF-8" end
       end
     else Ok (trim value), h)).

Definition sign_cmd (created key binary version : string) (target : option string) (notes out : string) : HostTerm unit :=
  key_hex ← read_key key;
  kp ← update_op (of_res (from_private_hex key_hex));
  manifest ← update_op (sign_package kp binary version target notes created out);
  eprintln ("signed package → " +:+ out +:+ newline +:+ "  version: " +:+ man_version manifest +:+ newline
    +:+ "  target:  " +:+ man_target manifest +:+ newline +:+ "  sha256:  " +:+ man_sha256 manifest).

Definition manifest_lines (pkg : Package) : list string :=
  let m := pkg_manifest pkg in
  ["package manifest:"; "  name:       " +:+ man_name m; "  version:    " +:+ man_version m;
   "  target:     " +:+ man_target m; "  sha256:     " +:+ man_sha256 m; "  created_at: " +:+ man_created_at m] ++
  (if is_empty (man_notes m) then [] else ["  notes:      " +:+ man_notes m]).

Definition verify_cmd (cfg : Config.Config) (package : string) : HostTerm unit :=
  pkg ← update_op (package_read package);
  _ ← print_all (manifest_lines pkg);
  match verify_package (Config.update cfg) pkg with
  | Ok _ => print_all ["" ; "OK — signature and checksum valid; installable on this host."]
  | Err e => bail ("verification FAILED: " +:+ UpdateError.to_string e)
  end.

Definition apply_cmd (cfg : Config.Config) (package : string) : HostTerm unit :=
  pkg ← update_op (package_read package);
  let opts := mkApplyOptions (Some (Config.url (Config.database cfg))) true true in
  outcome ← update_op (apply_package (Config.update cfg) pkg opts);
  _ ← println ("installed " +:+ from_version outcome +:+ " → " +:+ to_version outcome +:+ " (" +:+ uo_target outcome +:+ ")");
  _ ← println ("backup: " +:+ uo_backup_path outcome);
  eprintln "restart `scribe serve` to run the new binary (the /admin/update API restarts automatically).".

Definition do_rollback (cfg : Config.Config) : HostTerm unit :=
  version ← update_op (rollback (Config.update cfg));
  _ ← println ("rolled back to " +:+ version);
  eprintln "restart `scribe serve` to run the restored binary.".

(** What [info] prints of the files there are. *)
Definition info_lines (cfg : Config.Config) (h : Host) : list string :=
  let binary := match Config.binary_path (Config.update cfg) with
    | Some p => Some p
    | None => match current_exe with Ok p => Some p | Err _ => None end
    end in
  let has_backup := match binary with
    | Some p => bool_decide (is_Some (h_files h !! with_file_name p (default "" (file_name p) +:+ ".old")))
    | None => false
    end in
  ["version:     " +:+ running_version; "target:      " +:+ current_target; "binary:      " +:+ default "" binary;
   "update:      " +:+ (if Config.enabled (Config.update cfg) then "enabled" else "disabled");
   "rollback:    " +:+ (if has_backup then "available (.old present)" else "none")].

Definition info (cfg : Config.Config) : HostTerm unit :=
  lines ← Console.look (info_lines cfg);
  print_all lines.

Inductive UpdateCmd :=
| Keygen (out : option string)
| Sign (key binary version : string) (target : option string) (notes out : string)
| Verify (package : string)
| Apply (package : string)
| Rollback
| Info.

(** [kp] is a key generated anew, [created] the time. *)
Definition run (kp : SigningKey) (created : string) (cfg : Config.Config) (cmd : UpdateCmd) : HostTerm unit :=
  match cmd with
  | Keygen out => keygen kp out
  | Sign key binary version target notes out => sign_cmd created key binary version target notes out
  | Verify package => verify_cmd cfg package
  | Apply package => apply_cmd cfg package
  | Rollback => do_rollback cfg
  | Info => info cfg
  end.
End commands.

(** ** From a new key to an accepted package *)

(** A key's bytes are read back as the key. *)
Class SigningKeyLaws `{Ed25519} : Prop := {
  signing_length : forall k, length (signing_to_bytes k) = 32%nat;
  signing_round : forall k, signing_from_bytes (signing_to_bytes k) = k;
}.

Lemma trim_newline s : all_bytes plain s = true -> trim (s +:+ newline) = s.
Proof.
  intros Hs. assert (Hw : Forall (fun c => is_whitespace c = false) (chars s)).
  { rewrite (chars_plain s Hs). clear -Hs. induction s as [|a s IH]; cbn [list_ascii_of_string map]; [constructor|].
    cbn [all_bytes] in Hs. apply andb_prop in Hs as [Ha Hs]. constructor; [|by apply IH].
    unfold plain in Ha. apply andb_prop in Ha as [_ Ha]. by apply negb_true_iff in Ha. }
  unfold trim, trim_matches, newline. rewrite chars_snoc by done.
  destruct (chars s) as [|c l] eqn:Ec.
  - apply chars_nil_iff in Ec as ->. done.
  - assert (drop_while is_whitespace ((c :: l) ++ [String nl ""]) = (c :: l) ++ [String nl ""]) as ->.
    { apply Forall_inv in Hw. cbn [app drop_while]. by rewrite Hw. }
    unfold drop_while_end. rewrite reverse_app.
    change (reverse [String nl ""]) with [String nl ""]. cbn [app drop_while]. change (is_whitespace (String nl "")) with true. cbn iota.
    rewrite drop_while_none by (by apply Forall_reverse). rewrite reverse_involutive, <- Ec. apply concat_chars.
Qed.

Lemma from_utf8_ascii s : all_bytes is_ascii s = true -> from_utf8 (as_bytes s) = Some s.
Proof.
  intros Hs. unfold from_utf8. rewrite utf8_chunks_ascii by done.
  assert (forallb (fun c : option string => bool_decide (is_Some c)) (map (fun a => Some (String a "")) (list_ascii_of_string s)) = true) as ->.
  { clear. induction (list_ascii_of_string s) as [|a l IH]; [done|]. cbn. exact IH. }
  f_equal. clear Hs. induction s as [|a s IH]; cbn; [done|]. by f_equal.
Qed.

Section promises.
Context `{HostOs} `{Ed25519} `{HexCodec} `{Sha256} `{UnicodeCase} `{ManifestJson} `{Archive}.
Context `{!HostOsLaws} `{!Ed25519Laws} `{!SigningKeyLaws} `{!HexLaws} `{!Sha256Laws} `{!AsciiCase} `{!ManifestLaws} `{!ArchiveLaws} `{!OpenLaws}.

(** What a key file holds. *)
Definition key_file (kp : SigningKey) : list N := as_bytes (private_hex kp +:+ newline).
Definition public_file (kp : SigningKey) : list N := as_bytes (public_hex kp +:+ newline).

Lemma write_file_ok path content t t' :
  write_file path content t = (Ok tt, t') ->
  t' = mkTerm (mkHost (<[path := content]> (h_files (t_state t))) (h_ran (t_state t))) (t_out t) (t_err t).
Proof.
  unfold write_file, Console.lift. destruct (os_write _ _ _) as [[[]|e] fs] eqn:E; [|done]. apply os_write_ok in E as ->. by intros [= <-].
Qed.

Lemma keygen_files kp path t t' :
  keygen kp (Some path) t = (Ok tt, t') ->
  h_files (t_state t') = <[with_extension path "pub" := public_file kp]> (<[path := key_file kp]> (h_files (t_state t))) /\
  h_ran (t_state t') = h_ran (t_state t) /\
  t_out t' = t_out t ++ config_lines (public_hex kp) /\
  t_err t' = t_err t ++ ["private key → " +:+ path +:+ " (KEEP SECRET, chmod 600)"; "public key  → " +:+ with_extension path "pub"].
Proof.
  unfold keygen. intros Hk. apply bind_inv in Hk as ([] & t1 & H1' & Hp). rewrite print_all_eq in Hp. injection Hp as <-. cbn [t_state t_out t_err].
  apply bind_inv in H1' as ([] & t2 & ->%write_file_ok & H1'). cbn zeta in H1'.
  apply bind_inv in H1' as ([] & t3 & ->%write_file_ok & H1'). cbn in H1'. injection H1' as <-. cbn.
  by rewrite <- app_assoc.
Qed.

Lemma read_key_file kp path t s t' :
  h_files (t_state t) !! path = Some (key_file kp) -> read_key path t = (Ok s, t') -> t' = t /\ s = private_hex kp.
Proof.
  intros Hf. unfold read_key, Console.lift. rewrite bool_decide_true by (by eexists).
  destruct (os_open _ path) as [c|e] eqn:Eo; [|done]. apply os_open_ok in Eo. rewrite Hf in Eo. injection Eo as <-.
  assert (Hhex : all_bytes hex_digit (private_hex kp) = true) by apply hex_lower.
  unfold key_file. rewrite from_utf8_ascii.
  - rewrite trim_newline by (by apply (all_bytes_impl hex_digit); [apply hex_digit_plain|]). intros [= <- <-]. by destruct t.
  - rewrite all_bytes_app. apply andb_true_intro. split; [|done]. by apply (all_bytes_impl hex_digit); [apply hex_digit_ascii|].
Qed.

Lemma from_private_hex_round kp : from_private_hex (private_hex kp) = Ok kp.
Proof.
  unfold from_private_hex, private_hex. destruct (hex_text _ (hex_lower (signing_to_bytes kp))) as (-> & _).
  rewrite hex_round. unfold sized. rewrite bool_decide_true by apply signing_length. cbn [negb]. by rewrite signing_round.
Qed.

Lemma update_op_inv {A} (m : HostM A) t a t' : update_op m t = (Ok a, t') ->
  m (t_state t) = (Ok a, t_state t') /\ t_out t' = t_out t /\ t_err t' = t_err t.
Proof. unfold update_op, Console.lift. destruct (m (t_state t)) as [[b|e] h]; [|done]. by intros [= <- <-]. Qed.

(** C26: The operator's commands fit together.  Keys made into a file, a package
    signed with that file for this host, and [verify] run under a configuration
    with the public key that was printed: the package is accepted, provided its
    version is later or downgrades are allowed, and provided the public key was
    not written over the private one. *)
Theorem keys_to_package kp path out binary version notes created cfg t t1 t2 :
  with_extension path "pub" <> path ->
  keygen kp (Some path) t = (Ok tt, t1) ->
  sign_cmd created path binary version None notes out t1 = (Ok tt, t2) ->
  Config.public_key (Config.update cfg) = Some (public_hex kp) ->
  Config.allow_downgrade (Config.update cfg) = true \/ version_le version running_version = false ->
  is_ok (os_open (h_files (t_state t2)) out) = true ->
  exists t3, verify_cmd cfg out t2 = (Ok tt, t3) /\ t_state t3 = t_state t2 /\
    last (t_out t3) = Some "OK — signature and checksum valid; installable on this host.".
Proof.
  intros Hne Hk Hs Hpub Hver Hopen. destruct (keygen_files kp path t t1 Hk) as (Hf & _).
  assert (Hkey : h_files (t_state t1) !! path = Some (key_file kp)) by (by rewrite Hf, lookup_insert_ne, lookup_insert_eq).
  unfold sign_cmd in Hs. apply bind_inv in Hs as (key_hex & u1 & Hr & Hs). apply (read_key_file kp) in Hr as [-> ->]; [|done].
  rewrite from_private_hex_round in Hs. apply bind_inv in Hs as (kp' & u2 & Hkp & Hs). apply update_op_inv in Hkp as ([= <- Hu2] & _).
  apply bind_inv in Hs as (m & u3 & Hsign & Hs). apply update_op_inv in Hsign as (Hsign & _). cbn in Hs. injection Hs as <-. cbn in Hopen |- *.
  destruct (signed_accepted kp binary version None notes created out _ m _ (Config.update cfg) Hsign Hpub)
    as (b & content & pkg & _ & Hout & Hread & _ & _ & _ & Hv).
  specialize (Hv (or_introl eq_refl)).
  assert (Hok : verify_package (Config.update cfg) pkg = Ok tt).
  { rewrite Hv. destruct Hver as [-> | ->]; [done|]. by rewrite andb_false_r. }
  unfold verify_cmd. destruct (os_open (h_files (t_state u3)) out) as [c|e] eqn:Eo; [|done]. pose proof (os_open_ok _ _ _ Eo) as Hc.
  rewrite Hout in Hc. injection Hc as <-.
  set (t0 := mkTerm _ _ _). assert (Hp : update_op (package_read out) t0 = (Ok pkg, t0)).
  { unfold update_op, Console.lift, package_read, mbind, M_bind, read. cbn [t0 t_state]. rewrite Eo. cbn. by rewrite Hread. }
  rewrite (bind_ok _ _ _ _ _ Hp), (bind_ok _ _ _ _ _ (print_all_eq _ _)), Hok, print_all_eq. eexists. split; [reflexivity|].
  split; [done|]. cbn [t_out]. change ["" ; "OK — signature and checksum valid; installable on this host."] with
    ([""] ++ ["OK — signature and checksum valid; installable on this host."]). by rewrite app_assoc, last_snoc.
Qed.

(** Asked to write the private key to a file whose name ends in [.pub],
    [keygen] writes the public key over it: the private key is then nowhere, on
    the disk or on the terminal, and the command reports success. *)
Theorem keygen_loses_key kp path t t' :
  with_extension path "pub" = path -> keygen kp (Some path) t = (Ok tt, t') ->
  h_files (t_state t') = <[path := public_file kp]> (h_files (t_state t)) /\
  t_out t' = t_out t ++ config_lines (public_hex kp) /\
  t_err t' = t_err t ++ ["private key → " +:+ path +:+ " (KEEP SECRET, chmod 600)"; "public key  → " +:+ path].
Proof. intros He Hk. apply keygen_files in Hk as (Hf & _ & Ho & Hr). rewrite He in *. by rewrite Hf, insert_insert_eq. Qed.
End promises.
