(* ===== verification/Cli.v ===== *)
(** * The command line: [crates/scribe-cli/src/main.rs]

    The commands and their dispatch over a machine of a database and a host.
    Reading arguments is clap's; serving and working, the migrations and the
    parts of the pipeline that read audio are what the commands call, and
    parameters here. *)

From Stdlib Require Import Ascii String.
From S2P Require Import Prelude RustStr Types RustPath Llm Db DbSchema Store StoreProps Worker Stages Api Models Config Engine Pipeline Update Serve Console Pull Doctor UpdateCli.

#[local] Arguments String.append !_ _ /.

(** ** Hiding passwords *)

Definition redact_url (url : string) : string :=
  match find_str "://" url with
  | Some (scheme, from) =>
      let rest := default "" (strip_prefix "://" from) in
      match find_str "@" rest with
      | Some (creds, tail) =>
          match find_str ":" creds with
          | Some (user, _) => scheme +:+ "://" +:+ user +:+ ":***" +:+ tail
          | None => url
          end
      | None => url
      end
  | None => url
  end.

(** ** The machine a command runs on *)

Record Sys := mkSys { y_db : Db; y_host : Host }.
Notation CliM := (TermM Sys).

(** What the commands call. *)
Class Roles := {
  serve : Config.Config -> M Sys Error unit;
  run_worker : Config.Config -> M Sys Error unit;
  run_migrations : DbM unit;
  (** [applied_migration_count] *)
  migration_count : DbM Z;
  ingest_file : Config.Config -> string -> option string -> option Z -> bool -> M Sys Error Uuid;
  enroll : Config.Config -> string -> string -> bool -> M Sys Error Uuid;
}.

Section zoom.
(** A part of the machine as the whole of it. *)
Definition on_db {A} (m : TermM Db A) : CliM A := fun t =>
  let '(r, u) := m (mkTerm (y_db (t_state t)) (t_out t) (t_err t)) in
  (r, mkTerm (mkSys (t_state u) (y_host (t_state t))) (t_out u) (t_err u)).
Definition on_host {A} (m : TermM Host A) : CliM A := fun t =>
  let '(r, u) := m (mkTerm (y_host (t_state t)) (t_out t) (t_err t)) in
  (r, mkTerm (mkSys (y_db (t_state t)) (t_state u)) (t_out u) (t_err u)).
Definition on_disk {A} (m : TermM Files A) : CliM A := fun t =>
  let '(r, u) := m (mkTerm (h_files (y_host (t_state t))) (t_out t) (t_err t)) in
  (r, mkTerm (mkSys (y_db (t_state t)) (mkHost (t_state u) (h_ran (y_host (t_state t))))) (t_out u) (t_err u)).
End zoom.

Definition db_op {A} (m : DbM A) : TermM Db A := Console.lift Error.to_string m.

(** ** Transcripts *)

Section transcripts.
Context `{UuidFmt}.

(** [{:>3}:{:02}  {:<14} {}] *)
Definition utterance_line (names : gmap Z string) (u : Utterance) : string :=
  let who := default "-" (i ← utt_local_idx u; names !! i) in
  pad_left 3 (pretty (Z.quot (utt_start_ms u) 60000)) +:+ ":" +:+ two_digits (Z.rem (Z.quot (utt_start_ms u) 1000) 60) +:+ "  " +:+
  pad_right 14 who +:+ " " +:+ utt_text u.

Definition speaker_names (speakers : list RecordingSpeaker) : gmap Z string :=
  foldl (fun m s => <[rs_local_idx s := default ("Speaker " +:+ pretty (rs_local_idx s)) (rs_display_name s)]> m) ∅ speakers.

Definition title_line (recording : Recording) (speakers : list RecordingSpeaker) : string :=
  default "(untitled)" (rec_title recording) +:+ "  [" +:+ RecordingStatus.as_str (rec_status recording) +:+ "]  " +:+
  pretty (Z.of_nat (length speakers)) +:+ " speakers".

Definition transcript_lines (speakers : list RecordingSpeaker) (utterances : list Utterance) : list string :=
  map (utterance_line (speaker_names speakers)) utterances ++
  (match utterances with [] => ["(no transcript - still processing, or the pipeline failed)"] | _ => [] end).

Definition print_transcript (id : option Uuid) : TermM Db unit :=
  id ← match id with
       | Some id => mret id
       | None =>
           recent ← db_op (list_recordings 1 0 None);
           match recent with r :: _ => mret (rec_id r) | [] => bail "no recordings" end
       end;
  recording ← db_op (get_recording id);
  speakers ← db_op (list_recording_speakers id);
  _ ← println (title_line recording speakers);
  utterances ← db_op (list_utterances_by_recording id);
  print_all (transcript_lines speakers utterances).

(** ** Speakers *)

(** [UPDATE recording_speakers SET speaker_id = into WHERE speaker_id = from] *)
Definition reassigned (from into : Uuid) (r : RsRow) : RsRow :=
  if bool_decide (rsr_speaker_id r = Some from) then mkRsRow (Some into) (rsr_embedding r) else r.
Definition reassign (from into : Uuid) : DbM Z := fun s =>
  if negb (speaker_ref_ok s (Some into)) && existsb (fun kv => bool_decide (rsr_speaker_id (snd kv) = Some from)) (map_to_list (db_recording_speakers s))
  then (Err foreign_key_error, s)
  else (Ok (Db.count (bfilter (fun kv => bool_decide (rsr_speaker_id (snd kv) = Some from)) (map_to_list (db_recording_speakers s)))),
        set_recording_speakers (reassigned from into <$> db_recording_speakers s) s).

(** [DELETE FROM speakers WHERE id = id], which may find none. *)
Definition drop_speaker (id : Uuid) : DbM unit := exec (fun s =>
  (tt, set_speakers (delete id (db_speakers s)) (set_recording_speakers (forget_speaker id <$> db_recording_speakers s) s))).

Definition merge_transaction (from into : Uuid) : DbM Z := transaction (
  n ← reassign from into;
  _ ← drop_speaker from;
  mret n).

Definition merge_speakers (from into : Uuid) : TermM Db unit :=
  if bool_decide (from = into) then bail ("cannot merge a speaker into itself (" +:+ uuid_to_string from +:+ ")")
  else
    _ ← db_op (get_speaker from);
    _ ← db_op (get_speaker into);
    n ← db_op (merge_transaction from into);
    println ("merged speaker " +:+ uuid_to_string from +:+ " into " +:+ uuid_to_string into +:+ " (" +:+ pretty n +:+ " recording reference(s) reassigned)").

Inductive SpeakerCmd :=
| List
| Rename (id : Uuid) (new_name : string)
| Delete (id : Uuid)
| MergeInto (from_id into_id : Uuid).

Definition speaker_line (s : Speaker) : string :=
  pad_right 38 (uuid_to_string (spk_id s)) +:+ "  " +:+ pad_right 6 (if bool_decide (is_Some (spk_embedding s)) then "yes" else "no") +:+ "  " +:+ spk_display_name s.

Definition run_speaker (cmd : SpeakerCmd) : TermM Db unit :=
  match cmd with
  | List =>
      speakers ← db_op list_speakers;
      match speakers with
      | [] => println "no enrolled speakers"
      | _ => print_all ((pad_right 38 "ID" +:+ "  " +:+ pad_right 6 "EMBED" +:+ "  NAME") :: map speaker_line speakers)
      end
  | Rename id new_name =>
      _ ← db_op (rename_speaker id new_name);
      println ("renamed speaker " +:+ uuid_to_string id +:+ " → `" +:+ new_name +:+ "`")
  | Delete id =>
      _ ← db_op (delete_speaker id);
      println ("deleted speaker " +:+ uuid_to_string id)
  | MergeInto from into => merge_speakers from into
  end.
End transcripts.

(** ** Dispatch *)

Inductive ModelsCmd := ListModels | PullModels (force dry_run : bool).

Inductive Command :=
| Serve (bind : option string)
| WorkerCmd (stages : option string) (concurrency : option Z) (models_dir : option string)
| Migrate (to : string)
| Ingest (file : string) (title : option string) (participants : option Z) (inline : bool)
| Transcript (id : option Uuid)
| Reindex (embeddings summaries : bool)
| Enroll (name audio : string) (replace : bool)
| SpeakerOf (cmd : SpeakerCmd)
| ModelsOf (cmd : ModelsCmd)
| UpdateOf (cmd : UpdateCmd)
| DoctorCmd.

Definition serve_config (cfg : Config.Config) (bind : option string) : Config.Config :=
  match bind with
  | None => cfg
  | Some b =>
      let a := Config.api cfg in
      Config.mkConfig (Config.database cfg) (Config.storage cfg)
        (Config.mkApi b (Config.tus_upstream a) (Config.max_segment_bytes a) (Config.public_base_url a) (Config.advertise_lan a))
        (Config.auth cfg) (Config.asr cfg) (Config.worker cfg) (Config.llm cfg) (Config.update cfg)
  end.

(** [stages.split(',')], trimmed, the empty ones left out. *)
Definition split_stages (csv : string) : list string :=
  bfilter (fun s => negb (is_empty s)) (map trim (split_char "," csv)).

Definition worker_config (cfg : Config.Config) (stages : option string) (concurrency : option Z) (models_dir : option string) : Config.Config :=
  let w := Config.worker cfg in
  Config.mkConfig (Config.database cfg) (Config.storage cfg) (Config.api cfg) (Config.auth cfg) (Config.asr cfg)
    (Config.mkWorker (match stages with Some csv => split_stages csv | None => Config.stages w end)
      (default (Config.concurrency w) concurrency) (default (Config.models_dir w) models_dir)
      (Config.heartbeat_secs w) (Config.poll_secs w) (Config.max_attempts w))
    (Config.llm cfg) (Config.update cfg).

(** Neither flag is both. *)
Definition reindex_flags (embeddings summaries : bool) : bool * bool :=
  if negb embeddings && negb summaries then (true, true) else (embeddings, summaries).

Section dispatch.
Context `{UuidFmt} `{Roles} `{DbServer} `{Machine} `{HostOs} `{Tree} `{Transport} `{BlobFs} `{ModelServer}.
Context `{Ed25519} `{HexCodec} `{Sha256} `{UnicodeCase} `{ManifestJson} `{Archive}.

Definition connect (cfg : Config.Config) : CliM unit :=
  match db_connect (Config.database cfg) with
  | Ok _ => mret tt
  | Err e => bail ("could not connect to the database (" +:+ redact_url (Config.url (Config.database cfg)) +:+ "): " +:+ Error.to_string e)
  end.

Definition of_core {A} (m : M Sys Error A) : CliM A := Console.lift Error.to_string m.

(** The process's exit: true for success.  [kp] and [created] are for the
    update commands. *)
Definition dispatch (kp : SigningKey) (created : string) (config_path : option string) (cfg : Config.Config) (cmd : Command) : CliM bool :=
  match cmd with
  | Serve bind => _ ← of_core (serve (serve_config cfg bind)); mret true
  | WorkerCmd stages concurrency models_dir =>
      _ ← of_core (run_worker (worker_config cfg stages concurrency models_dir)); mret true
  | Migrate to =>
      if negb (eq_ignore_ascii_case to "latest") then bail ("unsupported migrate target `" +:+ to +:+ "` (only `latest`)")
      else
        _ ← connect cfg;
        _ ← on_db (db_op run_migrations);
        applied ← on_db (attempt (db_op migration_count));
        _ ← println ("migrations applied (target: latest) — " +:+ pretty (match applied with Ok n => n | Err _ => 0 end) +:+ " migration(s) recorded");
        mret true
  | Ingest file title participants inline =>
      _ ← connect cfg;
      id ← of_core (ingest_file cfg file title participants inline);
      _ ← println (uuid_to_string id);
      _ ← (if (inline : bool) then eprintln ("ingested and processed recording " +:+ uuid_to_string id +:+ " (status: ready)")
           else eprintln ("ingested recording " +:+ uuid_to_string id +:+ " (queued for processing)"));
      mret true
  | Reindex embeddings summaries =>
      let '(embeddings, summaries) := reindex_flags embeddings summaries in
      _ ← connect cfg;
      _ ← on_db (db_op (reindex embeddings summaries));
      _ ← eprintln ("reindex enqueued (embeddings: " +:+ debug_bool embeddings +:+ ", summaries: " +:+ debug_bool summaries +:+
            ") — a running worker will pick the jobs up");
      mret true
  | Transcript id => _ ← connect cfg; _ ← on_db (print_transcript id); mret true
  | Enroll name audio replace =>
      _ ← connect cfg;
      id ← of_core (enroll cfg name audio replace);
      _ ← println (uuid_to_string id);
      _ ← eprintln ("enrolled speaker `" +:+ name +:+ "` as " +:+ uuid_to_string id);
      mret true
  | SpeakerOf c => _ ← connect cfg; _ ← on_db (run_speaker c); mret true
  | ModelsOf ListModels => _ ← on_disk (list_models cfg); mret true
  | ModelsOf (PullModels force dry_run) => on_disk (pull cfg force dry_run)
  | UpdateOf c => _ ← on_host (UpdateCli.run kp created cfg c); mret true
  | DoctorCmd => on_disk (Doctor.run cfg config_path)
  end.

(** [run] and what [main] makes of its outcome: the configuration is loaded
    first, and an error is one line on stderr and a failing exit. *)
Definition main `{Config.Figment} (kp : SigningKey) (created : string) (config_path : option string) (cmd : Command) (t : Term Sys) : bool * Term Sys :=
  let outcome :=
    match Config.load config_path with
    | Err e => (Err (Error.to_string e), t)
    | Ok cfg => dispatch kp created config_path cfg cmd t
    end in
  match outcome with
  | (Ok code, t') => (code, t')
  | (Err e, t') => (false, snd (eprintln ("error: " +:+ e) t'))
  end.
End dispatch.

(** [apply_verbosity]: what [RUST_LOG] is set to, when it is. *)
Definition apply_verbosity (rust_log : option string) (verbose : Z) : option string :=
  match rust_log with
  | Some v => Some v
  | None =>
      if verbose =? 0 then None
      else Some ((if verbose =? 1 then "debug" else "trace") +:+ ",sqlx=info,hyper=info")
  end.
