(* ===== verification/CliProps.v ===== *)
(** * What the commands do

    Merging speakers, hiding passwords, printing transcripts, and which part of
    the machine a command can change at all. *)

From Stdlib Require Import Ascii String.
From S2P Require Import Prelude RustStr Types RustPath Llm Db DbSchema Store StoreProps Worker Stages Api Models Config Engine Pipeline Update Serve Console Pull Doctor UpdateCli Cli.

#[local] Arguments String.append !_ _ /.

(** ** Passwords *)

Lemma redact_url_shape scheme user a tail :
  without ":" scheme = true -> without "@" user = true -> without ":" user = true -> without "@" a = true ->
  redact_url (scheme +:+ "://" +:+ user +:+ ":" +:+ a +:+ "@" +:+ tail) = scheme +:+ "://" +:+ user +:+ ":***@" +:+ tail.
Proof.
  intros Hs Hu1 Hu2 Ha. unfold redact_url.
  change ("://" +:+ user +:+ ":" +:+ a +:+ "@" +:+ tail) with (String ":" ("//" +:+ (user +:+ ":" +:+ a +:+ "@" +:+ tail))).
  change (find_str "://") with (find_str (String ":" "//")). rewrite find_str_at by done.
  change (strip_prefix "://" (String ":" ("//" +:+ (user +:+ ":" +:+ a +:+ "@" +:+ tail)))) with (Some (user +:+ ":" +:+ a +:+ "@" +:+ tail)).
  cbn [default from_option id].
  assert (Hcreds : user +:+ ":" +:+ a +:+ "@" +:+ tail = (user +:+ ":" +:+ a) +:+ String "@" ("" +:+ tail)) by (by rewrite !append_assoc).
  rewrite Hcreds. change (find_str "@") with (find_str (String "@" "")). rewrite find_str_at.
  2:{ rewrite !without_app, Hu1, Ha. done. }
  change (user +:+ ":" +:+ a) with (user +:+ String ":" ("" +:+ a)). change (find_str ":") with (find_str (String ":" "")).
  by rewrite find_str_at.
Qed.

(** A database URL that is shown has its password replaced: whatever the
    password, as long as it has no at sign, the text shown is the same, and it
    keeps the scheme, the user, the host and the database. *)
Theorem redact_url_hides scheme user password password' tail :
  without ":" scheme = true -> without "@" user = true -> without ":" user = true ->
  without "@" password = true -> without "@" password' = true ->
  redact_url (scheme +:+ "://" +:+ user +:+ ":" +:+ password +:+ "@" +:+ tail) = scheme +:+ "://" +:+ user +:+ ":***@" +:+ tail /\
  redact_url (scheme +:+ "://" +:+ user +:+ ":" +:+ password +:+ "@" +:+ tail) =
    redact_url (scheme +:+ "://" +:+ user +:+ ":" +:+ password' +:+ "@" +:+ tail).
Proof. intros. by rewrite !redact_url_shape. Qed.

(** A password with an at sign, which a URL's reader takes to end at the last
    one, is shown from its first at sign on. *)
Theorem redact_url_leaks scheme user before after tail :
  without ":" scheme = true -> without "@" user = true -> without ":" user = true -> without "@" before = true ->
  redact_url (scheme +:+ "://" +:+ user +:+ ":" +:+ (before +:+ "@" +:+ after) +:+ "@" +:+ tail) =
    scheme +:+ "://" +:+ user +:+ ":***@" +:+ after +:+ "@" +:+ tail.
Proof.
  intros. rewrite (append_assoc before). change (("@" +:+ after) +:+ "@" +:+ tail) with ("@" +:+ (after +:+ "@" +:+ tail)).
  by apply redact_url_shape.
Qed.

(** ** Merging two speakers *)

Section merging.
Context `{UuidFmt}.

Lemma db_op_ok {A} (m : DbM A) t a s :
  m (t_state t) = (Ok a, s) -> db_op m t = (Ok a, mkTerm s (t_out t) (t_err t)).
Proof. intros Hm. unfold db_op, Console.lift. by rewrite Hm. Qed.

Lemma db_op_err {A} (m : DbM A) t e s :
  m (t_state t) = (Err e, s) -> db_op m t = (Err (Error.to_string e), mkTerm s (t_out t) (t_err t)).
Proof. intros Hm. unfold db_op, Console.lift. by rewrite Hm. Qed.

Lemma forget_reassigned from into r : from <> into -> forget_speaker from (reassigned from into r) = reassigned from into r.
Proof.
  intros Hne. unfold reassigned, forget_speaker. destruct (bool_decide (rsr_speaker_id r = Some from)) eqn:E; cbn.
  - rewrite bool_decide_false by congruence. done.
  - by rewrite E.
Qed.

(** What the two statements make of a database. *)
Definition merged (from into : Uuid) (s : Db) : Db :=
  set_speakers (delete from (db_speakers s)) (set_recording_speakers (reassigned from into <$> db_recording_speakers s) s).

Definition references (from : Uuid) (s : Db) : Z :=
  Db.count (bfilter (fun kv => bool_decide (rsr_speaker_id (snd kv) = Some from)) (map_to_list (db_recording_speakers s))).

Lemma merge_transaction_eq from into s :
  from <> into -> is_Some (db_speakers s !! into) ->
  merge_transaction from into s = (Ok (references from s), merged from into s).
Proof.
  intros Hne Hi. unfold merge_transaction, transaction, mbind, M_bind, reassign, drop_speaker, exec.
  assert (speaker_ref_ok s (Some into) = true) as -> by (by apply bool_decide_eq_true).
  assert (Hfold : forget_speaker from <$> (reassigned from into <$> db_recording_speakers s) = reassigned from into <$> db_recording_speakers s).
  { rewrite <- map_fmap_compose. apply map_fmap_ext. intros k r _. cbn. by apply forget_reassigned. }
  cbn. rewrite Hfold. done.
Qed.

Lemma merged_schema from into s : from <> into -> is_Some (db_speakers s !! into) -> schema_ok s -> schema_ok (merged from into s).
Proof.
  intros Hne Hi Hs. pose proof Hs as Hs'. destruct Hs'. constructor; cbn; try done.
  - by apply map_Forall_delete.
  - intros k v Hv. rewrite lookup_fmap in Hv. apply fmap_Some in Hv as (r & Hr & ->). exact (rs_fk k r Hr).
  - intros k v Hv p Hp. rewrite lookup_fmap in Hv. apply fmap_Some in Hv as (r & Hr & ->).
    assert (p <> from /\ is_Some (db_speakers s !! p)) as [Hpf Hsome].
    { unfold reassigned in Hp. case_bool_decide as E; cbn in Hp.
      - injection Hp as <-. split; [congruence|done].
      - split; [congruence|]. by eapply rs_speaker_fk. }
    by rewrite lookup_delete_ne.
Qed.

(** C25: Merging a speaker into another is one step: it is refused, with nothing
    changed, for a speaker and itself or when either is not enrolled; otherwise
    exactly the diarized speakers that were the first become the second, keeping
    their voices, the first is deleted and nothing refers to it, no other table
    changes, the schema holds, and the line printed counts the changes. *)
Theorem merge_speakers_spec (from into : Uuid) (t : Term Db) :
  (from = into -> exists e, merge_speakers from into t = (Err e, t)) /\
  (from <> into -> db_speakers (t_state t) !! from = None \/ db_speakers (t_state t) !! into = None ->
    exists id, (id = from \/ id = into) /\ merge_speakers from into t = (Err (Error.to_string (speaker_not_found id)), t)) /\
  (from <> into -> is_Some (db_speakers (t_state t) !! from) -> is_Some (db_speakers (t_state t) !! into) ->
    let s' := merged from into (t_state t) in
    merge_speakers from into t = (Ok tt, mkTerm s' (t_out t ++ ["merged speaker " +:+ uuid_to_string from +:+ " into " +:+ uuid_to_string into
      +:+ " (" +:+ pretty (references from (t_state t)) +:+ " recording reference(s) reassigned)"]) (t_err t)) /\
    (forall k r, db_recording_speakers s' !! k = Some r -> exists r0, db_recording_speakers (t_state t) !! k = Some r0 /\
      rsr_embedding r = rsr_embedding r0 /\ rsr_speaker_id r <> Some from /\
      (rsr_speaker_id r0 = Some from -> rsr_speaker_id r = Some into) /\
      (rsr_speaker_id r0 <> Some from -> rsr_speaker_id r = rsr_speaker_id r0)) /\
    dom (db_recording_speakers s') = dom (db_recording_speakers (t_state t)) /\
    (schema_ok (t_state t) -> schema_ok s')).
Proof.
  split; [|split].
  - intros ->. eexists. unfold merge_speakers. by rewrite bool_decide_true.
  - intros Hne Hmiss. unfold merge_speakers. rewrite bool_decide_false by done.
    destruct (db_speakers (t_state t) !! from) as [p|] eqn:Ef.
    + destruct Hmiss as [|Hi]; [done|]. exists into. split; [by right|].
      assert (Hg : get_speaker from (t_state t) = (Ok p, t_state t)) by (unfold get_speaker; by rewrite Ef).
      rewrite (bind_ok _ _ _ _ _ (db_op_ok _ _ _ _ Hg)).
      assert (Hg2 : get_speaker into (t_state t) = (Err (speaker_not_found into), t_state t)) by (unfold get_speaker; by rewrite Hi).
      rewrite (bind_err _ _ _ _ _ (db_op_err _ (mkTerm (t_state t) (t_out t) (t_err t)) _ _ Hg2)). by destruct t.
    + exists from. split; [by left|].
      assert (Hg : get_speaker from (t_state t) = (Err (speaker_not_found from), t_state t)) by (unfold get_speaker; by rewrite Ef).
      rewrite (bind_err _ _ _ _ _ (db_op_err _ _ _ _ Hg)). by destruct t.
  - intros Hne [p Hf] Hi s'. unfold merge_speakers. rewrite bool_decide_false by done. split; [|split; [|split]].
    + destruct (Hi) as [q Hq].
      assert (Hg : get_speaker from (t_state t) = (Ok p, t_state t)) by (unfold get_speaker; by rewrite Hf).
      rewrite (bind_ok _ _ _ _ _ (db_op_ok _ _ _ _ Hg)).
      assert (Hg2 : get_speaker into (t_state t) = (Ok q, t_state t)) by (unfold get_speaker; by rewrite Hq).
      rewrite (bind_ok _ _ _ _ _ (db_op_ok _ (mkTerm (t_state t) (t_out t) (t_err t)) _ _ Hg2)).
      rewrite (bind_ok _ _ _ _ _ (db_op_ok _ (mkTerm (t_state t) (t_out t) (t_err t)) _ _ (merge_transaction_eq from into _ Hne Hi))).
      done.
    + intros k r Hr. cbn in Hr. rewrite lookup_fmap in Hr. apply fmap_Some in Hr as (r0 & Hr0 & ->). exists r0. split; [done|].
      unfold reassigned. case_bool_decide as E; cbn; (split; [done|]); (split; [congruence|]); split; congruence.
    + cbn. apply dom_fmap_L.
    + by apply merged_schema.
Qed.
End merging.

(** ** Transcripts *)

Section transcripts.
Context `{UuidFmt}.

(** The recording a transcript is asked of: the one named, or the latest. *)
Definition asked_for (id : option Uuid) (s : Db) : option Uuid :=
  match id with
  | Some i => Some i
  | None => match fst (list_recordings 1 0 None s) with Ok (r :: _) => Some (rec_id r) | _ => None end
  end.

Definition speakers_of (i : Uuid) (s : Db) : list RecordingSpeaker :=
  match fst (list_recording_speakers i s) with Ok l => l | Err _ => [] end.
Definition utterances_of (i : Uuid) (s : Db) : list Utterance :=
  match fst (list_utterances_by_recording i s) with Ok l => l | Err _ => [] end.

Definition shown_name (r : RecordingSpeaker) : string := default ("Speaker " +:+ pretty (rs_local_idx r)) (rs_display_name r).

Lemma speaker_names_lookup (f : Z -> string) (l : list RecordingSpeaker) (i : Z) (m : gmap Z string) :
  (forall r, r ∈ l -> shown_name r = f (rs_local_idx r)) -> (m !! i = Some (f i) \/ exists r, r ∈ l /\ rs_local_idx r = i) ->
  foldl (fun m s => <[rs_local_idx s := shown_name s]> m) m l !! i = Some (f i).
Proof.
  revert m. induction l as [|x l IH]; intros m Hf Hor; cbn [foldl].
  - destruct Hor as [Hm|(? & []%elem_of_nil & _)]. exact Hm.
  - apply IH; [intros r Hr; apply Hf; by right|]. destruct (decide (rs_local_idx x = i)) as [<-|Hne].
    + left. by rewrite lookup_insert_eq, Hf by (by left).
    + rewrite lookup_insert_ne by done. destruct Hor as [Hm|(r & [->|Hr]%elem_of_cons & Hi)]; [by left|done|right; eauto].
Qed.

Lemma speaker_names_miss (l : list RecordingSpeaker) (i : Z) (m : gmap Z string) :
  m !! i = None -> (forall r, r ∈ l -> rs_local_idx r <> i) -> foldl (fun m s => <[rs_local_idx s := shown_name s]> m) m l !! i = None.
Proof.
  revert m. induction l as [|x l IH]; intros m Hm Hl; cbn [foldl]; [done|].
  apply IH; [|intros r Hr; apply Hl; by right]. rewrite lookup_insert_ne; [done|]. apply Hl. by left.
Qed.

Lemma elem_of_speakers_of i s r : r ∈ speakers_of i s <->
  exists k row, db_recording_speakers s !! (i, k) = Some row /\ r = rs_from_row s ((i, k), row).
Proof.
  unfold speakers_of. cbn. rewrite list_elem_of_fmap. split.
  - intros ([[i' k] row] & -> & Hin). apply sort_by_elem, list_elem_of_filter in Hin as [<- Hin]. apply elem_of_map_to_list in Hin. eauto.
  - intros (k & row & Hk & ->). exists ((i, k), row). split; [done|]. apply sort_by_elem, list_elem_of_filter. split; [done|].
    by apply elem_of_map_to_list.
Qed.

(** Whoever a line is attributed to. *)
Lemma names_of i s k : speaker_names (speakers_of i s) !! k =
  (fun _ => default (speaker_label k) (joined_name s i (Some k))) <$> db_recording_speakers s !! (i, k).
Proof.
  change (speaker_names (speakers_of i s)) with (foldl (fun m s => <[rs_local_idx s := shown_name s]> m) (∅ : gmap Z string) (speakers_of i s)).
  destruct (db_recording_speakers s !! (i, k)) as [row|] eqn:E; cbn.
  - apply (speaker_names_lookup (fun k => default (speaker_label k) (joined_name s i (Some k)))).
    + intros r (k' & row' & _ & ->)%elem_of_speakers_of. done.
    + right. eexists. split; [apply elem_of_speakers_of; eauto|done].
  - apply speaker_names_miss; [done|]. intros r (k' & row' & Hk & ->)%elem_of_speakers_of. cbn. intros ->. congruence.
Qed.

Definition shown (r : Recording) (l : list RecordingSpeaker) (us : list Utterance) : list string := title_line r l :: transcript_lines l us.

Lemma print_transcript_cases (id : option Uuid) (t : Term Db) :
  match asked_for id (t_state t) with
  | None => print_transcript id t = (Err "no recordings", t)
  | Some i =>
      match db_recordings (t_state t) !! i with
      | None => print_transcript id t = (Err (Error.to_string (recording_not_found i)), t)
      | Some row =>
          let names := speaker_names (speakers_of i (t_state t)) in
          print_transcript id t =
            (Ok tt, mkTerm (t_state t) (t_out t ++ shown (rr_rec row) (speakers_of i (t_state t)) (utterances_of i (t_state t))) (t_err t)) /\
          forall k, names !! k = (fun _ => default (speaker_label k) (joined_name (t_state t) i (Some k))) <$> db_recording_speakers (t_state t) !! (i, k)
      end
  end.
Proof.
  assert (Hgo : forall i, (recording ← db_op (get_recording i); speakers ← db_op (list_recording_speakers i);
      _ ← println (title_line recording speakers);
      utterances ← db_op (list_utterances_by_recording i); print_all (transcript_lines speakers utterances)) t =
    match db_recordings (t_state t) !! i with
    | None => (Err (Error.to_string (recording_not_found i)), t)
    | Some row => (Ok tt, mkTerm (t_state t) (t_out t ++ shown (rr_rec row) (speakers_of i (t_state t)) (utterances_of i (t_state t))) (t_err t))
    end).
  { intros i. destruct (db_recordings (t_state t) !! i) as [row|] eqn:E.
    - assert (Hg : get_recording i (t_state t) = (Ok (rr_rec row), t_state t)) by (unfold get_recording; by rewrite E).
      rewrite (bind_ok _ _ _ _ _ (db_op_ok _ _ _ _ Hg)).
      set (u := mkTerm (t_state t) (t_out t) (t_err t)).
      assert (Hs : list_recording_speakers i (t_state u) = (Ok (speakers_of i (t_state t)), t_state t)) by done.
      rewrite (bind_ok _ _ _ _ _ (db_op_ok _ u _ _ Hs)).
      set (u' := mkTerm (t_state t) (t_out t ++ [title_line (rr_rec row) (speakers_of i (t_state t))]) (t_err t)).
      rewrite (bind_ok (println _) _ _ tt u') by done.
      assert (Hu : list_utterances_by_recording i (t_state u') = (Ok (utterances_of i (t_state t)), t_state t)) by done.
      rewrite (bind_ok _ _ _ _ _ (db_op_ok _ u' _ _ Hu)), print_all_eq. cbn [t_state t_out t_err u']. by rewrite <- app_assoc.
    - assert (Hg : get_recording i (t_state t) = (Err (recording_not_found i), t_state t)) by (unfold get_recording; by rewrite E).
      rewrite (bind_err _ _ _ _ _ (db_op_err _ _ _ _ Hg)). by destruct t. }
  unfold asked_for. destruct id as [i|].
  - unfold print_transcript. rewrite (bind_ok (mret i) _ t i t) by done. rewrite Hgo.
    destruct (db_recordings (t_state t) !! i); [|done]. split; [done|]. intros k. apply names_of.
  - unfold print_transcript. destruct (fst (list_recordings 1 0 None (t_state t))) as [l|e] eqn:El; [|done].
    assert (Hl : list_recordings 1 0 None (t_state t) = (Ok l, t_state t)) by (rewrite <- El; done).
    assert (Hu : mkTerm (t_state t) (t_out t) (t_err t) = t) by (by destruct t).
    destruct l as [|r l].
    + assert (Hb : (recent ← db_op (list_recordings 1 0 None); match recent with r :: _ => mret (rec_id r) | [] => bail "no recordings" end : TermM Db Uuid) t = (Err "no recordings", t)).
      { rewrite (bind_ok _ _ _ _ _ (db_op_ok _ _ _ _ Hl)). by rewrite Hu. }
      by rewrite (bind_err _ _ _ _ _ Hb).
    + assert (Hb : (recent ← db_op (list_recordings 1 0 None); match recent with r :: _ => mret (rec_id r) | [] => bail "no recordings" end : TermM Db Uuid) t = (Ok (rec_id r), t)).
      { rewrite (bind_ok _ _ _ _ _ (db_op_ok _ _ _ _ Hl)). by rewrite Hu. }
      rewrite (bind_ok _ _ _ _ _ Hb), Hgo. destruct (db_recordings (t_state t) !! rec_id r); [|done]. split; [done|]. intros k. apply names_of.
Qed.

(** Printing a transcript changes nothing.  It is that of the recording
    named, or of the latest, and without one only an error; one line for each of
    its utterances in the order of the store, after a title line; and an
    utterance is attributed to the enrolled speaker its voice was recognised as,
    to [Speaker N] when the voice is nobody's, and to a dash when it has no
    diarized speaker. *)
Theorem print_transcript_spec (id : option Uuid) (t : Term Db) :
  match asked_for id (t_state t) with
  | None => print_transcript id t = (Err "no recordings", t)
  | Some i =>
      match db_recordings (t_state t) !! i with
      | None => print_transcript id t = (Err (Error.to_string (recording_not_found i)), t)
      | Some row =>
          let names := speaker_names (speakers_of i (t_state t)) in
          print_transcript id t =
            (Ok tt, mkTerm (t_state t) (t_out t ++ shown (rr_rec row) (speakers_of i (t_state t)) (utterances_of i (t_state t))) (t_err t)) /\
          forall k, names !! k = (fun _ => default (speaker_label k) (joined_name (t_state t) i (Some k))) <$> db_recording_speakers (t_state t) !! (i, k)
      end
  end.
Proof. apply print_transcript_cases. Qed.
End transcripts.

(** ** What a command can reach *)

Definition same_db (t t' : Term Sys) : Prop := y_db (t_state t') = y_db (t_state t).
Definition same_host (t t' : Term Sys) : Prop := y_host (t_state t') = y_host (t_state t).
Definition same_sys (t t' : Term Sys) : Prop := t_state t' = t_state t.

#[export] Instance same_db_preorder : PreOrder same_db.
Proof. split; [done|]. intros a b c Hab Hbc. unfold same_db in *. congruence. Qed.
#[export] Instance same_host_preorder : PreOrder same_host.
Proof. split; [done|]. intros a b c Hab Hbc. unfold same_host in *. congruence. Qed.
#[export] Instance same_sys_preorder : PreOrder same_sys.
Proof. split; [done|]. intros a b c Hab Hbc. unfold same_sys in *. congruence. Qed.

Section reach.
Context `{UuidFmt} `{Roles} `{DbServer} `{Machine} `{HostOs} `{Tree} `{Transport} `{BlobFs} `{ModelServer}.
Context `{Ed25519} `{HexCodec} `{Sha256} `{UnicodeCase} `{ManifestJson} `{Archive}.

#[export] Instance on_host_db {A} (m : TermM Host A) : Steps same_db (on_host m).
Proof. intros t. unfold on_host. by destruct (m _). Qed.
#[export] Instance on_disk_db {A} (m : TermM Files A) : Steps same_db (on_disk m).
Proof. intros t. unfold on_disk. by destruct (m _). Qed.
#[export] Instance on_db_host {A} (m : TermM Db A) : Steps same_host (on_db m).
Proof. intros t. unfold on_db. by destruct (m _). Qed.

#[export] Instance println_sys s : Steps same_sys (println s).
Proof. by intros t. Qed.
#[export] Instance eprintln_sys s : Steps same_sys (eprintln s).
Proof. by intros t. Qed.
#[export] Instance bail_sys A e : Steps same_sys (bail e : TermM Sys A).
Proof. by intros t. Qed.
#[export] Instance connect_sys cfg : Steps same_sys (connect cfg).
Proof. unfold connect. destruct (db_connect _); apply _. Qed.
Lemma sys_db {A} (m : TermM Sys A) : Steps same_sys m -> Steps same_db m.
Proof. intros Hm t. specialize (Hm t). unfold same_sys, same_db in *. by rewrite Hm. Qed.
Lemma sys_host {A} (m : TermM Sys A) : Steps same_sys m -> Steps same_host m.
Proof. intros Hm t. specialize (Hm t). unfold same_sys, same_host in *. by rewrite Hm. Qed.
(** Commands that have no business with the database, and with the host's
    files and programs. *)
Definition leaves_db (c : Command) : bool :=
  match c with Transcript _ | SpeakerOf List | ModelsOf _ | UpdateOf _ | DoctorCmd => true | _ => false end.
Definition leaves_host (c : Command) : bool :=
  match c with Migrate _ | Transcript _ | Reindex _ _ | SpeakerOf _ | ModelsOf ListModels => true | _ => false end.

(** Reading a database through a part of the terminal. *)
Lemma on_db_reads {A} (m : TermM Db A) : (forall t, t_state (snd (m t)) = t_state t) -> Steps same_sys (on_db m).
Proof.
  intros Hm t. unfold same_sys, on_db. specialize (Hm (mkTerm (y_db (t_state t)) (t_out t) (t_err t))).
  destruct (m _) as [r u]. cbn in *. rewrite Hm. by destruct (t_state t).
Qed.
Lemma on_disk_reads {A} (m : TermM Files A) : (forall t, t_state (snd (m t)) = t_state t) -> Steps same_sys (on_disk m).
Proof.
  intros Hm t. unfold same_sys, on_disk. specialize (Hm (mkTerm (h_files (y_host (t_state t))) (t_out t) (t_err t))).
  destruct (m _) as [r u]. cbn in *. rewrite Hm. by destruct (t_state t) as [? []].
Qed.

Lemma print_transcript_reads id t : t_state (snd (print_transcript id t)) = t_state t.
Proof.
  pose proof (print_transcript_cases id t) as Hp. destruct (asked_for id (t_state t)); [|by rewrite Hp].
  destruct (db_recordings _ !! _); [destruct Hp as [-> _]; done|by rewrite Hp].
Qed.
Lemma speakers_list_reads t : t_state (snd (run_speaker List t)) = t_state t.
Proof.
  unfold run_speaker, mbind, M_bind, db_op, Console.lift, list_speakers, query, exec. cbn [t_state].
  destruct (speakers_by _ _); [done|]. by rewrite print_all_eq.
Qed.
Lemma list_models_reads cfg t : t_state (snd (list_models cfg t)) = t_state t.
Proof. unfold list_models, mbind, M_bind, Console.look. by rewrite print_all_eq. Qed.

(** Compositions, and the commands that read neither, by their instances; what
    is left is a part of the machine. *)
#[local] Ltac reach :=
  repeat first [ apply steps_ret; apply _ | apply steps_bind; [apply _| |intros ?] | apply steps_if ];
  try (first [ apply on_host_db | apply on_disk_db | apply on_db_host
             | apply sys_db | apply sys_host ]; apply _).

Lemma dispatch_db kp created path cfg c : leaves_db c = true -> Steps same_db (dispatch kp created path cfg c).
Proof.
  destruct c as [| | | | | | |sc|mc| |]; try done; intros Hc; unfold dispatch; reach.
  - apply sys_db, on_db_reads, print_transcript_reads.
  - destruct sc; try done. apply sys_db, on_db_reads, speakers_list_reads.
  - destruct mc as [|force dry_run]; [|apply on_disk_db]. apply steps_bind; [apply _|apply on_disk_db|intros _; apply steps_ret, _].
Qed.

Lemma dispatch_host kp created path cfg c : leaves_host c = true -> Steps same_host (dispatch kp created path cfg c).
Proof.
  destruct c as [| | | | | | |sc|mc| |]; try done; intros Hc; unfold dispatch; reach.
  - destruct (reindex_flags _ _). reach.
  - destruct mc; [|done]. apply steps_bind; [apply _| |intros _; apply steps_ret, _]. apply sys_host, on_disk_reads, list_models_reads.
Qed.

(** A command whose connection the database refuses. *)
Definition connects (c : Command) : bool :=
  match c with
  | Migrate to => eq_ignore_ascii_case to "latest"
  | Ingest _ _ _ _ | Transcript _ | Reindex _ _ | Enroll _ _ _ | SpeakerOf _ => true
  | _ => false
  end.

Definition refused (cfg : Config.Config) (e : Error) : string :=
  "could not connect to the database (" +:+ redact_url (Config.url (Config.database cfg)) +:+ "): " +:+ Error.to_string e.

Lemma dispatch_refused kp created path cfg c e t :
  connects c = true -> db_connect (Config.database cfg) = Err e -> dispatch kp created path cfg c t = (Err (refused cfg e), t).
Proof.
  intros Hc He. assert (Hcon : connect cfg t = (Err (refused cfg e), t)) by (unfold connect; by rewrite He).
  destruct c as [| | | | | | |sc|mc| |]; try done; unfold dispatch.
  2:{ by rewrite (bind_err _ _ _ _ _ Hcon). }
  all: cbn in Hc; try rewrite Hc; try destruct (reindex_flags _ _); cbn [negb]; by rewrite (bind_err _ _ _ _ _ Hcon).
Qed.

(** Only the checks and a pull decide their exit themselves. *)
Definition decides (c : Command) : bool := match c with DoctorCmd | ModelsOf (PullModels _ _) => true | _ => false end.

#[local] Instance any_preorder : PreOrder (fun _ _ : Term Sys => True).
Proof. by split. Qed.
Lemma ends_true {A} (m : CliM A) (k : A -> CliM bool) :
  (forall a, does (fun _ _ => True) (fun b => b = true) (k a)) -> does (fun _ _ => True) (fun b => b = true) (mbind k m).
Proof. intros Hk. apply (does_bind _ (fun _ => True)); [apply does_steps; by intros ?|intros a _; apply Hk]. Qed.

#[local] Ltac ends :=
  repeat lazymatch goal with
  | |- does _ _ (mret _) => apply does_ret; [apply _|reflexivity]
  | |- does _ _ (mbind _ _) => apply ends_true; intros ?
  end.

Lemma dispatch_code kp created path cfg c : decides c = false -> does (fun _ _ => True) (fun b => b = true) (dispatch kp created path cfg c).
Proof.
  destruct c as [| | | | | | |sc|mc| |]; try done; intros Hc; unfold dispatch; ends.
  - destruct (negb _); [|ends]. intros s. split; [done|]. intros a Ha. done.
  - destruct (reindex_flags _ _). ends.
  - destruct mc; [|done]. ends.
Qed.

Context `{Config.Figment}.

(** The program's exit and what it leaves: a configuration that does not
    load is one line on stderr, and nothing is done; so is a database that
    refuses a command that needs it, its password replaced; commands that only
    read, and those of the models, the updates and the checks, leave the
    database as it was, and the database's own commands leave the host as it
    was; and a failing exit of any but the checks and a pull has said why on the
    last line of stderr. *)
Theorem main_spec kp created path c t :
  let '(code, t') := main kp created path c t in
  match Config.load path with
  | Err e => code = false /\ t' = mkTerm (t_state t) (t_out t) (t_err t ++ ["error: " +:+ Error.to_string e])
  | Ok cfg =>
      (forall e, connects c = true -> db_connect (Config.database cfg) = Err e ->
        code = false /\ t' = mkTerm (t_state t) (t_out t) (t_err t ++ ["error: " +:+ refused cfg e])) /\
      (leaves_db c = true -> y_db (t_state t') = y_db (t_state t)) /\
      (leaves_host c = true -> y_host (t_state t') = y_host (t_state t)) /\
      (code = false -> decides c = false -> exists e, last (t_err t') = Some ("error: " +:+ e))
  end.
Proof.
  unfold main. destruct (Config.load path) as [cfg|e]; [|done].
  destruct (dispatch kp created path cfg c t) as [[code|e] t'] eqn:E.
  all: split; [|split; [|split]].
  - intros e Hc He. rewrite (dispatch_refused _ _ _ _ _ _ _ Hc He) in E. done.
  - intros Hc. pose proof (dispatch_db kp created path cfg c Hc t) as Hd. by rewrite E in Hd.
  - intros Hc. pose proof (dispatch_host kp created path cfg c Hc t) as Hd. by rewrite E in Hd.
  - intros Hcode Hc. destruct (dispatch_code kp created path cfg c Hc t) as [_ Hd]. rewrite E in Hd. specialize (Hd code eq_refl). congruence.
  - intros e' Hc He. rewrite (dispatch_refused _ _ _ _ _ _ _ Hc He) in E. by injection E as <- <-.
  - intros Hc. pose proof (dispatch_db kp created path cfg c Hc t) as Hd. by rewrite E in Hd.
  - intros Hc. pose proof (dispatch_host kp created path cfg c Hc t) as Hd. by rewrite E in Hd.
  - intros _ _. exists e. cbn. by rewrite last_snoc.
Qed.
End reach.
